(* ===== verification/_CoqProject ===== *)
-Q . S2P
Prelude.v
Transitions.v
Errors.v
Text.v
Bits.v
Codec.v
Regroup.v
Checksum.v
Bech32.v
ApiKey.v
Durations.v
Policy.v
Wire.v
Net.v
Sockets.v
Discovery.v
Config.v
Auth.v
Request.v
Unambiguous.v
Response.v
Age.v
World.v
Selection.v
Timely.v
Router.v
Reception.v
Traffic.v
Steering.v
Client.v
Model.v
PublicClient.v
View.v
Session.v
Construction.v
Exchange.v
Metering.v
Flight.v
Dropped.v
