(* ===== verification/Prelude.v ===== *)
(** * Verification of the Ratelimitly Rust client

    The crate [ratelimitly] (src/src/) asks a set of rate-limit servers, over UDP, whether work
    may proceed.  This library translates the crate into Rocq definitions, keeping the names
    of the source, and proves what makes it correct.

    ** The program

    An API key is a Bech32 text ([api_key.rs], [api_key_codec.rs]) that carries an identifier,
    a credential and limits.  From it a client is built ([public_client.rs]), which owns one
    UDP socket per address family, a list of discovered servers and a background task, the
    response router ([client.rs]).  A request is built from resources and latency guards
    ([model.rs]), checked against the limits, encoded into one packet ([protocol.rs] and the
    building half of [client.rs]) and sent to every known server in rounds that a policy
    schedules ([request_policy.rs]).  The router hands each datagram to the request whose
    identifier it carries; the request parses and authenticates it, selects one response,
    may send a last delivery to the servers that did not answer, and may change the source
    port when the server advises it.  Latency reports are sent once.  Traffic is counted
    without locks ([traffic.rs]).

    ** The files, and the code they model

    Foundations.
    - [Prelude]: results of three kinds ([outcome]: a value, an error, a panic), machine
      integers, slices, little-endian bytes, UTF-8 texts; the tactics and hint databases.
    - [Transitions]: invariants and inevitability for step relations.
    - [Errors] (error.rs, the error enums), [Durations] ([std::time::Duration]), [Text]
      (splitting, trimming and decimals of the standard library), [Net] (socket addresses),
      [Bits] (big-endian bits).

    API keys.
    - [Codec] (api_key_codec.rs): [bech32_decode], [convert_bits], [polymod],
      [limits_from_payload], [decode_api_key], and the encoder that the tests of that file
      use.  [Regroup] and [Checksum] hold the theory of the two loops, [Bech32] the theorems.
    - [ApiKey] (api_key.rs): [api_key_from_str] and the invariant [api_key_ok].

    Requests.
    - [Policy] (request_policy.rs): [units], [horizon_ms], the builder.
    - [Model] (model.rs): resources, trackers, results.
    - [Wire] (protocol.rs): block layouts, content identifiers, the entry points of the
      cipher, and the class [Primitives] of what the code takes from the blake2 and aes-gcm
      crates.
    - [Config] (config.rs), [Auth], [Request], [Response] (client.rs:572-1213): the
      authentication TLV both ways, packet construction, packet parsing.  [Unambiguous]:
      what a packet says.

    The running client (client.rs).
    - [Sockets]: [FamilySockets] and the search for a source port.  [Discovery]: SRV
      refresh, its schedule, and the membership snapshot of a request.
    - [Age]: preference among servers.  [World]: what a request sees of the outside, as a
      state monad [act] over clock, arrivals, sockets and datagrams sent.  [Selection]: the
      rounds of [_check_rate_limit_with_retries]; [Timely]: what an answer in time does.
    - [Router]: [response_router].  [Reception]: its turns against the receive queues of
      both sockets.  [Steering]: [apply_steering_feedback].  [Traffic] (traffic.rs): the
      counters.
    - [Client]: the whole of [check_rate_limit] and [report_latency] over the state of a
      client.  [PublicClient] (public_client.rs): builders, [send], [report_latency].
      [View]: the accessors and texts by which a caller reads a response.
    - [Construction]: the system calls of [bind_udp_socket_for_family] and the resolver of
      [build_resolver].

    The parts together.
    - [Session]: any sequence of operations on one client.  [Flight]: a request as a future,
      by its atomic steps, and the statistics that concurrent requests share.  [Dropped]:
      operations dropped at an await.
    - [Exchange]: concurrent requests over one history of the router.
    - [Metering]: the records that requests and router make in the traffic counters.

    A struct is a [Record], an enum an [Inductive], a [HashMap] a [gmap], a [HashSet] a
    [gset], a [Vec] a list.  A loop is a [Fixpoint] on the list it walks or on a count.

    ** What is proved

    - Keys: parsing any text never panics and yields only valid keys; every valid key has a
      text, and an accepted text is the only one of its payload up to case; bursts of six
      wrong symbols are detected.
    - Policies: the checked horizon is the documented sum, and the loops return it.
    - Packets: encoders and decoders are inverse; a request packet has exactly the stated
      bytes and is built exactly when it fits; equal packets ask the same: label and
      parameters always, a name unless its two definitions collide under the hash
      ([request_packet_unambiguous]); the parser accepts exactly the authentic,
      well-formed responses, on arbitrary bytes, without a panic.
    - Delivery: every run refines the specification [ha_selects] of the high-availability
      policy over phases with their times, in which only a phase that ran to its deadline
      gives way to the next, and the initial round to its oldest responder; what is sent, to whom, in which round; the waiting time stays within the
      horizon; an answer in time is never missed ([timely_answers_decide]).  An oracle
      chooses all delays, arrivals and send results.
    - Discovery: which names denote servers; a refresh replaces the list or keeps it; the
      snapshot is the list; when the first operation discovers.
    - Sockets: a socket is restricted and made exclusive before it is bound; a client lacks a
      family only for a good reason, and its resolver is the configured one
      ([built_sockets_and_resolver]); both families are read in order and fairly
      ([reception_fair]).
    - Concurrency, as step relations over any number of tasks: the router keeps requests
      apart; steering is exclusive, coalesced and live, also when futures are dropped at any
      await - an advisory is always taken by a later rebind, and lost only if that one is
      refused or dropped; the epoch handshake leaves no old socket in use, also when
      rebinds are abandoned; the counters are linearizable and lock-free, every access
      being one the call needs or charged to a success of another task, a stale value or a
      spurious failure ([traffic_lock_free]).
    - Composition: a whole request and report ([check_rate_limit_sound],
      [report_latency_spec]) keep [client_ok] and have only the results their specifications
      name; the builders establish what these assume ([client_build_spec],
      [request_builder_spec]); so no sequence of operations on a client can panic
      ([session_safe]), also when some are dropped halfway ([lifetime_safe],
      [stopped_request_spec]).  A delivery is a sequence of atomic steps
      ([delivery_in_flight]), and the server statistics are exact however those of several
      requests interleave ([statistics_exact]).  In any history of the router, a request gets its own answers and no
      others ([exchanges_isolated]), an answer in time is not lost on the way
      ([timely_datagram_answers]) nor cut ([answer_fits_buffer]), and what a request sends is
      bounded and counted exactly ([request_metered]).

    ** Bounds, fuel and conventions

    - The receive loops run on fuel [S (length inbox)] ([Selection]): every turn consumes an
      arrival or ends the loop, and [round_loop_spec] proves that the result never lacks
      fuel.  The rounds run [replay_count + 1 <= 65536] times and the port search
      [STEERING_PORT_COUNT = 16384] times, as in the source.  [fmt_dec] runs on the binary
      length of the number, which [fmt_dec_spec] shows is enough.
    - An operator that leaves its type is a panic where the theorem excludes it; counters
      that only grow (statistics, epochs) wrap, as in a release build.
    - Datagrams are at most 1000000 bytes ([datagram_max]; UDP allows 65507), so that sums of
      lengths fit [usize].
    - Time is in nanoseconds.  A deadline is compared with the clock as the code does; the
      clock moves by the delays of the oracle and by waiting.

    ** What is a parameter

    - BLAKE2s-256 and AES-256-GCM: the class [Primitives], with laws for lengths and for
      decryption undoing encryption; no cryptographic strength is claimed.  [toy_primitives]
      shows that the laws can hold.
    - Random identifiers and nonces, and the wall clock: arguments.  [now_millis] unwraps, so
      a clock before 1970 would panic; [now_millis_ok] gives what theorems assume of it.
    - The answers of the DNS resolver ([Resolver]) and of the operating system to a bind
      ([os_bind], [Platform]) or to one of its system calls ([SocketApi]): functions over
      which every theorem quantifies.
    - The types of the DNS library ([Hickory]), with laws for their fields.
    - The text of an IP address ([IpText]): only that parsing undoes printing.

    ** Not modelled

    - Error texts, and [Debug] and [Display] texts other than those of identifiers and those
      that are compared or must hide a credential; tracing; lib.rs, which has no code.
    - The end of the router task, which only dropping the client causes, and with it the
      error "response router stopped"; poisoned locks.
    - Concurrent refreshes of the server list, which one lock serializes: each request of
      [Exchange] and [Flight] has the list as it finds it. *)

From stdpp Require Export base tactics list numbers gmap strings.
From Stdlib Require Export ZArith Lia Bool.

#[global] Open Scope Z_scope.

(** ** Outcomes

    The Rust code has three kinds of results: a value, an error value of a
    [Result], and a panic (slice out of range, arithmetic overflow, [unwrap]
    of an error, [expect]).  [outcome] keeps all three apart so that absence of panics is a theorem. *)

Inductive outcome (E A : Type) : Type :=
| Ok (a : A)
| Err (e : E)
| Panic.
Arguments Ok {E A} a.
Arguments Err {E A} e.
Arguments Panic {E A}.

#[export] Instance outcome_ret {E} : MRet (outcome E) := fun A a => Ok a.
#[export] Instance outcome_bind {E} : MBind (outcome E) := fun A B f m =>
  match m with
  | Ok a => f a
  | Err e => Err e
  | Panic => Panic
  end.
#[export] Instance outcome_fmap {E} : FMap (outcome E) := fun A B f m =>
  match m with
  | Ok a => Ok (f a)
  | Err e => Err e
  | Panic => Panic
  end.

#[export] Instance outcome_eq_dec {E A} `{EqDecision E, EqDecision A} :
  EqDecision (outcome E A).
Proof. solve_decision. Defined.

(** Rust's [Option::ok_or]. *)
Definition ok_or {E A} (o : option A) (e : E) : outcome E A :=
  match o with Some a => Ok a | None => Err e end.

(** Rust's [Result::map_err]. *)
Definition map_err {E F A} (f : E -> F) (m : outcome E A) : outcome F A :=
  match m with Ok a => Ok a | Err e => Err (f e) | Panic => Panic end.

(** Rust's [Option::unwrap] and [expect]. *)
Definition expect {E A} (o : option A) : outcome E A :=
  match o with Some a => Ok a | None => Panic end.

(** Rust's early [return Err(e)] guard: [if cond { return Err(e) }]. *)
Definition reject_if {E} (b : bool) (e : E) : outcome E unit :=
  if b then Err e else Ok tt.

Definition no_panic {E A} (m : outcome E A) : Prop :=
  match m with Panic => False | _ => True end.

Definition is_ok {E A} (m : outcome E A) : bool :=
  match m with Ok _ => true | _ => false end.

Lemma bind_ok_inv {E A B} (m : outcome E A) (f : A -> outcome E B) (b : B) :
  m ≫= f = Ok b -> exists a, m = Ok a /\ f a = Ok b.
Proof. destruct m; cbn; naive_solver. Qed.

Lemma bind_err_inv {E A B} (m : outcome E A) (f : A -> outcome E B) (e : E) :
  m ≫= f = Err e -> m = Err e \/ exists a, m = Ok a /\ f a = Err e.
Proof. destruct m; cbn; naive_solver. Qed.

Lemma no_panic_bind {E A B} (m : outcome E A) (f : A -> outcome E B) :
  no_panic m -> (forall a, m = Ok a -> no_panic (f a)) -> no_panic (m ≫= f).
Proof. destruct m; cbn; auto. Qed.

Lemma no_panic_map_err {E F A} (g : E -> F) (m : outcome E A) :
  no_panic m -> no_panic (map_err g m).
Proof. by destruct m. Qed.

Lemma reject_if_ok {E} (b : bool) (e : E) u : reject_if b e = Ok u -> b = false.
Proof. by destruct b. Qed.

Lemma reject_if_false {E} (e : E) : reject_if false e = Ok tt.
Proof. done. Qed.

Lemma no_panic_reject {E} b (e : E) : no_panic (reject_if b e).
Proof. by destruct b. Qed.

Lemma no_panic_ok_or {E A} (o : option A) (e : E) : no_panic (ok_or o e).
Proof. by destruct o. Qed.

Lemma ok_or_ok {E A} (o : option A) (e : E) a : ok_or o e = Ok a -> o = Some a.
Proof. destruct o; cbn; congruence. Qed.

Create HintDb panics.
#[export] Hint Resolve no_panic_reject no_panic_ok_or no_panic_map_err : panics.

(** [inv_ok] opens an equation [m ≫= f = Ok _] into its steps. *)
Ltac inv_ok :=
  repeat match goal with
  | H : _ ≫= _ = Ok _ |- _ => apply bind_ok_inv in H; destruct H as (? & ? & ?)
  | H : reject_if _ _ = Ok _ |- _ => apply reject_if_ok in H
  | H : ok_or _ _ = Ok _ |- _ => apply ok_or_ok in H
  | H : Ok _ = Ok _ |- _ => injection H as H; subst
  | H : mret _ = Ok _ |- _ => injection H as H; subst
  | H : Err _ = Ok _ |- _ => discriminate H
  | H : Panic = Ok _ |- _ => discriminate H
  end.

(** [no_panics] reduces the absence of panics of a bind chain to its steps. *)
Ltac no_panics :=
  repeat first
    [ progress auto with panics
    | match goal with
      | |- no_panic (_ ≫= _) => apply no_panic_bind; [| intros ? ?; inv_ok]
      | |- no_panic (Ok _) => exact I
      | |- no_panic (Err _) => exact I
      | |- no_panic (if ?b then _ else _) => destruct b eqn:?
      | |- no_panic (match ?x with _ => _ end) => destruct x eqn:?
      end ].

(** Opens [Forall P] on an explicit list. *)
Ltac forall_list := repeat first [apply Forall_nil_2 | apply Forall_cons_2].

(** Reflects boolean comparisons in hypotheses and goal into propositions. *)
Ltac reflect_bools :=
  repeat match goal with
  | H : (_ || _)%bool = false |- _ => apply orb_false_iff in H as [? ?]
  | H : (_ && _)%bool = true |- _ => apply andb_true_iff in H as [? ?]
  | H : negb _ = true |- _ => apply negb_true_iff in H
  | H : negb _ = false |- _ => apply negb_false_iff in H
  | H : bool_decide _ = true |- _ => apply bool_decide_eq_true in H
  | H : bool_decide _ = false |- _ => apply bool_decide_eq_false in H
  | H : (_ =? _)%Z = true |- _ => apply Z.eqb_eq in H
  | H : (_ =? _)%Z = false |- _ => apply Z.eqb_neq in H
  | H : (_ <? _)%Z = true |- _ => apply Z.ltb_lt in H
  | H : (_ <? _)%Z = false |- _ => apply Z.ltb_ge in H
  | H : (_ <=? _)%Z = true |- _ => apply Z.leb_le in H
  | H : (_ <=? _)%Z = false |- _ => apply Z.leb_gt in H
  | H : (_ >? _)%Z = true |- _ => rewrite Z.gtb_ltb in H
  | H : (_ >? _)%Z = false |- _ => rewrite Z.gtb_ltb in H
  | H : (_ >=? _)%Z = true |- _ => rewrite Z.geb_leb in H
  | H : (_ >=? _)%Z = false |- _ => rewrite Z.geb_leb in H
  end.

(** ** Machine integers

    Values of [u8], [u16], [u32], [u64] and [usize] are integers in range; [as] casts
    wrap, the [checked_]/[saturating_] methods are what their names say, and a
    plain arithmetic operator that leaves the range is a panic (the code is
    built with overflow checks in tests; every theorem that excludes [Panic]
    shows that the wrapping of a release build cannot occur either). *)

Definition u8_max : Z := 255.
Definition u16_max : Z := 65535.
Definition u32_max : Z := 4294967295.
Definition u64_max : Z := 18446744073709551615.

Definition in_u8 (z : Z) : Prop := 0 <= z <= u8_max.
Definition in_u16 (z : Z) : Prop := 0 <= z <= u16_max.
Definition in_u32 (z : Z) : Prop := 0 <= z <= u32_max.
Definition in_u64 (z : Z) : Prop := 0 <= z <= u64_max.

Definition as_u8 (z : Z) : Z := z mod 2 ^ 8.
Definition as_u16 (z : Z) : Z := z mod 2 ^ 16.
Definition as_u32 (z : Z) : Z := z mod 2 ^ 32.
Definition as_u64 (z : Z) : Z := z mod 2 ^ 64.

Definition checked_add (max a b : Z) : option Z :=
  if a + b <=? max then Some (a + b) else None.
Definition checked_mul (max a b : Z) : option Z :=
  if a * b <=? max then Some (a * b) else None.
Definition saturating_add (max a b : Z) : Z := Z.min (a + b) max.
Definition saturating_mul (max a b : Z) : Z := Z.min (a * b) max.

(** [a + b], [a - b] and [a * b] on an unsigned type with maximum [max]. *)
Definition add_op {E} (max a b : Z) : outcome E Z := expect (checked_add max a b).
Definition mul_op {E} (max a b : Z) : outcome E Z := expect (checked_mul max a b).
Definition sub_op {E} (a b : Z) : outcome E Z := if b <=? a then Ok (a - b) else Panic.

Lemma add_op_ok {E} max a b : a + b <= max -> @add_op E max a b = Ok (a + b).
Proof. intros H. unfold add_op, checked_add. by rewrite (proj2 (Z.leb_le _ _) H). Qed.
Lemma mul_op_ok {E} max a b : a * b <= max -> @mul_op E max a b = Ok (a * b).
Proof. intros H. unfold mul_op, checked_mul. by rewrite (proj2 (Z.leb_le _ _) H). Qed.
Lemma sub_op_ok {E} a b : b <= a -> @sub_op E a b = Ok (a - b).
Proof. intros H. unfold sub_op. by rewrite (proj2 (Z.leb_le _ _) H). Qed.

Lemma as_u8_small z : 0 <= z < 256 -> as_u8 z = z.
Proof. apply Z.mod_small. Qed.
Lemma as_u16_small z : 0 <= z < 65536 -> as_u16 z = z.
Proof. apply Z.mod_small. Qed.
Lemma as_u32_small z : 0 <= z < 4294967296 -> as_u32 z = z.
Proof. apply Z.mod_small. Qed.
Lemma as_u64_small z : 0 <= z < 18446744073709551616 -> as_u64 z = z.
Proof. apply Z.mod_small. Qed.

(** ** Slices

    [Vec<T>] and [&[T]] are lists; [usize] positions are integers.  Indexing and
    slicing out of range panic, as does a [copy_from_slice] between slices of
    different lengths. *)

Definition zlen {A} (l : list A) : Z := Z.of_nat (length l).

Definition slice {E A} (l : list A) (i j : Z) : outcome E (list A) :=
  if (0 <=? i) && (i <=? j) && (j <=? zlen l)
  then Ok (take (Z.to_nat (j - i)) (drop (Z.to_nat i) l))
  else Panic.

Definition slice_from {E A} (l : list A) (i : Z) : outcome E (list A) :=
  slice l i (zlen l).

Definition index {E A} (l : list A) (i : Z) : outcome E A :=
  if 0 <=? i then expect (l !! Z.to_nat i) else Panic.

(** Rust's [l[i]], [l[i..j]] and [l[i..]]. *)
Declare Scope rust_scope.
Delimit Scope rust_scope with rust.
#[global] Open Scope rust_scope.
Notation "l .[ i ]" := (index l i) (at level 2, left associativity, i at level 200, format "l .[ i ]") : rust_scope.
Notation "l .[ i ..< j ]" := (slice l i j)
  (at level 2, left associativity, i at level 200, j at level 200, format "l .[ i  ..<  j ]") : rust_scope.
Notation "l .[ i ..<]" := (slice_from l i)
  (at level 2, left associativity, i at level 200, format "l .[ i  ..<]") : rust_scope.

(** [buf[i..j].copy_from_slice(src)]. *)
Definition copy_at {E A} (buf : list A) (i j : Z) (src : list A) : outcome E (list A) :=
  if (0 <=? i) && (i <=? j) && (j <=? zlen buf) && (zlen src =? j - i)
  then Ok (take (Z.to_nat i) buf ++ src ++ drop (Z.to_nat j) buf)
  else Panic.

(** A call of [f] on the mutable sub-slice [&mut buf[i..j]]. *)
Definition with_slice {E A} (buf : list A) (i j : Z)
    (f : list A -> outcome E (list A)) : outcome E (list A) :=
  part ← buf.[i ..< j];
  part ← f part;
  Ok (take (Z.to_nat i) buf ++ part ++ drop (Z.to_nat j) buf).

(** [buf[i] = v]. *)
Definition store {E A} (buf : list A) (i : Z) (v : A) : outcome E (list A) :=
  copy_at buf i (i + 1) [v].

Lemma zlen_nonneg {A} (l : list A) : 0 <= zlen l.
Proof. unfold zlen. lia. Qed.
Lemma zlen_nil {A} : zlen (@nil A) = 0.
Proof. done. Qed.
Lemma zlen_cons {A} (x : A) l : zlen (x :: l) = 1 + zlen l.
Proof. unfold zlen. cbn [length]. lia. Qed.
Lemma zlen_app {A} (l k : list A) : zlen (l ++ k) = zlen l + zlen k.
Proof. unfold zlen. rewrite length_app. lia. Qed.
Lemma zlen_map {A B} (f : A -> B) l : zlen (map f l) = zlen l.
Proof. unfold zlen. by rewrite length_map. Qed.
Lemma zlen_take {A} (l : list A) n : (n <= length l)%nat -> zlen (take n l) = Z.of_nat n.
Proof. intros H. unfold zlen. by rewrite length_take_le. Qed.
Lemma zlen_drop {A} (l : list A) n : (n <= length l)%nat -> zlen (drop n l) = zlen l - Z.of_nat n.
Proof. intros H. unfold zlen. rewrite length_drop. lia. Qed.
Lemma zlen_replicate {A} (x : A) n : zlen (replicate n x) = Z.of_nat n.
Proof. unfold zlen. by rewrite length_replicate. Qed.

Lemma zlen_drop_max {A} (l : list A) n : zlen (drop n l) = Z.max 0 (zlen l - Z.of_nat n).
Proof. unfold zlen. rewrite length_drop. lia. Qed.
Lemma zlen_take_min {A} (l : list A) n : zlen (take n l) = Z.min (Z.of_nat n) (zlen l).
Proof. unfold zlen. rewrite length_take. lia. Qed.

Create Rewrite HintDb zlens.
#[export] Hint Rewrite @zlen_nil @zlen_cons @zlen_app @zlen_map @zlen_replicate @zlen_drop_max
  @zlen_take_min : zlens.

Lemma slice_ok {E A} (l : list A) i j :
  0 <= i <= j -> j <= zlen l ->
  @slice E A l i j = Ok (take (Z.to_nat (j - i)) (drop (Z.to_nat i) l)).
Proof.
  intros [Hi Hj] Hl. unfold slice.
  by rewrite (proj2 (Z.leb_le _ _) Hi), (proj2 (Z.leb_le _ _) Hj), (proj2 (Z.leb_le _ _) Hl).
Qed.

(** A slice that lines up with the parts of a concatenation is the part. *)
Lemma slice_app_mid {E A} (a b c : list A) i j :
  i = zlen a -> j = i + zlen b -> @slice E A (a ++ b ++ c) i j = Ok b.
Proof.
  intros -> ->. pose proof (zlen_nonneg a). pose proof (zlen_nonneg b).
  pose proof (zlen_nonneg c).
  rewrite slice_ok by (autorewrite with zlens; lia).
  replace (Z.to_nat (zlen a + zlen b - zlen a)) with (length b) by (unfold zlen in *; lia).
  replace (Z.to_nat (zlen a)) with (length a) by (unfold zlen in *; lia).
  by rewrite drop_app_length, take_app_length.
Qed.

Lemma slice_from_app {E A} (a b : list A) i :
  i = zlen a -> @slice_from E A (a ++ b) i = Ok b.
Proof.
  intros ->. unfold slice_from. rewrite zlen_app.
  pose proof (@slice_app_mid E A a b [] (zlen a) (zlen a + zlen b) eq_refl eq_refl) as H.
  by rewrite app_nil_r in H.
Qed.

Lemma slice_inv {E A} (l : list A) i j r :
  @slice E A l i j = Ok r ->
  0 <= i <= j /\ j <= zlen l /\ zlen r = j - i /\
  l = take (Z.to_nat i) l ++ r ++ drop (Z.to_nat j) l.
Proof.
  unfold slice. destruct (_ && _) eqn:C; [|discriminate]. intros [= <-].
  reflect_bools. unfold zlen in *. split_and!; try lia.
  - rewrite length_take, length_drop. lia.
  - rewrite <- (take_drop (Z.to_nat i) l) at 1. f_equal.
    rewrite <- (take_drop (Z.to_nat (j - i)) (drop (Z.to_nat i) l)) at 1. f_equal.
    rewrite drop_drop. f_equal. lia.
Qed.

Lemma no_panic_slice {E A} (l : list A) i j :
  0 <= i <= j -> j <= zlen l -> no_panic (@slice E A l i j).
Proof. intros. by rewrite slice_ok. Qed.

Lemma index_ok {E A} (l : list A) i :
  0 <= i < zlen l -> exists x, @index E A l i = Ok x /\ l !! Z.to_nat i = Some x.
Proof.
  intros [H1 H2]. unfold index. rewrite (proj2 (Z.leb_le _ _) H1).
  destruct (lookup_lt_is_Some_2 l (Z.to_nat i)) as [x Hx]; [unfold zlen in *; lia|].
  exists x. by rewrite Hx.
Qed.

Lemma no_panic_index {E A} (l : list A) i :
  0 <= i < zlen l -> no_panic (@index E A l i).
Proof. intros H. by destruct (@index_ok E A l i H) as (x & -> & _). Qed.

Lemma index_app {E A} (a b : list A) x i :
  i = zlen a -> @index E A (a ++ x :: b) i = Ok x.
Proof.
  intros ->. unfold index. pose proof (zlen_nonneg a).
  rewrite (proj2 (Z.leb_le _ _) H).
  rewrite list_lookup_middle; [done | unfold zlen; lia].
Qed.

(** A call on the tail of a buffer. *)
Lemma with_slice_app {E A} (a b r : list A) i j (f : list A -> outcome E (list A)) :
  i = zlen a -> j = i + zlen b -> f b = Ok r -> with_slice (a ++ b) i j f = Ok (a ++ r).
Proof.
  intros Hi Hj Hf. unfold with_slice. rewrite <- (app_nil_r b) at 1.
  rewrite (slice_app_mid a b []) by done. cbn [mbind outcome_bind]. rewrite Hf.
  cbn [mbind outcome_bind]. subst i j.
  replace (Z.to_nat (zlen a)) with (length a) by (unfold zlen; lia). rewrite take_app_length.
  rewrite (drop_ge (a ++ b)) by (rewrite length_app; unfold zlen; lia). by rewrite app_nil_r.
Qed.

Lemma copy_at_ok {E A} (buf : list A) i j src :
  0 <= i <= j -> j <= zlen buf -> zlen src = j - i ->
  @copy_at E A buf i j src = Ok (take (Z.to_nat i) buf ++ src ++ drop (Z.to_nat j) buf).
Proof.
  intros [Hi Hj] Hl Hs. unfold copy_at.
  by rewrite (proj2 (Z.leb_le _ _) Hi), (proj2 (Z.leb_le _ _) Hj),
    (proj2 (Z.leb_le _ _) Hl), (proj2 (Z.eqb_eq _ _) Hs).
Qed.

(** Overwriting the middle part of a concatenation. *)
Lemma copy_at_app {E A} (a b c src : list A) i j :
  i = zlen a -> j = i + zlen b -> zlen src = zlen b ->
  @copy_at E A (a ++ b ++ c) i j src = Ok (a ++ src ++ c).
Proof.
  intros -> -> Hs. pose proof (zlen_nonneg a). pose proof (zlen_nonneg b).
  pose proof (zlen_nonneg c).
  rewrite copy_at_ok by (autorewrite with zlens; lia).
  replace (Z.to_nat (zlen a)) with (length a) by (unfold zlen in *; lia).
  rewrite take_app_length. do 2 f_equal.
  replace (Z.to_nat (zlen a + zlen b)) with (length a + length b)%nat
    by (unfold zlen in *; lia).
  by rewrite drop_app_add, drop_app_length.
Qed.

(** Overwriting the front of what follows an already written prefix. *)
Lemma copy_at_next {E A} (pre suf src : list A) i j :
  i = zlen pre -> j = i + zlen src -> zlen src <= zlen suf ->
  @copy_at E A (pre ++ suf) i j src = Ok ((pre ++ src) ++ drop (Z.to_nat (j - i)) suf).
Proof.
  intros Hi Hj Hs. replace (Z.to_nat (j - i)) with (length src) by (unfold zlen in *; lia).
  rewrite <- (take_drop (length src) suf) at 1.
  rewrite (copy_at_app pre (take (length src) suf) (drop (length src) suf)); [| done | |].
  - by rewrite app_assoc.
  - rewrite zlen_take; unfold zlen in *; lia.
  - rewrite zlen_take; unfold zlen in *; lia.
Qed.

Lemma copy_at_short {E A} (buf src : list A) i j :
  zlen buf < j -> @copy_at E A buf i j src = Panic.
Proof.
  intros H. unfold copy_at. by rewrite (proj2 (Z.leb_gt _ _) H), andb_false_r.
Qed.

Lemma zlen_copy_at {E A} (buf src r : list A) i j :
  @copy_at E A buf i j src = Ok r -> zlen r = zlen buf.
Proof.
  unfold copy_at. destruct (_ && _) eqn:C; [|discriminate]. intros [= <-]. reflect_bools.
  rewrite !zlen_app. unfold zlen in *. rewrite length_take, length_drop. lia.
Qed.

(** A slice of a concatenation lies in its second part, or is its first. *)
Lemma slice_skip {E A} (a l : list A) i j :
  zlen a <= i <= j -> @slice E A (a ++ l) i j = slice l (i - zlen a) (j - zlen a).
Proof.
  intros H. pose proof (zlen_nonneg a). unfold slice. rewrite zlen_app.
  replace (0 <=? i) with true by (symmetry; apply Z.leb_le; lia).
  replace (0 <=? i - zlen a) with true by (symmetry; apply Z.leb_le; lia).
  replace (i - zlen a <=? j - zlen a) with (i <=? j)
    by (destruct (Z.leb_spec i j), (Z.leb_spec (i - zlen a) (j - zlen a)); lia || done).
  replace (j - zlen a <=? zlen l) with (j <=? zlen a + zlen l)
    by (destruct (Z.leb_spec j (zlen a + zlen l)), (Z.leb_spec (j - zlen a) (zlen l)); lia || done).
  destruct (_ && _); [|done]. do 2 f_equal.
  - f_equal. lia.
  - replace (Z.to_nat i) with (length a + Z.to_nat (i - zlen a))%nat by (unfold zlen in *; lia).
    by rewrite drop_app_add.
Qed.

Lemma slice_head {E A} (a l : list A) i j :
  i = 0 -> j = zlen a -> @slice E A (a ++ l) i j = Ok a.
Proof. intros -> ->. apply (slice_app_mid [] a l); done. Qed.

Lemma slice_all {E A} (a : list A) i j : i = 0 -> j = zlen a -> @slice E A a i j = Ok a.
Proof. intros Hi Hj. rewrite <- (app_nil_r a) at 1. by apply slice_head. Qed.

Lemma index_skip {E A} (a l : list A) i :
  zlen a <= i -> @index E A (a ++ l) i = index l (i - zlen a).
Proof.
  intros H. pose proof (zlen_nonneg a). unfold index.
  rewrite !(proj2 (Z.leb_le _ _)) by lia.
  replace (Z.to_nat i) with (length a + Z.to_nat (i - zlen a))%nat by (unfold zlen in *; lia).
  by rewrite lookup_app_r, Nat.add_sub' by lia.
Qed.

Lemma index_head {E A} (x : A) l i : i = 0 -> @index E A ([x] ++ l) i = Ok x.
Proof. by intros ->. Qed.

(** Overwriting a whole buffer. *)
Lemma copy_at_all {E A} (buf src : list A) i j :
  i = 0 -> j = zlen buf -> zlen src = zlen buf -> @copy_at E A buf i j src = Ok src.
Proof.
  intros -> -> H. rewrite copy_at_ok by (pose proof (zlen_nonneg buf); lia).
  cbn [Z.to_nat take app]. unfold zlen. by rewrite Nat2Z.id, drop_all, app_nil_r.
Qed.

(** A chain of writes whose last write does not fit panics. *)
Lemma copy_at_bind_panic {E A B} (buf src : list A) i j (f : list A -> outcome E B) :
  (forall r, zlen r = zlen buf -> f r = Panic) -> copy_at buf i j src ≫= f = Panic.
Proof.
  intros H. destruct (copy_at buf i j src) as [r|e|] eqn:C; cbn [mbind outcome_bind]; [|exfalso|done].
  - apply H. by eapply zlen_copy_at.
  - revert C. unfold copy_at. by destruct (_ && _).
Qed.

(** ** Bytes and little-endian integers *)

Definition is_byte (b : Z) : Prop := 0 <= b < 256.
Definition bytes_ok (bs : list Z) : Prop := Forall is_byte bs.

(** [z.to_le_bytes()] of an [n]-byte integer, and [from_le_bytes]. *)
Fixpoint to_le (n : nat) (z : Z) : list Z :=
  match n with
  | O => []
  | S n => z mod 256 :: to_le n (z / 256)
  end.

Fixpoint from_le (bs : list Z) : Z :=
  match bs with
  | [] => 0
  | b :: bs => b + 256 * from_le bs
  end.

Definition zeros (n : Z) : list Z := replicate (Z.to_nat n) 0.

Lemma length_to_le n z : length (to_le n z) = n.
Proof. revert z. induction n; intros z; cbn; [done | by rewrite IHn]. Qed.
Lemma zlen_to_le n z : zlen (to_le n z) = Z.of_nat n.
Proof. unfold zlen. by rewrite length_to_le. Qed.
Lemma zlen_zeros n : 0 <= n -> zlen (zeros n) = n.
Proof. intros. unfold zeros. rewrite zlen_replicate. lia. Qed.

Lemma bytes_ok_to_le n z : bytes_ok (to_le n z).
Proof.
  revert z. induction n; intros z; cbn; constructor; [|apply IHn].
  unfold is_byte. pose proof (Z.mod_pos_bound z 256). lia.
Qed.
Lemma bytes_ok_zeros n : bytes_ok (zeros n).
Proof. apply Forall_replicate. unfold is_byte. lia. Qed.
Lemma bytes_ok_app a b : bytes_ok (a ++ b) <-> bytes_ok a /\ bytes_ok b.
Proof. apply Forall_app. Qed.
Lemma bytes_ok_take n a : bytes_ok a -> bytes_ok (take n a).
Proof. apply Forall_take. Qed.
Lemma bytes_ok_drop n a : bytes_ok a -> bytes_ok (drop n a).
Proof. apply Forall_drop. Qed.

Lemma from_le_to_le n z : 0 <= z < 256 ^ Z.of_nat n -> from_le (to_le n z) = z.
Proof.
  revert z. induction n as [|n IH]; intros z Hz; cbn [to_le from_le].
  - cbn in Hz. lia.
  - rewrite Nat2Z.inj_succ, Z.pow_succ_r in Hz by lia.
    rewrite IH; [pose proof (Z.div_mod z 256); lia|].
    split; [apply Z.div_pos; lia | apply Z.div_lt_upper_bound; lia].
Qed.

Lemma from_le_bound bs : bytes_ok bs -> 0 <= from_le bs < 256 ^ zlen bs.
Proof.
  induction 1 as [|b bs Hb _ IH]; cbn [from_le]; [by cbn|].
  rewrite zlen_cons, Z.pow_add_r by (pose proof (zlen_nonneg bs); lia).
  unfold is_byte in Hb. lia.
Qed.

Lemma to_le_from_le bs : bytes_ok bs -> to_le (length bs) (from_le bs) = bs.
Proof.
  induction 1 as [|b bs Hb _ IH]; cbn [from_le to_le length]; [done|].
  unfold is_byte in Hb.
  replace ((b + 256 * from_le bs) mod 256) with b
    by (rewrite Z.mul_comm, Z.mod_add, Z.mod_small; lia).
  replace ((b + 256 * from_le bs) / 256) with (from_le bs)
    by (rewrite Z.mul_comm, Z.div_add, (Z.div_small b); lia).
  by rewrite IH.
Qed.

(** Truncating first writes the same bytes. *)
Lemma to_le_mod n m z : (n <= m)%nat -> to_le n (z mod 256 ^ Z.of_nat m) = to_le n z.
Proof.
  revert m z. induction n as [|n IH]; intros m z Hm; [done|]. destruct m as [|m]; [lia|].
  cbn [to_le]. rewrite Nat2Z.inj_succ, Z.pow_succ_r by lia.
  assert (0 < 256 ^ Z.of_nat m) by (apply Z.pow_pos_nonneg; lia).
  rewrite Z.rem_mul_r by lia. f_equal.
  - rewrite (Z.mul_comm 256), Z.mod_add, Z.mod_mod by lia. done.
  - rewrite (Z.mul_comm 256), Z.div_add, (Z.div_small (z mod 256)), Z.add_0_l
      by (try apply Z.mod_pos_bound; lia). apply IH. lia.
Qed.

Lemma to_le_inj n x y :
  0 <= x < 256 ^ Z.of_nat n -> 0 <= y < 256 ^ Z.of_nat n ->
  to_le n x = to_le n y -> x = y.
Proof. intros Hx Hy H. by rewrite <- (from_le_to_le n x), <- (from_le_to_le n y), H. Qed.

Lemma from_le_range n bs :
  bytes_ok bs -> zlen bs = n -> 0 <= from_le bs < 256 ^ n.
Proof. intros H <-. by apply from_le_bound. Qed.

#[export] Hint Rewrite @zlen_to_le : zlens.
#[export] Hint Rewrite @zlen_zeros using lia : zlens.

Create HintDb bytes.
#[export] Hint Resolve bytes_ok_to_le bytes_ok_zeros bytes_ok_take bytes_ok_drop : bytes.
#[export] Hint Extern 3 (bytes_ok (_ ++ _)) => apply bytes_ok_app; split : bytes.
#[export] Hint Extern 2 (bytes_ok []) => constructor : bytes.

(** The four widths the protocol uses. *)
Definition u16_le (z : Z) : list Z := to_le 2 z.
Definition u32_le (z : Z) : list Z := to_le 4 z.
Definition u64_le (z : Z) : list Z := to_le 8 z.

(** [uN::from_le_bytes(buf[i..j].try_into().unwrap())] of an [n]-byte integer, and
    [u16::from_le_bytes([buf[i], buf[i + 1]])]. *)
Definition int_at {E} (n : Z) (buf : list Z) (i j : Z) : outcome E Z :=
  bs ← buf.[i ..< j];
  if zlen bs =? n then Ok (from_le bs) else Panic.
Definition u16_at {E} (buf : list Z) (i : Z) : outcome E Z :=
  lo ← buf.[i];
  hi ← buf.[i + 1];
  Ok (from_le [lo; hi]).

Lemma int_at_app {E} n (pre rest : list Z) z i j :
  i = zlen pre -> j = i + Z.of_nat n -> 0 <= z < 256 ^ Z.of_nat n ->
  @int_at E (Z.of_nat n) (pre ++ to_le n z ++ rest) i j = Ok z.
Proof.
  intros -> -> Hz. unfold int_at.
  rewrite (slice_app_mid pre (to_le n z) rest) by (done || by rewrite zlen_to_le).
  cbn [mbind outcome_bind]. by rewrite zlen_to_le, Z.eqb_refl, from_le_to_le.
Qed.

Lemma u16_at_app {E} (pre rest : list Z) z i :
  i = zlen pre -> in_u16 z -> @u16_at E (pre ++ u16_le z ++ rest) i = Ok z.
Proof.
  intros -> Hz. unfold in_u16, u16_max in Hz. unfold u16_at, u16_le. cbn [to_le app].
  rewrite (index_app pre _ _ (zlen pre)) by done. cbn [mbind outcome_bind].
  change (pre ++ ?a :: ?b :: rest) with (pre ++ [a] ++ b :: rest). rewrite app_assoc.
  rewrite index_app by (rewrite zlen_app; done). cbn [mbind outcome_bind from_le].
  f_equal. rewrite (Z.mod_small (z / 256)) by (split; [apply Z.div_pos | apply Z.div_lt_upper_bound]; lia).
  pose proof (Z.div_mod z 256). lia.
Qed.

Lemma int_at_skip {E} n (a l : list Z) i j :
  zlen a <= i <= j -> @int_at E n (a ++ l) i j = int_at n l (i - zlen a) (j - zlen a).
Proof. intros H. unfold int_at. by rewrite slice_skip. Qed.

Lemma int_at_head {E} n (l : list Z) z i j w :
  i = 0 -> j = w -> w = Z.of_nat n -> 0 <= z < 256 ^ w -> @int_at E w (to_le n z ++ l) i j = Ok z.
Proof. intros -> -> -> Hz. by apply (int_at_app n [] l). Qed.

Lemma u16_at_skip {E} (a l : list Z) i :
  zlen a <= i -> @u16_at E (a ++ l) i = u16_at l (i - zlen a).
Proof.
  intros H. unfold u16_at. rewrite !index_skip by lia.
  by replace (i + 1 - zlen a) with (i - zlen a + 1) by lia.
Qed.

Lemma u16_at_head {E} (l : list Z) z i :
  i = 0 -> 0 <= z <= 65535 -> @u16_at E (to_le 2 z ++ l) i = Ok z.
Proof. intros -> Hz. by apply (u16_at_app []). Qed.

Lemma no_panic_u16_at {E} (buf : list Z) i :
  0 <= i -> i + 2 <= zlen buf -> no_panic (@u16_at E buf i).
Proof.
  intros H0 H. unfold u16_at.
  destruct (@index_ok E _ buf i ltac:(lia)) as (x & -> & _).
  by destruct (@index_ok E _ buf (i + 1) ltac:(lia)) as (y & -> & _).
Qed.

Lemma split_len {A} n (l : list A) :
  0 <= n <= zlen l -> exists a b, l = a ++ b /\ zlen a = n.
Proof.
  intros [H0 H]. exists (take (Z.to_nat n) l), (drop (Z.to_nat n) l).
  rewrite take_drop, zlen_take_min. split; [done | lia].
Qed.

Lemma take_len {A} n (a b : list A) : zlen a = Z.of_nat n -> take n (a ++ b) = a.
Proof. intros H. replace n with (length a) by (unfold zlen in H; lia). apply take_app_length. Qed.
Lemma drop_len {A} n (a b : list A) : zlen a = Z.of_nat n -> drop n (a ++ b) = b.
Proof. intros H. replace n with (length a) by (unfold zlen in H; lia). apply drop_app_length. Qed.

(** Any byte list that is long enough starts with an [n]-byte integer. *)
Lemma split_int n m (l : list Z) :
  bytes_ok l -> zlen l = m -> Z.of_nat n <= m ->
  exists z r, l = to_le n z ++ r /\ 0 <= z < 256 ^ Z.of_nat n /\ bytes_ok r /\
    zlen r = m - Z.of_nat n.
Proof.
  intros Hl <- Hn. exists (from_le (take n l)), (drop n l).
  assert (Hlen : length (take n l) = n) by (rewrite length_take; unfold zlen in Hn; lia).
  split; [|split; [|split]].
  - rewrite <- Hlen at 1. rewrite to_le_from_le by auto with bytes. by rewrite take_drop.
  - apply from_le_range; [auto with bytes | unfold zlen; lia].
  - auto with bytes.
  - apply zlen_drop. unfold zlen in Hn. lia.
Qed.

(** The same for an array of [n] bytes. *)
Lemma split_bytes n m (l : list Z) :
  bytes_ok l -> zlen l = m -> Z.of_nat n <= m ->
  exists a r, l = a ++ r /\ zlen a = Z.of_nat n /\ bytes_ok a /\ bytes_ok r /\
    zlen r = m - Z.of_nat n.
Proof.
  intros Hl <- Hn. exists (take n l), (drop n l). unfold zlen in Hn.
  split_and!; [by rewrite take_drop | apply zlen_take; lia | auto with bytes | auto with bytes
              | apply zlen_drop; lia].
Qed.

(** Decides closed or almost closed facts about lengths of byte lists. *)
Ltac zlen_lia :=
  unfold u16_le, u32_le, u64_le in *; autorewrite with zlens in *; lia.

(** ** Text

    A Rust [str] is a list of Unicode scalar values; positions and lengths count
    the bytes of its UTF-8 encoding. *)

Definition str := list Z.

Definition is_char (c : Z) : Prop := 0 <= c < 55296 \/ 57344 <= c < 1114112.
Definition str_ok (s : str) : Prop := Forall is_char s.

Definition utf8_char (c : Z) : list Z :=
  if c <? 128 then [c]
  else if c <? 2048 then [192 + Z.shiftr c 6; 128 + Z.land c 63]
  else if c <? 65536 then
    [224 + Z.shiftr c 12; 128 + Z.land (Z.shiftr c 6) 63; 128 + Z.land c 63]
  else [240 + Z.shiftr c 18; 128 + Z.land (Z.shiftr c 12) 63;
        128 + Z.land (Z.shiftr c 6) 63; 128 + Z.land c 63].

Definition char_len (c : Z) : Z :=
  if c <? 128 then 1 else if c <? 2048 then 2 else if c <? 65536 then 3 else 4.

Definition as_bytes (s : str) : list Z := concat (map utf8_char s).
Definition str_len (s : str) : Z := zlen (as_bytes s).

(** String literals of the source. *)
Definition lit (s : string) : str :=
  map (fun a => Z.of_N (Ascii.N_of_ascii a)) (String.list_ascii_of_string s).

Definition is_ascii_lowercase (c : Z) : bool := (97 <=? c) && (c <=? 122).
Definition is_ascii_uppercase (c : Z) : bool := (65 <=? c) && (c <=? 90).
Definition is_ascii_digit (c : Z) : bool := (48 <=? c) && (c <=? 57).
Definition char_to_lower (c : Z) : Z := if is_ascii_uppercase c then c + 32 else c.
Definition to_ascii_lowercase (s : str) : str := map char_to_lower s.
Definition is_ascii (s : str) : Prop := Forall (fun c => 0 <= c < 128) s.

(** [s.rfind(c)]: the byte position of the last occurrence. *)
Fixpoint rfind_from (off : Z) (c : Z) (s : str) : option Z :=
  match s with
  | [] => None
  | x :: t =>
      match rfind_from (off + char_len x) c t with
      | Some p => Some p
      | None => if x =? c then Some off else None
      end
  end.
Definition rfind (c : Z) (s : str) : option Z := rfind_from 0 c s.

(** [(&s[..pos], &s[pos..])]; [None] off a character boundary, where slicing panics. *)
Fixpoint split_at (s : str) (pos : Z) : option (str * str) :=
  if pos =? 0 then Some ([], s)
  else match s with
       | [] => None
       | x :: t =>
           if pos <? char_len x then None
           else match split_at t (pos - char_len x) with
                | Some (a, b) => Some (x :: a, b)
                | None => None
                end
       end.

Fixpoint strip_prefix (p s : str) : option str :=
  match p, s with
  | [], _ => Some s
  | x :: p, y :: s => if x =? y then strip_prefix p s else None
  | _ :: _, [] => None
  end.

Lemma utf8_char_len c : zlen (utf8_char c) = char_len c.
Proof.
  unfold utf8_char, char_len.
  repeat (destruct (_ <? _); [done|]). done.
Qed.

Lemma utf8_char_bytes c : is_char c -> bytes_ok (utf8_char c).
Proof.
  intros Hc. unfold is_char in Hc. unfold utf8_char, bytes_ok.
  assert (Hl : forall x, 0 <= Z.land x 63 < 64).
  { intros x. change 63 with (Z.ones 6). rewrite Z.land_ones by lia. apply Z.mod_pos_bound. lia. }
  repeat match goal with |- context [?a <? ?b] => destruct (Z.ltb_spec a b) end;
    forall_list; unfold is_byte;
    rewrite ?Z.shiftr_div_pow2 by lia;
    try change (2 ^ 6) with 64; try change (2 ^ 12) with 4096; try change (2 ^ 18) with 262144;
    try match goal with |- context [Z.land ?x 63] => pose proof (Hl x) end;
    Z.div_mod_to_equations; lia.
Qed.

Lemma as_bytes_ok s : str_ok s -> bytes_ok (as_bytes s).
Proof.
  induction 1 as [|c s Hc _ IH]; [constructor|]. unfold as_bytes in *. cbn [map concat].
  apply bytes_ok_app. split; [by apply utf8_char_bytes | done].
Qed.

Lemma char_len_ascii c : c < 128 -> char_len c = 1.
Proof. intros H. unfold char_len. by rewrite (proj2 (Z.ltb_lt _ _) H). Qed.

Lemma as_bytes_app a b : as_bytes (a ++ b) = as_bytes a ++ as_bytes b.
Proof. unfold as_bytes. by rewrite map_app, concat_app. Qed.

Lemma as_bytes_ascii s : is_ascii s -> as_bytes s = s.
Proof.
  induction 1 as [|c s Hc _ IH]; [done|]. unfold as_bytes in *. cbn. rewrite IH.
  unfold utf8_char. by rewrite (proj2 (Z.ltb_lt _ _) (proj2 Hc)).
Qed.

Lemma str_len_ascii s : is_ascii s -> str_len s = zlen s.
Proof. intros H. unfold str_len. by rewrite as_bytes_ascii. Qed.

Lemma is_ascii_bytes s : is_ascii s -> bytes_ok s.
Proof. intros H. eapply Forall_impl; [exact H|]. unfold is_byte. cbn. intros; lia. Qed.

Lemma split_at_ascii a b :
  is_ascii a -> split_at (a ++ b) (zlen a) = Some (a, b).
Proof.
  induction 1 as [|c a Hc _ IH]; [by destruct b|].
  pose proof (zlen_nonneg a). cbn [app split_at]. rewrite zlen_cons.
  rewrite char_len_ascii by lia.
  replace (1 + zlen a =? 0) with false by (symmetry; apply Z.eqb_neq; lia).
  replace (1 + zlen a <? 1) with false by (symmetry; apply Z.ltb_ge; lia).
  replace (1 + zlen a - 1) with (zlen a) by lia. by rewrite IH.
Qed.

(** The last occurrence splits the text around it. *)
Lemma rfind_from_spec off c s p :
  is_ascii s -> rfind_from off c s = Some p ->
  exists a b, s = a ++ c :: b /\ p = off + zlen a /\ c ∉ b.
Proof.
  intros Hs. revert off. induction Hs as [|x s Hx Hs IH]; intros off; cbn; [done|].
  rewrite char_len_ascii by lia.
  destruct (rfind_from (off + 1) c s) as [q|] eqn:Hq.
  - intros [= <-]. destruct (IH _ Hq) as (a & b & -> & -> & Hb).
    exists (x :: a), b. rewrite zlen_cons. split_and!; [done | lia | done].
  - destruct (x =? c) eqn:Hxc; [|done]. intros [= <-]. apply Z.eqb_eq in Hxc as ->.
    exists [], s. split_and!; [done | rewrite zlen_nil; lia |].
    clear IH. intros Hin. revert off Hq. induction Hs as [|y s Hy Hs IH']; intros off;
      [by inversion Hin|].
    cbn. rewrite char_len_ascii by lia.
    destruct (rfind_from (off + 1 + 1) c s) eqn:Hr; [done|].
    destruct (y =? c) eqn:Hyc; [done|]. apply Z.eqb_neq in Hyc. intros _.
    inversion Hin; subst; [done|]. eapply IH'; [done|]. exact Hr.
Qed.

Lemma rfind_from_none off c s : c ∉ s -> rfind_from off c s = None.
Proof.
  revert off. induction s as [|x s IH]; intros off H; [done|]. cbn.
  apply not_elem_of_cons in H as [Hx Hs]. rewrite IH by done.
  by destruct (Z.eqb_spec x c).
Qed.

Lemma rfind_last a c b : is_ascii a -> c ∉ b -> rfind c (a ++ c :: b) = Some (zlen a).
Proof.
  intros Ha Hb. unfold rfind.
  replace (zlen a) with (0 + zlen a) by lia. generalize 0 as off.
  induction Ha as [|x a Hx _ IH]; intros off; cbn.
  - rewrite rfind_from_none by done. rewrite Z.eqb_refl. rewrite zlen_nil. f_equal. lia.
  - rewrite char_len_ascii, IH, zlen_cons by lia. f_equal. lia.
Qed.

Lemma strip_prefix_app p s : strip_prefix p (p ++ s) = Some s.
Proof. induction p; cbn; [done|]. by rewrite Z.eqb_refl. Qed.

Lemma strip_prefix_inv p s r : strip_prefix p s = Some r -> s = p ++ r.
Proof.
  revert s. induction p as [|x p IH]; intros [|y s]; cbn; try congruence.
  destruct (Z.eqb_spec x y); [|done]. intros H. subst. by rewrite <- (IH s H).
Qed.

Lemma char_to_lower_idem c : char_to_lower (char_to_lower c) = char_to_lower c.
Proof.
  unfold char_to_lower, is_ascii_uppercase.
  destruct ((65 <=? c) && (c <=? 90)) eqn:H; [|by rewrite H].
  reflect_bools. destruct ((65 <=? c + 32) && (c + 32 <=? 90)) eqn:H'; [|done].
  reflect_bools. lia.
Qed.

Lemma to_ascii_lowercase_idem s :
  to_ascii_lowercase (to_ascii_lowercase s) = to_ascii_lowercase s.
Proof.
  unfold to_ascii_lowercase. rewrite map_map.
  apply map_ext, char_to_lower_idem.
Qed.

Lemma to_ascii_lowercase_cons c s :
  to_ascii_lowercase (c :: s) = char_to_lower c :: to_ascii_lowercase s.
Proof. done. Qed.

Lemma to_ascii_lowercase_app a b :
  to_ascii_lowercase (a ++ b) = to_ascii_lowercase a ++ to_ascii_lowercase b.
Proof. apply map_app. Qed.

(** ** Formatting of integers: [{}] and [{:#x}]. *)

Definition digit_char (d : Z) : Z := if d <? 10 then 48 + d else 87 + d.

Fixpoint digits (fuel : nat) (base z : Z) (acc : str) : str :=
  match fuel with
  | O => acc
  | S fuel =>
      let acc := digit_char (z mod base) :: acc in
      if z / base =? 0 then acc else digits fuel base (z / base) acc
  end.

(** One digit uses up at least one bit of the number. *)
Definition digits_fuel (z : Z) : nat := S (Z.to_nat (Z.log2 z)).
Definition fmt_dec (z : Z) : str := digits (digits_fuel z) 10 z [].
Definition fmt_hex (z : Z) : str := lit "0x" ++ digits (digits_fuel z) 16 z [].

(** ** Sums *)

Fixpoint sum_list_with_Z {A} (f : A -> Z) (l : list A) : Z :=
  match l with [] => 0 | x :: l => f x + sum_list_with_Z f l end.

Lemma sum_app_Z {A} (f : A -> Z) l k :
  sum_list_with_Z f (l ++ k) = sum_list_with_Z f l + sum_list_with_Z f k.
Proof. induction l as [|x l IH]; cbn [sum_list_with_Z app]; lia. Qed.

Lemma sum_insert_Z {A} (f : A -> Z) l i x y :
  l !! i = Some x ->
  sum_list_with_Z f (<[i:=y]> l) = sum_list_with_Z f l - f x + f y.
Proof.
  revert i. induction l as [|z l IH]; intros [|i] H; try discriminate H.
  - injection H as ->. change (<[0%nat:=y]> (x :: l)) with (y :: l). cbn [sum_list_with_Z]. lia.
  - change (<[S i:=y]> (z :: l)) with (z :: <[i:=y]> l). cbn [sum_list_with_Z].
    rewrite (IH i) by done. lia.
Qed.

Lemma sum_perm_Z {A} (f : A -> Z) l k : l ≡ₚ k -> sum_list_with_Z f l = sum_list_with_Z f k.
Proof. induction 1; cbn [sum_list_with_Z]; lia. Qed.
