(* ===== verification/Transitions.v ===== *)
(** * Transition systems

    Reachability and its rules, shared by the components that are step relations:
    invariants along runs, and properties that every run comes to. *)

From S2P Require Import Prelude.

Section Transitions.
Context {S : Type} (R : S -> S -> Prop).

(** A property that steps preserve holds along runs. *)
Lemma rtc_invariant (I : S -> Prop) x y :
  (forall a b, R a b -> I a -> I b) -> rtc R x y -> I x -> I y.
Proof. intros Hstep. induction 1 as [|a b c Hab _ IH]; eauto. Qed.

(** Every run from [s], whatever steps it takes, comes to a state with [P]. *)
Inductive eventually (P : S -> Prop) (s : S) : Prop :=
| eventually_now : P s -> eventually P s
| eventually_later :
    (exists s', R s s') -> (forall s', R s s' -> eventually P s') -> eventually P s.

Lemma eventually_weaken (P Q : S -> Prop) s :
  (forall a, P a -> Q a) -> eventually P s -> eventually Q s.
Proof.
  intros Hpq. induction 1 as [s Hp|s Hex _ IH]; [by apply eventually_now, Hpq | by apply eventually_later].
Qed.

(** A run that cannot go on forever and is stuck only in [P] comes to [P]. *)
Lemma eventually_measure (I P : S -> Prop) (m : S -> nat) s :
  (forall a b, R a b -> I a -> I b /\ (m b < m a)%nat) ->
  (forall a, I a -> P a \/ exists b, R a b) ->
  I s -> eventually P s.
Proof.
  intros Hstep Hlive. remember (m s) as n eqn:Hn. revert s Hn.
  induction (lt_wf n) as [n _ IH]. intros s -> Hs.
  destruct (Hlive s Hs) as [Hp|Hex]; [by apply eventually_now|].
  apply eventually_later; [done|]. intros s' Hr. destruct (Hstep s s' Hr Hs) as [Hs' Hm].
  by apply (IH (m s')).
Qed.

End Transitions.

(** Runs of labelled steps, with the labels in order. *)
Section Traces.
Context {S L : Type} (R : S -> L -> S -> Prop).

Inductive trace : S -> list L -> S -> Prop :=
| trace_nil s : trace s [] s
| trace_cons s1 l s2 ls s3 : R s1 l s2 -> trace s2 ls s3 -> trace s1 (l :: ls) s3.

Lemma trace_one s l s' : R s l s' -> trace s [l] s'.
Proof. intros H. by eapply trace_cons, trace_nil. Qed.

Lemma trace_app s1 ls s2 ls' s3 : trace s1 ls s2 -> trace s2 ls' s3 -> trace s1 (ls ++ ls') s3.
Proof. induction 1 as [|s1 l s2 ls s H _ IH]; intros H'; [done|]. cbn. eapply trace_cons; [done | by apply IH]. Qed.

Lemma trace_app_inv s1 ls ls' s3 :
  trace s1 (ls ++ ls') s3 -> exists s2, trace s1 ls s2 /\ trace s2 ls' s3.
Proof.
  revert s1. induction ls as [|l ls IH]; intros s1 H; [exists s1; split; [constructor | done]|].
  inversion_clear H as [|? ? s ? ? Hs Hr]. destruct (IH _ Hr) as (s2 & H1 & H2).
  exists s2. split; [by eapply trace_cons | done].
Qed.

(** A property of the labels so far and the state they led to. *)
Lemma trace_ghost (I : list L -> S -> Prop) s ls s' :
  (forall h a l b, I h a -> R a l b -> I (h ++ [l]) b) -> trace s ls s' -> I [] s -> I ls s'.
Proof.
  intros Hstep Hrun. cut (forall h, I h s -> I (h ++ ls) s'); [intros H; apply (H [])|].
  induction Hrun as [s|s1 l s2 ls s3 H _ IH]; intros h Hh; [by rewrite app_nil_r|].
  specialize (IH (h ++ [l])). rewrite <- app_assoc in IH. apply IH. by eapply Hstep.
Qed.

Lemma trace_inv (I : S -> Prop) s ls s' :
  (forall a l b, I a -> R a l b -> I b) -> trace s ls s' -> I s -> I s'.
Proof. intros Hstep. induction 1; eauto. Qed.

End Traces.

Arguments trace_nil {S L R} s.
Arguments trace_cons {S L R} s1 l s2 ls s3.
