(* ===== verification/Errors.v ===== *)
(** * Error values (src/src/error.rs)

    The public [Error], the configuration errors, the internal [CoreError] and
    the conversions between them ([From] instances, used by the question-mark operator).
    [std::io::Error] is represented by its kind. *)

From S2P Require Import Prelude.

(** The [std::io::ErrorKind]s the client creates or inspects; every other kind
    the operating system reports is [OtherKind]. *)
Inductive io_error : Type :=
| AddrInUse
| AddrNotAvailable
| OtherKind (code : Z).

#[export] Instance io_error_eq_dec : EqDecision io_error.
Proof. solve_decision. Defined.

Inductive ApiKeyError : Type :=
| InvalidEncoding
| UnsupportedVersion
| UnsupportedCredential
| InvalidLimits.

#[export] Instance ApiKeyError_eq_dec : EqDecision ApiKeyError.
Proof. solve_decision. Defined.

Inductive ConfigurationError : Type :=
| InvalidDuration (field : str)
| MissingTrackerField (field : str)
| InvalidName (kind : str)
| InvalidTrackerValue (field : str)
| InvalidTokenQuantity
| InvalidMetricsLabel
| ResourceWindowExceedsApiKey
| InvalidRequestPolicy
| RequestPolicyExceedsApiKey
| InvalidServiceDomain
| TooManyRequestEntries (kind : str)
| Unsupported.

#[export] Instance ConfigurationError_eq_dec : EqDecision ConfigurationError.
Proof. solve_decision. Defined.

Inductive Error : Type :=
| InvalidApiKey (e : ApiKeyError)
| InvalidConfiguration (e : ConfigurationError)
| Discovery
| Communication (e : io_error)
| Timeout
| Protocol
| Authentication.

#[export] Instance Error_eq_dec : EqDecision Error.
Proof. solve_decision. Defined.

Inductive CoreError : Type :=
| CoreIo (e : io_error)
| CoreTimeout
| CoreProtocol (message : str)
| CoreAuth (message : str)
| CoreDns (message : str)
| CoreConfig (message : str).

#[export] Instance CoreError_eq_dec : EqDecision CoreError.
Proof. solve_decision. Defined.

(** [<ConfigurationError as Display>::to_string]. *)
Definition configuration_error_to_string (e : ConfigurationError) : str :=
  match e with
  | InvalidDuration field =>
      field ++ lit " must be a positive whole number of milliseconds that fits in u32"
  | MissingTrackerField field => lit "latency tracker is missing " ++ field
  | InvalidName kind => kind ++ lit " name is invalid"
  | InvalidTrackerValue field => lit "latency tracker " ++ field ++ lit " must be positive"
  | InvalidTokenQuantity => lit "tokens requested must be between 1 and 65535"
  | InvalidMetricsLabel => lit "metrics label is too long"
  | ResourceWindowExceedsApiKey => lit "resource window exceeds the API key limit"
  | InvalidRequestPolicy => lit "request policy schedule is invalid"
  | RequestPolicyExceedsApiKey => lit "request policy exceeds the API key limit"
  | InvalidServiceDomain => lit "service domain is invalid"
  | TooManyRequestEntries kind => lit "request contains too many " ++ kind
  | Unsupported => lit "configuration is not supported"
  end.

(** [map_err(|message| CoreError::Config(message.to_string()))]. *)
Definition config_error (e : ConfigurationError) : CoreError :=
  CoreConfig (configuration_error_to_string e).

(** [impl From<ApiKeyError> for Error]. *)
Definition error_from_api_key (e : ApiKeyError) : Error := InvalidApiKey e.

(** [impl From<ConfigurationError> for Error]. *)
Definition error_from_configuration (e : ConfigurationError) : Error :=
  InvalidConfiguration e.

(** [impl From<CoreError> for Error]. *)
Definition error_from_core (e : CoreError) : Error :=
  match e with
  | CoreIo source => Communication source
  | CoreTimeout => Timeout
  | CoreProtocol _ => Protocol
  | CoreAuth _ => Authentication
  | CoreDns _ => Discovery
  | CoreConfig _ => InvalidConfiguration Unsupported
  end.
