(* ===== verification/Text.v ===== *)
(** * Text operations

    The methods of [str] that discovery and the public interface use beyond
    those of the prelude: [split], [trim_end_matches], and reading a decimal
    [u64], with the grammar of canonical decimals. *)

From S2P Require Import Prelude.

(** [s.split(c)]. *)
Fixpoint split_on (c : Z) (s : str) : list str :=
  match s with
  | [] => [[]]
  | x :: s =>
      if x =? c then [] :: split_on c s
      else match split_on c s with
           | p :: ps => (x :: p) :: ps
           | [] => [[x]]
           end
  end.

(** The pieces with the separator between them. *)
Fixpoint join (c : Z) (ps : list str) : str :=
  match ps with
  | [] => []
  | [p] => p
  | p :: ps => p ++ c :: join c ps
  end.

(** [s.trim_end_matches(c)]. *)
Fixpoint trim_end_matches (c : Z) (s : str) : str :=
  match s with
  | [] => []
  | x :: s =>
      match trim_end_matches c s with
      | [] => if x =? c then [] else [x]
      | t => x :: t
      end
  end.

(** [s.parse::<u64>()], [None] for an error. *)
Fixpoint parse_digits (s : str) (acc : Z) : option Z :=
  match s with
  | [] => Some acc
  | c :: s =>
      if is_ascii_digit c then
        tens ← checked_mul u64_max acc 10;
        sum ← checked_add u64_max tens (c - 48);
        parse_digits s sum
      else None
  end.
Definition parse_u64 (s : str) : option Z :=
  match s with
  | [] => None
  | [43] => None
  | 43 :: s => parse_digits s 0
  | _ => parse_digits s 0
  end.

(** ** Splitting *)

Lemma split_on_cons c s : exists p ps, split_on c s = p :: ps.
Proof.
  induction s as [|x s (p & ps & IH)]; cbn [split_on]; [eauto|].
  destruct (x =? c); [eauto|]. rewrite IH. eauto.
Qed.

Lemma join_cons c p ps : ps <> [] -> join c (p :: ps) = p ++ c :: join c ps.
Proof. by destruct ps. Qed.

Lemma join_split c s : join c (split_on c s) = s.
Proof.
  induction s as [|x s IH]; [done|]. cbn [split_on]. destruct (split_on_cons c s) as (p & ps & Hs).
  destruct (Z.eqb_spec x c) as [->|Hne].
  - rewrite join_cons by (by rewrite Hs). by rewrite IH.
  - rewrite Hs in IH |- *. destruct ps as [|q ps]; cbn [join app] in *; by rewrite IH.
Qed.

Lemma split_on_free c s : Forall (fun p => c ∉ p) (split_on c s).
Proof.
  induction s as [|x s IH]; cbn [split_on]; [repeat constructor; set_solver|].
  destruct (Z.eqb_spec x c) as [->|Hne]; [constructor; [set_solver | done]|].
  destruct IH as [|p ps Hp Hps]; constructor; set_solver.
Qed.

Lemma split_join c ps : ps <> [] -> Forall (fun p => c ∉ p) ps -> split_on c (join c ps) = ps.
Proof.
  intros Hne H. induction H as [|p ps Hp Hps IH]; [done|].
  assert (split_on c (join c (p :: ps)) = match ps with [] => [p] | _ => p :: split_on c (join c ps) end) as ->.
  { clear IH Hps Hne. destruct ps as [|q ps]; [cbn [join]|rewrite join_cons by done];
      induction p as [|x p IHp]; cbn [app split_on].
    1: done.
    2: by rewrite Z.eqb_refl.
    1,2: rewrite (proj2 (Z.eqb_neq x c)) by set_solver; rewrite IHp by set_solver; done. }
  destruct ps as [|q ps]; [done|]. by rewrite IH.
Qed.

(** ** Trimming *)

Lemma trim_end_spec c s :
  exists n, s = trim_end_matches c s ++ replicate n c /\
    (forall t, trim_end_matches c s <> t ++ [c]).
Proof.
  induction s as [|x s (n & Hs & Hl)]; cbn [trim_end_matches].
  { exists 0%nat. split; [done|]. by intros [|? []]. }
  destruct (trim_end_matches c s) as [|y t] eqn:Ht.
  - destruct (Z.eqb_spec x c) as [->|Hne].
    + exists (S n). split; [by rewrite Hs at 1 | by intros [|? []]].
    + exists n. split; [by rewrite Hs at 1 |]. intros [|? []] [=]. congruence.
  - exists n. split; [by rewrite Hs at 1|]. intros [|z u] [= -> He]. by eapply Hl.
Qed.

(** ** Decimals *)

Definition dec_value (s : str) : Z := fold_left (fun a c => a * 10 + (c - 48)) s 0.
Definition all_digits (s : str) : Prop := Forall (fun c => is_ascii_digit c = true) s.

(** The decimals without needless zeros. *)
Definition canonical (s : str) : Prop :=
  all_digits s /\ (s = [48] \/ exists c t, s = c :: t /\ c <> 48).

Lemma is_ascii_digit_spec c : is_ascii_digit c = true <-> 48 <= c <= 57.
Proof. unfold is_ascii_digit. rewrite andb_true_iff, !Z.leb_le. done. Qed.

Lemma dec_value_snoc s c : dec_value (s ++ [c]) = dec_value s * 10 + (c - 48).
Proof. unfold dec_value. by rewrite fold_left_app. Qed.

Lemma all_digits_snoc s c : all_digits (s ++ [c]) <-> all_digits s /\ 48 <= c <= 57.
Proof. unfold all_digits. by rewrite Forall_app, Forall_singleton, is_ascii_digit_spec. Qed.

Lemma dec_value_nonneg s : all_digits s -> 0 <= dec_value s.
Proof.
  induction s as [|c s IH] using rev_ind; [done|]. rewrite dec_value_snoc.
  intros [Hs Hc]%all_digits_snoc. specialize (IH Hs). lia.
Qed.

Lemma canonical_snoc s c :
  s <> [] -> canonical (s ++ [c]) <-> canonical s /\ s <> [48] /\ 48 <= c <= 57.
Proof.
  intros Hne. unfold canonical. rewrite all_digits_snoc. destruct s as [|x s]; [done|].
  split.
  - intros [[Hs Hc] [H|(d & t & H & Hd)]].
    + apply (f_equal length) in H. rewrite length_app in H. cbn in H. lia.
    + injection H as -> _. split; [split; [done | right; eauto] | split; [congruence | done]].
  - intros [[Hs [?|(d & t & [= -> ->] & Hd)]] [Hn Hc]]; [done|].
    split; [done|]. right. exists d, (t ++ [c]). done.
Qed.

Lemma canonical_pos s : canonical s -> s <> [48] -> 0 < dec_value s.
Proof.
  induction s as [|c s IH] using rev_ind; intros Hs Hn.
  { by destruct Hs as [_ [?|(? & ? & ? & ?)]]. }
  rewrite dec_value_snoc. destruct s as [|x s].
  - destruct Hs as [Hd [Hc|(d & t & [= -> <-] & Hd0)]]; [done|].
    apply (all_digits_snoc [] d) in Hd. cbn. lia.
  - apply canonical_snoc in Hs as (Hs & Hs' & Hc); [|done]. specialize (IH Hs Hs'). lia.
Qed.

Lemma canonical_inj a b : canonical a -> canonical b -> dec_value a = dec_value b -> a = b.
Proof.
  revert b. induction a as [|x a IH] using rev_ind; intros b Ha Hb.
  { by destruct Ha as [_ [?|(? & ? & ? & ?)]]. }
  destruct b as [|y b _] using rev_ind; [by destruct Hb as [_ [?|(? & ? & ? & ?)]]|].
  rewrite !dec_value_snoc. intros He.
  pose proof (proj1 (all_digits_snoc _ _) (proj1 Ha)) as [_ Hx].
  pose proof (proj1 (all_digits_snoc _ _) (proj1 Hb)) as [_ Hy].
  assert (x = y /\ dec_value a = dec_value b) as [-> Hv] by lia. f_equal.
  destruct (decide (a = [])) as [->|Hae], (decide (b = [])) as [->|Hbe]; [done|..].
  - apply canonical_snoc in Hb as (Hb & Hb' & _); [|done]. pose proof (canonical_pos b Hb Hb').
    cbn in Hv. lia.
  - apply canonical_snoc in Ha as (Ha & Ha' & _); [|done]. pose proof (canonical_pos a Ha Ha').
    cbn in Hv. lia.
  - apply canonical_snoc in Ha as (Ha & _ & _); [|done]. apply canonical_snoc in Hb as (Hb & _ & _); [|done].
    by apply IH.
Qed.

Lemma digit_char_spec d : 0 <= d < 10 -> 48 <= digit_char d <= 57 /\ digit_char d - 48 = d.
Proof.
  intros H. unfold digit_char. rewrite (proj2 (Z.ltb_lt d 10)) by lia.
  lia.
Qed.

Lemma digits_spec fuel z acc :
  0 <= z -> z < 2 ^ Z.of_nat fuel -> (0 < fuel)%nat ->
  exists s, digits fuel 10 z acc = s ++ acc /\ canonical s /\ dec_value s = z.
Proof.
  revert z acc. induction fuel as [|fuel IH]; intros z acc Hz Hf Hp; [lia|]. cbn [digits].
  pose proof (Z.div_mod z 10 ltac:(lia)) as Hdm. pose proof (Z.mod_pos_bound z 10 ltac:(lia)) as Hm.
  destruct (digit_char_spec (z mod 10) Hm) as [Hd Hv].
  destruct (Z.eqb_spec (z / 10) 0) as [Hq|Hq].
  - exists [digit_char (z mod 10)]. split; [done | split; [|cbn; lia]].
    split; [apply (all_digits_snoc []); split; [constructor | done]|].
    destruct (decide (z mod 10 = 0)) as [->|Hne]; [by left|]. right. exists (digit_char (z mod 10)), [].
    split; [done|]. lia.
  - rewrite Nat2Z.inj_succ, Z.pow_succ_r in Hf by lia.
    destruct (IH (z / 10) (digit_char (z mod 10) :: acc)) as (s & -> & Hs & Hsv).
    + Z.div_mod_to_equations; lia.
    + Z.div_mod_to_equations; lia.
    + destruct fuel; [|lia]. cbn in Hf. Z.div_mod_to_equations; lia.
    + exists (s ++ [digit_char (z mod 10)]). rewrite <- app_assoc. split; [done | split].
      * apply canonical_snoc; [by intros -> | split; [done | split; [|done]]]. intros ->. cbn in Hsv. lia.
      * rewrite dec_value_snoc. lia.
Qed.

Lemma fmt_dec_spec z : 0 <= z -> canonical (fmt_dec z) /\ dec_value (fmt_dec z) = z.
Proof.
  intros Hz. unfold fmt_dec, digits_fuel.
  destruct (digits_spec (S (Z.to_nat (Z.log2 z))) z []) as (s & -> & Hs & Hv); [done| |lia|].
  - rewrite Nat2Z.inj_succ, Z2Nat.id by apply Z.log2_nonneg.
    destruct (decide (z = 0)) as [->|]; [done|]. apply Z.log2_spec. lia.
  - rewrite app_nil_r. done.
Qed.

Lemma fmt_dec_canonical s : canonical s -> fmt_dec (dec_value s) = s.
Proof.
  intros Hs. pose proof (dec_value_nonneg s (proj1 Hs)) as Hn.
  destruct (fmt_dec_spec (dec_value s) Hn) as [Hc Hv]. by apply canonical_inj.
Qed.

Lemma canonical_low s : canonical s -> s <> [48] -> 10 ^ (zlen s - 1) <= dec_value s.
Proof.
  induction s as [|c s IH] using rev_ind; intros Hs Hn; [done|].
  rewrite dec_value_snoc, zlen_app. change (zlen [c]) with 1.
  replace (zlen s + 1 - 1) with (zlen s) by lia. destruct s as [|x s].
  - pose proof (canonical_pos _ Hs Hn) as Hp. change (dec_value ([] ++ [c])) with (0 * 10 + (c - 48)) in Hp.
    change (10 ^ zlen []) with 1. change (dec_value []) with 0. lia.
  - apply canonical_snoc in Hs as (Hs & Hs' & Hc); [|done]. specialize (IH Hs Hs').
    replace (zlen (x :: s)) with (Z.succ (zlen (x :: s) - 1)) by lia.
    rewrite zlen_cons in *. pose proof (zlen_nonneg s). rewrite Z.pow_succ_r by lia. lia.
Qed.

Lemma fmt_dec_len z n : 0 <= z < 10 ^ n -> 1 <= n -> 1 <= zlen (fmt_dec z) <= n.
Proof.
  intros [Hz Hlt] Hn. destruct (fmt_dec_spec z Hz) as [Hc Hv].
  assert (fmt_dec z <> []) as Hne by (intros E; rewrite E in Hc; by destruct Hc as [_ [?|(? & ? & ? & _)]]).
  split.
  { destruct (fmt_dec z) as [|x l]; [done|]. rewrite zlen_cons. pose proof (zlen_nonneg l). lia. }
  destruct (decide (fmt_dec z = [48])) as [->|H48]; [by cbn|].
  pose proof (canonical_low _ Hc H48) as Hl. rewrite Hv in Hl.
  assert (zlen (fmt_dec z) - 1 < n); [|lia]. apply (Z.pow_lt_mono_r_iff 10); lia.
Qed.

Lemma fold_dec_ge s a : all_digits s -> 0 <= a -> a <= fold_left (fun a c => a * 10 + (c - 48)) s a.
Proof.
  intros Hs. revert a. induction Hs as [|c s Hc%is_ascii_digit_spec _ IH]; intros a Ha; cbn [fold_left]; [lia|].
  specialize (IH (a * 10 + (c - 48))). lia.
Qed.

Lemma parse_digits_spec s acc v :
  all_digits s -> 0 <= acc ->
  parse_digits s acc = Some v <->
  fold_left (fun a c => a * 10 + (c - 48)) s acc = v /\ (s = [] \/ v <= u64_max).
Proof.
  intros Hs. revert acc. induction Hs as [|c s Hc Hs IH]; intros acc Ha; cbn [parse_digits fold_left].
  { naive_solver. }
  rewrite Hc. apply is_ascii_digit_spec in Hc.
  pose proof (fold_dec_ge s (acc * 10 + (c - 48)) Hs ltac:(lia)) as Hge. unfold checked_mul, checked_add.
  destruct (Z.leb_spec (acc * 10) u64_max); cbn [mbind option_bind].
  2:{ split; [done|]. intros [<- [?|?]]; [done | lia]. }
  destruct (Z.leb_spec (acc * 10 + (c - 48)) u64_max); cbn [mbind option_bind].
  2:{ split; [done|]. intros [<- [?|?]]; [done | lia]. }
  rewrite IH by lia. split; intros [<- Hv]; (split; [done|]); [|destruct Hv as [|Hv]; [done | by right]].
  destruct Hv as [->|Hv]; [cbn [fold_left] in *; by right | by right].
Qed.

Lemma parse_digits_all s acc v : parse_digits s acc = Some v -> all_digits s.
Proof.
  revert acc. induction s as [|c s IH]; intros acc; cbn [parse_digits]; [constructor|].
  destruct (is_ascii_digit c) eqn:Hc; [|done].
  destruct (checked_mul _ _ _); [|done]. cbn [mbind option_bind].
  destruct (checked_add _ _ _); [|done]. cbn [mbind option_bind]. intros H. constructor; [done | by eapply IH].
Qed.

(** On digits, parsing is reading the number if it fits. *)
Lemma parse_u64_digits s v :
  s <> [] -> all_digits s -> parse_u64 s = Some v <-> dec_value s = v /\ v <= u64_max.
Proof.
  intros Hne Hs. unfold dec_value. transitivity (parse_digits s 0 = Some v).
  - destruct s as [|c s]; [done|]. apply Forall_inv in Hs as Hc. apply is_ascii_digit_spec in Hc.
    cbn [parse_u64]. destruct c as [|p|p]; try lia.
    do 6 (destruct p as [p|p|]; try lia; try done).
  - rewrite parse_digits_spec by done. naive_solver.
Qed.
