(* ===== verification/Bits.v ===== *)
(** * Bit strings

    The reading of integers as strings of bits, most significant first, that
    specifies the regrouping of bits in the API-key codec. *)

From S2P Require Import Prelude.

(** The low [n] bits of [x], most significant first. *)
Fixpoint bits_be (n : nat) (x : Z) : list bool :=
  match n with
  | O => []
  | S n => Z.testbit x (Z.of_nat n) :: bits_be n x
  end.

(** The concatenation of the [w]-bit symbols [data]. *)
Definition bits_of (w : nat) (data : list Z) : list bool :=
  concat (map (bits_be w) data).

Definition fits (w : nat) (v : Z) : Prop := 0 <= v < 2 ^ Z.of_nat w.

Lemma length_bits_be n x : length (bits_be n x) = n.
Proof. induction n; cbn; [done | by rewrite IHn]. Qed.

Lemma bits_be_ext n x y :
  (forall i, 0 <= i < Z.of_nat n -> Z.testbit x i = Z.testbit y i) ->
  bits_be n x = bits_be n y.
Proof.
  induction n as [|n IH]; intros H; cbn [bits_be]; [done|].
  rewrite H by lia. f_equal. apply IH. intros i Hi. apply H. lia.
Qed.

Lemma bits_be_inv n x y :
  bits_be n x = bits_be n y ->
  forall i, 0 <= i < Z.of_nat n -> Z.testbit x i = Z.testbit y i.
Proof.
  induction n as [|n IH]; cbn [bits_be]; intros H i Hi; [lia|].
  injection H as H1 H2. destruct (decide (i = Z.of_nat n)) as [->|]; [done|].
  apply IH; [done | lia].
Qed.

Lemma testbit_high w v i : fits w v -> Z.of_nat w <= i -> Z.testbit v i = false.
Proof.
  intros [H0 H] Hi. rewrite <- (Z.mod_small v (2 ^ Z.of_nat w)) by lia.
  apply Z.mod_pow2_bits_high. lia.
Qed.

Lemma bits_be_inj n x y : fits n x -> fits n y -> bits_be n x = bits_be n y -> x = y.
Proof.
  intros Hx Hy H. apply Z.bits_inj'. intros i Hi.
  destruct (Z.lt_ge_cases i (Z.of_nat n)).
  - apply (bits_be_inv n); [done | lia].
  - by rewrite !(testbit_high n).
Qed.

Lemma bits_be_app a b x :
  bits_be (a + b) x = bits_be a (Z.shiftr x (Z.of_nat b)) ++ bits_be b x.
Proof.
  induction a as [|a IH]; cbn [bits_be Nat.add app]; [done|].
  rewrite IH, Z.shiftr_spec by lia. f_equal. f_equal. lia.
Qed.

Lemma bits_be_0 n : bits_be n 0 = replicate n false.
Proof. induction n; cbn [bits_be replicate]; [done|]. by rewrite Z.testbit_0_l, IHn. Qed.

Lemma bits_of_app w a b : bits_of w (a ++ b) = bits_of w a ++ bits_of w b.
Proof. unfold bits_of. by rewrite map_app, concat_app. Qed.

Lemma bits_of_cons w v a : bits_of w (v :: a) = bits_be w v ++ bits_of w a.
Proof. done. Qed.

Lemma length_bits_of w a : length (bits_of w a) = (w * length a)%nat.
Proof.
  induction a as [|v a IH]; [cbn; lia|].
  rewrite bits_of_cons, length_app, length_bits_be, IH. cbn [length]. lia.
Qed.

Lemma bits_of_inj w a b :
  w <> O -> Forall (fits w) a -> Forall (fits w) b -> bits_of w a = bits_of w b -> a = b.
Proof.
  intros Hw Ha. revert b. induction Ha as [|x a Hx Ha IH]; intros b Hb H.
  - apply (f_equal length) in H. rewrite !length_bits_of in H.
    destruct b; [done | cbn [length] in H; lia].
  - destruct Hb as [|y b Hy Hb].
    { apply (f_equal length) in H. rewrite !length_bits_of in H. cbn [length] in H; lia. }
    rewrite !bits_of_cons in H.
    apply app_inj_1 in H as [H1 H2]; [|by rewrite !length_bits_be].
    f_equal; [by apply (bits_be_inj w) | by apply IH].
Qed.

(** ** The three integer expressions of the regrouping loop, on bits *)

Lemma ones_shiftl n : 0 <= n -> Z.shiftl 1 n - 1 = Z.ones n.
Proof. intros H. unfold Z.ones. lia. Qed.

Lemma testbit_land_ones x n i :
  0 <= i -> 0 <= n -> Z.testbit (Z.land x (Z.ones n)) i = Z.testbit x i && (i <? n).
Proof.
  intros Hi Hn. rewrite Z.land_spec. f_equal.
  destruct (Z.ltb_spec i n); [apply Z.ones_spec_low | apply Z.ones_spec_high]; lia.
Qed.

Lemma fits_land_ones x n : fits n (Z.land x (Z.ones (Z.of_nat n))).
Proof. unfold fits. rewrite Z.land_ones by lia. apply Z.mod_pos_bound. lia. Qed.

Lemma fits_le n m x : (n <= m)%nat -> fits n x -> fits m x.
Proof.
  unfold fits. intros H [H1 H2]. split; [done|].
  eapply Z.lt_le_trans; [exact H2 | apply Z.pow_le_mono_r; lia].
Qed.

Lemma fits_shiftl n k x : fits n x -> fits (n + k) (Z.shiftl x (Z.of_nat k)).
Proof.
  unfold fits. intros [H1 H2]. rewrite Z.shiftl_mul_pow2 by lia.
  rewrite Nat2Z.inj_add, Z.pow_add_r by lia.
  pose proof (Z.pow_pos_nonneg 2 (Z.of_nat k)). nia.
Qed.

Lemma as_u32_fits n x : (n <= 32)%nat -> fits n x -> as_u32 x = x.
Proof.
  intros Hn Hx. apply (fits_le n 32) in Hx; [|done]. apply as_u32_small.
  unfold fits in Hx. cbn in Hx. lia.
Qed.

Lemma as_u8_fits n x : (n <= 8)%nat -> fits n x -> as_u8 x = x.
Proof.
  intros Hn Hx. apply (fits_le n 8) in Hx; [|done]. apply as_u8_small.
  unfold fits in Hx. cbn in Hx. lia.
Qed.

(** Shifting a symbol into the accumulator appends its bits. *)
Lemma bits_be_push n f m acc v :
  fits f v -> (n + f <= m)%nat ->
  bits_be (n + f) (Z.land (Z.lor (Z.shiftl acc (Z.of_nat f)) v) (Z.ones (Z.of_nat m)))
  = bits_be n acc ++ bits_be f v.
Proof.
  intros Hv Hm. rewrite bits_be_app. f_equal; apply bits_be_ext; intros i Hi.
  - rewrite Z.shiftr_spec, testbit_land_ones, Z.lor_spec, Z.shiftl_spec by lia.
    rewrite (testbit_high f v) by (done || lia).
    replace (i + Z.of_nat f <? Z.of_nat m) with true by (symmetry; apply Z.ltb_lt; lia).
    rewrite orb_false_r, andb_true_r. f_equal. lia.
  - rewrite testbit_land_ones, Z.lor_spec, Z.shiftl_spec_low by lia.
    replace (i <? Z.of_nat m) with true by (symmetry; apply Z.ltb_lt; lia).
    by rewrite andb_true_r.
Qed.

(** Masking the bits above position [n] takes the leading symbol. *)
Lemma bits_be_top t n acc :
  bits_be (t + n) acc
  = bits_be t (Z.land (Z.shiftr acc (Z.of_nat n)) (Z.ones (Z.of_nat t))) ++ bits_be n acc.
Proof.
  rewrite bits_be_app. f_equal. apply bits_be_ext. intros i Hi.
  rewrite testbit_land_ones by lia.
  replace (i <? Z.of_nat t) with true by (symmetry; apply Z.ltb_lt; lia).
  by rewrite andb_true_r.
Qed.

(** Left-aligning the last [n] bits in a [t]-bit symbol pads them with zeros. *)
Lemma bits_be_pad t n acc :
  (n <= t)%nat ->
  bits_be t (Z.land (Z.shiftl acc (Z.of_nat (t - n))) (Z.ones (Z.of_nat t)))
  = bits_be n acc ++ replicate (t - n) false.
Proof.
  intros Hn. replace t with (n + (t - n))%nat at 1 by lia.
  rewrite bits_be_app. f_equal.
  - apply bits_be_ext. intros i Hi.
    rewrite Z.shiftr_spec, testbit_land_ones, Z.shiftl_spec by lia.
    replace (_ <? _) with true by (symmetry; apply Z.ltb_lt; lia).
    rewrite andb_true_r. f_equal. lia.
  - rewrite <- bits_be_0. apply bits_be_ext. intros i Hi.
    rewrite testbit_land_ones, Z.shiftl_spec_low, Z.testbit_0_l by lia. done.
Qed.
