(* ===== verification/Codec.v ===== *)
(** * API-key codec (src/src/api_key_codec.rs)

    The Bech32 reader and writer, the bit regrouping between 8-bit and 5-bit
    symbols, the packed quota word and the decoder of API keys.  The writer and
    the key encoder are the test-only half of the same file. *)

From S2P Require Import Prelude Bits.

(** ** Data *)

Definition GEN : list Z := [0x3B6A57B2; 0x26508E6D; 0x1EA119FA; 0x3D4233DD; 0x2A1462B3].
Definition FORMAT_VERSION : Z := 1.

Record ApiKeyLimits := mkLimits {
  rate_buckets_max : Z;
  latency_services_max : Z;
  metrics_labels_max : Z;
  latency_buffer_size_max : Z;
  dedup_ttl_ms_max : Z;
  rate_window_size_ms_max : Z;
}.

Record DecodedApiKey := mkDecoded {
  hrp : str;
  auth_method : str;
  format_version : Z;
  key_id : Z;
  auth_secret : list Z;
  limits : option ApiKeyLimits;
}.

Inductive DecodeError : Type :=
| EmptyInput
| NonPrintable
| MixedCase
| MissingSeparator
| EmptyHrp
| ChecksumTooShort
| InvalidCharset (c : Z)
| ChecksumFailed
| InvalidPadding
| InvalidHrpPrefix
| UnsupportedAuthMethod (method : str)
| InvalidPayloadLength (method : str) (expected actual : Z)
| UnsupportedFormatVersion (v : Z)
| InvalidPackedQuota.

#[export] Instance ApiKeyLimits_eq_dec : EqDecision ApiKeyLimits.
Proof. solve_decision. Defined.
#[export] Instance DecodeError_eq_dec : EqDecision DecodeError.
Proof. solve_decision. Defined.
#[export] Instance DecodedApiKey_eq_dec : EqDecision DecodedApiKey.
Proof. solve_decision. Defined.

(** ** The Bech32 alphabet

    The arms of the two [match] expressions, in their order. *)

Definition bech32_arms : list (Z * Z) :=
  zip (lit "qpzry9x8gf2tvdw0s3jn54khce6mua7l") (seqZ 0 32).

Definition char_to_value (c : Z) : option Z :=
  snd <$> List.find (fun arm => fst arm =? c) bech32_arms.

Definition value_to_char (v : Z) : option Z :=
  fst <$> List.find (fun arm => snd arm =? v) bech32_arms.

#[global] Arguments char_to_value : simpl never.
#[global] Arguments value_to_char : simpl never.

(** ** Checksum *)

Definition hrp_expand (hrp : str) : list Z :=
  map (fun b => Z.shiftr b 5) (as_bytes hrp) ++ [0] ++
  map (fun b => Z.land b 31) (as_bytes hrp).

(** The inner loop over [GEN.iter().enumerate()], from generator [i] on. *)
Fixpoint apply_generators (i : Z) (gens : list Z) (b chk : Z) : Z :=
  match gens with
  | [] => chk
  | g :: gens =>
      let chk := if Z.land (Z.shiftr b i) 1 =? 0 then chk else Z.lxor chk g in
      apply_generators (i + 1) gens b chk
  end.

Definition polymod_step (chk v : Z) : Z :=
  let b := Z.shiftr chk 25 in
  let chk := Z.lxor (as_u32 (Z.shiftl (Z.land chk 0x1FFFFFF) 5)) v in
  apply_generators 0 GEN b chk.

Definition polymod (values : list Z) : Z := fold_left polymod_step values 1.

Definition verify_checksum (hrp : str) (data : list Z) : bool :=
  polymod (hrp_expand hrp ++ data) =? 1.

Definition create_checksum (hrp : str) (data : list Z) : list Z :=
  let values := hrp_expand hrp ++ data ++ [0; 0; 0; 0; 0; 0] in
  let pm := Z.lxor (polymod values) 1 in
  map (fun i => as_u8 (Z.land (Z.shiftr pm (5 * (5 - i))) 31)) (seqZ 0 6).

(** ** Regrouping of bits *)

(** [while bits >= to_bits { bits -= to_bits; out.push(...) }].  Each turn takes
    [to_bits] away from [bits], so [bits] turns are enough. *)
Fixpoint drain_bits (fuel : nat) (to_bits maxv acc bits : Z) (out : list Z)
  : Z * list Z :=
  match fuel with
  | O => (bits, out)
  | S fuel =>
      if to_bits <=? bits then
        let bits := bits - to_bits in
        drain_bits fuel to_bits maxv acc bits
          (out ++ [as_u8 (Z.land (Z.shiftr acc bits) maxv)])
      else (bits, out)
  end.

Fixpoint convert_bits_loop (from_bits to_bits maxv max_acc : Z)
    (acc bits : Z) (out data : list Z) : outcome DecodeError (Z * Z * list Z) :=
  match data with
  | [] => Ok (acc, bits, out)
  | value :: data =>
      _ ← reject_if (negb (Z.shiftr value from_bits =? 0)) InvalidPadding;
      let acc := Z.land (Z.lor (as_u32 (Z.shiftl acc from_bits)) value) max_acc in
      bits ← add_op u8_max bits from_bits;
      let '(bits, out) := drain_bits (Z.to_nat bits) to_bits maxv acc bits out in
      convert_bits_loop from_bits to_bits maxv max_acc acc bits out data
  end.

Definition convert_bits (data : list Z) (from_bits to_bits : Z) (pad : bool)
  : outcome DecodeError (list Z) :=
  let maxv := Z.shiftl 1 to_bits - 1 in
  let max_acc := Z.shiftl 1 (from_bits + to_bits - 1) - 1 in
  '(acc, bits, out) ← convert_bits_loop from_bits to_bits maxv max_acc 0 0 [] data;
  if pad then
    if bits >? 0 then
      Ok (out ++ [as_u8 (Z.land (as_u32 (Z.shiftl acc (to_bits - bits))) maxv)])
    else Ok out
  else
    _ ← reject_if (bits >=? from_bits) InvalidPadding;
    _ ← reject_if
          (negb (Z.land (as_u32 (Z.shiftl acc (to_bits - bits))) maxv =? 0))
          InvalidPadding;
    Ok out.

(** ** Reading and writing Bech32 text *)

(** The first loop over the characters: printability and letter case. *)
Fixpoint scan_case (s : str) (has_lower has_upper : bool)
  : outcome DecodeError (bool * bool) :=
  match s with
  | [] => Ok (has_lower, has_upper)
  | c :: s =>
      _ ← reject_if (negb ((33 <=? c) && (c <=? 126))) NonPrintable;
      scan_case s (has_lower || is_ascii_lowercase c) (has_upper || is_ascii_uppercase c)
  end.

Fixpoint chars_to_values (s : str) : outcome DecodeError (list Z) :=
  match s with
  | [] => Ok []
  | c :: s =>
      v ← ok_or (char_to_value c) (InvalidCharset c);
      vs ← chars_to_values s;
      Ok (v :: vs)
  end.

Definition bech32_decode (addr : str) : outcome DecodeError (str * list Z) :=
  _ ← reject_if (str_len addr =? 0) EmptyInput;
  '(has_lower, has_upper) ← scan_case addr false false;
  _ ← reject_if (has_lower && has_upper) MixedCase;
  let s := to_ascii_lowercase addr in
  pos ← ok_or (rfind 49 s) MissingSeparator;
  _ ← reject_if (pos <? 1) EmptyHrp;
  rest_len ← sub_op (str_len s) pos;
  rest_len ← sub_op rest_len 1;
  _ ← reject_if (rest_len <? 6) ChecksumTooShort;
  '(hrp, _) ← expect (split_at s pos);
  '(_, tail) ← expect (split_at s (pos + 1));
  data ← chars_to_values tail;
  _ ← reject_if (negb (verify_checksum hrp data)) ChecksumFailed;
  n ← sub_op (zlen data) 6;
  payload5 ← data.[0 ..< n];
  payload ← convert_bits payload5 5 8 false;
  Ok (hrp, payload).

Definition bech32_encode (hrp : str) (payload : list Z) : outcome DecodeError str :=
  _ ← reject_if (str_len hrp =? 0) EmptyHrp;
  _ ← reject_if (negb (forallb (fun b => (33 <=? b) && (b <=? 126)) (as_bytes hrp)))
        NonPrintable;
  let hrp := to_ascii_lowercase hrp in
  data ← convert_bits payload 8 5 true;
  let checksum := create_checksum hrp data in
  cs ← expect (mapM value_to_char (data ++ checksum));
  Ok (hrp ++ [49] ++ cs).

(** ** API keys *)

Definition limits_from_payload (payload : list Z) (offset : Z)
  : outcome DecodeError ApiKeyLimits :=
  word_bytes ← payload.[offset ..< offset + 4];
  let word := from_le word_bytes in
  let rate_exp := Z.land word 0x1f in
  let latency_exp := Z.land (Z.shiftr word 5) 0x1f in
  let labels_exp := Z.land (Z.shiftr word 10) 0x1f in
  let buffer_exp := Z.land (Z.shiftr word 15) 0x0f in
  let dedup_units := Z.land (Z.shiftr word 19) 0xff in
  let window_exp := Z.land (Z.shiftr word 27) 0x1f in
  _ ← reject_if ((rate_exp >? 24) || (latency_exp >? 24) ||
                 negb ((1 <=? dedup_units) && (dedup_units <=? 200))) InvalidPackedQuota;
  Ok {| rate_buckets_max := as_u32 (Z.shiftl 1 rate_exp);
        latency_services_max := as_u32 (Z.shiftl 1 latency_exp);
        metrics_labels_max := as_u32 (Z.shiftl 1 labels_exp);
        latency_buffer_size_max := as_u32 (Z.shiftl 1 buffer_exp);
        dedup_ttl_ms_max := dedup_units * 10;
        rate_window_size_ms_max :=
          if window_exp =? 31 then u32_max else as_u32 (Z.shiftl 1 window_exp) |}.

Definition decode_api_key (encoded : str) : outcome DecodeError DecodedApiKey :=
  '(hrp, payload) ← bech32_decode encoded;
  auth_method ← ok_or (strip_prefix (lit "rl-") hrp) InvalidHrpPrefix;
  if decide (auth_method = lit "secret") then
    _ ← reject_if (negb (zlen payload =? 32))
          (InvalidPayloadLength auth_method 32 (zlen payload));
    Ok {| hrp := hrp; auth_method := lit "secret"; format_version := 0; key_id := 0;
          auth_secret := payload; limits := None |}
  else if decide (auth_method = lit "none") then
    _ ← reject_if (negb (zlen payload =? 13))
          (InvalidPayloadLength auth_method 13 (zlen payload));
    v ← payload.[0];
    _ ← reject_if (negb (v =? FORMAT_VERSION)) (UnsupportedFormatVersion v);
    id_bytes ← payload.[1 ..< 9];
    let key_id := from_le id_bytes in
    limits ← limits_from_payload payload 9;
    Ok {| hrp := hrp; auth_method := lit "none"; format_version := FORMAT_VERSION;
          key_id := key_id; auth_secret := []; limits := Some limits |}
  else if decide (auth_method = lit "cookie" \/ auth_method = lit "aes") then
    _ ← reject_if (negb (zlen payload =? 45))
          (InvalidPayloadLength auth_method 45 (zlen payload));
    v ← payload.[0];
    _ ← reject_if (negb (v =? FORMAT_VERSION)) (UnsupportedFormatVersion v);
    id_bytes ← payload.[1 ..< 9];
    let key_id := from_le id_bytes in
    auth_secret ← payload.[9 ..< 41];
    limits ← limits_from_payload payload 41;
    Ok {| hrp := hrp; auth_method := auth_method; format_version := FORMAT_VERSION;
          key_id := key_id; auth_secret := auth_secret; limits := Some limits |}
  else Err (UnsupportedAuthMethod auth_method).

(** [u32::trailing_zeros]. *)
Fixpoint trailing_zeros_from (fuel : nat) (i z : Z) : Z :=
  match fuel with
  | O => i
  | S fuel => if Z.testbit z i then i else trailing_zeros_from fuel (i + 1) z
  end.
Definition trailing_zeros (z : Z) : Z := trailing_zeros_from 32 0 z.

(** The quota word the encoder packs. *)
Definition quota_word (l : ApiKeyLimits) : Z :=
  let rate_exp := trailing_zeros (rate_buckets_max l) in
  let latency_exp := trailing_zeros (latency_services_max l) in
  let labels_exp := trailing_zeros (metrics_labels_max l) in
  let buffer_exp := trailing_zeros (latency_buffer_size_max l) in
  let window_exp :=
    if rate_window_size_ms_max l =? u32_max then 31
    else trailing_zeros (rate_window_size_ms_max l) in
  Z.lor (Z.lor (Z.lor (Z.lor (Z.lor rate_exp
    (as_u32 (Z.shiftl latency_exp 5)))
    (as_u32 (Z.shiftl labels_exp 10)))
    (as_u32 (Z.shiftl buffer_exp 15)))
    (as_u32 (Z.shiftl (dedup_ttl_ms_max l / 10) 19)))
    (as_u32 (Z.shiftl window_exp 27)).

Definition encode_api_key (auth_method : str) (key_id : Z) (auth_secret : list Z)
    (l : ApiKeyLimits) : outcome DecodeError str :=
  secret_part ←
    (if decide (auth_method = lit "none") then Ok []
     else if decide (auth_method = lit "cookie" \/ auth_method = lit "aes")
     then Ok auth_secret
     else Panic);
  let payload := [FORMAT_VERSION] ++ u64_le key_id ++ secret_part ++ u32_le (quota_word l) in
  bech32_encode (lit "rl-" ++ auth_method) payload.

