(* ===== verification/Regroup.v ===== *)
(** * Facts on [convert_bits]

    [convert_bits] is specified by bit strings: the symbols it returns carry
    exactly the bits it was given, in order, up to fewer than one symbol of
    zero padding. *)

From S2P Require Import Prelude Bits Codec.

Section Regroup.
  (** The two symbol widths; the client uses 5 and 8. *)
  Context (f t : nat).
  Context (Hf : (1 <= f <= 8)%nat) (Ht : (1 <= t <= 8)%nat).

  Abbreviation maxv := (Z.ones (Z.of_nat t)).
  Abbreviation max_acc := (Z.ones (Z.of_nat (f + t - 1))).

Lemma drain_bits_spec fuel acc n out :
    (n <= fuel)%nat ->
    exists n' more,
      drain_bits fuel (Z.of_nat t) maxv acc (Z.of_nat n) out = (Z.of_nat n', out ++ more) /\
      (n' < t)%nat /\ Forall (fits t) more /\
      bits_be n acc = bits_of t more ++ bits_be n' acc.
  Proof.
    revert n out. induction fuel as [|fuel IH]; intros n out Hn; cbn [drain_bits].
    - exists n, []. rewrite app_nil_r. split_and!; [done | lia | constructor | done].
    - destruct (Z.leb_spec (Z.of_nat t) (Z.of_nat n)).
      + replace (Z.of_nat n - Z.of_nat t) with (Z.of_nat (n - t)) by lia.
        rewrite (as_u8_fits t) by (lia || apply fits_land_ones).
        destruct (IH (n - t)%nat
          (out ++ [Z.land (Z.shiftr acc (Z.of_nat (n - t))) maxv])) as (n' & more & E & Hn' & Hm & Hb);
          [lia|].
        eexists n', (_ :: more). rewrite E. split_and!;
          [by rewrite <- app_assoc | done | constructor; [apply fits_land_ones | done] |].
        rewrite bits_of_cons, <- app_assoc, <- Hb.
        replace n with (t + (n - t))%nat at 1 by lia. apply bits_be_top.
      + exists n, []. rewrite app_nil_r. split_and!; [done | lia | constructor | done].
  Qed.

Lemma convert_bits_loop_spec data acc n out :
    Forall (fits f) data -> fits (f + t - 1) acc -> (n < t)%nat ->
    exists acc' n' more,
      convert_bits_loop (Z.of_nat f) (Z.of_nat t) maxv max_acc acc (Z.of_nat n) out data
      = Ok (acc', Z.of_nat n', out ++ more) /\
      fits (f + t - 1) acc' /\ (n' < t)%nat /\ Forall (fits t) more /\
      bits_be n acc ++ bits_of f data = bits_of t more ++ bits_be n' acc'.
  Proof.
    intros Hd. revert acc n out.
    induction Hd as [|v data Hv Hd IH]; intros acc n out Hacc Hn; cbn [convert_bits_loop].
    - exists acc, n, []. rewrite !app_nil_r. split_and!; [done..| constructor | done].
    - replace (Z.shiftr v (Z.of_nat f)) with 0
        by (symmetry; rewrite Z.shiftr_div_pow2 by lia; apply Z.div_small, Hv).
      cbn [Z.eqb negb reject_if mbind outcome_bind].
      rewrite (as_u32_fits (f + t - 1 + f)) by (apply fits_shiftl; done) || lia.
      set (acc1 := Z.land _ _).
      rewrite add_op_ok by (unfold u8_max; lia). cbn [mbind outcome_bind].
      replace (Z.of_nat n + Z.of_nat f) with (Z.of_nat (n + f)) by lia. rewrite Nat2Z.id.
      destruct (drain_bits_spec (n + f) acc1 (n + f) out) as (n1 & more1 & -> & Hn1 & Hm1 & Hb1);
        [lia|].
      destruct (IH acc1 n1 (out ++ more1)) as (acc' & n' & more & -> & Ha & Hn' & Hm & Hb);
        [apply fits_land_ones | done |].
      exists acc', n', (more1 ++ more). rewrite app_assoc. split_and!;
        [done | done | done | by apply Forall_app |].
      rewrite bits_of_cons, app_assoc, <- (bits_be_push n f (f + t - 1)) by (done || lia).
      fold acc1. by rewrite Hb1, bits_of_app, <- !app_assoc, <- Hb.
  Qed.

Lemma convert_bits_loop_start data :
    Forall (fits f) data ->
    exists acc n out,
      convert_bits_loop (Z.of_nat f) (Z.of_nat t) (Z.shiftl 1 (Z.of_nat t) - 1)
        (Z.shiftl 1 (Z.of_nat f + Z.of_nat t - 1) - 1) 0 0 [] data
      = Ok (acc, Z.of_nat n, out) /\
      fits (f + t - 1) acc /\ (n < t)%nat /\ Forall (fits t) out /\
      bits_of f data = bits_of t out ++ bits_be n acc.
  Proof.
    intros Hd. replace (Z.of_nat f + Z.of_nat t - 1) with (Z.of_nat (f + t - 1)) by lia.
    rewrite !ones_shiftl by lia.
    destruct (convert_bits_loop_spec data 0 0 [] Hd) as (acc & n & out & E & H);
      [unfold fits; pose proof (Z.pow_pos_nonneg 2 (Z.of_nat (f + t - 1))); lia | lia |].
    by exists acc, n, out.
  Qed.

Lemma pad_symbol_spec acc n :
    fits (f + t - 1) acc -> (n <= t)%nat ->
    as_u32 (Z.shiftl acc (Z.of_nat t - Z.of_nat n)) = Z.shiftl acc (Z.of_nat (t - n)).
  Proof.
    intros Ha Hn. replace (Z.of_nat t - Z.of_nat n) with (Z.of_nat (t - n)) by lia.
    apply (as_u32_fits (f + t - 1 + (t - n))); [lia | by apply fits_shiftl].
  Qed.

  (** With padding: the bits of the input followed by fewer than [t] zeros. *)
Lemma convert_bits_pad data :
    Forall (fits f) data ->
    exists out p,
      convert_bits data (Z.of_nat f) (Z.of_nat t) true = Ok out /\
      Forall (fits t) out /\ (p < t)%nat /\
      bits_of t out = bits_of f data ++ replicate p false.
  Proof.
    intros Hd. unfold convert_bits.
    destruct (convert_bits_loop_start data Hd) as (acc & n & out & -> & Ha & Hn & Ho & Hb).
    cbn [mbind outcome_bind]. rewrite Z.gtb_ltb. destruct (Z.ltb_spec 0 (Z.of_nat n)).
    - rewrite pad_symbol_spec, ones_shiftl by (done || lia).
      rewrite (as_u8_fits t) by (lia || apply fits_land_ones).
      eexists _, (t - n)%nat. split_and!; [done | | lia |].
      + apply Forall_app; split; [done|]. constructor; [apply fits_land_ones | constructor].
      + rewrite bits_of_app, Hb, <- app_assoc. f_equal.
        rewrite bits_of_cons. cbn [bits_of map concat]. rewrite app_nil_r. apply bits_be_pad. lia.
    - exists out, 0%nat. replace n with 0%nat in * by lia. cbn [bits_be] in Hb.
      split_and!; [done | done | lia |]. rewrite app_nil_r in *. by rewrite Hb, app_nil_r || done.
  Qed.

  (** Without padding: accepted exactly when what is left over is less than an
      input symbol and all zeros. *)
Lemma convert_bits_nopad data out :
    Forall (fits f) data ->
    convert_bits data (Z.of_nat f) (Z.of_nat t) false = Ok out <->
    Forall (fits t) out /\
    exists q, (q < f)%nat /\ (q < t)%nat /\ bits_of f data = bits_of t out ++ replicate q false.
  Proof.
    intros Hd. unfold convert_bits.
    destruct (convert_bits_loop_start data Hd) as (acc & n & out' & -> & Ha & Hn & Ho & Hb).
    cbn [mbind outcome_bind]. rewrite pad_symbol_spec, ones_shiftl by (done || lia).
    set (last := Z.land _ _).
    assert (Hlast : last = 0 <-> bits_be n acc = replicate n false).
    { pose proof (bits_be_pad t n acc ltac:(lia)) as Hp. fold last in Hp.
      assert (Hfit : fits t last) by apply fits_land_ones. split.
      - intros H0. rewrite H0, bits_be_0 in Hp.
        replace t with (n + (t - n))%nat in Hp at 1 by lia.
        rewrite replicate_add in Hp. symmetry in Hp.
        by apply app_inj_1 in Hp as [? _]; [|by rewrite length_bits_be, length_replicate].
      - intros H0. apply (bits_be_inj t); [done | unfold fits in *; lia |].
        rewrite Hp, H0, bits_be_0, <- replicate_add. f_equal. lia. }
    split.
    - intros H. inv_ok. rewrite Z.geb_leb in H. reflect_bools. split; [done|].
      exists n. split_and!; [lia | done |]. by rewrite Hb, (proj1 Hlast).
    - intros (Ho2 & q & Hq1 & Hq2 & Hb2).
      assert (n = q /\ length out' = length out) as [-> Hlen].
      { pose proof (f_equal length Hb) as L1. pose proof (f_equal length Hb2) as L2.
        rewrite length_app, !length_bits_of, length_bits_be in L1.
        rewrite length_app, !length_bits_of, length_replicate in L2.
        destruct (Nat.div_mod_unique t (length out') (length out) n q) as [? ?]; [lia..|].
        by split. }
      rewrite Hb in Hb2. apply app_inj_1 in Hb2 as [E1 E2]; [|rewrite !length_bits_of; lia].
      apply bits_of_inj in E1; [|lia|done|done]. subst out'.
      apply Hlast in E2. rewrite E2, Z.geb_leb.
      replace (Z.of_nat f <=? Z.of_nat q) with false by (symmetry; apply Z.leb_gt; lia). done.
  Qed.

  (** The bytes of any input fit, or the call is refused; it never panics. *)
Lemma convert_bits_loop_no_panic data acc n out :
    Forall (fun v => 0 <= v) data -> fits (f + t - 1) acc -> (n < t)%nat ->
    no_panic (convert_bits_loop (Z.of_nat f) (Z.of_nat t) maxv max_acc acc (Z.of_nat n) out data).
  Proof.
    intros Hd. revert acc n out.
    induction Hd as [|v data Hv Hd IH]; intros acc n out Hacc Hn; cbn [convert_bits_loop]; [done|].
    apply no_panic_bind; [auto with panics | intros _ _].
    rewrite add_op_ok by (unfold u8_max; lia). cbn [mbind outcome_bind].
    replace (Z.of_nat n + Z.of_nat f) with (Z.of_nat (n + f)) by lia. rewrite Nat2Z.id.
    match goal with |- context [drain_bits _ _ _ ?a _ _] =>
      destruct (drain_bits_spec (n + f) a (n + f) out) as (n1 & more1 & -> & Hn1 & _); [lia|] end.
    apply IH; [apply fits_land_ones | done].
  Qed.

Lemma convert_bits_no_panic data pad :
    Forall (fun v => 0 <= v) data ->
    no_panic (convert_bits data (Z.of_nat f) (Z.of_nat t) pad).
  Proof.
    intros Hd. unfold convert_bits.
    apply no_panic_bind.
    - replace (Z.of_nat f + Z.of_nat t - 1) with (Z.of_nat (f + t - 1)) by lia.
      rewrite !ones_shiftl by lia. apply (convert_bits_loop_no_panic data 0 0 []); [done| |lia].
      unfold fits. pose proof (Z.pow_pos_nonneg 2 (Z.of_nat (f + t - 1))). lia.
    - intros [[acc bits] out] _. no_panics.
  Qed.
End Regroup.

(** Regrouping bytes into symbols and back is the identity. *)
Lemma convert_bits_8_5_8 payload :
  bytes_ok payload ->
  exists data, convert_bits payload 8 5 true = Ok data /\ Forall (fits 5) data /\
               convert_bits data 5 8 false = Ok payload.
Proof.
  intros Hp.
  assert (Hp' : Forall (fits 8) payload) by exact Hp.
  destruct (convert_bits_pad 8 5 ltac:(lia) ltac:(lia) payload Hp') as (data & p & E & Hd & Hlt & Hb).
  exists data. split_and!; [exact E | done |].
  apply (convert_bits_nopad 5 8); [lia | lia | done |]. split; [done|].
  exists p. split_and!; [lia | lia | done].
Qed.

(** A symbol string that regroups into bytes is the one the bytes regroup into. *)
Lemma convert_bits_5_8_5 data payload :
  Forall (fits 5) data -> convert_bits data 5 8 false = Ok payload ->
  Forall (fits 8) payload /\ convert_bits payload 8 5 true = Ok data.
Proof.
  intros Hd H.
  apply (convert_bits_nopad 5 8) in H as (Hp & q & Hq1 & Hq2 & Hb); [|lia|lia|done].
  split; [done|].
  destruct (convert_bits_pad 8 5 ltac:(lia) ltac:(lia) payload Hp) as (data' & p & E & Hd' & Hlt & Hb').
  change (Z.of_nat 8) with 8 in E. change (Z.of_nat 5) with 5 in E. rewrite E. f_equal.
  assert (p = q /\ length data' = length data) as [-> _].
  { pose proof (f_equal length Hb) as L1. pose proof (f_equal length Hb') as L2.
    rewrite length_app, !length_bits_of, length_replicate in L1, L2. lia. }
  rewrite <- Hb in Hb'. by apply (bits_of_inj 5) in Hb'.
Qed.
