(* ===== verification/Checksum.v ===== *)
(** * The Bech32 checksum

    [polymod] is linear over exclusive or; hence the written checksum verifies,
    and a change confined to six consecutive symbols never does. *)

From S2P Require Import Prelude Bits Codec.

(** ** Bounded integers under exclusive or *)

Lemma fits_iff n x :
  fits n x <-> 0 <= x /\ forall i, Z.of_nat n <= i -> Z.testbit x i = false.
Proof.
  split.
  - intros H. split; [apply H | intros i; by apply testbit_high].
  - intros [H0 H].
    assert (x = Z.land x (Z.ones (Z.of_nat n))) as ->.
    { apply Z.bits_inj'. intros i Hi. rewrite testbit_land_ones by lia.
      destruct (Z.ltb_spec i (Z.of_nat n)); [by rewrite andb_true_r|].
      by rewrite H, andb_false_r by done. }
    apply fits_land_ones.
Qed.

Lemma fits_lxor n x y : fits n x -> fits n y -> fits n (Z.lxor x y).
Proof.
  rewrite !fits_iff. intros [Hx Hx'] [Hy Hy']. split; [by apply Z.lxor_nonneg|].
  intros i Hi. by rewrite Z.lxor_spec, Hx', Hy'.
Qed.

Lemma lxor_swap a b c d : Z.lxor (Z.lxor a b) (Z.lxor c d) = Z.lxor (Z.lxor a c) (Z.lxor b d).
Proof. rewrite !Z.lxor_assoc. f_equal. rewrite <- !Z.lxor_assoc. f_equal. apply Z.lxor_comm. Qed.

Lemma lxor_cancel a b c : Z.lxor a b = Z.lxor a c -> b = c.
Proof.
  intros H. apply (f_equal (Z.lxor a)) in H.
  by rewrite <- !Z.lxor_assoc, Z.lxor_nilpotent, !Z.lxor_0_l in H.
Qed.

(** ** Linearity of one step *)

Definition generators (b : Z) : Z := apply_generators 0 GEN b 0.

(** The step on a zero symbol. *)
Definition shift_step (x : Z) : Z := polymod_step x 0.

Lemma low_bit_test b i : 0 <= i -> (Z.land (Z.shiftr b i) 1 =? 0) = negb (Z.testbit b i).
Proof.
  intros Hi. change 1 with (Z.ones 1). rewrite Z.land_ones by lia.
  change (2 ^ 1) with 2. rewrite <- Z.bit0_mod, Z.shiftr_spec by lia.
  rewrite Z.add_0_l. by destruct (Z.testbit b i).
Qed.

Lemma apply_generators_acc i gens b x :
  apply_generators i gens b x = Z.lxor x (apply_generators i gens b 0).
Proof.
  revert i x. induction gens as [|g gens IH]; intros i x; cbn [apply_generators].
  - by rewrite Z.lxor_0_r.
  - destruct (_ =? 0); [apply IH|].
    rewrite IH, (IH _ (Z.lxor 0 g)), Z.lxor_0_l. by rewrite Z.lxor_assoc.
Qed.

Lemma apply_generators_lxor i gens b c :
  0 <= i ->
  apply_generators i gens (Z.lxor b c) 0
  = Z.lxor (apply_generators i gens b 0) (apply_generators i gens c 0).
Proof.
  revert i. induction gens as [|g gens IH]; intros i Hi; cbn [apply_generators]; [done|].
  rewrite !low_bit_test, Z.lxor_spec by done.
  destruct (Z.testbit b i), (Z.testbit c i); cbn [negb xorb]; rewrite ?Z.lxor_0_l;
    rewrite ?(apply_generators_acc _ _ _ g), IH by lia.
  - by rewrite lxor_swap, Z.lxor_nilpotent, Z.lxor_0_l.
  - by rewrite Z.lxor_assoc.
  - by rewrite <- !Z.lxor_assoc, (Z.lxor_comm g).
  - done.
Qed.

Lemma polymod_step_split x v : polymod_step x v = Z.lxor (shift_step x) v.
Proof.
  unfold shift_step, polymod_step. cbv zeta.
  rewrite apply_generators_acc, (apply_generators_acc _ _ _ (Z.lxor _ 0)), Z.lxor_0_r.
  by rewrite !Z.lxor_assoc, (Z.lxor_comm v).
Qed.

Lemma shift_step_eq x :
  shift_step x
  = Z.lxor (as_u32 (Z.shiftl (Z.land x 0x1FFFFFF) 5)) (generators (Z.shiftr x 25)).
Proof.
  unfold shift_step, polymod_step. cbv zeta.
  by rewrite apply_generators_acc, Z.lxor_0_r.
Qed.

Lemma shift_step_lxor x y : shift_step (Z.lxor x y) = Z.lxor (shift_step x) (shift_step y).
Proof.
  rewrite !shift_step_eq, lxor_swap. f_equal.
  - unfold as_u32. rewrite <- !Z.land_ones by lia.
    apply Z.bits_inj'. intros i Hi.
    rewrite !Z.lxor_spec, !testbit_land_ones, !Z.shiftl_spec by lia.
    change 0x1FFFFFF with (Z.ones 25).
    destruct (Z.lt_ge_cases i 5); [by rewrite !(Z.testbit_neg_r _ (i - 5)) by lia|].
    rewrite !testbit_land_ones, Z.lxor_spec by lia.
    by destruct (Z.testbit x _), (Z.testbit y _), (_ <? 25), (_ <? 32).
  - rewrite Z.shiftr_lxor. by apply apply_generators_lxor.
Qed.

(** ** States stay within 30 bits *)

Lemma shiftr_25_range x : fits 30 x -> 0 <= Z.shiftr x 25 < 32.
Proof.
  unfold fits. cbn [Z.of_nat]. intros H. rewrite Z.shiftr_div_pow2 by lia.
  split; [apply Z.div_pos; lia | apply Z.div_lt_upper_bound; lia].
Qed.

(** A property of the five-bit index of the generators, checked on all 32 values. *)
Lemma five_bits_ind (P : Z -> bool) :
  forallb P (seqZ 0 32) = true -> forall b, 0 <= b < 32 -> P b = true.
Proof.
  intros H b Hb. rewrite forallb_forall in H. apply H.
  apply list_elem_of_In, elem_of_seqZ. lia.
Qed.

Lemma generators_fit b : 0 <= b < 32 -> fits 30 (generators b).
Proof.
  intros Hb.
  pose proof (five_bits_ind
    (fun b => (0 <=? generators b) && (generators b <? 2 ^ 30)) eq_refl b Hb) as H.
  cbv beta in H. reflect_bools. by split.
Qed.

(** The low five bits of the generators are linearly independent. *)
Lemma generators_low b : 0 <= b < 32 -> Z.land (generators b) 31 = 0 -> b = 0.
Proof.
  intros Hb H0.
  pose proof (five_bits_ind
    (fun b => negb (Z.land (generators b) 31 =? 0) || (b =? 0)) eq_refl b Hb) as H.
  cbv beta in H. rewrite H0 in H. cbn in H. by apply Z.eqb_eq.
Qed.

Lemma low_part_fits x : fits 30 (Z.shiftl (Z.land x 0x1FFFFFF) 5).
Proof. apply (fits_shiftl 25 5), (fits_land_ones x 25). Qed.

Lemma low_part_u32 x :
  as_u32 (Z.shiftl (Z.land x 0x1FFFFFF) 5) = Z.shiftl (Z.land x 0x1FFFFFF) 5.
Proof. apply (as_u32_fits 30); [lia | apply low_part_fits]. Qed.

Lemma shift_step_fits x : fits 30 x -> fits 30 (shift_step x).
Proof.
  intros Hx. rewrite shift_step_eq, low_part_u32.
  apply fits_lxor; [apply low_part_fits | by apply generators_fit, shiftr_25_range].
Qed.

Lemma polymod_step_fits x v : fits 30 x -> fits 5 v -> fits 30 (polymod_step x v).
Proof.
  intros Hx Hv. rewrite polymod_step_split. apply fits_lxor; [by apply shift_step_fits|].
  apply (fits_le 5); [lia | done].
Qed.

Lemma polymod_fold_fits vs x :
  fits 30 x -> Forall (fits 5) vs -> fits 30 (fold_left polymod_step vs x).
Proof.
  intros Hx Hv. revert x Hx. induction Hv; intros y Hy; cbn [fold_left]; [done|].
  apply IHHv, polymod_step_fits; done.
Qed.

(** On states below [2^25] nothing is reduced: a step is a plain shift. *)
Lemma shift_step_small x : fits 25 x -> shift_step x = Z.shiftl x 5.
Proof.
  intros Hx. rewrite shift_step_eq, low_part_u32.
  replace (Z.shiftr x 25) with 0
    by (symmetry; rewrite Z.shiftr_div_pow2 by lia; apply Z.div_small, Hx).
  change (generators 0) with 0. rewrite Z.lxor_0_r. f_equal.
  change 0x1FFFFFF with (Z.ones 25). rewrite Z.land_ones by lia. apply Z.mod_small, Hx.
Qed.

(** The kernel of the step is trivial, so the step is injective. *)
Lemma shift_step_kernel x : fits 30 x -> shift_step x = 0 -> x = 0.
Proof.
  intros Hx H. rewrite shift_step_eq, low_part_u32 in H. apply Z.lxor_eq in H.
  assert (Hb : Z.shiftr x 25 = 0).
  { apply generators_low; [by apply shiftr_25_range|]. rewrite <- H.
    apply Z.bits_inj'. intros i Hi. change 31 with (Z.ones 5).
    rewrite testbit_land_ones, Z.testbit_0_l by lia.
    destruct (Z.ltb_spec i 5); [|by rewrite andb_false_r].
    by rewrite Z.shiftl_spec_low by lia. }
  rewrite Hb in H. change (generators 0) with 0 in H.
  assert (Hlow : x < 2 ^ 25).
  { rewrite Z.shiftr_div_pow2 in Hb by lia. apply Z.div_small_iff in Hb; [|lia].
    unfold fits in Hx. lia. }
  rewrite Z.shiftl_mul_pow2 in H by lia.
  change 0x1FFFFFF with (Z.ones 25) in H. rewrite Z.land_ones in H by lia.
  unfold fits in Hx. rewrite Z.mod_small in H by lia. lia.
Qed.

Lemma polymod_step_inj x y v :
  fits 30 x -> fits 30 y -> polymod_step x v = polymod_step y v -> x = y.
Proof.
  intros Hx Hy. rewrite !polymod_step_split, !(Z.lxor_comm _ v). intros H%lxor_cancel.
  apply Z.lxor_eq, shift_step_kernel; [by apply fits_lxor|].
  by rewrite shift_step_lxor, H, Z.lxor_nilpotent.
Qed.

Lemma polymod_fold_inj vs x y :
  Forall (fits 5) vs -> fits 30 x -> fits 30 y ->
  fold_left polymod_step vs x = fold_left polymod_step vs y -> x = y.
Proof.
  intros Hv. revert x y. induction Hv as [|v vs Hv Hvs IH]; intros x y Hx Hy; cbn [fold_left];
    [done|].
  intros H. apply (polymod_step_inj x y v); [done..|].
  apply IH; [by apply polymod_step_fits.. | done].
Qed.

(** ** Superposition *)

Lemma polymod_fold_lxor vs x y :
  fold_left polymod_step vs (Z.lxor x y)
  = Z.lxor (fold_left polymod_step (replicate (length vs) 0) x) (fold_left polymod_step vs y).
Proof.
  revert x y. induction vs as [|v vs IH]; intros x y; cbn [fold_left length replicate]; [done|].
  rewrite (polymod_step_split (Z.lxor x y)), shift_step_lxor, Z.lxor_assoc,
    <- (polymod_step_split y).
  rewrite IH. by rewrite (polymod_step_split x), Z.lxor_0_r.
Qed.

(** Reading [vs] from state [x] is reading zeros from [x] plus reading [vs] from zero. *)
Lemma polymod_fold_split vs x :
  fold_left polymod_step vs x
  = Z.lxor (fold_left polymod_step (replicate (length vs) 0) x) (fold_left polymod_step vs 0).
Proof. by rewrite <- polymod_fold_lxor, Z.lxor_0_r. Qed.

(** Below the reduction bound a symbol is appended to the bits of the state. *)
Lemma polymod_step_append n x v :
  fits n x -> (n <= 25)%nat -> fits 5 v ->
  fits (n + 5) (polymod_step x v) /\
  bits_be (n + 5) (polymod_step x v) = bits_be n x ++ bits_be 5 v.
Proof.
  intros Hx Hn Hv.
  assert (E : polymod_step x v
              = Z.land (Z.lor (Z.shiftl x 5) v) (Z.ones (Z.of_nat (n + 5)))).
  { rewrite polymod_step_split, shift_step_small by (by apply (fits_le n)).
    pose proof (proj1 (fits_iff _ _) Hv) as [Hv0 Hvh].
    pose proof (proj1 (fits_iff _ _) (fits_shiftl n 5 x Hx)) as [_ Hxh].
    change (Z.of_nat 5) with 5 in *.
    apply Z.bits_inj'. intros i Hi. rewrite testbit_land_ones, Z.lor_spec, Z.lxor_spec by lia.
    destruct (Z.ltb_spec i (Z.of_nat (n + 5))).
    - rewrite andb_true_r. destruct (Z.lt_ge_cases i 5).
      + by rewrite Z.shiftl_spec_low by lia.
      + by rewrite (Hvh i), xorb_false_r, orb_false_r by lia.
    - rewrite (Hvh i), (Hxh i) by lia. done. }
  rewrite E. split; [apply fits_land_ones | by apply (bits_be_push n 5 (n + 5))].
Qed.

(** Up to six symbols read from zero are just written side by side. *)
Lemma polymod_fold_digits vs :
  Forall (fits 5) vs -> (length vs <= 6)%nat ->
  fits (5 * length vs) (fold_left polymod_step vs 0) /\
  bits_be (5 * length vs) (fold_left polymod_step vs 0) = bits_of 5 vs.
Proof.
  induction vs as [|v vs IH] using rev_ind.
  - intros _ _. split; [by cbn | done].
  - intros [Hvs Hv]%Forall_app. apply Forall_inv in Hv. rewrite length_app. cbn [length].
    intros Hlen. destruct IH as [IH1 IH2]; [done | lia|]. rewrite fold_left_app. cbn [fold_left].
    replace (5 * (length vs + 1))%nat with (5 * length vs + 5)%nat by lia.
    destruct (polymod_step_append (5 * length vs) (fold_left polymod_step vs 0) v)
      as [H1 H2]; [exact IH1 | lia | exact Hv |].
    split; [done|]. rewrite H2, IH2, bits_of_app, bits_of_cons.
    cbn [bits_of map concat]. by rewrite app_nil_r.
Qed.

(** ** The written checksum *)

Lemma hrp_expand_fits hrp : bytes_ok (as_bytes hrp) -> Forall (fits 5) (hrp_expand hrp).
Proof.
  intros H. unfold hrp_expand. apply Forall_app; split; [|apply Forall_app; split].
  - apply Forall_map. eapply Forall_impl; [exact H|]. unfold is_byte, fits. cbn. intros b Hb.
    rewrite Z.shiftr_div_pow2 by lia. change (2 ^ 5) with 32 in *. change (Z.pow_pos 2 5) with 32.
    split; [apply Z.div_pos; lia | apply Z.div_lt_upper_bound; lia].
  - constructor; [by cbn | constructor].
  - apply Forall_map. eapply Forall_impl; [exact H|]. intros b _. apply (fits_land_ones b 5).
Qed.

(** The state the checksum of [data] starts from. *)
Definition checksum_target (hrp : str) (data : list Z) : Z :=
  Z.lxor (polymod (hrp_expand hrp ++ data ++ replicate 6 0)) 1.

Lemma checksum_target_fits hrp data :
  bytes_ok (as_bytes hrp) -> Forall (fits 5) data -> fits 30 (checksum_target hrp data).
Proof.
  intros Hh Hd. apply fits_lxor; [|by cbn]. apply polymod_fold_fits; [by cbn|].
  apply Forall_app; split; [by apply hrp_expand_fits|]. apply Forall_app; split; [done|].
  apply Forall_replicate. by cbn.
Qed.

Lemma create_checksum_bits hrp data :
  length (create_checksum hrp data) = 6%nat /\
  Forall (fits 5) (create_checksum hrp data) /\
  bits_of 5 (create_checksum hrp data) = bits_be 30 (checksum_target hrp data).
Proof.
  unfold create_checksum. cbv zeta. change [0; 0; 0; 0; 0; 0] with (replicate 6 0).
  fold (checksum_target hrp data). set (pm := checksum_target hrp data).
  change (seqZ 0 6) with [0; 1; 2; 3; 4; 5]. cbn [map]. change 31 with (Z.ones 5).
  assert (H : forall k, as_u8 (Z.land (Z.shiftr pm k) (Z.ones 5))
                        = Z.land (Z.shiftr pm k) (Z.ones 5)).
  { intros k. apply (as_u8_fits 5); [lia | apply (fits_land_ones _ 5)]. }
  rewrite !H. split_and!; [done | |].
  - repeat (constructor; [apply (fits_land_ones _ 5)|]). constructor.
  - rewrite (bits_be_top 5 25), (bits_be_top 5 20), (bits_be_top 5 15), (bits_be_top 5 10),
      (bits_be_top 5 5).
    change (bits_be 5 pm) with (bits_be (5 + 0) pm). rewrite bits_be_top.
    unfold bits_of. cbn [map concat]. done.
Qed.

(** Six symbols complete [data] to a valid text exactly when they spell the target. *)
Lemma verify_checksum_split hrp data cs :
  bytes_ok (as_bytes hrp) -> Forall (fits 5) data -> Forall (fits 5) cs -> length cs = 6%nat ->
  verify_checksum hrp (data ++ cs) = true <->
  bits_of 5 cs = bits_be 30 (checksum_target hrp data).
Proof.
  intros Hh Hd Hc Hl. unfold verify_checksum, polymod. rewrite Z.eqb_eq.
  rewrite app_assoc, fold_left_app, polymod_fold_split, Hl, <- fold_left_app, <- app_assoc.
  change (fold_left polymod_step (hrp_expand hrp ++ data ++ replicate 6 0) 1)
    with (polymod (hrp_expand hrp ++ data ++ replicate 6 0)).
  destruct (polymod_fold_digits cs) as [F B]; [done | lia|].
  rewrite Hl in F, B. change (5 * 6)%nat with 30%nat in F, B. rewrite <- B.
  pose proof (checksum_target_fits hrp data Hh Hd) as T. split.
  - intros H. f_equal. apply (lxor_cancel (polymod (hrp_expand hrp ++ data ++ replicate 6 0))).
    rewrite H. unfold checksum_target.
    by rewrite <- Z.lxor_assoc, Z.lxor_nilpotent, Z.lxor_0_l.
  - intros H%bits_be_inj; [|done..]. rewrite H. unfold checksum_target.
    by rewrite <- Z.lxor_assoc, Z.lxor_nilpotent, Z.lxor_0_l.
Qed.

Lemma create_checksum_verifies hrp data :
  bytes_ok (as_bytes hrp) -> Forall (fits 5) data ->
  verify_checksum hrp (data ++ create_checksum hrp data) = true.
Proof.
  intros Hh Hd. destruct (create_checksum_bits hrp data) as (Hl & Hf & Hb).
  by apply verify_checksum_split.
Qed.

Lemma create_checksum_unique hrp data cs :
  bytes_ok (as_bytes hrp) -> Forall (fits 5) data -> Forall (fits 5) cs -> length cs = 6%nat ->
  verify_checksum hrp (data ++ cs) = true -> cs = create_checksum hrp data.
Proof.
  intros Hh Hd Hc Hl Hv. apply verify_checksum_split in Hv; [|done..].
  destruct (create_checksum_bits hrp data) as (_ & Hf & Hb).
  apply (bits_of_inj 5); [done..|]. by rewrite Hb.
Qed.

(** Replacing up to six consecutive symbols changes the final state. *)
Lemma polymod_burst pre mid mid' post x :
  fits 30 x ->
  Forall (fits 5) pre -> Forall (fits 5) mid -> Forall (fits 5) mid' -> Forall (fits 5) post ->
  length mid = length mid' -> (length mid <= 6)%nat ->
  fold_left polymod_step (pre ++ mid ++ post) x = fold_left polymod_step (pre ++ mid' ++ post) x ->
  mid = mid'.
Proof.
  intros Hx Hpre Hmid Hmid' Hpost Hlen H6. rewrite !fold_left_app.
  assert (Hs : fits 30 (fold_left polymod_step pre x)) by by apply polymod_fold_fits.
  intros H. apply polymod_fold_inj in H; [|done| by apply polymod_fold_fits..].
  rewrite (polymod_fold_split mid), (polymod_fold_split mid'), Hlen in H.
  apply lxor_cancel in H.
  destruct (polymod_fold_digits mid) as [_ B]; [done | lia|].
  destruct (polymod_fold_digits mid') as [_ B']; [done | lia|].
  apply (bits_of_inj 5); [done..|]. by rewrite <- B, <- B', H, Hlen.
Qed.
