(* ===== verification/Bech32.v ===== *)
(** * Reading and writing Bech32 text

    What [bech32_decode] accepts, and that it inverts [bech32_encode] in both
    directions, refuses every burst of wrong symbols and never panics. *)

From S2P Require Import Prelude Bits Codec Regroup Checksum.

(** ** The alphabet *)

Definition printable (c : Z) : bool := (33 <=? c) && (c <=? 126).

(** A letter of the data part: printable, not upper case, not the separator. *)
Definition data_char (c : Z) : bool :=
  printable c && negb (is_ascii_uppercase c) && negb (c =? 49).

Lemma bech32_arms_ok :
  forallb (fun '(c, v) =>
    data_char c && (0 <=? v) && (v <? 32) &&
    bool_decide (value_to_char v = Some c) && bool_decide (char_to_value c = Some v))
    bech32_arms = true.
Proof. by vm_compute. Qed.

Lemma char_to_value_inv c v :
  char_to_value c = Some v -> value_to_char v = Some c /\ fits 5 v /\ data_char c = true.
Proof.
  unfold char_to_value. intros H. apply fmap_Some in H as ([c' v'] & Hf & Hv). cbn in Hv. subst v'.
  apply List.find_some in Hf as [Hin Hc]. cbn in Hc. apply Z.eqb_eq in Hc. subst c'.
  pose proof bech32_arms_ok as Ha. rewrite forallb_forall in Ha. apply Ha in Hin.
  cbn beta iota in Hin. reflect_bools.
  split_and!; [done | split; [lia | cbn; lia] | done].
Qed.

Lemma value_to_char_total v :
  fits 5 v -> exists c, value_to_char v = Some c /\ char_to_value c = Some v /\ data_char c = true.
Proof.
  intros Hv.
  pose proof (five_bits_ind
    (fun v => match value_to_char v with
              | Some c => bool_decide (char_to_value c = Some v) && data_char c
              | None => false end) eq_refl v Hv) as H.
  cbv beta in H. destruct (value_to_char v) as [c|]; [|done].
  reflect_bools. by exists c.
Qed.

Lemma mapM_value_to_char vs :
  Forall (fits 5) vs ->
  exists cs, mapM value_to_char vs = Some cs /\ chars_to_values cs = Ok vs /\
             Forall (fun c => data_char c = true) cs.
Proof.
  induction 1 as [|v vs Hv _ (cs & IH1 & IH2 & IH3)]; [by exists []|].
  destruct (value_to_char_total v Hv) as (c & Hc1 & Hc2 & Hc3).
  exists (c :: cs). cbn. rewrite Hc1. cbn. rewrite IH1, Hc2. cbn. rewrite IH2. cbn.
  split_and!; [done..|]. by constructor.
Qed.

Lemma chars_to_values_inv cs vs :
  chars_to_values cs = Ok vs ->
  mapM value_to_char vs = Some cs /\ Forall (fits 5) vs /\
  Forall (fun c => data_char c = true) cs /\ length vs = length cs.
Proof.
  revert vs. induction cs as [|c cs IH]; intros vs H; cbn [chars_to_values] in H; inv_ok.
  - by split_and!; try constructor.
  - match goal with H : char_to_value _ = Some _ |- _ => apply char_to_value_inv in H as (E & F & D) end.
    match goal with H : chars_to_values _ = Ok _ |- _ => apply IH in H as (E' & F' & D' & L) end.
    cbn. rewrite E. cbn. rewrite E'. cbn.
    split_and!; [done | by constructor | by constructor | by rewrite L].
Qed.

Lemma no_panic_chars_to_values cs : no_panic (chars_to_values cs).
Proof. induction cs as [|c cs IH]; cbn [chars_to_values]; no_panics. Qed.
#[export] Hint Resolve no_panic_chars_to_values : panics.

Lemma data_chars_no_separator cs : Forall (fun c => data_char c = true) cs -> 49 ∉ cs.
Proof.
  intros H Hin. rewrite Forall_forall in H. apply H in Hin. done.
Qed.

(** ** Letter case *)

Lemma scan_case_eq s l u :
  scan_case s l u
  = if forallb printable s
    then Ok (l || existsb is_ascii_lowercase s, u || existsb is_ascii_uppercase s)
    else Err NonPrintable.
Proof.
  revert l u. induction s as [|c s IH]; intros l u; cbn [scan_case forallb existsb].
  - by rewrite !orb_false_r.
  - fold (printable c). destruct (printable c); cbn [negb andb reject_if mbind outcome_bind]; [|done].
    rewrite IH. destruct (forallb printable s); [|done]. by rewrite !orb_assoc.
Qed.

Definition uniform_case (s : str) : bool :=
  negb (existsb is_ascii_lowercase s && existsb is_ascii_uppercase s).

Lemma printable_ascii s : forallb printable s = true -> is_ascii s.
Proof.
  rewrite forallb_forall. intros H. apply Forall_forall. intros c Hc%list_elem_of_In.
  apply H in Hc. unfold printable in Hc. reflect_bools. lia.
Qed.

Lemma char_to_lower_printable c : printable (char_to_lower c) = printable c.
Proof.
  unfold char_to_lower, is_ascii_uppercase, printable.
  destruct ((65 <=? c) && (c <=? 90)) eqn:H; [|done]. reflect_bools.
  rewrite !(proj2 (Z.leb_le _ _)) by lia. done.
Qed.

Lemma lower_printable s : forallb printable (to_ascii_lowercase s) = forallb printable s.
Proof.
  induction s as [|c s IH]; [done|]. rewrite to_ascii_lowercase_cons. cbn [forallb].
  by rewrite char_to_lower_printable, IH.
Qed.

Lemma lower_data_chars cs :
  Forall (fun c => data_char c = true) cs -> to_ascii_lowercase cs = cs.
Proof.
  induction 1 as [|c cs Hc _ IH]; [done|]. rewrite to_ascii_lowercase_cons, IH. f_equal.
  unfold data_char in Hc. reflect_bools. unfold char_to_lower.
  by destruct (is_ascii_uppercase c).
Qed.

Lemma char_to_lower_not_upper c : is_ascii_uppercase (char_to_lower c) = false.
Proof.
  unfold char_to_lower. destruct (is_ascii_uppercase c) eqn:H; [|done].
  unfold is_ascii_uppercase in *. reflect_bools.
  apply andb_false_iff. right. apply Z.leb_gt. lia.
Qed.

Lemma lower_uniform s : uniform_case (to_ascii_lowercase s) = true.
Proof.
  unfold uniform_case.
  replace (existsb is_ascii_uppercase (to_ascii_lowercase s)) with false;
    [by rewrite andb_false_r|].
  symmetry. induction s as [|c s IH]; [done|]. rewrite to_ascii_lowercase_cons.
  cbn [existsb]. by rewrite char_to_lower_not_upper.
Qed.

Lemma lower_separator s : (49 ∈ to_ascii_lowercase s) <-> 49 ∈ s.
Proof.
  unfold to_ascii_lowercase. rewrite list_elem_of_fmap. split.
  - intros (c & Hc & Hin). unfold char_to_lower, is_ascii_uppercase in Hc.
    destruct ((65 <=? c) && (c <=? 90)) eqn:Hu; [reflect_bools; lia | by subst].
  - intros H. by exists 49.
Qed.

(** ** What the reader accepts *)

Definition decodes_to (addr h : str) (cs : str) (data payload : list Z) : Prop :=
  forallb printable addr = true /\ uniform_case addr = true /\
  to_ascii_lowercase addr = h ++ 49 :: cs /\ h <> [] /\ (49 ∉ cs) /\ (6 <= length cs)%nat /\
  chars_to_values cs = Ok data /\ verify_checksum h data = true /\
  convert_bits (take (length data - 6) data) 5 8 false = Ok payload.

Lemma rfind_split s pos :
  is_ascii s -> rfind 49 s = Some pos ->
  exists h cs, s = h ++ 49 :: cs /\ pos = zlen h /\ (49 ∉ cs) /\
    split_at s pos = Some (h, 49 :: cs) /\ split_at s (pos + 1) = Some (h ++ [49], cs).
Proof.
  intros Ha H. apply rfind_from_spec in H as (h & cs & -> & -> & Hcs); [|done].
  exists h, cs. rewrite Z.add_0_l.
  apply Forall_app in Ha as [Hh _]. split_and!; [done | done | done | by apply split_at_ascii |].
  replace (h ++ 49 :: cs) with ((h ++ [49]) ++ cs) by by rewrite <- app_assoc.
  replace (zlen h + 1) with (zlen (h ++ [49])) by (autorewrite with zlens; lia).
  apply split_at_ascii. apply Forall_app; split; [done|]. by repeat constructor.
Qed.

Lemma bech32_decode_inv addr h payload :
  bech32_decode addr = Ok (h, payload) -> exists cs data, decodes_to addr h cs data payload.
Proof.
  unfold bech32_decode. intros H. rewrite scan_case_eq in H.
  destruct (forallb printable addr) eqn:Hp; [|by apply bind_ok_inv in H as (? & _ & ?)].
  apply bind_ok_inv in H as (_ & _ & H). cbn [mbind outcome_bind] in H.
  assert (Ha : is_ascii (to_ascii_lowercase addr))
    by (apply printable_ascii; by rewrite lower_printable).
  apply bind_ok_inv in H as (_ & Hcase%reject_if_ok & H).
  apply bind_ok_inv in H as (pos & Hpos%ok_or_ok & H).
  destruct (rfind_split _ _ Ha Hpos) as (h' & cs & E & -> & Hcs & S1 & S2).
  rewrite S1, S2, str_len_ascii, E in H by done. cbn [expect mbind outcome_bind] in H.
  apply bind_ok_inv in H as (_ & Hh%reject_if_ok & H).
  rewrite zlen_app, zlen_cons in H.
  rewrite sub_op_ok in H by (pose proof (zlen_nonneg cs); lia). cbn [mbind outcome_bind] in H.
  rewrite sub_op_ok in H by (pose proof (zlen_nonneg cs); lia). cbn [mbind outcome_bind] in H.
  apply bind_ok_inv in H as (_ & Hlen%reject_if_ok & H).
  apply bind_ok_inv in H as (data & Hdata & H).
  apply bind_ok_inv in H as (_ & Hv%reject_if_ok & H).
  pose proof (chars_to_values_inv _ _ Hdata) as (_ & _ & _ & L).
  reflect_bools. unfold zlen in *.
  rewrite sub_op_ok in H by lia. cbn [mbind outcome_bind] in H.
  rewrite slice_ok in H by (unfold zlen; lia). cbn [mbind outcome_bind] in H.
  apply bind_ok_inv in H as (p & Hconv & [= <- <-]).
  exists cs, data. split_and!; try done.
  - unfold uniform_case. cbn [orb] in Hcase. by rewrite Hcase.
  - intros ->. cbn in Hh. lia.
  - lia.
  - rewrite <- Hconv. f_equal. rewrite drop_0. f_equal. lia.
Qed.

Lemma bech32_decode_intro addr h cs data payload :
  decodes_to addr h cs data payload -> bech32_decode addr = Ok (h, payload).
Proof.
  intros (Hp & Hu & E & Hh & Hcs & Hlen & Hdata & Hv & Hconv).
  assert (Ha : is_ascii (to_ascii_lowercase addr))
    by (apply printable_ascii; by rewrite lower_printable).
  assert (Haddr : str_len addr <> 0).
  { rewrite str_len_ascii by by apply printable_ascii.
    intros H0. apply (f_equal length) in E.
    unfold to_ascii_lowercase in E. rewrite length_map, length_app in E. cbn [length] in E.
    unfold zlen in H0. lia. }
  unfold bech32_decode. rewrite (proj2 (Z.eqb_neq _ _) Haddr), scan_case_eq, Hp.
  cbn [reject_if mbind outcome_bind orb]. unfold uniform_case in Hu. apply negb_true_iff in Hu.
  rewrite Hu. cbn [reject_if mbind outcome_bind].
  assert (Hpos : rfind 49 (to_ascii_lowercase addr) = Some (zlen h)).
  { rewrite E in Ha |- *. apply Forall_app in Ha as [Ha _]. by apply rfind_last. }
  rewrite Hpos. cbn [ok_or mbind outcome_bind].
  destruct (rfind_split _ _ Ha Hpos) as (h' & cs' & E' & Hz & Hcs' & S1 & S2).
  assert (h' = h /\ cs' = cs) as [-> ->].
  { rewrite E in E'. apply app_inj_1 in E' as [-> [= ->]]; [done|]. unfold zlen in Hz. lia. }
  assert (0 < zlen h) by (destruct h; [done | rewrite zlen_cons; pose proof (zlen_nonneg h); lia]).
  rewrite (proj2 (Z.ltb_ge _ _)) by lia. cbn [reject_if mbind outcome_bind].
  rewrite S1, S2, str_len_ascii, E, zlen_app, zlen_cons by done.
  pose proof (zlen_nonneg cs).
  rewrite sub_op_ok by lia. cbn [mbind outcome_bind].
  rewrite sub_op_ok by lia. cbn [mbind outcome_bind].
  rewrite (proj2 (Z.ltb_ge _ _)) by (unfold zlen in *; lia).
  cbn [reject_if mbind outcome_bind expect]. rewrite Hdata. cbn [mbind outcome_bind].
  rewrite Hv. cbn [negb reject_if mbind outcome_bind].
  pose proof (chars_to_values_inv _ _ Hdata) as (_ & _ & _ & L).
  rewrite sub_op_ok by (unfold zlen; lia). cbn [mbind outcome_bind].
  rewrite slice_ok by (unfold zlen; lia). cbn [mbind outcome_bind]. rewrite drop_0.
  replace (Z.to_nat (zlen data - 6 - 0)) with (length data - 6)%nat by (unfold zlen; lia).
  by rewrite Hconv.
Qed.

(** ** Theorems *)

Lemma split_unique {A} (x x' y y' : list A) c :
  x ++ c :: y = x' ++ c :: y' -> c ∉ y -> c ∉ y' -> x = x' /\ y = y'.
Proof.
  revert x'. induction x as [|v x IH]; intros [|v' x'] E Hy Hy'; cbn in E.
  - by injection E.
  - injection E as -> ->. destruct Hy. apply elem_of_app. right. by left.
  - injection E as -> <-. destruct Hy'. apply elem_of_app. right. by left.
  - injection E as -> E. by destruct (IH x' E Hy Hy') as [-> ->].
Qed.

Lemma chars_to_values_app a b vs :
  chars_to_values (a ++ b) = Ok vs ->
  exists va vb, vs = va ++ vb /\ chars_to_values a = Ok va /\ chars_to_values b = Ok vb.
Proof.
  revert vs. induction a as [|c a IH]; intros vs H; cbn [app chars_to_values] in *.
  - by exists [], vs.
  - inv_ok. match goal with H : chars_to_values _ = Ok _ |- _ => apply IH in H as (va & vb & -> & Ha & Hb) end.
    exists (x :: va), vb. split_and!; [done | | done].
    match goal with H : char_to_value _ = Some _ |- _ => rewrite H end. cbn. by rewrite Ha.
Qed.

(** The parts of an accepted text, read off at the last separator. *)
Lemma accepted_data h t p :
  bech32_decode (h ++ 49 :: t) = Ok p -> 49 ∉ t ->
  exists payload data, p = (to_ascii_lowercase h, payload) /\
    chars_to_values (to_ascii_lowercase t) = Ok data /\
    bytes_ok (as_bytes (to_ascii_lowercase h)) /\
    verify_checksum (to_ascii_lowercase h) data = true.
Proof.
  destruct p as [h' payload]. intros H Ht.
  apply bech32_decode_inv in H as (cs & data & Hp & _ & E & _ & Hcs & _ & Hd & Hv & _).
  rewrite to_ascii_lowercase_app, to_ascii_lowercase_cons in E.
  change (char_to_lower 49) with 49 in E.
  apply split_unique in E as [<- <-]; [|by rewrite lower_separator | done].
  exists payload, data. split_and!; try done.
  rewrite forallb_app in Hp. apply andb_true_iff in Hp as [Hp _].
  assert (is_ascii (to_ascii_lowercase h)) by (apply printable_ascii; by rewrite lower_printable).
  rewrite as_bytes_ascii by done. by apply is_ascii_bytes.
Qed.


(** A written text is read by the reader, in any uniform letter case. *)
Lemma bech32_encode_decodes hrp payload :
  hrp <> [] -> forallb printable hrp = true -> bytes_ok payload ->
  exists s cs data, bech32_encode hrp payload = Ok s /\ to_ascii_lowercase s = s /\
    forall s', to_ascii_lowercase s' = s -> uniform_case s' = true ->
      decodes_to s' (to_ascii_lowercase hrp) cs data payload.
Proof.
  intros Hne Hp Hb. unfold bech32_encode.
  pose proof (printable_ascii _ Hp) as Ha.
  set (h := to_ascii_lowercase hrp).
  assert (Hlp : forallb printable h = true) by by (unfold h; rewrite lower_printable).
  assert (Hhb : bytes_ok (as_bytes h)).
  { rewrite as_bytes_ascii by by apply printable_ascii. by apply is_ascii_bytes, printable_ascii. }
  rewrite str_len_ascii, as_bytes_ascii by done.
  rewrite (proj2 (Z.eqb_neq _ _)) by (destruct hrp; [done | rewrite zlen_cons;
    pose proof (zlen_nonneg hrp); lia]).
  change (fun b => (33 <=? b) && (b <=? 126)) with printable. rewrite Hp.
  cbn [negb reject_if mbind outcome_bind].
  destruct (convert_bits_8_5_8 payload Hb) as (data & -> & Hd & Hback). cbn [mbind outcome_bind].
  destruct (create_checksum_bits h data) as (Hcl & Hcf & _).
  destruct (mapM_value_to_char (data ++ create_checksum h data)) as (cs & -> & Hcs & Hdc).
  { by apply Forall_app. }
  cbn [expect mbind outcome_bind].
  exists (h ++ [49] ++ cs), cs, (data ++ create_checksum h data).
  split_and!; [done | |].
  { rewrite !to_ascii_lowercase_app, (lower_data_chars cs) by done.
    unfold h. by rewrite to_ascii_lowercase_idem. }
  intros s' Hs' Hu.
  pose proof (chars_to_values_inv _ _ Hcs) as (_ & _ & _ & Hlen).
  rewrite length_app, Hcl in Hlen.
  split_and!; try done.
  - rewrite <- lower_printable, Hs', !forallb_app, Hlp. cbn [forallb andb].
    apply forallb_forall. intros c Hin%list_elem_of_In. rewrite Forall_forall in Hdc.
    apply Hdc in Hin. unfold data_char in Hin. by reflect_bools.
  - unfold h. by destruct hrp.
  - by apply data_chars_no_separator.
  - lia.
  - by apply create_checksum_verifies.
  - rewrite length_app, Hcl. by rewrite Nat.add_sub, take_app_length.
Qed.

(** C25. Writing a payload under a printable prefix succeeds, and reading the
    text back, in lower case or in any single letter case, gives the lower-case
    prefix and the payload. *)
Theorem bech32_roundtrip hrp payload
    (Hne : hrp <> []) (Hp : forallb printable hrp = true) (Hb : bytes_ok payload) :
  exists s, bech32_encode hrp payload = Ok s /\
    bech32_decode s = Ok (to_ascii_lowercase hrp, payload) /\
    forall s', to_ascii_lowercase s' = s -> uniform_case s' = true ->
      bech32_decode s' = Ok (to_ascii_lowercase hrp, payload).
Proof.
  destruct (bech32_encode_decodes hrp payload Hne Hp Hb) as (s & cs & data & E & Hl & H).
  exists s. split_and!; [done | |].
  - eapply bech32_decode_intro, H; [done|]. rewrite <- Hl. apply lower_uniform.
  - intros s' Hs' Hu. by eapply bech32_decode_intro, H.
Qed.

Lemma bech32_roundtrip_witness :
  exists s, bech32_encode (lit "rl-Demo") [1; 2; 255] = Ok s /\
    bech32_decode s = Ok (lit "rl-demo", [1; 2; 255]).
Proof.
  destruct (bech32_roundtrip (lit "rl-Demo") [1; 2; 255]) as (s & E & D & _).
  - discriminate.
  - reflexivity.
  - repeat constructor; cbn; lia.
  - exists s. split; [exact E | exact D].
Defined.

(** The text the writer gives, up to letter case. *)
Definition canonical_text (hrp : str) (payload : list Z) (addr : str) : Prop :=
  bech32_encode hrp payload = Ok (to_ascii_lowercase addr).

(** C32. The reader accepts only canonical texts: whatever it accepts is, up to
    letter case, the text the writer produces for the payload it returns.  So a
    payload has one encoding per prefix: no second checksum, no
    non-zero padding and no surplus symbol is accepted. *)
Theorem bech32_decode_canonical addr hrp payload
    (H : bech32_decode addr = Ok (hrp, payload)) :
  canonical_text hrp payload addr.
Proof.
  unfold canonical_text.
  destruct (bech32_decode_inv _ _ _ H) as (cs & data & Hp & Hu & E & Hh & Hcs & Hlen & Hdata & Hv & Hconv).
  pose proof (chars_to_values_inv _ _ Hdata) as (Hm & Hf & Hdc & L).
  assert (Hlp : forallb printable (to_ascii_lowercase addr) = true) by by rewrite lower_printable.
  rewrite E, forallb_app in Hlp. apply andb_true_iff in Hlp as [Hph _].
  assert (Hlow : to_ascii_lowercase hrp = hrp).
  { pose proof (to_ascii_lowercase_idem addr) as I.
    rewrite E, to_ascii_lowercase_app in I.
    apply app_inj_1 in I as [I _]; [done|]. unfold to_ascii_lowercase. by rewrite length_map. }
  assert (Hhb : bytes_ok (as_bytes hrp)).
  { rewrite as_bytes_ascii by by apply printable_ascii. by apply is_ascii_bytes, printable_ascii. }
  rewrite <- (take_drop (length data - 6) data) in Hv, Hf, Hm.
  apply Forall_app in Hf as [Hf1 Hf2].
  apply create_checksum_unique in Hv; [|done..| rewrite length_drop; lia].
  destruct (convert_bits_5_8_5 _ _ Hf1 Hconv) as [Hpay Hback].
  unfold bech32_encode. rewrite str_len_ascii, as_bytes_ascii by by apply printable_ascii.
  rewrite (proj2 (Z.eqb_neq _ _)) by (destruct hrp; [done | rewrite zlen_cons;
    pose proof (zlen_nonneg hrp); lia]).
  change (fun b => (33 <=? b) && (b <=? 126)) with printable. rewrite Hph.
  cbn [negb reject_if mbind outcome_bind]. rewrite Hback, Hlow. cbn [mbind outcome_bind].
  by rewrite <- Hv, Hm, E.
Qed.

Lemma bech32_decode_canonical_witness :
  bech32_encode (lit "rl-none") [1; 8; 7; 6; 5; 4; 3; 2; 1; 80; 177; 242; 248]
  = Ok (lit "rl-none1qyyqwps9qspsyq2sk8e0sfdp3ys") /\ True.
Proof.
  split; [|exact I].
  apply (bech32_decode_canonical (lit "RL-NONE1QYYQWPS9QSPSYQ2SK8E0SFDP3YS")).
  vm_compute. reflexivity.
Defined.

(** [m'] differs from [m] in letters of either case, over at most six symbols. *)
Definition burst_error (m m' : str) : Prop :=
  length m' = length m /\ (length m <= 6)%nat /\ to_ascii_lowercase m <> to_ascii_lowercase m'.

(** C34. Any burst of errors over at most six consecutive symbols of the data
    part is detected: if a text is accepted, then no text that differs from it,
    up to letter case, in such a window is. *)
Theorem bech32_detects_bursts h a m m' b p q
    (Hok : bech32_decode (h ++ 49 :: a ++ m ++ b) = Ok p)
    (Hsep : 49 ∉ a ++ m ++ b) (Hsep' : 49 ∉ m')
    (Hburst : burst_error m m') :
  bech32_decode (h ++ 49 :: a ++ m' ++ b) <> Ok q.
Proof.
  destruct Hburst as (Hlen & H6 & Hne). intros Hok'. apply Hne.
  assert (Hsep2 : 49 ∉ a ++ m' ++ b) by (rewrite !not_elem_of_app in *; tauto).
  destruct (accepted_data _ _ _ Hok Hsep) as (hrp & d & -> & Hd & Hb & Hv).
  destruct (accepted_data _ _ _ Hok' Hsep2) as (hrp' & d' & -> & Hd' & _ & Hv').
  rewrite !to_ascii_lowercase_app in Hd, Hd'.
  apply chars_to_values_app in Hd as (da & d2 & -> & Ha & Hd).
  apply chars_to_values_app in Hd as (dm & db & -> & Hm & Hdb).
  apply chars_to_values_app in Hd' as (da' & d2' & -> & Ha' & Hd').
  apply chars_to_values_app in Hd' as (dm' & db' & -> & Hm' & Hdb').
  assert (da' = da) as -> by congruence. assert (db' = db) as -> by congruence.
  pose proof (chars_to_values_inv _ _ Ha) as (_ & Fa & _ & _).
  pose proof (chars_to_values_inv _ _ Hm) as (Em & Fm & _ & Lm).
  pose proof (chars_to_values_inv _ _ Hm') as (Em' & Fm' & _ & Lm').
  pose proof (chars_to_values_inv _ _ Hdb) as (_ & Fb & _ & _).
  unfold to_ascii_lowercase in Lm, Lm'. rewrite length_map in Lm, Lm'.
  unfold verify_checksum, polymod in Hv, Hv'. reflect_bools. rewrite !app_assoc in Hv, Hv'.
  rewrite <- (app_assoc _ dm), <- !(app_assoc _ da) in Hv.
  assert (dm = dm') as <-.
  { apply (polymod_burst (hrp_expand (to_ascii_lowercase h) ++ da) dm dm' db 1);
      [by cbn | | done | done | done | lia | lia |].
    - apply Forall_app; split; [by apply hrp_expand_fits | done].
    - rewrite <- !app_assoc in *. by rewrite Hv, Hv'. }
  congruence.
Qed.

Lemma bech32_detects_bursts_witness :
  bech32_decode (lit "rl-none1qyyqwps9qspsyq2sk8e0sfdq3ys") <> Ok (lit "rl-none", zeros 13).
Proof.
  apply (bech32_detects_bursts (lit "rl-none") (lit "qyyqwps9qspsyq2sk8e0sfd") (lit "p")
           (lit "q") (lit "3ys")
           (lit "rl-none", [1; 8; 7; 6; 5; 4; 3; 2; 1; 80; 177; 242; 248])
           (lit "rl-none", zeros 13)).
  - vm_compute. reflexivity.
  - vm_compute. intros H. repeat (apply elem_of_cons in H as [H|H]; [discriminate H|]).
    by apply elem_of_nil in H.
  - vm_compute. intros H. repeat (apply elem_of_cons in H as [H|H]; [discriminate H|]).
    by apply elem_of_nil in H.
  - split; [reflexivity|]. split; [cbn; lia | discriminate].
Defined.

(** Reading never panics, whatever the text. *)
Lemma no_panic_bech32_decode addr : no_panic (bech32_decode addr).
Proof.
  unfold bech32_decode. rewrite scan_case_eq.
  apply no_panic_bind; [auto with panics | intros _ _].
  destruct (forallb printable addr) eqn:Hp; [|exact I]. cbn [mbind outcome_bind].
  assert (Ha : is_ascii (to_ascii_lowercase addr))
    by (apply printable_ascii; by rewrite lower_printable).
  apply no_panic_bind; [auto with panics | intros _ _].
  apply no_panic_bind; [auto with panics | intros pos Hpos%ok_or_ok].
  destruct (rfind_split _ _ Ha Hpos) as (h & cs & E & -> & Hcs & S1 & S2).
  apply no_panic_bind; [auto with panics | intros _ _].
  rewrite S1, S2, str_len_ascii, E, zlen_app, zlen_cons by done.
  rewrite !sub_op_ok by (pose proof (zlen_nonneg cs); lia). cbn [mbind outcome_bind].
  rewrite !sub_op_ok by (pose proof (zlen_nonneg cs); lia). cbn [mbind outcome_bind].
  apply no_panic_bind; [auto with panics | intros _ Hlen%reject_if_ok].
  cbn [expect mbind outcome_bind].
  apply no_panic_bind; [auto with panics | intros data Hdata].
  pose proof (chars_to_values_inv _ _ Hdata) as (_ & Hf & _ & L).
  apply no_panic_bind; [auto with panics | intros _ _].
  reflect_bools. unfold zlen in *.
  rewrite sub_op_ok by lia. cbn [mbind outcome_bind].
  rewrite slice_ok by (unfold zlen; lia). cbn [mbind outcome_bind].
  apply no_panic_bind; [|done].
  apply (convert_bits_no_panic 5 8); [lia | lia|].
  apply Forall_take, Forall_drop. eapply Forall_impl; [exact Hf|]. by intros v [? _].
Qed.
#[export] Hint Resolve no_panic_bech32_decode : panics.

(** The payload of an accepted text consists of bytes. *)
Lemma bech32_decode_bytes addr h payload :
  bech32_decode addr = Ok (h, payload) -> bytes_ok payload.
Proof.
  intros (cs & data & _ & _ & _ & _ & _ & _ & Hd & _ & Hc)%bech32_decode_inv.
  apply chars_to_values_inv in Hd as (_ & Hf & _ & _).
  apply convert_bits_5_8_5 in Hc as [Hp _]; [exact Hp | by apply Forall_take].
Qed.

Lemma bech32_encode_decode hrp payload :
  hrp <> [] -> forallb printable hrp = true -> bytes_ok payload ->
  exists s, bech32_encode hrp payload = Ok s /\
            bech32_decode s = Ok (to_ascii_lowercase hrp, payload).
Proof.
  intros Hne Hp Hb.
  destruct (bech32_encode_decodes hrp payload Hne Hp Hb) as (s & cs & data & E & Hl & H).
  exists s. split; [done|]. eapply bech32_decode_intro, H; [done|].
  rewrite <- Hl. apply lower_uniform.
Qed.
