(* ===== verification/ApiKey.v ===== *)
(** * API keys (src/src/api_key.rs, src/src/config.rs)

    The validated [ApiKey], its construction from text, its redacted debug
    representation, and the contract of the quota word. *)

From S2P Require Import Prelude Errors Bits Codec Regroup Checksum Bech32.

(** ** Data *)

Inductive AuthMethod : Type :=
| AuthNone
| AuthCookie (secret : list Z)
| AuthAesGcm (secret : list Z).

Record ApiKey := mkApiKey {
  api_key_id : Z;
  api_auth_method : AuthMethod;
  api_limits : ApiKeyLimits;
}.

(** [ApiKeyError::from_decode_error]. *)
Definition from_decode_error (error : DecodeError) : ApiKeyError :=
  match error with
  | UnsupportedFormatVersion _ => UnsupportedVersion
  | UnsupportedAuthMethod _ | InvalidHrpPrefix => UnsupportedCredential
  | InvalidPackedQuota => InvalidLimits
  | _ => InvalidEncoding
  end.

(** [let mut secret = [0u8; 32]; secret.copy_from_slice(...)]. *)
Definition copy_secret {E} (auth_secret : list Z) : outcome E (list Z) :=
  copy_at (zeros 32) 0 32 auth_secret.

(** [<ApiKey as FromStr>::from_str]. *)
Definition api_key_from_str (encoded : str) : outcome ApiKeyError ApiKey :=
  decoded ← map_err from_decode_error (decode_api_key encoded);
  limits ← ok_or (limits decoded) UnsupportedCredential;
  auth_method ←
    (if decide (auth_method decoded = lit "none" /\ auth_secret decoded = [])
     then Ok AuthNone
     else if decide (auth_method decoded = lit "cookie" /\ zlen (auth_secret decoded) = 32)
     then AuthCookie <$> copy_secret (auth_secret decoded)
     else if decide (auth_method decoded = lit "aes" /\ zlen (auth_secret decoded) = 32)
     then AuthAesGcm <$> copy_secret (auth_secret decoded)
     else Err UnsupportedCredential);
  Ok {| api_key_id := key_id decoded; api_auth_method := auth_method; api_limits := limits |}.

(** [impl fmt::Debug for ApiKey], on one line. *)
Definition api_key_debug (k : ApiKey) : str :=
  lit "ApiKey { key_id: " ++ fmt_dec (api_key_id k) ++ lit ", credential: " ++ [34] ++
  lit "[REDACTED]" ++ [34] ++ lit " }".

(** ** The quota word *)

(** The limits an API key can carry. *)
Definition limits_ok (l : ApiKeyLimits) : Prop :=
  exists a b c d u w,
    (0 <= a <= 24) /\ (0 <= b <= 24) /\ (0 <= c <= 31) /\ (0 <= d <= 15) /\
    (1 <= u <= 200) /\ (0 <= w <= 31) /\
    l = {| rate_buckets_max := 2 ^ a; latency_services_max := 2 ^ b;
           metrics_labels_max := 2 ^ c; latency_buffer_size_max := 2 ^ d;
           dedup_ttl_ms_max := 10 * u;
           rate_window_size_ms_max := if w =? 31 then u32_max else 2 ^ w |}.

Lemma lor_shiftl_add x y n : 0 <= n -> 0 <= x < 2 ^ n -> Z.lor x (Z.shiftl y n) = x + y * 2 ^ n.
Proof.
  intros Hn Hx. rewrite <- Z.shiftl_mul_pow2 by done.
  assert (Z.land x (Z.shiftl y n) = 0) as H.
  { apply Z.bits_inj'. intros i Hi. rewrite Z.land_spec, Z.testbit_0_l.
    destruct (Z.lt_ge_cases i n); [by rewrite Z.shiftl_spec_low, andb_false_r|].
    rewrite (testbit_high (Z.to_nat n)); [done| |lia]. unfold fits. by rewrite Z2Nat.id. }
  by rewrite Z.add_nocarry_lxor, Z.lxor_lor.
Qed.

Lemma trailing_zeros_pow2 k : 0 <= k <= 31 -> trailing_zeros (2 ^ k) = k.
Proof.
  intros Hk.
  pose proof (five_bits_ind (fun k => trailing_zeros (2 ^ k) =? k) eq_refl k ltac:(lia)) as H.
  cbv beta in H. by apply Z.eqb_eq.
Qed.

Lemma pow2_u32 k : 0 <= k <= 31 -> as_u32 (Z.shiftl 1 k) = 2 ^ k.
Proof.
  intros Hk. rewrite Z.shiftl_mul_pow2, Z.mul_1_l by lia. apply as_u32_small.
  split; [apply Z.pow_nonneg; lia|]. change 4294967296 with (2 ^ 32).
  apply Z.pow_lt_mono_r; lia.
Qed.

Lemma quota_word_eq a b c d u w :
  0 <= a <= 24 -> 0 <= b <= 24 -> 0 <= c <= 31 -> 0 <= d <= 15 -> 1 <= u <= 200 -> 0 <= w <= 31 ->
  quota_word {| rate_buckets_max := 2 ^ a; latency_services_max := 2 ^ b;
           metrics_labels_max := 2 ^ c; latency_buffer_size_max := 2 ^ d;
           dedup_ttl_ms_max := 10 * u;
           rate_window_size_ms_max := if w =? 31 then u32_max else 2 ^ w |}
  = a + b * 2 ^ 5 + c * 2 ^ 10 + d * 2 ^ 15 + u * 2 ^ 19 + w * 2 ^ 27.
Proof.
  intros Ha Hb Hc Hd Hu Hw. unfold quota_word.
  cbn [rate_buckets_max latency_services_max metrics_labels_max latency_buffer_size_max
       dedup_ttl_ms_max rate_window_size_ms_max].
  rewrite !trailing_zeros_pow2 by lia.
  replace (10 * u / 10) with u by (rewrite Z.mul_comm, Z.div_mul; lia).
  assert ((if (if w =? 31 then u32_max else 2 ^ w) =? u32_max then 31
           else trailing_zeros (if w =? 31 then u32_max else 2 ^ w)) = w) as ->.
  { destruct (Z.eqb_spec w 31) as [->|Hw']; [done|].
    rewrite (proj2 (Z.eqb_neq _ _)); [by apply trailing_zeros_pow2|].
    assert (2 ^ w < 2 ^ 31) by (apply Z.pow_lt_mono_r; lia). unfold u32_max. lia. }
  unfold as_u32. rewrite !Z.mod_small by (rewrite Z.shiftl_mul_pow2 by lia; lia).
  rewrite (lor_shiftl_add a b 5) by lia. rewrite (lor_shiftl_add _ c 10) by lia.
  rewrite (lor_shiftl_add _ d 15) by lia. rewrite (lor_shiftl_add _ u 19) by lia.
  by rewrite (lor_shiftl_add _ w 27) by lia.
Qed.

(** Extraction of a bit field. *)
Lemma land_field x k n m : m = Z.ones n -> 0 <= k -> 0 <= n -> Z.land (Z.shiftr x k) m = (x / 2 ^ k) mod 2 ^ n.
Proof. intros -> Hk Hn. by rewrite Z.land_ones, Z.shiftr_div_pow2. Qed.

Lemma fields_of_sum a b c d u w :
  0 <= a < 32 -> 0 <= b < 32 -> 0 <= c < 32 -> 0 <= d < 16 -> 0 <= u < 256 -> 0 <= w < 32 ->
  let word := a + b * 2 ^ 5 + c * 2 ^ 10 + d * 2 ^ 15 + u * 2 ^ 19 + w * 2 ^ 27 in
  Z.land word 0x1f = a /\ Z.land (Z.shiftr word 5) 0x1f = b /\
  Z.land (Z.shiftr word 10) 0x1f = c /\ Z.land (Z.shiftr word 15) 0x0f = d /\
  Z.land (Z.shiftr word 19) 0xff = u /\ Z.land (Z.shiftr word 27) 0x1f = w.
Proof.
  intros Ha Hb Hc Hd Hu Hw word.
  rewrite (land_field word 5 5), (land_field word 10 5), (land_field word 15 4),
    (land_field word 19 8), (land_field word 27 5) by (done || lia).
  change 0x1f with (Z.ones 5). rewrite Z.land_ones by lia. subst word.
  change (2 ^ 4) with 16. change (2 ^ 5) with 32. change (2 ^ 8) with 256.
  change (2 ^ 10) with 1024. change (2 ^ 15) with 32768. change (2 ^ 19) with 524288.
  change (2 ^ 27) with 134217728.
  split_and!; Z.div_mod_to_equations; lia.
Qed.

(** Reading the packed word of some limits gives the limits. *)
Lemma limits_from_payload_quota l pre post :
  limits_ok l ->
  limits_from_payload (pre ++ u32_le (quota_word l) ++ post) (zlen pre) = Ok l.
Proof.
  intros (a & b & c & d & u & w & Ha & Hb & Hc & Hd & Hu & Hw & ->).
  unfold limits_from_payload.
  rewrite slice_app_mid by (try done; unfold u32_le; autorewrite with zlens; lia).
  rewrite quota_word_eq by done. cbn [mbind outcome_bind].
  unfold u32_le. rewrite from_le_to_le by (cbn [Z.of_nat]; lia).
  destruct (fields_of_sum a b c d u w) as (-> & -> & -> & -> & -> & ->); [lia..|].
  rewrite !Z.gtb_ltb, (proj2 (Z.ltb_ge 24 a)), (proj2 (Z.ltb_ge 24 b)),
    (proj2 (Z.leb_le 1 u)), (proj2 (Z.leb_le u 200)) by lia.
  cbn [orb andb negb reject_if mbind outcome_bind]. f_equal.
  rewrite !pow2_u32 by lia. f_equal. lia.
Qed.

(** Every limits record the decoder returns is of the shape above. *)
Lemma limits_from_payload_ok payload offset l :
  limits_from_payload payload offset = Ok l -> limits_ok l.
Proof.
  unfold limits_from_payload. intros H. apply bind_ok_inv in H as (ws & _ & H).
  set (word := from_le ws) in H.
  pose proof (fits_land_ones word 5) as F0.
  pose proof (fits_land_ones (Z.shiftr word 5) 5) as F1.
  pose proof (fits_land_ones (Z.shiftr word 10) 5) as F2.
  pose proof (fits_land_ones (Z.shiftr word 15) 4) as F3.
  pose proof (fits_land_ones (Z.shiftr word 27) 5) as F5.
  unfold fits in *. cbn [Z.of_nat Z.ones Z.shiftl] in *.
  change (Z.ones (Z.of_nat 5)) with 0x1f in *. change (Z.ones (Z.of_nat 4)) with 0x0f in *.
  apply bind_ok_inv in H as (_ & Hg%reject_if_ok & H).
  apply (f_equal (fun o => match o with Ok x => x | _ => l end)) in H. cbv beta iota in H.
  subst l. reflect_bools.
  exists (Z.land word 0x1f), (Z.land (Z.shiftr word 5) 0x1f), (Z.land (Z.shiftr word 10) 0x1f),
    (Z.land (Z.shiftr word 15) 0x0f), (Z.land (Z.shiftr word 19) 0xff),
    (Z.land (Z.shiftr word 27) 0x1f).
  cbn in F0, F1, F2, F3, F5.
  split_and!; try lia. rewrite !pow2_u32 by lia. f_equal. lia.
Qed.

(** ** Keys *)

(** The name an authentication method has in the prefix of a key, and its secret. *)
Definition wire_name (a : AuthMethod) : str :=
  match a with
  | AuthNone => lit "none" | AuthCookie _ => lit "cookie" | AuthAesGcm _ => lit "aes"
  end.
Definition secret_of (a : AuthMethod) : list Z :=
  match a with AuthNone => [] | AuthCookie s | AuthAesGcm s => s end.
Definition auth_ok (a : AuthMethod) : Prop :=
  match a with AuthNone => True | AuthCookie s | AuthAesGcm s => bytes_ok s /\ zlen s = 32 end.

Definition api_key_ok (k : ApiKey) : Prop :=
  in_u64 (api_key_id k) /\ auth_ok (api_auth_method k) /\ limits_ok (api_limits k).

Lemma copy_secret_ok {E} s : zlen s = 32 -> @copy_secret E s = Ok s.
Proof.
  intros H. unfold copy_secret.
  rewrite copy_at_ok by (done || (rewrite ?zlen_zeros by lia; lia)).
  cbn. by rewrite app_nil_r.
Qed.

Lemma no_panic_limits_from_payload payload offset :
  0 <= offset -> offset + 4 <= zlen payload -> no_panic (limits_from_payload payload offset).
Proof.
  intros H1 H2. unfold limits_from_payload. rewrite slice_ok by lia. cbn [mbind outcome_bind].
  no_panics.
Qed.

(** Decoding arbitrary text, at the codec and at the public entry point,
    returns a value or an error: no slice, conversion or copy in it can panic. *)
Theorem api_key_from_str_total encoded :
  no_panic (decode_api_key encoded) /\ no_panic (api_key_from_str encoded).
Proof.
  assert (D : no_panic (decode_api_key encoded)).
  { unfold decode_api_key.
    apply no_panic_bind; [auto with panics | intros [h payload] _].
    apply no_panic_bind; [auto with panics | intros m _].
    repeat case_decide; (apply no_panic_bind; [auto with panics | intros _ Hl%reject_if_ok])
      || exact I; try exact I; reflect_bools.
    all: apply no_panic_bind; [by apply no_panic_index; lia | intros v _].
    all: apply no_panic_bind; [auto with panics | intros _ _].
    all: apply no_panic_bind; [apply no_panic_slice; lia | intros ids _].
    2: apply no_panic_bind; [apply no_panic_slice; lia | intros sec _].
    all: apply no_panic_bind; [apply no_panic_limits_from_payload; lia | done]. }
  split; [done|]. unfold api_key_from_str.
  apply no_panic_bind; [auto with panics | intros d _].
  apply no_panic_bind; [auto with panics | intros l _].
  apply no_panic_bind; [|done].
  repeat case_decide; try exact I; rewrite copy_secret_ok by tauto; exact I.
Qed.

(** What a decoded key of the current format consists of. *)
Lemma decode_api_key_inv encoded d l :
  decode_api_key encoded = Ok d -> limits d = Some l ->
  in_u64 (key_id d) /\ limits_ok l /\
  ((auth_method d = lit "none" /\ auth_secret d = []) \/
   ((auth_method d = lit "cookie" \/ auth_method d = lit "aes") /\
    bytes_ok (auth_secret d) /\ zlen (auth_secret d) = 32)).
Proof.
  unfold decode_api_key. intros H Hl.
  apply bind_ok_inv in H as ([h payload] & Hb%bech32_decode_bytes & H).
  apply bind_ok_inv in H as (m & _ & H).
  assert (Hid : forall ids, slice (E := DecodeError) payload 1 9 = Ok ids -> in_u64 (from_le ids)).
  { intros ids Hs. assert (B : bytes_ok ids).
    { apply slice_inv in Hs as (_ & _ & _ & E). rewrite E in Hb.
      by apply Forall_app in Hb as [_ [Hb _]%Forall_app]. }
    apply slice_inv in Hs as (_ & _ & L & _).
    pose proof (from_le_range (9 - 1) ids B L). unfold in_u64, u64_max. lia. }
  repeat case_decide; inv_ok; cbn [limits key_id auth_method auth_secret] in *;
    simplify_eq; (split_and!; [by apply Hid | by eapply limits_from_payload_ok |]).
  - by left.
  - right. match goal with H : slice payload 9 41 = Ok _ |- _ =>
      apply slice_inv in H as (_ & _ & L & E) end.
    split_and!; [done | | lia].
    rewrite E in Hb. by apply Forall_app in Hb as [_ [Hb _]%Forall_app].
Qed.

(** Every key that parses satisfies the key invariant: the identifier is a
    [u64], a cookie or AES secret is exactly 32 bytes, every limit is a
    representable one - in particular the request-horizon limit is between 10
    and 2000 ms and no limit is zero. *)
Theorem api_key_from_str_ok encoded k (H : api_key_from_str encoded = Ok k) :
  api_key_ok k /\ 10 <= dedup_ttl_ms_max (api_limits k) <= 2000 /\
  0 < rate_window_size_ms_max (api_limits k) <= u32_max.
Proof.
  unfold api_key_from_str in H.
  apply bind_ok_inv in H as (d & Hd & H).
  apply bind_ok_inv in H as (l & Hl%ok_or_ok & H).
  apply bind_ok_inv in H as (a & Ha & [= <-]).
  destruct (decode_api_key encoded) eqn:D; cbn in Hd; [|done..]. injection Hd as ->.
  destruct (decode_api_key_inv _ _ _ D Hl) as (Hid & Hlim & Hauth).
  assert (Hok : auth_ok a).
  { repeat case_decide; [by injection Ha as <- | | |done];
      rewrite copy_secret_ok in Ha by tauto; injection Ha as <-; cbn;
      destruct Hauth as [[E ?]|(_ & ? & ?)]; try done;
      destruct_and!; rewrite E in *; done. }
  split; [done|]. cbn [api_limits].
  destruct Hlim as (a' & b & c & e & u & w & _ & _ & _ & _ & Hu & Hw & ->). cbn.
  split; [lia|]. unfold u32_max. destruct (Z.eqb_spec w 31); [lia|].
  assert (2 ^ w < 2 ^ 31) by (apply Z.pow_lt_mono_r; lia).
  pose proof (Z.pow_pos_nonneg 2 w). lia.
Qed.

Lemma api_key_from_str_ok_witness :
  exists k, api_key_from_str (lit "rl-none1qyyqwps9qspsyq2sk8e0sfdp3ys") = Ok k /\
    10 <= dedup_ttl_ms_max (api_limits k) <= 2000.
Proof.
  eexists. split; [vm_compute; reflexivity|].
  apply (api_key_from_str_ok (lit "rl-none1qyyqwps9qspsyq2sk8e0sfdp3ys")).
  vm_compute. reflexivity.
Defined.

Lemma wire_name_printable a : forallb printable (lit "rl-" ++ wire_name a) = true.
Proof. by destruct a. Qed.

Lemma wire_name_lower a :
  to_ascii_lowercase (lit "rl-" ++ wire_name a) = lit "rl-" ++ wire_name a.
Proof. by destruct a. Qed.

(** The payload the encoder lays out. *)
Definition key_payload (k : ApiKey) : list Z :=
  [FORMAT_VERSION] ++ u64_le (api_key_id k) ++ secret_of (api_auth_method k) ++
  u32_le (quota_word (api_limits k)).

Lemma encode_api_key_payload k :
  encode_api_key (wire_name (api_auth_method k)) (api_key_id k)
    (secret_of (api_auth_method k)) (api_limits k)
  = bech32_encode (lit "rl-" ++ wire_name (api_auth_method k)) (key_payload k).
Proof. by destruct k as [id [|s|s] l]. Qed.

Lemma key_payload_bytes k : api_key_ok k -> bytes_ok (key_payload k).
Proof.
  intros (_ & Ha & _). unfold key_payload.
  apply bytes_ok_app; split; [by repeat constructor|].
  apply bytes_ok_app; split; [apply bytes_ok_to_le|].
  apply bytes_ok_app; split; [|apply bytes_ok_to_le].
  destruct (api_auth_method k); cbn in *; [constructor | tauto | tauto].
Qed.

(** Decoding the laid-out payload field by field. *)
Lemma key_payload_fields {E} k :
  api_key_ok k ->
  let p := key_payload k in
  zlen p = 13 + zlen (secret_of (api_auth_method k)) /\
  @index E Z p 0 = Ok FORMAT_VERSION /\
  @slice E Z p 1 9 = Ok (u64_le (api_key_id k)) /\
  from_le (u64_le (api_key_id k)) = api_key_id k /\
  @slice E Z p 9 (9 + zlen (secret_of (api_auth_method k))) = Ok (secret_of (api_auth_method k)) /\
  limits_from_payload p (9 + zlen (secret_of (api_auth_method k))) = Ok (api_limits k).
Proof.
  intros (Hid & _ & Hl) p. subst p. unfold key_payload.
  set (sec := secret_of _). set (q := u32_le _).
  assert (Hq : zlen q = 4) by apply zlen_to_le.
  assert (Hu : zlen (u64_le (api_key_id k)) = 8) by apply zlen_to_le.
  split_and!.
  - autorewrite with zlens. lia.
  - by apply (index_app [] _ FORMAT_VERSION 0).
  - apply slice_app_mid; [done | by rewrite Hu].
  - apply from_le_to_le. unfold in_u64, u64_max in Hid. cbn. lia.
  - rewrite (app_assoc [FORMAT_VERSION]). apply slice_app_mid; [|done].
    autorewrite with zlens. lia.
  - pose proof (limits_from_payload_quota (api_limits k)
      ([FORMAT_VERSION] ++ u64_le (api_key_id k) ++ sec) [] Hl) as H.
    rewrite app_nil_r, <- !app_assoc in H.
    replace (9 + zlen sec) with (zlen ([FORMAT_VERSION] ++ u64_le (api_key_id k) ++ sec));
      [exact H|]. autorewrite with zlens. lia.
Qed.

(** The record a laid-out payload decodes to. *)
Definition decoded_of (k : ApiKey) : DecodedApiKey :=
  {| hrp := lit "rl-" ++ wire_name (api_auth_method k);
     auth_method := wire_name (api_auth_method k); format_version := FORMAT_VERSION;
     key_id := api_key_id k; auth_secret := secret_of (api_auth_method k);
     limits := Some (api_limits k) |}.

Lemma decode_laid_out s k :
  api_key_ok k ->
  bech32_decode s = Ok (lit "rl-" ++ wire_name (api_auth_method k), key_payload k) ->
  decode_api_key s = Ok (decoded_of k).
Proof.
  intros Hk D. destruct (@key_payload_fields DecodeError k Hk) as (L & I & S1 & R & S2 & Q).
  unfold decode_api_key, decoded_of. rewrite D. cbn [mbind outcome_bind].
  rewrite strip_prefix_app. cbn [ok_or mbind outcome_bind].
  generalize dependent (key_payload k). intros p _ L I S1 S2 Q.
  destruct Hk as (_ & Ha & _).
  assert (Z : zlen (secret_of (api_auth_method k)) = 0 /\ api_auth_method k = AuthNone \/
              zlen (secret_of (api_auth_method k)) = 32 /\ api_auth_method k <> AuthNone).
  { destruct (api_auth_method k); [left | right..]; cbn in *; [done | |]; by destruct Ha. }
  destruct Z as [[Z E]|[Z E]]; rewrite Z in *.
  - rewrite E in *. rewrite decide_False, decide_True by (discriminate || done).
    change (13 + 0) with 13 in L. change (9 + 0) with 9 in Q.
    rewrite L, I, S1. cbn [mbind outcome_bind reject_if negb Z.eqb Pos.eqb].
    rewrite R, Q. done.
  - rewrite (decide_False (P := wire_name _ = lit "secret")),
      (decide_False (P := wire_name _ = lit "none")), decide_True
      by (destruct (api_auth_method k); cbn [wire_name]; discriminate || tauto).
    change (13 + 32) with 45 in L. change (9 + 32) with 41 in *.
    rewrite L, I, S1, S2. cbn [mbind outcome_bind reject_if negb Z.eqb Pos.eqb].
    rewrite R, Q. done.
Qed.

(** C16. Every well-formed key, of each of the three authentication methods, has
    an encoding, and parsing that text gives the key back: identifier, method,
    secret and all six limits. *)
Theorem api_key_roundtrip k (Hk : api_key_ok k) :
  exists s, encode_api_key (wire_name (api_auth_method k)) (api_key_id k)
              (secret_of (api_auth_method k)) (api_limits k) = Ok s /\
            api_key_from_str s = Ok k.
Proof.
  rewrite encode_api_key_payload.
  destruct (bech32_encode_decode (lit "rl-" ++ wire_name (api_auth_method k)) (key_payload k))
    as (s & E & D); [by destruct k as [? [] ?] | apply wire_name_printable |
                     by apply key_payload_bytes |].
  exists s. split; [exact E|]. rewrite wire_name_lower in D.
  unfold api_key_from_str. rewrite (decode_laid_out s k Hk D).
  destruct Hk as (_ & Ha & _). unfold decoded_of.
  cbn [map_err mbind outcome_bind limits auth_method auth_secret key_id ok_or].
  destruct k as [id [|sec|sec] l]; cbn [api_auth_method wire_name secret_of auth_ok] in *.
  - by rewrite decide_True by done.
  - case_decide; [destruct_and!; discriminate|]. case_decide; [|tauto].
    by rewrite copy_secret_ok by apply Ha.
  - do 2 (case_decide; [destruct_and!; discriminate|]). case_decide; [|tauto].
    by rewrite copy_secret_ok by apply Ha.
Qed.

Lemma api_key_roundtrip_witness :
  exists s, encode_api_key (lit "aes") 3 (replicate 32 3)
      (mkLimits 65536 1024 4096 64 300 u32_max) = Ok s /\
    api_key_from_str s
    = Ok (mkApiKey 3 (AuthAesGcm (replicate 32 3)) (mkLimits 65536 1024 4096 64 300 u32_max)).
Proof.
  apply (api_key_roundtrip
    (mkApiKey 3 (AuthAesGcm (replicate 32 3)) (mkLimits 65536 1024 4096 64 300 u32_max))).
  split; [|split; [split|]].
  - unfold in_u64, u64_max. cbn. lia.
  - apply Forall_replicate. unfold is_byte. lia.
  - reflexivity.
  - exists 16, 10, 12, 6, 30, 31. split_and!; first [reflexivity | lia].
Defined.

(** The debug representation is a function of the public identifier alone. *)
Lemma api_key_debug_redacted k k' :
  api_key_id k = api_key_id k' -> api_key_debug k = api_key_debug k'.
Proof. unfold api_key_debug. by intros ->. Qed.
