(* ===== verification/Durations.v ===== *)
(** * [std::time::Duration]

    Whole seconds and nanoseconds, with the operations the client uses. *)

From S2P Require Import Prelude.

Record Duration := mkDuration { dur_secs : Z; dur_nanos : Z }.

#[export] Instance Duration_eq_dec : EqDecision Duration.
Proof. solve_decision. Defined.

Definition duration_ok (d : Duration) : Prop :=
  in_u64 (dur_secs d) /\ 0 <= dur_nanos d < 1000000000.

(** [from_millis] takes a [u64]; [as_millis] is a [u128]. *)
Definition from_millis (ms : Z) : Duration :=
  {| dur_secs := ms / 1000; dur_nanos := (ms mod 1000) * 1000000 |}.
Definition as_millis (d : Duration) : Z := dur_secs d * 1000 + dur_nanos d / 1000000.
Definition subsec_nanos (d : Duration) : Z := dur_nanos d.
Definition dur_is_zero (d : Duration) : bool := (dur_secs d =? 0) && (dur_nanos d =? 0).

(** The duration in nanoseconds, the unit of the clock of the delivery model. *)
Definition as_nanos (d : Duration) : Z := dur_secs d * 1000000000 + dur_nanos d.

(** A positive whole number of milliseconds: the common condition on durations. *)
Definition whole_millis (d : Duration) : bool :=
  negb (dur_is_zero d) && (subsec_nanos d mod 1000000 =? 0).

Lemma as_millis_from_millis ms : as_millis (from_millis ms) = ms.
Proof.
  unfold as_millis, from_millis. cbn [dur_secs dur_nanos].
  rewrite Z.div_mul by lia. pose proof (Z.div_mod ms 1000). lia.
Qed.

Lemma from_millis_as_millis d :
  duration_ok d -> whole_millis d = true -> from_millis (as_millis d) = d.
Proof.
  destruct d as [s n]. unfold duration_ok, whole_millis, as_millis, from_millis, subsec_nanos.
  cbn [dur_secs dur_nanos]. intros [_ Hn] H. reflect_bools.
  f_equal; Z.div_mod_to_equations; lia.
Qed.

Lemma whole_millis_pos d : duration_ok d -> whole_millis d = true -> 0 < as_millis d.
Proof.
  destruct d as [s n]. unfold duration_ok, whole_millis, dur_is_zero, as_millis, subsec_nanos, in_u64.
  cbn [dur_secs dur_nanos]. intros [Hs Hn] H.
  destruct (Z.eqb_spec s 0), (Z.eqb_spec n 0); cbn in H; try discriminate; reflect_bools;
    Z.div_mod_to_equations; lia.
Qed.

Lemma whole_millis_from_millis ms : 0 < ms -> whole_millis (from_millis ms) = true.
Proof.
  intros H. unfold whole_millis, dur_is_zero, from_millis, subsec_nanos. cbn [dur_secs dur_nanos].
  rewrite Z.mod_mul by lia. rewrite Z.eqb_refl, andb_true_r. apply negb_true_iff.
  destruct (Z.eqb_spec (ms / 1000) 0); [|done]. apply Z.eqb_neq.
  Z.div_mod_to_equations; lia.
Qed.

Lemma as_nanos_from_millis ms : as_nanos (from_millis ms) = ms * 1000000.
Proof.
  unfold as_nanos, from_millis. cbn [dur_secs dur_nanos].
  pose proof (Z.div_mod ms 1000). lia.
Qed.
