(* ===== verification/Policy.v ===== *)
(** * Request policy (src/src/request_policy.rs)

    The transmission schedule, the horizon of a policy and its builder.  The
    specification is the formula [H = U * (B(0) + ... + B(N) + F)] over unbounded
    integers; the code computes it in checked 32- and 64-bit arithmetic. *)

From S2P Require Import Prelude Errors Durations.

Definition MAX_REPLAY_COUNT : Z := 65535.

Inductive ScheduleKind : Type := Fixed | Linear | Exponential.

Record Schedule := mkSchedule {
  kind : ScheduleKind;
  initial_units : Z;
  max_units : Z;
  growth : Z;
}.

Definition schedule_fixed (units : Z) : Schedule := mkSchedule Fixed units units 0.
Definition schedule_linear (initial_units step_units max_units : Z) : Schedule :=
  mkSchedule Linear initial_units max_units step_units.
Definition schedule_exponential (initial_units factor max_units : Z) : Schedule :=
  mkSchedule Exponential initial_units max_units factor.

(** [for _ in 0..round] of the exponential arm, and the value after it. *)
Fixpoint exponential_loop (rounds : nat) (max_units growth value : Z)
  : outcome ConfigurationError Z :=
  match rounds with
  | O => Ok (Z.min value max_units)
  | S rounds =>
      if (value >=? max_units) || (value >? max_units / growth) then Ok max_units
      else
        value ← mul_op u32_max value growth;
        exponential_loop rounds max_units growth value
  end.

(** [Schedule::units]. *)
Definition units (s : Schedule) (round : Z) : outcome ConfigurationError Z :=
  _ ← reject_if ((initial_units s =? 0) || (max_units s <? initial_units s)) InvalidRequestPolicy;
  match kind s with
  | Fixed =>
      _ ← reject_if (negb (max_units s =? initial_units s) || negb (growth s =? 0))
            InvalidRequestPolicy;
      Ok (initial_units s)
  | Linear =>
      _ ← reject_if (growth s =? 0) InvalidRequestPolicy;
      room ← sub_op (max_units s) (initial_units s);
      if round >? room / growth s then Ok (max_units s)
      else
        steps ← mul_op u32_max round (growth s);
        add_op u32_max (initial_units s) steps
  | Exponential =>
      _ ← reject_if (growth s <? 2) InvalidRequestPolicy;
      exponential_loop (Z.to_nat round) (max_units s) (growth s) (initial_units s)
  end.

Record RequestPolicy := mkPolicy {
  unit_ms : Z;
  replay_count : Z;
  replay_gap : Schedule;
  final_receive_units : Z;
  completion_delivery : bool;
}.

(** [for round in 0..=self.replay_count], [n] turns from [round] on. *)
Fixpoint horizon_loop (n : nat) (gap : Schedule) (round total_units : Z)
  : outcome ConfigurationError Z :=
  match n with
  | O => Ok total_units
  | S n =>
      u ← units gap round;
      total_units ← ok_or (checked_add u64_max total_units u) InvalidRequestPolicy;
      horizon_loop n gap (round + 1) total_units
  end.

(** [RequestPolicy::horizon_ms]. *)
Definition horizon_ms (p : RequestPolicy) (dedup_ttl_ms_max : Z)
  : outcome ConfigurationError Z :=
  _ ← reject_if ((unit_ms p =? 0) || (replay_count p >? MAX_REPLAY_COUNT) ||
                 (dedup_ttl_ms_max =? 0)) InvalidRequestPolicy;
  total_units ← horizon_loop (Z.to_nat (replay_count p + 1)) (replay_gap p) 0
                  (final_receive_units p);
  horizon ← ok_or (checked_mul u64_max total_units (unit_ms p)) InvalidRequestPolicy;
  _ ← reject_if ((total_units =? 0) || (horizon >? u32_max)) InvalidRequestPolicy;
  _ ← reject_if (horizon >? dedup_ttl_ms_max) RequestPolicyExceedsApiKey;
  Ok (as_u32 horizon).

(** [RequestPolicy::horizon], with its [expect]. *)
Definition policy_horizon {E} (p : RequestPolicy) : outcome E Duration :=
  match horizon_ms p u32_max with
  | Ok h => Ok (from_millis h)
  | _ => Panic
  end.

(** [<RequestPolicy as Default>::default]. *)
Definition default_policy : RequestPolicy :=
  {| unit_ms := 20; replay_count := 1; replay_gap := schedule_fixed 1;
     final_receive_units := 1; completion_delivery := true |}.

Record RequestPolicyBuilder := mkPolicyBuilder {
  b_unit : Duration;
  b_replay_count : Z;
  b_replay_gap : Schedule;
  b_final_receive_units : Z;
  b_completion_delivery : bool;
}.

(** [<RequestPolicyBuilder as Default>::default], also [RequestPolicy::builder]. *)
Definition default_policy_builder : RequestPolicyBuilder :=
  {| b_unit := from_millis (unit_ms default_policy);
     b_replay_count := replay_count default_policy;
     b_replay_gap := replay_gap default_policy;
     b_final_receive_units := final_receive_units default_policy;
     b_completion_delivery := completion_delivery default_policy |}.

Definition with_unit (b : RequestPolicyBuilder) (unit : Duration) : RequestPolicyBuilder :=
  mkPolicyBuilder unit (b_replay_count b) (b_replay_gap b) (b_final_receive_units b)
    (b_completion_delivery b).
Definition with_replays (b : RequestPolicyBuilder) (n : Z) : RequestPolicyBuilder :=
  mkPolicyBuilder (b_unit b) n (b_replay_gap b) (b_final_receive_units b)
    (b_completion_delivery b).
Definition with_replay_gap (b : RequestPolicyBuilder) (s : Schedule) : RequestPolicyBuilder :=
  mkPolicyBuilder (b_unit b) (b_replay_count b) s (b_final_receive_units b)
    (b_completion_delivery b).
Definition with_final_receive_units (b : RequestPolicyBuilder) (n : Z) : RequestPolicyBuilder :=
  mkPolicyBuilder (b_unit b) (b_replay_count b) (b_replay_gap b) n (b_completion_delivery b).
Definition with_completion_delivery (b : RequestPolicyBuilder) (e : bool) : RequestPolicyBuilder :=
  mkPolicyBuilder (b_unit b) (b_replay_count b) (b_replay_gap b) (b_final_receive_units b) e.

(** [RequestPolicyBuilder::build]. *)
Definition policy_build (b : RequestPolicyBuilder) : outcome Error RequestPolicy :=
  let millis := as_millis (b_unit b) in
  _ ← reject_if (dur_is_zero (b_unit b) || negb (subsec_nanos (b_unit b) mod 1000000 =? 0) ||
                 (millis >? u64_max))
        (InvalidConfiguration (InvalidDuration (lit "request policy unit")));
  let policy :=
    {| unit_ms := as_u64 millis; replay_count := b_replay_count b;
       replay_gap := b_replay_gap b; final_receive_units := b_final_receive_units b;
       completion_delivery := b_completion_delivery b |} in
  _ ← map_err error_from_configuration (horizon_ms policy u32_max);
  Ok policy.

(** ** Specification *)

(** The fields have their Rust types. *)
Definition schedule_typed (s : Schedule) : Prop :=
  in_u32 (initial_units s) /\ in_u32 (max_units s) /\ in_u32 (growth s).

Definition policy_typed (p : RequestPolicy) : Prop :=
  in_u64 (unit_ms p) /\ in_u32 (replay_count p) /\ schedule_typed (replay_gap p) /\
  in_u32 (final_receive_units p).

(** The structural condition on a schedule; it does not depend on the round. *)
Definition schedule_valid (s : Schedule) : bool :=
  negb (initial_units s =? 0) && (initial_units s <=? max_units s) &&
  match kind s with
  | Fixed => (max_units s =? initial_units s) && (growth s =? 0)
  | Linear => negb (growth s =? 0)
  | Exponential => 2 <=? growth s
  end.

(** [B(k)], the duration of round [k] in units, over unbounded integers. *)
Definition round_units (s : Schedule) (k : Z) : Z :=
  match kind s with
  | Fixed => initial_units s
  | Linear => Z.min (initial_units s + k * growth s) (max_units s)
  | Exponential => Z.min (initial_units s * growth s ^ k) (max_units s)
  end.

(** [B(from) + ... + B(from + n - 1)]. *)
Fixpoint sum_rounds (s : Schedule) (from : Z) (n : nat) : Z :=
  match n with
  | O => 0
  | S n => round_units s from + sum_rounds s (from + 1) n
  end.

(** [H = U * (B(0) + ... + B(N) + F)]. *)
Definition horizon_spec (p : RequestPolicy) : Z :=
  unit_ms p * (sum_rounds (replay_gap p) 0 (Z.to_nat (replay_count p + 1))
               + final_receive_units p).

(** The invariant of every [RequestPolicy] value a caller can hold. *)
Definition policy_ok (p : RequestPolicy) : Prop :=
  policy_typed p /\ 0 < unit_ms p /\ replay_count p <= MAX_REPLAY_COUNT /\
  schedule_valid (replay_gap p) = true /\ 0 < horizon_spec p <= u32_max.

(** ** Schedules *)

Lemma exponential_loop_spec n max g v :
  2 <= g -> 1 <= v -> v <= max -> max <= u32_max ->
  exponential_loop n max g v = Ok (Z.min (v * g ^ Z.of_nat n) max).
Proof.
  intros Hg. revert v. induction n as [|n IH]; intros v Hv Hm Hmax; cbn [exponential_loop].
  - cbn. by rewrite Z.mul_1_r.
  - rewrite Z.geb_leb, Z.gtb_ltb.
    assert (Hp : 1 <= g ^ Z.of_nat n) by (pose proof (Z.pow_pos_nonneg g (Z.of_nat n)); lia).
    rewrite Nat2Z.inj_succ, Z.pow_succ_r by lia.
    set (pw := g ^ Z.of_nat n) in *. assert (Hgp : 1 <= g * pw) by nia.
    destruct (Z.leb_spec max v).
    { cbn [orb]. f_equal. rewrite Z.min_r; [done|].
      pose proof (Z.mul_le_mono_nonneg_l 1 (g * pw) v). lia. }
    destruct (Z.ltb_spec (max / g) v) as [Hd|Hd]; cbn [orb].
    + assert (max < v * g) by (pose proof (Z.mul_succ_div_gt max g); nia).
      f_equal. rewrite Z.min_r; [done|].
      rewrite Z.mul_assoc. pose proof (Z.mul_le_mono_nonneg_l 1 pw (v * g)). lia.
    + assert (v * g <= max) by (pose proof (Z.mul_div_le max g); nia).
      rewrite mul_op_ok by lia. cbn [mbind outcome_bind]. fold pw in IH. rewrite IH by nia.
      by rewrite Z.mul_assoc.
Qed.

Lemma linear_cap room g k : 0 < g -> 0 <= room -> (room / g <? k) = (room <? k * g).
Proof.
  intros Hg Hr. destruct (Z.ltb_spec (room / g) k) as [H|H]; symmetry.
  - apply Z.ltb_lt. pose proof (Z.mul_succ_div_gt room g). nia.
  - apply Z.ltb_ge. pose proof (Z.mul_div_le room g). nia.
Qed.

Lemma units_eq s round :
  schedule_typed s -> 0 <= round ->
  units s round
  = if schedule_valid s then Ok (round_units s round) else Err InvalidRequestPolicy.
Proof.
  intros (Hi & Hm & Hg) Hr. unfold in_u32, u32_max in *. unfold units, schedule_valid, round_units.
  destruct (Z.eqb_spec (initial_units s) 0); cbn [orb negb andb]; [done|].
  rewrite (Z.ltb_antisym (initial_units s)).
  destruct (Z.leb_spec (initial_units s) (max_units s)) as [Hle|];
    cbn [negb reject_if mbind outcome_bind andb]; [|done].
  destruct (kind s).
  - by destruct (_ =? initial_units s), (growth s =? 0).
  - destruct (Z.eqb_spec (growth s) 0); cbn [negb reject_if mbind outcome_bind]; [done|].
    rewrite sub_op_ok by done. cbn [mbind outcome_bind].
    rewrite Z.gtb_ltb, linear_cap by lia.
    destruct (Z.ltb_spec (max_units s - initial_units s) (round * growth s)).
    + f_equal. lia.
    + rewrite mul_op_ok by (unfold u32_max; lia). cbn [mbind outcome_bind].
      rewrite add_op_ok by (unfold u32_max; lia). f_equal. lia.
  - rewrite Z.ltb_antisym. destruct (Z.leb_spec 2 (growth s));
      cbn [negb reject_if mbind outcome_bind]; [|done].
    rewrite exponential_loop_spec by (unfold u32_max; lia). by rewrite Z2Nat.id.
Qed.

Lemma round_units_bounds s k :
  schedule_typed s -> schedule_valid s = true -> 0 <= k ->
  1 <= initial_units s <= round_units s k /\ round_units s k <= max_units s.
Proof.
  intros (Hi & Hm & Hg) H Hk. unfold in_u32, schedule_valid, round_units in *.
  reflect_bools. destruct (kind s); reflect_bools.
  - lia.
  - split; [split; [lia|] | lia]. apply Z.min_glb; nia.
  - split; [split; [lia|] | lia]. apply Z.min_glb; [|lia].
    pose proof (Z.pow_pos_nonneg (growth s) k). nia.
Qed.

Lemma round_units_mono s j k :
  schedule_typed s -> schedule_valid s = true -> 0 <= j <= k ->
  round_units s j <= round_units s k.
Proof.
  intros (Hi & Hm & Hg) H Hk. unfold in_u32, schedule_valid, round_units in *.
  reflect_bools. destruct (kind s); reflect_bools.
  - lia.
  - apply Z.min_le_compat_r. nia.
  - apply Z.min_le_compat_r. apply Z.mul_le_mono_nonneg_l; [lia|].
    apply Z.pow_le_mono_r; lia.
Qed.

(** ** Horizons *)

Lemma sum_rounds_bounds s from n :
  schedule_typed s -> schedule_valid s = true -> 0 <= from ->
  Z.of_nat n <= sum_rounds s from n <= Z.of_nat n * u32_max.
Proof.
  intros Ht Hv. revert from. induction n as [|n IH]; intros from Hf; cbn [sum_rounds]; [lia|].
  specialize (IH (from + 1) ltac:(lia)).
  pose proof (round_units_bounds s from Ht Hv Hf) as [? ?].
  destruct Ht as (_ & [_ Hm] & _). lia.
Qed.

Lemma horizon_loop_ok s n round total :
  schedule_typed s -> schedule_valid s = true -> 0 <= round -> 0 <= total ->
  total + Z.of_nat n * u32_max <= u64_max ->
  horizon_loop n s round total = Ok (total + sum_rounds s round n).
Proof.
  intros Ht Hv. revert round total.
  induction n as [|n IH]; intros round total Hr H0 Hb; cbn [horizon_loop sum_rounds].
  - by rewrite Z.add_0_r.
  - rewrite units_eq, Hv by done. cbn [mbind outcome_bind].
    pose proof (round_units_bounds s round Ht Hv Hr) as [? ?].
    destruct (Ht) as (_ & [_ Hm] & _). unfold checked_add, u32_max, u64_max in *.
    rewrite (proj2 (Z.leb_le _ _)) by lia. cbn [ok_or mbind outcome_bind].
    rewrite IH by lia. f_equal. lia.
Qed.

(** The conditions on a policy that do not involve the API key. *)
Definition policy_valid (p : RequestPolicy) : bool :=
  negb (unit_ms p =? 0) && (replay_count p <=? MAX_REPLAY_COUNT) &&
  schedule_valid (replay_gap p) && (horizon_spec p <=? u32_max).

Lemma horizon_spec_pos p :
  policy_typed p -> 0 < unit_ms p -> schedule_valid (replay_gap p) = true -> 0 < horizon_spec p.
Proof.
  intros (Hu & Hn & Hs & Hf) Hp Hv. unfold horizon_spec, in_u32 in *.
  pose proof (sum_rounds_bounds _ 0 (Z.to_nat (replay_count p + 1)) Hs Hv ltac:(lia)). nia.
Qed.

Lemma horizon_ms_eq p limit :
  policy_typed p -> in_u32 limit ->
  horizon_ms p limit
  = if policy_valid p && negb (limit =? 0) then
      if horizon_spec p <=? limit then Ok (horizon_spec p) else Err RequestPolicyExceedsApiKey
    else Err InvalidRequestPolicy.
Proof.
  intros Ht Hl. unfold horizon_ms, policy_valid.
  destruct (Z.eqb_spec (unit_ms p) 0); cbn [orb negb andb reject_if mbind outcome_bind]; [done|].
  rewrite Z.gtb_ltb, Z.ltb_antisym.
  destruct (Z.leb_spec (replay_count p) MAX_REPLAY_COUNT) as [HN|];
    cbn [orb negb andb reject_if mbind outcome_bind]; [|done].
  destruct (Z.eqb_spec limit 0); cbn [orb negb andb reject_if mbind outcome_bind];
    [by rewrite andb_false_r|]. rewrite andb_true_r.
  destruct (Ht) as (Hu & Hn & Hs & Hf). unfold in_u32, in_u64, MAX_REPLAY_COUNT in *.
  destruct (schedule_valid (replay_gap p)) eqn:Hv; cbn [andb].
  2:{ replace (Z.to_nat (replay_count p + 1)) with (S (Z.to_nat (replay_count p))) by lia.
      cbn [horizon_loop]. by rewrite units_eq, Hv by done. }
  rewrite horizon_loop_ok by (done || (unfold u32_max, u64_max in *; lia)).
  cbn [mbind outcome_bind]. pose proof (horizon_spec_pos p Ht ltac:(lia) Hv) as Hpos.
  set (T := final_receive_units p + sum_rounds _ _ _) in *.
  assert (HT : horizon_spec p = T * unit_ms p) by (unfold horizon_spec, T; lia).
  rewrite HT in Hpos |- *. clearbody T.
  unfold checked_mul. destruct (Z.leb_spec (T * unit_ms p) u64_max) as [H64|H64];
    cbn [ok_or mbind outcome_bind].
  2:{ by rewrite (proj2 (Z.leb_gt _ _)) by (unfold u32_max, u64_max in *; lia). }
  replace (T =? 0) with false by (symmetry; apply Z.eqb_neq; intros E; rewrite E, Z.mul_0_l in Hpos; lia).
  cbn [orb]. rewrite !Z.gtb_ltb, !(Z.ltb_antisym (T * unit_ms p)).
  destruct (Z.leb_spec (T * unit_ms p) u32_max);
    cbn [negb reject_if mbind outcome_bind]; [|done].
  destruct (Z.leb_spec (T * unit_ms p) limit);
    cbn [negb reject_if mbind outcome_bind]; [|done].
  f_equal. apply as_u32_small. unfold u32_max in *. lia.
Qed.

Lemma policy_valid_ok p : policy_typed p -> policy_valid p = true <-> policy_ok p.
Proof.
  intros Ht. unfold policy_valid, policy_ok. split.
  - intros H. reflect_bools. destruct (Ht) as ([? ?] & _).
    split_and!; try done; [lia | apply horizon_spec_pos; (done || lia)].
  - intros (_ & Hu & Hn & Hv & Hh & Hm).
    rewrite Hv, (proj2 (Z.eqb_neq _ _)), !(proj2 (Z.leb_le _ _)) by lia. done.
Qed.

Lemma policy_ok_horizon p limit :
  policy_ok p -> in_u32 limit -> 0 < limit ->
  horizon_ms p limit
  = if horizon_spec p <=? limit then Ok (horizon_spec p) else Err RequestPolicyExceedsApiKey.
Proof.
  intros Hp Hl Hl0. destruct (Hp) as [Ht _]. rewrite horizon_ms_eq by done.
  apply (policy_valid_ok p Ht) in Hp. by rewrite Hp, (proj2 (Z.eqb_neq _ _)) by lia.
Qed.

Lemma default_policy_ok : policy_ok default_policy.
Proof. split_and!; try (by vm_compute); repeat split; vm_compute; discriminate. Qed.

(** ** Theorems *)

(** On every field and round value, the checked 32-bit computation of a
    round's length, with its early exits, is the closed formula over unbounded
    integers - constant, capped linear or capped geometric - exactly when the
    schedule is structurally valid, and the policy error otherwise; no arithmetic in
    it overflows. *)
Theorem units_spec s round
    (Ht : schedule_typed s) (Hr : in_u32 round) :
  units s round
  = if schedule_valid s then Ok (round_units s round) else Err InvalidRequestPolicy.
Proof. apply units_eq; [done | apply Hr]. Qed.

Lemma units_spec_witness : units (schedule_exponential 3 7 4000000000) 12 = Ok 4000000000.
Proof.
  rewrite (units_spec (schedule_exponential 3 7 4000000000) 12).
  - vm_compute. reflexivity.
  - repeat split; vm_compute; discriminate.
  - split; vm_compute; discriminate.
Defined.

(** Rounds never shrink: a later round is at least as long as an earlier
    one, the first is the initial length, and no round exceeds the cap. *)
Theorem units_monotone s j k a b
    (Ht : schedule_typed s) (Hjk : 0 <= j <= k)
    (Ha : units s j = Ok a) (Hb : units s k = Ok b) :
  1 <= initial_units s <= a /\ a <= b <= max_units s /\ units s 0 = Ok (initial_units s).
Proof.
  rewrite units_eq in Ha, Hb |- * by (done || lia).
  destruct (schedule_valid s) eqn:Hv; [|done]. injection Ha as <-. injection Hb as <-.
  pose proof (round_units_bounds s j Ht Hv ltac:(lia)) as [? ?].
  pose proof (round_units_bounds s k Ht Hv ltac:(lia)) as [? ?].
  pose proof (round_units_mono s j k Ht Hv Hjk).
  pose proof (round_units_bounds s 0 Ht Hv ltac:(lia)) as [? ?].
  split_and!; try lia. f_equal. revert H4 H5. unfold round_units.
  destruct (kind s); rewrite ?Z.mul_0_l, ?Z.pow_0_r; lia.
Qed.

Lemma units_monotone_witness : 1 <= 1 <= 5 /\ 5 <= 6 <= 6 /\ units (schedule_linear 1 2 6) 0 = Ok 1.
Proof.
  apply (units_monotone (schedule_linear 1 2 6) 2 3 5 6).
  - repeat split; vm_compute; discriminate.
  - lia.
  - reflexivity.
  - reflexivity.
Defined.

(** C24. The horizon a policy is given is the documented sum
    [U * (B(0) + ... + B(N) + F)] and nothing else: it is returned when it fits
    the API key's limit, refused as exceeding the key when it only fits 32 bits,
    and refused as an invalid policy when a field is invalid or the sum does
    not fit 32 bits; the loop of up to 65536 rounds never panics. *)
Theorem horizon_ms_spec p limit
    (Ht : policy_typed p) (Hl : in_u32 limit) :
  horizon_ms p limit
  = if policy_valid p && negb (limit =? 0) then
      if horizon_spec p <=? limit then Ok (horizon_spec p) else Err RequestPolicyExceedsApiKey
    else Err InvalidRequestPolicy.
Proof. by apply horizon_ms_eq. Qed.

Lemma horizon_ms_spec_witness :
  horizon_ms (mkPolicy 25 3 (schedule_linear 1 2 6) 2 true) 300
  = Err RequestPolicyExceedsApiKey.
Proof.
  rewrite (horizon_ms_spec (mkPolicy 25 3 (schedule_linear 1 2 6) 2 true) 300).
  - vm_compute. reflexivity.
  - repeat split; vm_compute; discriminate.
  - split; vm_compute; discriminate.
Defined.

Definition builder_typed (b : RequestPolicyBuilder) : Prop :=
  duration_ok (b_unit b) /\ in_u32 (b_replay_count b) /\ schedule_typed (b_replay_gap b) /\
  in_u32 (b_final_receive_units b).

(** The policy whose fields a builder holds. *)
Definition builder_policy (b : RequestPolicyBuilder) : RequestPolicy :=
  {| unit_ms := as_millis (b_unit b); replay_count := b_replay_count b;
     replay_gap := b_replay_gap b; final_receive_units := b_final_receive_units b;
     completion_delivery := b_completion_delivery b |}.

(** Building a policy succeeds exactly for a whole positive number of
    milliseconds and a valid schedule whose horizon fits 32 bits; the policy
    built, like the default one, satisfies the policy invariant, and its
    [horizon()] accessor - which unwraps - cannot panic and returns the sum. *)
Theorem policy_build_spec b
    (Ht : builder_typed b) :
  policy_build b
  = (if whole_millis (b_unit b) && (as_millis (b_unit b) <=? u64_max) then
       if policy_valid (builder_policy b) then Ok (builder_policy b)
       else Err (InvalidConfiguration InvalidRequestPolicy)
     else Err (InvalidConfiguration (InvalidDuration (lit "request policy unit")))) /\
  (forall p, policy_build b = Ok p \/ p = default_policy ->
     policy_ok p /\ forall E, @policy_horizon E p = Ok (from_millis (horizon_spec p))).
Proof.
  assert (Hspec : policy_build b
    = if whole_millis (b_unit b) && (as_millis (b_unit b) <=? u64_max) then
        if policy_valid (builder_policy b) then Ok (builder_policy b)
        else Err (InvalidConfiguration InvalidRequestPolicy)
      else Err (InvalidConfiguration (InvalidDuration (lit "request policy unit")))).
  { destruct Ht as (Hd & Hn & Hs & Hf). unfold policy_build, whole_millis.
    destruct (dur_is_zero (b_unit b)) eqn:Hz; cbn [orb andb negb reject_if mbind outcome_bind]; [done|].
    destruct (subsec_nanos (b_unit b) mod 1000000 =? 0) eqn:Hw;
      cbn [orb andb negb reject_if mbind outcome_bind]; [|done].
    rewrite Z.gtb_ltb, Z.ltb_antisym.
    destruct (Z.leb_spec (as_millis (b_unit b)) u64_max) as [Hle|];
      cbn [orb andb negb reject_if mbind outcome_bind]; [|done].
    assert (Hm : 0 < as_millis (b_unit b)) by (apply whole_millis_pos; [done|]; unfold whole_millis; by rewrite Hz, Hw).
    rewrite as_u64_small by (unfold u64_max in *; lia). fold (builder_policy b).
    rewrite horizon_ms_eq; [|by repeat split; cbn; (lia || apply Hn || apply Hs || apply Hf)
                            |unfold in_u32, u32_max; lia].
    rewrite andb_true_r. destruct (policy_valid (builder_policy b)) eqn:Hv; [|done].
    unfold policy_valid in Hv. reflect_bools. by rewrite (proj2 (Z.leb_le _ _)). }
  split; [exact Hspec|]. intros p Hp.
  assert (Hok : policy_ok p).
  { destruct Hp as [Hp | ->].
    - rewrite Hspec in Hp. destruct (_ && _) eqn:Hg; [|done].
      destruct (policy_valid _) eqn:Hv; [|done]. injection Hp as <-. reflect_bools.
      apply policy_valid_ok; [|done]. destruct Ht as (Hd & Hn & Hs & Hf).
      pose proof (whole_millis_pos _ Hd ltac:(done)).
      repeat split; cbn; (lia || apply Hn || apply Hs || apply Hf).
    - split_and!; try (by vm_compute); repeat split; vm_compute; discriminate. }
  split; [done|]. intros E. unfold policy_horizon.
  rewrite policy_ok_horizon by (done || (unfold in_u32, u32_max; lia)).
  destruct Hok as (_ & _ & _ & _ & _ & Hm). by rewrite (proj2 (Z.leb_le _ _)).
Qed.

Lemma policy_build_spec_witness :
  policy_ok default_policy /\ forall E, @policy_horizon E default_policy = Ok (from_millis 60).
Proof.
  apply (policy_build_spec default_policy_builder).
  - repeat split; vm_compute; discriminate || reflexivity.
  - right. reflexivity.
Defined.
