(* ===== verification/Wire.v ===== *)
(** * Wire blocks, content identifiers and packet encryption (src/src/protocol.rs)

    The fixed-layout blocks of the protocol with their little-endian readers and
    writers, the identifiers derived from resource and latency-tracker
    definitions, and the two AEAD entry points.

    BLAKE2s-256 and AES-256-GCM are parameters ([Primitives]) with the documented
    behaviour the code relies on as laws ([PrimitivesLaws]); [WireBlock] and
    [WireBlockLaws] are what a block layout promises to the packet code. *)

From S2P Require Import Prelude.

(** ** Primitives of third-party crates *)

Class Primitives := {
  blake2s256 : list Z -> list Z;
  (** [aes_seal key nonce aad msg]: [None] when the crate reports an error. *)
  aes_seal : list Z -> list Z -> list Z -> list Z -> option (list Z);
  aes_open : list Z -> list Z -> list Z -> list Z -> option (list Z);
}.

(** An array [[u8; n]]. *)
Definition array_ok (n : Z) (a : list Z) : Prop := zlen a = n /\ bytes_ok a.

(** The longest message and associated data AES-256-GCM takes. *)
Definition aes_max : Z := 68719476736.

Class PrimitivesLaws `{Primitives} : Prop := {
  blake2s256_len m : zlen (blake2s256 m) = 32;
  blake2s256_bytes m : bytes_ok (blake2s256 m);
  aes_seal_open key nonce aad msg :
    array_ok 32 key -> array_ok 12 nonce -> bytes_ok aad -> bytes_ok msg ->
    zlen aad <= aes_max -> zlen msg <= aes_max ->
    exists ct, aes_seal key nonce aad msg = Some ct /\ array_ok (zlen msg + 16) ct /\
      aes_open key nonce aad ct = Some msg;
  aes_seal_len key nonce aad ct msg :
    aes_seal key nonce aad msg = Some ct -> zlen ct = zlen msg + 16;
  aes_open_seal key nonce aad ct msg :
    aes_open key nonce aad ct = Some msg -> aes_seal key nonce aad msg = Some ct;
  aes_open_bytes key nonce aad ct msg :
    bytes_ok ct -> aes_open key nonce aad ct = Some msg -> bytes_ok msg;
}.

(** ** Content identifiers *)

(** The two domains: the literal and its terminating zero byte. *)
Definition RESOURCE_ID_DOMAIN : list Z := lit "ratelimitly.resource.v1" ++ [0].
Definition LATENCY_TRACKER_ID_DOMAIN : list Z := lit "ratelimitly.latency-tracker.v2" ++ [0].

Section Identifiers.
Context `{Primitives} {E : Type}.

(** [derive_content_id]; the incremental [update]s hash the concatenation. *)
Definition derive_content_id (domain name : list Z) (fields : list Z) : outcome E (list Z) :=
  name_len ← expect (if zlen name <=? u32_max then Some (zlen name) else None);
  let result := blake2s256 (domain ++ u32_le name_len ++ name ++ concat (map u32_le fields)) in
  prefix ← result.[0 ..< 16];
  copy_at (zeros 16) 0 16 prefix.

Definition derive_bucket_id_bytes (bucket_name : list Z) (window_size_ms rate_limit : Z) :=
  derive_content_id RESOURCE_ID_DOMAIN bucket_name [window_size_ms; rate_limit].
Definition derive_bucket_id (bucket_name : str) (window_size_ms rate_limit : Z) :=
  derive_bucket_id_bytes (as_bytes bucket_name) window_size_ms rate_limit.

Definition derive_latency_tracker_id_bytes
    (name : list Z) (ttl_ms max_samples min_sample_threshold : Z) :=
  derive_content_id LATENCY_TRACKER_ID_DOMAIN name [ttl_ms; max_samples; min_sample_threshold].
Definition derive_latency_tracker_id
    (name : str) (ttl_ms max_samples min_sample_threshold : Z) :=
  derive_latency_tracker_id_bytes (as_bytes name) ttl_ms max_samples min_sample_threshold.

End Identifiers.

(** ** Encryption *)

Section Encryption.
Context `{Primitives}.

(** [encrypt_pdu], the random nonce being an argument. *)
Definition encrypt_pdu {E} (nonce pdu key aad_prefix : list Z)
  : outcome E (list Z * list Z * list Z) :=
  let aad := aad_prefix ++ nonce in
  ciphertext ← expect (aes_seal key nonce aad pdu);
  tag_offset ← sub_op (zlen ciphertext) 16;
  tag_slice ← ciphertext.[tag_offset ..<];
  encrypted_pdu ← ciphertext.[0 ..< tag_offset];
  auth_tag ← copy_at (zeros 16) 0 16 tag_slice;
  Ok (encrypted_pdu, nonce, auth_tag).

Definition decrypt_pdu (encrypted_pdu key nonce auth_tag aad : list Z) : option (list Z) :=
  aes_open key nonce aad (encrypted_pdu ++ auth_tag).

End Encryption.

(** ** Constants *)

Definition TLV_TENANT : Z := 0x4C52.
Definition TLV_AUTH_NONE : Z := 0x414E.
Definition TLV_AUTH_COOKIE : Z := 0x4143.
Definition TLV_AUTH_AES : Z := 0x4541.
Definition TLV_METRICS_LABEL : Z := 0x4C4D.
Definition PDU_RATE_REQUEST : Z := 0x5452.
Definition PDU_RATE_RESPONSE : Z := 0x5252.
Definition PDU_LATENCY_REPORT : Z := 0x524C.
Definition GUARD_BLOCK_WIRE_LEN : Z := 36.
Definition SERVICE_LATENCY_BLOCK_WIRE_LEN : Z := 32.

(** ** Blocks *)

Record TenantHeader := mkTenantHeader {
  tlv_type : Z;
  tlv_size : Z;
  th_key_id : Z;
  unique_id : list Z;
  time_stamp : Z;
  th_steering_feedback : Z;
  tenant_mgmt_flag : Z;
  th_padding : list Z;
}.

Definition tenant_write_to_buffer {E} (h : TenantHeader) (buffer : list Z) : outcome E (list Z) :=
  buffer ← copy_at buffer 0 2 (u16_le (tlv_type h));
  buffer ← copy_at buffer 2 4 (u16_le (tlv_size h));
  buffer ← copy_at buffer 4 12 (u64_le (th_key_id h));
  buffer ← copy_at buffer 12 28 (unique_id h);
  buffer ← copy_at buffer 28 36 (u64_le (time_stamp h));
  buffer ← store buffer 36 (th_steering_feedback h);
  buffer ← store buffer 37 (tenant_mgmt_flag h);
  copy_at buffer 38 40 (th_padding h).

Definition tenant_read_from_buffer (buffer : list Z) : outcome str TenantHeader :=
  _ ← reject_if (zlen buffer <? 40) (lit "Buffer too small for TenantHeader");
  uid ← buffer.[12 ..< 28];
  uid ← copy_at (zeros 16) 0 16 uid;
  padding ← buffer.[38 ..< 40];
  padding ← copy_at (zeros 2) 0 2 padding;
  ty ← u16_at buffer 0;
  size ← u16_at buffer 2;
  key_id ← int_at 8 buffer 4 12;
  stamp ← int_at 8 buffer 28 36;
  feedback ← buffer.[36];
  flag ← buffer.[37];
  Ok {| tlv_type := ty; tlv_size := size; th_key_id := key_id; unique_id := uid;
        time_stamp := stamp; th_steering_feedback := feedback; tenant_mgmt_flag := flag;
        th_padding := padding |}.

Record GuardBlock := mkGuardBlock {
  gb_latency_tracker_id : list Z;
  gb_ttl_ms : Z;
  gb_max_samples : Z;
  gb_min_sample_threshold : Z;
  gb_latency_threshold : Z;
  gb_current_latency : Z;
}.

Definition guard_write_to_buffer {E} (g : GuardBlock) (buffer : list Z) : outcome E (list Z) :=
  buffer ← copy_at buffer 0 16 (gb_latency_tracker_id g);
  buffer ← copy_at buffer 16 20 (u32_le (gb_ttl_ms g));
  buffer ← copy_at buffer 20 24 (u32_le (gb_max_samples g));
  buffer ← copy_at buffer 24 28 (u32_le (gb_min_sample_threshold g));
  buffer ← copy_at buffer 28 32 (u32_le (gb_latency_threshold g));
  copy_at buffer 32 36 (u32_le (gb_current_latency g)).

Definition guard_read_from_buffer (buffer : list Z) : outcome str GuardBlock :=
  _ ← reject_if (zlen buffer <? GUARD_BLOCK_WIRE_LEN) (lit "Buffer too small for GuardBlock");
  id ← buffer.[0 ..< 16];
  id ← copy_at (zeros 16) 0 16 id;
  ttl ← int_at 4 buffer 16 20;
  max_samples ← int_at 4 buffer 20 24;
  min_samples ← int_at 4 buffer 24 28;
  threshold ← int_at 4 buffer 28 32;
  current ← int_at 4 buffer 32 36;
  Ok {| gb_latency_tracker_id := id; gb_ttl_ms := ttl; gb_max_samples := max_samples;
        gb_min_sample_threshold := min_samples; gb_latency_threshold := threshold;
        gb_current_latency := current |}.

Record ResourceBlock := mkResourceBlock {
  rb_bucket_id : list Z;
  rb_window_size_ms : Z;
  rb_rate_limit : Z;
  rb_tokens_requested : Z;
  rb_padding : Z;
}.

Definition resource_write_to_buffer {E} (r : ResourceBlock) (buffer : list Z) : outcome E (list Z) :=
  buffer ← copy_at buffer 0 16 (rb_bucket_id r);
  buffer ← copy_at buffer 16 20 (u32_le (rb_window_size_ms r));
  buffer ← copy_at buffer 20 24 (u32_le (rb_rate_limit r));
  buffer ← copy_at buffer 24 26 (u16_le (rb_tokens_requested r));
  copy_at buffer 26 28 (u16_le (rb_padding r)).

Definition resource_read_from_buffer (buffer : list Z) : outcome str ResourceBlock :=
  _ ← reject_if (zlen buffer <? 28) (lit "Buffer too small for ResourceBlock");
  id ← buffer.[0 ..< 16];
  id ← copy_at (zeros 16) 0 16 id;
  window ← int_at 4 buffer 16 20;
  rate_limit ← int_at 4 buffer 20 24;
  tokens ← int_at 2 buffer 24 26;
  padding ← int_at 2 buffer 26 28;
  Ok {| rb_bucket_id := id; rb_window_size_ms := window; rb_rate_limit := rate_limit;
        rb_tokens_requested := tokens; rb_padding := padding |}.

Record ServiceLatencyBlock := mkServiceLatencyBlock {
  sb_latency_tracker_id : list Z;
  sb_ttl_ms : Z;
  sb_max_samples : Z;
  sb_min_sample_threshold : Z;
  sb_observed_latency : Z;
}.

Definition latency_write_to_buffer {E} (b : ServiceLatencyBlock) (buffer : list Z)
  : outcome E (list Z) :=
  buffer ← copy_at buffer 0 16 (sb_latency_tracker_id b);
  buffer ← copy_at buffer 16 20 (u32_le (sb_ttl_ms b));
  buffer ← copy_at buffer 20 24 (u32_le (sb_max_samples b));
  buffer ← copy_at buffer 24 28 (u32_le (sb_min_sample_threshold b));
  copy_at buffer 28 32 (u32_le (sb_observed_latency b)).

(** ** Request and result structures *)

Record ResourceRequest := mkResourceRequest {
  bucket_name : str;
  rq_window_size_ms : Z;
  rq_rate_limit : Z;
  rq_tokens_requested : Z;
}.

Record LatencyGuard := mkLatencyGuard {
  lg_latency_tracker_name : str;
  lg_threshold_ms : Z;
  lg_ttl_ms : Z;
  lg_max_samples : Z;
  lg_min_sample_threshold : Z;
}.

Record ServiceLatencyReport := mkServiceLatencyReport {
  sr_latency_tracker_name : str;
  sr_observed_latency : Z;
  sr_ttl_ms : Z;
  sr_max_samples : Z;
  sr_min_sample_threshold : Z;
}.

Record GuardResult := mkGuardResult {
  gr_latency_tracker_id : list Z;
  gr_threshold_ms : Z;
  gr_current_latency_ms : Z;
  gr_passed : bool;
}.

Record ResourceResult := mkResourceResult {
  rr_bucket_id : list Z;
  rr_tokens_deficit : Z;
  rr_actual_rate : Z;
}.

Record RateLimitResult := mkRateLimitResult {
  success : bool;
  guard_results : list GuardResult;
  resource_results : list ResourceResult;
  server_id : Z;
  steering_feedback : bool;
}.

#[export] Instance GuardResult_eq_dec : EqDecision GuardResult.
Proof. solve_decision. Defined.
#[export] Instance ResourceResult_eq_dec : EqDecision ResourceResult.
Proof. solve_decision. Defined.
#[export] Instance RateLimitResult_eq_dec : EqDecision RateLimitResult.
Proof. solve_decision. Defined.

(** ** What a block layout promises

    [encode] is the layout; a writer puts it at the front of its buffer, a reader
    recovers the block from any buffer that starts with it, and every byte
    string of the right length is the layout of a block. *)

Class WireBlock (T : Type) := {
  block_len : Z;
  block_ok : T -> Prop;
  encode : T -> list Z;
}.
Arguments block_len T {_}.

Class BlockWriter (T : Type) `{WireBlock T} (write : forall E, T -> list Z -> outcome E (list Z)) : Prop := {
  encode_array x : block_ok x -> array_ok (block_len T) (encode x);
  write_encode E x buffer : block_ok x -> block_len T <= zlen buffer ->
    write E x buffer = Ok (encode x ++ drop (Z.to_nat (block_len T)) buffer);
  write_short E x buffer : block_ok x -> zlen buffer < block_len T -> write E x buffer = Panic;
}.

Class BlockReader (T : Type) `{WireBlock T} (read : list Z -> outcome str T) : Prop := {
  read_encode x rest : block_ok x -> read (encode x ++ rest) = Ok x;
  read_short buffer : zlen buffer < block_len T -> exists e, read buffer = Err e;
  encode_surj l : array_ok (block_len T) l -> exists x, block_ok x /\ l = encode x;
}.

#[export] Instance tenant_block : WireBlock TenantHeader := {|
  block_len := 40;
  block_ok h := in_u16 (tlv_type h) /\ in_u16 (tlv_size h) /\ in_u64 (th_key_id h) /\
    array_ok 16 (unique_id h) /\ in_u64 (time_stamp h) /\ in_u8 (th_steering_feedback h) /\
    in_u8 (tenant_mgmt_flag h) /\ array_ok 2 (th_padding h);
  encode h := u16_le (tlv_type h) ++ u16_le (tlv_size h) ++ u64_le (th_key_id h) ++
    unique_id h ++ u64_le (time_stamp h) ++ [th_steering_feedback h] ++ [tenant_mgmt_flag h] ++
    th_padding h
|}.

#[export] Instance guard_block : WireBlock GuardBlock := {|
  block_len := 36;
  block_ok g := array_ok 16 (gb_latency_tracker_id g) /\ in_u32 (gb_ttl_ms g) /\
    in_u32 (gb_max_samples g) /\ in_u32 (gb_min_sample_threshold g) /\
    in_u32 (gb_latency_threshold g) /\ in_u32 (gb_current_latency g);
  encode g := gb_latency_tracker_id g ++ u32_le (gb_ttl_ms g) ++ u32_le (gb_max_samples g) ++
    u32_le (gb_min_sample_threshold g) ++ u32_le (gb_latency_threshold g) ++
    u32_le (gb_current_latency g)
|}.

#[export] Instance resource_block : WireBlock ResourceBlock := {|
  block_len := 28;
  block_ok r := array_ok 16 (rb_bucket_id r) /\ in_u32 (rb_window_size_ms r) /\
    in_u32 (rb_rate_limit r) /\ in_u16 (rb_tokens_requested r) /\ in_u16 (rb_padding r);
  encode r := rb_bucket_id r ++ u32_le (rb_window_size_ms r) ++ u32_le (rb_rate_limit r) ++
    u16_le (rb_tokens_requested r) ++ u16_le (rb_padding r)
|}.

#[export] Instance latency_block : WireBlock ServiceLatencyBlock := {|
  block_len := 32;
  block_ok b := array_ok 16 (sb_latency_tracker_id b) /\ in_u32 (sb_ttl_ms b) /\
    in_u32 (sb_max_samples b) /\ in_u32 (sb_min_sample_threshold b) /\
    in_u32 (sb_observed_latency b);
  encode b := sb_latency_tracker_id b ++ u32_le (sb_ttl_ms b) ++ u32_le (sb_max_samples b) ++
    u32_le (sb_min_sample_threshold b) ++ u32_le (sb_observed_latency b)
|}.

Ltac block_unfold :=
  unfold block_ok, block_len, encode, tenant_block, guard_block, resource_block, latency_block,
    array_ok, in_u8, in_u16, in_u32, in_u64, u8_max, u16_max, u32_max, u64_max in *.

(** One write after another, each behind what is already written. *)
Ltac write_fields :=
  repeat (first [rewrite copy_at_next by zlen_lia | unfold store; rewrite copy_at_next by zlen_lia];
          cbn [mbind outcome_bind]).

(** One read after another, each behind the fields before it. *)
Ltac read_fields :=
  unfold u16_le, u32_le, u64_le;
  repeat (first
    [ rewrite slice_skip by zlen_lia | rewrite int_at_skip by zlen_lia
    | rewrite u16_at_skip by zlen_lia | rewrite index_skip by zlen_lia
    | rewrite slice_head by zlen_lia | rewrite int_at_head by zlen_lia
    | rewrite u16_at_head by zlen_lia | rewrite index_head by zlen_lia
    | rewrite copy_at_all by zlen_lia ];
   cbn [mbind outcome_bind]).

(** The three laws of a writer, the two of a reader and the surjectivity of a layout. *)
Ltac solve_array :=
  intros x Hx; block_unfold; destruct_and!; split; [zlen_lia | unfold u16_le, u32_le, u64_le];
  repeat (apply bytes_ok_app; split); auto with bytes;
  repeat constructor; lia.

Ltac solve_write f :=
  intros E x buffer Hx Hlen; block_unfold; destruct_and!; unfold f;
  rewrite <- (app_nil_l buffer) at 1; write_fields;
  rewrite !drop_drop; cbn [app]; rewrite <- ?app_assoc; reflexivity.

Ltac solve_write_short f :=
  intros E x buffer Hx Hlen; block_unfold; unfold f, store;
  repeat (apply copy_at_bind_panic; intros ? ?); apply copy_at_short; lia.

Ltac solve_read f :=
  intros x rest Hx; pose proof (zlen_nonneg rest); block_unfold; destruct_and!;
  unfold f, GUARD_BLOCK_WIRE_LEN; rewrite <- !app_assoc;
  rewrite (proj2 (Z.ltb_ge _ _)) by zlen_lia; cbn [reject_if mbind outcome_bind];
  read_fields; by destruct x.

Ltac solve_read_short f :=
  intros buffer Hlen; block_unfold; unfold f, GUARD_BLOCK_WIRE_LEN;
  rewrite (proj2 (Z.ltb_lt _ _) Hlen); eauto.

(** Takes the next field off the front of the byte list [l]. *)
Ltac split_field l Hb Hl n z :=
  let r := fresh "r" in let h := fresh "h" in let k := fresh "k" in
  destruct (split_int n _ l Hb Hl) as (z & r & -> & ? & h & k);
  [lia | clear Hb Hl; rename r into l, h into Hb, k into Hl].
Ltac split_array l Hb Hl n a :=
  let r := fresh "r" in let h := fresh "h" in let k := fresh "k" in
  destruct (split_bytes n _ l Hb Hl) as (a & r & -> & ? & ? & h & k);
  [lia | clear Hb Hl; rename r into l, h into Hb, k into Hl].
Ltac no_more_fields l Hl :=
  destruct l; [clear Hl; rewrite ?app_nil_r
              | exfalso; rewrite zlen_cons in Hl; pose proof (zlen_nonneg l); lia];
  change (256 ^ Z.of_nat 1) with 256 in *; change (256 ^ Z.of_nat 2) with 65536 in *;
  change (256 ^ Z.of_nat 4) with 4294967296 in *;
  change (256 ^ Z.of_nat 8) with 18446744073709551616 in *.

#[export] Instance tenant_writer : BlockWriter TenantHeader (@tenant_write_to_buffer).
Proof.
  split; [solve_array | solve_write @tenant_write_to_buffer | solve_write_short @tenant_write_to_buffer].
Qed.

#[export] Instance guard_writer : BlockWriter GuardBlock (@guard_write_to_buffer).
Proof.
  split; [solve_array | solve_write @guard_write_to_buffer | solve_write_short @guard_write_to_buffer].
Qed.

#[export] Instance resource_writer : BlockWriter ResourceBlock (@resource_write_to_buffer).
Proof.
  split; [solve_array | solve_write @resource_write_to_buffer
         | solve_write_short @resource_write_to_buffer].
Qed.

#[export] Instance latency_writer : BlockWriter ServiceLatencyBlock (@latency_write_to_buffer).
Proof.
  split; [solve_array | solve_write @latency_write_to_buffer
         | solve_write_short @latency_write_to_buffer].
Qed.

#[export] Instance tenant_reader : BlockReader TenantHeader tenant_read_from_buffer.
Proof.
  split; [solve_read tenant_read_from_buffer | solve_read_short tenant_read_from_buffer |].
  intros l [Hl Hb]. cbn [block_len tenant_block] in Hl.
  split_field l Hb Hl 2%nat ty. split_field l Hb Hl 2%nat sz. split_field l Hb Hl 8%nat key. split_array l Hb Hl 16%nat uid.
  split_field l Hb Hl 8%nat stamp. split_field l Hb Hl 1%nat fb. split_field l Hb Hl 1%nat flag. split_array l Hb Hl 2%nat pad.
  no_more_fields l Hl.
  exists (mkTenantHeader ty sz key uid stamp fb flag pad).
  split; [block_unfold; cbn; split_and!; done || lia|].
  cbn. by rewrite (Z.mod_small fb), (Z.mod_small flag).
Qed.

#[export] Instance guard_reader : BlockReader GuardBlock guard_read_from_buffer.
Proof.
  split; [solve_read guard_read_from_buffer | solve_read_short guard_read_from_buffer |].
  intros l [Hl Hb]. cbn [block_len guard_block] in Hl.
  split_array l Hb Hl 16%nat idn. split_field l Hb Hl 4%nat ttl. split_field l Hb Hl 4%nat mx. split_field l Hb Hl 4%nat mn.
  split_field l Hb Hl 4%nat thr. split_field l Hb Hl 4%nat cur. no_more_fields l Hl.
  exists (mkGuardBlock idn ttl mx mn thr cur). split; [|done].
  block_unfold. cbn. split_and!; done || lia.
Qed.

#[export] Instance resource_reader : BlockReader ResourceBlock resource_read_from_buffer.
Proof.
  split; [solve_read resource_read_from_buffer | solve_read_short resource_read_from_buffer |].
  intros l [Hl Hb]. cbn [block_len resource_block] in Hl.
  split_array l Hb Hl 16%nat idn. split_field l Hb Hl 4%nat win. split_field l Hb Hl 4%nat rate. split_field l Hb Hl 2%nat tok.
  split_field l Hb Hl 2%nat pad. no_more_fields l Hl.
  exists (mkResourceBlock idn win rate tok pad). split; [|done].
  block_unfold. cbn. split_and!; done || lia.
Qed.

(** ** Consequences of the interface *)

Section BlockFacts.
Context {T : Type} `{WireBlock T}.
Context {write : forall E, T -> list Z -> outcome E (list Z)} `{!BlockWriter T write}.
Context {read : list Z -> outcome str T} `{!BlockReader T read}.

Lemma zlen_encode x : block_ok x -> zlen (encode x) = block_len T.
Proof. intros Hx. by apply encode_array. Qed.

(** Writing into the zero-filled tail the packet code appends. *)
Lemma write_zeros E x : block_ok x -> write E x (zeros (block_len T)) = Ok (encode x).
Proof.
  intros Hx. pose proof (zlen_encode x Hx). pose proof (zlen_nonneg (encode x)).
  rewrite write_encode by (done || (rewrite zlen_zeros; lia)).
  rewrite drop_ge, app_nil_r; [done|]. unfold zeros. rewrite length_replicate. lia.
Qed.

(** Reading any long enough buffer gives the block it starts with. *)
Lemma read_total buffer :
  bytes_ok buffer -> block_len T <= zlen buffer -> 0 <= block_len T ->
  exists x, block_ok x /\ read buffer = Ok x /\
    buffer = encode x ++ drop (Z.to_nat (block_len T)) buffer.
Proof.
  intros Hb Hl H0. set (n := Z.to_nat (block_len T)) in *.
  destruct (encode_surj (take n buffer)) as (x & Hx & E).
  - split; [rewrite zlen_take_min; lia | auto with bytes].
  - exists x. rewrite <- E, take_drop. split_and!; [done | | done].
    rewrite <- (take_drop n buffer), E. by apply read_encode.
Qed.

Lemma encode_inj x y : block_ok x -> block_ok y -> encode x = encode y -> x = y.
Proof.
  intros Hx Hy E. pose proof (read_encode x [] Hx) as Rx.
  rewrite E, read_encode in Rx by done. congruence.
Qed.

(** What reader and writer of a layout owe each other. *)
Definition block_roundtrips : Prop :=
  (forall E x buffer, block_ok x -> block_len T <= zlen buffer ->
     exists b, write E x buffer = Ok b /\ zlen b = zlen buffer /\
       drop (Z.to_nat (block_len T)) b = drop (Z.to_nat (block_len T)) buffer /\ read b = Ok x) /\
  (forall E x buffer, block_ok x -> zlen buffer < block_len T ->
     write E x buffer = Panic /\ exists e, read buffer = Err e) /\
  (forall E buffer, bytes_ok buffer -> block_len T <= zlen buffer ->
     exists x, block_ok x /\ read buffer = Ok x /\ write E x buffer = Ok buffer).

Lemma block_roundtrips_holds : 0 <= block_len T -> block_roundtrips.
Proof.
  intros H0. split; [|split].
  - intros E x buffer Hx Hl. pose proof (zlen_encode x Hx) as He.
    exists (encode x ++ drop (Z.to_nat (block_len T)) buffer).
    rewrite write_encode by done. split; [done|]. split; [|split].
    + rewrite zlen_app, zlen_drop_max. lia.
    + rewrite drop_app_ge by (unfold zlen in He; lia).
      by replace (_ - _)%nat with 0%nat by (unfold zlen in He; lia).
    + by apply read_encode.
  - intros E x buffer Hx Hl. split; [by apply write_short | by apply read_short].
  - intros E buffer Hb Hl. destruct (read_total buffer Hb Hl H0) as (x & Hx & Hr & Heq).
    exists x. split_and!; [done | done |]. rewrite write_encode by done. by rewrite <- Heq.
Qed.

End BlockFacts.
Arguments block_roundtrips T {_} write read.

(** The fixed layouts of the protocol are bijective: for the tenant header,
    the guard block and the resource block, a written block is read back, the
    rest of the buffer is untouched, every sufficiently long byte string is
    exactly one block that writes back to the same bytes, and short buffers are
    an error to read and a panic to write. *)
Theorem wire_blocks_roundtrip :
  block_roundtrips TenantHeader (@tenant_write_to_buffer) tenant_read_from_buffer /\
  block_roundtrips GuardBlock (@guard_write_to_buffer) guard_read_from_buffer /\
  block_roundtrips ResourceBlock (@resource_write_to_buffer) resource_read_from_buffer.
Proof. split_and!; apply block_roundtrips_holds; cbn; lia. Qed.

(** ** Identifiers name definitions *)

Inductive ContentDefinition : Type :=
| BucketDefinition (name : list Z) (window_size_ms rate_limit : Z)
| TrackerDefinition (name : list Z) (ttl_ms max_samples min_sample_threshold : Z).

Definition definition_name (d : ContentDefinition) : list Z :=
  match d with BucketDefinition n _ _ | TrackerDefinition n _ _ _ => n end.
Definition definition_fields (d : ContentDefinition) : list Z :=
  match d with
  | BucketDefinition _ w r => [w; r]
  | TrackerDefinition _ t x m => [t; x; m]
  end.
Definition definition_domain (d : ContentDefinition) : list Z :=
  match d with
  | BucketDefinition _ _ _ => RESOURCE_ID_DOMAIN
  | TrackerDefinition _ _ _ _ => LATENCY_TRACKER_ID_DOMAIN
  end.

Definition definition_typed (d : ContentDefinition) : Prop :=
  zlen (definition_name d) <= u32_max /\ Forall in_u32 (definition_fields d).

(** The bytes that are hashed. *)
Definition preimage (d : ContentDefinition) : list Z :=
  definition_domain d ++ u32_le (zlen (definition_name d)) ++ definition_name d ++
  concat (map u32_le (definition_fields d)).

Definition content_id `{Primitives} {E} (d : ContentDefinition) : outcome E (list Z) :=
  match d with
  | BucketDefinition n w r => derive_bucket_id_bytes n w r
  | TrackerDefinition n t x m => derive_latency_tracker_id_bytes n t x m
  end.

Lemma app_inj_len {A} (a b c d : list A) :
  length a = length b -> a ++ c = b ++ d -> a = b /\ c = d.
Proof. intros Hl E. by apply app_inj_1 in E. Qed.

Lemma u32_le_inj x y : in_u32 x -> in_u32 y -> u32_le x = u32_le y -> x = y.
Proof. intros Hx Hy. unfold in_u32, u32_max in *. apply to_le_inj; lia. Qed.

Lemma fields_inj xs ys :
  Forall in_u32 xs -> Forall in_u32 ys -> length xs = length ys ->
  concat (map u32_le xs) = concat (map u32_le ys) -> xs = ys.
Proof.
  intros Hx. revert ys. induction Hx as [|x xs Hx _ IH]; intros ys Hy Hl E;
    destruct Hy as [|y ys Hy Hys]; try done.
  cbn [map concat] in E. apply app_inj_len in E as [E1 E2]; [|done].
  f_equal; [by apply u32_le_inj | apply IH; [done | by injection Hl | done]].
Qed.

(** The two domains differ before the shorter one ends. *)
Lemma domains_disjoint x y : RESOURCE_ID_DOMAIN ++ x <> LATENCY_TRACKER_ID_DOMAIN ++ y.
Proof. vm_compute. congruence. Qed.

Lemma preimage_parts dom n1 n2 f1 f2 :
  zlen n1 <= u32_max -> zlen n2 <= u32_max -> Forall in_u32 f1 -> Forall in_u32 f2 ->
  length f1 = length f2 ->
  dom ++ u32_le (zlen n1) ++ n1 ++ concat (map u32_le f1)
  = dom ++ u32_le (zlen n2) ++ n2 ++ concat (map u32_le f2) ->
  n1 = n2 /\ f1 = f2.
Proof.
  intros H1 H2 F1 F2 Hl E. apply app_inv_head in E.
  apply app_inj_len in E as [El E]; [|done].
  apply u32_le_inj in El; [|split; [apply zlen_nonneg | done] ..].
  apply app_inj_len in E as [-> E]; [|unfold zlen in El; lia].
  split; [done | by apply fields_inj].
Qed.

Lemma preimage_inj d1 d2 :
  definition_typed d1 -> definition_typed d2 -> preimage d1 = preimage d2 -> d1 = d2.
Proof.
  intros [Hn1 Hf1] [Hn2 Hf2] E.
  destruct d1, d2; unfold preimage in E; cbn [definition_domain definition_name definition_fields] in *;
    try (exfalso; (by apply domains_disjoint in E) || (symmetry in E; by apply domains_disjoint in E));
    apply preimage_parts in E as [-> E]; try done; by simplify_eq.
Qed.

Lemma content_id_eq `{PrimitivesLaws} {E} d :
  definition_typed d -> @content_id _ E d = Ok (take 16 (blake2s256 (preimage d))).
Proof.
  intros [Hn Hf].
  assert (@content_id _ E d = derive_content_id (definition_domain d) (definition_name d)
            (definition_fields d)) as -> by by destruct d.
  unfold derive_content_id. rewrite (proj2 (Z.leb_le _ _) Hn). cbn [expect mbind outcome_bind].
  rewrite slice_ok by (rewrite ?blake2s256_len; lia). cbn [mbind outcome_bind].
  fold (preimage d). change (Z.to_nat (16 - 0)) with 16%nat. change (Z.to_nat 0) with 0%nat.
  rewrite drop_0. apply copy_at_all; [done | done |].
  by rewrite zlen_take_min, blake2s256_len.
Qed.

Lemma content_id_array `{PrimitivesLaws} {E} d id :
  definition_typed d -> @content_id _ E d = Ok id -> array_ok 16 id.
Proof.
  intros Hd. rewrite (content_id_eq d Hd). intros [= <-].
  split; [rewrite zlen_take_min, blake2s256_len; lia | apply bytes_ok_take, blake2s256_bytes].
Qed.

(** An identifier is the first sixteen bytes of the digest of an encoding of
    the whole definition - kind, name and every field - and the encoding is
    injective: two definitions share it only when they are the same bucket or
    the same tracker, so distinct definitions get distinct identifiers unless the
    truncated hash itself collides. *)
Theorem content_ids_name_definitions `{PrimitivesLaws} {E} d1 d2
    (H1 : definition_typed d1) (H2 : definition_typed d2) :
  @content_id _ E d1 = Ok (take 16 (blake2s256 (preimage d1))) /\
  @content_id _ E d2 = Ok (take 16 (blake2s256 (preimage d2))) /\
  (preimage d1 = preimage d2 <-> d1 = d2).
Proof.
  rewrite !content_id_eq by done. split_and!; [done | done |]. split; [|by intros ->].
  by apply preimage_inj.
Qed.

(** ** Encryption *)

(** Sealing splits into ciphertext and tag, and [decrypt_pdu] undoes it. *)
Lemma encrypt_pdu_ok `{PrimitivesLaws} {E} nonce pdu key aad :
  array_ok 32 key -> array_ok 12 nonce -> bytes_ok aad -> bytes_ok pdu ->
  zlen aad + 12 <= aes_max -> zlen pdu <= aes_max ->
  exists ct tag,
    @encrypt_pdu _ E nonce pdu key aad = Ok (ct, nonce, tag) /\
    array_ok (zlen pdu) ct /\ array_ok 16 tag /\
    decrypt_pdu ct key nonce tag (aad ++ nonce) = Some pdu.
Proof.
  intros Hk Hn Ha Hp Hal Hpl. pose proof (zlen_nonneg pdu).
  destruct (aes_seal_open key nonce (aad ++ nonce) pdu) as (c & Hs & [Hc Hb] & Ho);
    [done | done | by apply bytes_ok_app; split; [|apply Hn] | done
    | rewrite zlen_app; destruct Hn as [-> _]; lia | done |].
  destruct (split_bytes (Z.to_nat (zlen pdu)) _ c Hb Hc ltac:(lia))
    as (ct & tag & -> & Hct & Hctb & Htb & Htag).
  assert (zlen tag = 16) by lia. exists ct, tag.
  split; [|split; [split; [lia | done] | split; [done | exact Ho]]]. unfold encrypt_pdu. rewrite Hs. cbn [expect mbind outcome_bind].
  rewrite Hc, sub_op_ok by lia. cbn [mbind outcome_bind].
  rewrite slice_from_app by lia. cbn [mbind outcome_bind].
  rewrite slice_head by lia. cbn [mbind outcome_bind].
  by rewrite copy_at_all by done.
Qed.

(** Decryption succeeds only on what sealing the result produces. *)
Lemma decrypt_pdu_inv `{PrimitivesLaws} ct key nonce tag aad pdu :
  decrypt_pdu ct key nonce tag aad = Some pdu ->
  aes_seal key nonce aad pdu = Some (ct ++ tag).
Proof. apply aes_open_seal. Qed.

(** ** A concrete instance of the primitives, for evaluation *)

Definition toy_sum (l : list Z) : Z := foldr Z.add 0 l mod 256.
Definition toy_tag (key nonce aad msg : list Z) : list Z :=
  replicate 16 (toy_sum (key ++ nonce ++ aad ++ msg)).
Definition toy_prefix (ct : list Z) : list Z := take (length ct - 16) ct.

Definition toy_primitives : Primitives := {|
  blake2s256 m := replicate 32 (toy_sum m);
  aes_seal key nonce aad msg := Some (msg ++ toy_tag key nonce aad msg);
  aes_open key nonce aad ct :=
    if decide (ct = toy_prefix ct ++ toy_tag key nonce aad (toy_prefix ct))
    then Some (toy_prefix ct) else None
|}.

Lemma toy_sum_byte l : is_byte (toy_sum l).
Proof. unfold toy_sum, is_byte. pose proof (Z.mod_pos_bound (foldr Z.add 0 l) 256). lia. Qed.

Lemma toy_primitives_laws : @PrimitivesLaws toy_primitives.
Proof.
  split.
  - done.
  - intros m. apply Forall_replicate, toy_sum_byte.
  - intros key nonce aad msg _ _ _ Hm _ _. eexists. split; [done|]. split.
    + split; [by rewrite zlen_app|]. apply bytes_ok_app. split; [done|].
      apply Forall_replicate, toy_sum_byte.
    + cbn [aes_open toy_primitives]. assert (toy_prefix (msg ++ toy_tag key nonce aad msg) = msg) as ->.
      { unfold toy_prefix. rewrite length_app, take_app_le by (cbn; lia).
        apply take_ge. cbn. lia. }
      by rewrite decide_True.
  - intros key nonce aad ct msg. cbn [aes_seal toy_primitives]. intros [= <-].
    by rewrite zlen_app.
  - intros key nonce aad ct msg. cbn [aes_open aes_seal toy_primitives]. case_decide as Hd; [|done]. intros [= <-]. by rewrite <- Hd.
  - intros key nonce aad ct msg Hb. cbn [aes_open toy_primitives]. case_decide; [|done].
    intros [= <-]. unfold toy_prefix. auto with bytes.
Qed.

Lemma content_ids_name_definitions_witness :
  preimage (BucketDefinition (lit "a") 1000 5) = preimage (BucketDefinition (lit "a") 1000 5)
  <-> BucketDefinition (lit "a") 1000 5 = BucketDefinition (lit "a") 1000 5.
Proof.
  apply (@content_ids_name_definitions toy_primitives toy_primitives_laws Empty_set);
    split; [vm_compute; discriminate | repeat constructor; vm_compute; discriminate
           | vm_compute; discriminate | repeat constructor; vm_compute; discriminate].
Defined.
