(* ===== verification/Net.v ===== *)
(** * Addresses

    [std::net::IpAddr] and [SocketAddr]: an address is its family and its
    integer value, big-endian. *)

From S2P Require Import Prelude.

Inductive IpAddr : Type :=
| V4 (bits : Z)
| V6 (bits : Z).

Record SocketAddr := mkSocketAddr { addr_ip : IpAddr; addr_port : Z }.

#[export] Instance IpAddr_eq_dec : EqDecision IpAddr.
Proof. solve_decision. Defined.
#[export] Instance SocketAddr_eq_dec : EqDecision SocketAddr.
Proof. solve_decision. Defined.

#[export] Program Instance IpAddr_countable : Countable IpAddr :=
  inj_countable' (fun a => match a with V4 z => inl z | V6 z => inr z end)
    (fun s => match s with inl z => V4 z | inr z => V6 z end) _.
Next Obligation. by intros []. Qed.

#[export] Program Instance SocketAddr_countable : Countable SocketAddr :=
  inj_countable' (fun a => (addr_ip a, addr_port a)) (fun p => mkSocketAddr p.1 p.2) _.
Next Obligation. by intros []. Qed.

Definition ip_ok (a : IpAddr) : Prop :=
  match a with V4 z => 0 <= z < 2 ^ 32 | V6 z => 0 <= z < 2 ^ 128 end.
Definition socket_addr_ok (a : SocketAddr) : Prop := ip_ok (addr_ip a) /\ in_u16 (addr_port a).

Definition is_ipv6 (a : SocketAddr) : bool :=
  match addr_ip a with V4 _ => false | V6 _ => true end.

(** [Ipv6Addr::to_ipv4_mapped]: [::ffff:a.b.c.d]. *)
Definition to_ipv4_mapped (z : Z) : option Z :=
  if Z.shiftr z 32 =? 0xffff then Some (z mod 2 ^ 32) else None.
