(* ===== verification/Sockets.v ===== *)
(** * Sockets and source ports (src/src/client.rs)

    One UDP socket per address family on a common source port, and the search
    for the next free port when a server advises to change it. *)

From S2P Require Import Prelude Errors Net.

(** [FamilySockets], each socket by its local port. *)
Record FamilySockets := mkFamilySockets {
  fs_v4 : option Z;
  fs_v6 : option Z;
  v6_first : bool;
}.

Definition STEERING_PORT_MIN : Z := 49152.
Definition STEERING_PORT_COUNT : Z := u16_max - STEERING_PORT_MIN + 1.

Definition next_steering_port (port : Z) : Z :=
  if negb ((STEERING_PORT_MIN <=? port) && (port <? u16_max)) then STEERING_PORT_MIN else port + 1.

(** [FamilySockets::local_addr], the port: the IPv4 socket's, else the IPv6 socket's. *)
Definition local_port {E} (s : FamilySockets) : outcome E Z :=
  expect (match fs_v4 s with Some p => Some p | None => fs_v6 s end).

(** The socket that [FamilySockets::send_to] uses for [target]. *)
Definition socket_for (s : FamilySockets) (target : SocketAddr) : option Z :=
  if is_ipv6 target then fs_v6 s else fs_v4 s.

(** One poll of [FamilySockets::recv_from]: which family is read, [true] for
    IPv6, given which of them have a datagram ready. *)
Definition poll_recv_from (s : FamilySockets) (ready4 ready6 : bool) : option bool * FamilySockets :=
  let bound6 := match fs_v6 s with Some _ => ready6 | None => false end in
  let bound4 := match fs_v4 s with Some _ => ready4 | None => false end in
  let order := if v6_first s then [(true, bound6); (false, bound4)]
               else [(false, bound4); (true, bound6)] in
  (match List.find snd order with Some (family, _) => Some family | None => None end,
   mkFamilySockets (fs_v4 s) (fs_v6 s) (negb (v6_first s))).

Section Binding.
(** [bind_udp_socket_for_family] asks the operating system: attempt, port,
    family to the bound port or an error. *)
Context (os_bind : nat -> Z -> bool -> io_error + Z).

(** [FamilySockets::bind]. *)
Definition bind (attempt : nat) (port : Z) : outcome CoreError FamilySockets :=
  let v4 := os_bind attempt port false in
  let v6 := os_bind attempt port true in
  if existsb (fun result : io_error + Z => bool_decide (result = inl AddrInUse)) [v4; v6]
  then Err (CoreIo AddrInUse)
  else
    match v4, v6 with
    | inl error, inl _ => Err (CoreIo error)
    | v4, v6 =>
        let ok (r : io_error + Z) := match r with inr p => Some p | inl _ => None end in
        Ok (mkFamilySockets (ok v4) (ok v6) false)
    end.

Fixpoint steering_loop (n : nat) (attempt : nat) (candidate : Z) (last_error : option io_error)
  : outcome CoreError (FamilySockets * Z) :=
  match n with
  | O => Err (CoreIo (default AddrNotAvailable last_error))
  | S n =>
      match bind attempt candidate with
      | Ok socket => Ok (socket, next_steering_port candidate)
      | Err (CoreIo AddrInUse) =>
          steering_loop n (S attempt) (next_steering_port candidate) (Some AddrInUse)
      | Err error => Err error
      | Panic => Panic
      end
  end.

Definition bind_next_steering_socket (next_port current_port : Z)
  : outcome CoreError (FamilySockets * Z) :=
  let candidate := if next_port =? 0 then next_steering_port current_port else next_port in
  steering_loop (Z.to_nat STEERING_PORT_COUNT) 0 candidate None.

(** ** Specification *)

Definition sockets_ok (s : FamilySockets) : Prop := fs_v4 s <> None \/ fs_v6 s <> None.

(** A port of the steering range. *)
Definition steering_port (p : Z) : Prop := STEERING_PORT_MIN <= p <= u16_max.

(** The [k]-th port tried from [start]. *)
Definition candidate_port (start k : Z) : Z :=
  STEERING_PORT_MIN + (start - STEERING_PORT_MIN + k) mod STEERING_PORT_COUNT.

Definition port_in_use (attempt : nat) (port : Z) : Prop :=
  os_bind attempt port false = inl AddrInUse \/ os_bind attempt port true = inl AddrInUse.

Lemma next_steering_port_ok p : steering_port (next_steering_port p).
Proof.
  unfold next_steering_port, steering_port. unfold STEERING_PORT_MIN, u16_max.
  destruct (Z.leb_spec 49152 p), (Z.ltb_spec p 65535); cbn [negb andb]; lia.
Qed.

Lemma candidate_port_0 start : steering_port start -> candidate_port start 0 = start.
Proof.
  unfold steering_port, candidate_port, STEERING_PORT_COUNT. intros H.
  rewrite Z.mod_small by lia. lia.
Qed.

Lemma candidate_port_succ start k :
  steering_port start -> 0 <= k ->
  next_steering_port (candidate_port start k) = candidate_port start (k + 1).
Proof.
  unfold steering_port, candidate_port, STEERING_PORT_COUNT, next_steering_port.
  unfold STEERING_PORT_MIN, u16_max. intros H Hk.
  set (m := start - 49152). change (65535 - 49152 + 1) with 16384.
  pose proof (Z.mod_pos_bound (m + k) 16384 ltac:(lia)) as Hm.
  rewrite (proj2 (Z.leb_le 49152 _)) by lia. rewrite Z.add_assoc, <- (Zplus_mod_idemp_l (m + k) 1).
  destruct (Z.ltb_spec (49152 + (m + k) mod 16384) 65535); cbn [negb andb].
  - rewrite (Z.mod_small (_ + 1)) by lia. lia.
  - replace ((m + k) mod 16384) with 16383 by lia. done.
Qed.

Lemma candidate_port_ok start k : steering_port (candidate_port start k).
Proof.
  unfold steering_port, candidate_port, STEERING_PORT_COUNT. unfold STEERING_PORT_MIN, u16_max.
  pose proof (Z.mod_pos_bound (start - 49152 + k) (65535 - 49152 + 1)). lia.
Qed.

(** The ports tried are all of the range. *)
Lemma candidate_port_covers start p :
  steering_port start -> steering_port p ->
  exists k, 0 <= k < STEERING_PORT_COUNT /\ candidate_port start k = p.
Proof.
  unfold steering_port, candidate_port, STEERING_PORT_COUNT. unfold STEERING_PORT_MIN, u16_max.
  intros Hs Hp. exists ((p - start) mod (65535 - 49152 + 1)). split; [apply Z.mod_pos_bound; lia|].
  rewrite Zplus_mod_idemp_r, Z.mod_small; lia.
Qed.

Lemma bind_in_use attempt port : port_in_use attempt port -> bind attempt port = Err (CoreIo AddrInUse).
Proof.
  unfold port_in_use, bind. intros H.
  rewrite (proj2 (existsb_exists _ _)); [done|].
  exists (inl AddrInUse). split; [|by apply bool_decide_eq_true].
  destruct H as [<-|<-]; [by left | by right; left].
Qed.

(** What [bind] does to a port that no other socket occupies. *)
Lemma bind_free attempt port :
  ~ port_in_use attempt port ->
  (exists s, bind attempt port = Ok s /\ sockets_ok s /\
     (forall p, fs_v4 s = Some p <-> os_bind attempt port false = inr p) /\
     (forall p, fs_v6 s = Some p <-> os_bind attempt port true = inr p)) \/
  (exists e4 e6, os_bind attempt port false = inl e4 /\ os_bind attempt port true = inl e6 /\
     e4 <> AddrInUse /\ bind attempt port = Err (CoreIo e4)).
Proof.
  unfold port_in_use, bind, sockets_ok. intros H. cbn [existsb].
  rewrite !bool_decide_false by tauto. cbn [orb].
  destruct (os_bind attempt port false) as [e4|p4] eqn:H4, (os_bind attempt port true) as [e6|p6] eqn:H6.
  - right. exists e4, e6. split_and!; try done. intros ->. tauto.
  - left. eexists. split; [done|]. cbn. split_and!; [by right | naive_solver..].
  - left. eexists. split; [done|]. cbn. split_and!; [by left | naive_solver..].
  - left. eexists. split; [done|]. cbn. split_and!; [by left | naive_solver..].
Qed.

(** Ports [from .. to - 1] of the search are all occupied. *)
Definition occupied (start : Z) (from to : nat) : Prop :=
  forall j, (from <= j < to)%nat -> port_in_use j (candidate_port start (Z.of_nat j)).

(** The search stopped at port [k]. *)
Definition stops_at (start : Z) (k : nat) (r : outcome CoreError (FamilySockets * Z)) : Prop :=
  let port := candidate_port start (Z.of_nat k) in
  ~ port_in_use k port /\
  ((exists s, bind k port = Ok s /\ sockets_ok s /\ r = Ok (s, candidate_port start (Z.of_nat k + 1))) \/
   (exists e4 e6, os_bind k port false = inl e4 /\ os_bind k port true = inl e6 /\
      e4 <> AddrInUse /\ r = Err (CoreIo e4))).

#[local] Instance port_in_use_dec attempt port : Decision (port_in_use attempt port).
Proof. apply _. Defined.

Lemma steering_loop_spec start n attempt last :
  steering_port start ->
  let r := steering_loop n attempt (candidate_port start (Z.of_nat attempt)) last in
  (exists k, (attempt <= k < attempt + n)%nat /\ occupied start attempt k /\ stops_at start k r) \/
  (occupied start attempt (attempt + n) /\
   r = Err (CoreIo (match n with O => default AddrNotAvailable last | _ => AddrInUse end))).
Proof.
  intros Hs. cbv zeta. revert attempt last. induction n as [|n IH]; intros attempt last; cbn [steering_loop].
  { right. split; [|done]. intros j Hj. lia. }
  set (port := candidate_port start (Z.of_nat attempt)).
  destruct (decide (port_in_use attempt port)) as [Hu|Hf].
  - rewrite bind_in_use by done. subst port.
    rewrite candidate_port_succ by (done || lia). replace (Z.of_nat attempt + 1) with (Z.of_nat (S attempt)) by lia.
    destruct (IH (S attempt) (Some AddrInUse)) as [(k & Hk & Ho & Hst)|[Ho Hr]].
    + left. exists k. split; [lia|]. split; [|done]. intros j Hj.
      destruct (decide (j = attempt)) as [->|]; [done|]. apply Ho. lia.
    + right. split; [|rewrite Hr; by destruct n]. intros j Hj.
      destruct (decide (j = attempt)) as [->|]; [done|]. apply Ho. lia.
  - left. exists attempt. split; [lia|]. split; [intros j Hj; lia|]. split; [done|].
    destruct (bind_free attempt port Hf) as [(s & Hb & Hok & _)|(e4 & e6 & H4 & H6 & Hne & Hb)].
    + left. exists s. fold port. rewrite Hb. split_and!; [done | done |].
      subst port. by rewrite candidate_port_succ by (done || lia).
    + right. exists e4, e6. fold port. rewrite Hb. split_and!; try done. by destruct e4.
Qed.

End Binding.

Lemma bind_outcome os_bind attempt port :
  (exists s, bind os_bind attempt port = Ok s /\ sockets_ok s) \/
  (exists e, bind os_bind attempt port = Err (CoreIo e)).
Proof.
  unfold bind, sockets_ok. destruct (existsb _ _); [by right; eexists|].
  destruct (os_bind attempt port false), (os_bind attempt port true);
    [by right; eexists | left; eexists; split; [done|]; cbn; auto..].
Qed.

(** ** Theorems *)

(** C37. The search for the next source port starts after the last one used, tries
    each of the 16384 dynamic ports at most once, skips exactly those on which
    either family is occupied, and stops at the first other one: with a socket
    for at least one family and the following port as the next to try, or with
    the IPv4 error when neither family can be bound.  It fails with
    [AddrInUse] only if the whole range is occupied. *)
Theorem steering_search_spec os_bind next_port current_port
    (Hnext : next_port = 0 \/ steering_port next_port) :
  let start := if next_port =? 0 then next_steering_port current_port else next_port in
  let r := bind_next_steering_socket os_bind next_port current_port in
  steering_port start /\
  ((exists k, (k < Z.to_nat STEERING_PORT_COUNT)%nat /\ occupied os_bind start 0 k /\
      stops_at os_bind start k r) \/
   (r = Err (CoreIo AddrInUse) /\
    forall p, steering_port p ->
      exists k, (k < Z.to_nat STEERING_PORT_COUNT)%nat /\ candidate_port start (Z.of_nat k) = p /\
        port_in_use os_bind k p)).
Proof.
  cbv zeta. set (start := if next_port =? 0 then next_steering_port current_port else next_port).
  assert (Hstart : steering_port start).
  { subst start. destruct (Z.eqb_spec next_port 0); [apply next_steering_port_ok|]. by destruct Hnext. }
  split; [done|]. unfold bind_next_steering_socket. fold start.
  pose proof (steering_loop_spec os_bind start (Z.to_nat STEERING_PORT_COUNT) 0 None Hstart) as H.
  cbv zeta in H. rewrite candidate_port_0 in H by done.
  destruct H as [(k & Hk & Ho & Hst)|[Ho Hr]]; [left; exists k; by split_and!; try lia|].
  right. split; [exact Hr|]. intros p Hp.
  destruct (candidate_port_covers start p Hstart Hp) as (k & Hk & <-).
  exists (Z.to_nat k). rewrite Z2Nat.id by lia. split_and!; [lia | done |].
  rewrite <- (Z2Nat.id k) at 2 by lia. apply Ho. lia.
Qed.

(** Receiving is fair between the families: a poll takes a datagram whenever a
    bound socket has one, never from an unready family, and of two polls in a row
    with both families ready one reads each. *)
Theorem poll_recv_from_fair s ready4 ready6 :
  let a4 := bool_decide (fs_v4 s <> None) && ready4 in
  let a6 := bool_decide (fs_v6 s <> None) && ready6 in
  let '(r, s') := poll_recv_from s ready4 ready6 in
  (r = None <-> a4 = false /\ a6 = false) /\
  (r = Some false -> a4 = true) /\ (r = Some true -> a6 = true) /\
  (a4 = true -> a6 = true -> (poll_recv_from s' ready4 ready6).1 = Some (bool_decide (r = Some false))) /\
  fs_v4 s' = fs_v4 s /\ fs_v6 s' = fs_v6 s.
Proof. by destruct s as [[] [] []], ready4, ready6; vm_compute; naive_solver. Qed.

(** Port 65535 is occupied, every other one is free. *)
Definition demo_os_bind (attempt : nat) (port : Z) (ipv6 : bool) : io_error + Z :=
  if port =? 65535 then inl AddrInUse else inr port.

Lemma steering_search_spec_witness :
  exists s, bind_next_steering_socket demo_os_bind 65535 50000 = Ok (s, 49153) /\ sockets_ok s.
Proof.
  destruct (steering_search_spec demo_os_bind 65535 50000)
    as [_ [(k & Hk & Ho & Hf & Hr)|[Hr Hall]]].
  - right. unfold steering_port, STEERING_PORT_MIN, u16_max. lia.
  - eexists. split; [vm_compute; reflexivity|]. left. discriminate.
  - discriminate Hr.
Defined.
