(* ===== verification/Discovery.v ===== *)
(** * Service discovery (src/src/client.rs)

    The server list of a client: filled from SRV records whose target names a
    server, refreshed when it is old, and turned into the membership snapshot of
    a request.  The DNS resolver is a parameter; so is the text form of IP
    addresses, of which the code uses only that parsing undoes formatting. *)

From S2P Require Import Prelude Errors Text Net.

(** [std::net::IpAddr] as text: [to_string] and [parse]. *)
Class IpText := {
  ip_to_string : IpAddr -> str;
  parse_ip : str -> option IpAddr;
}.
Class IpTextLaws `{IpText} := {
  parse_ip_to_string : forall ip, ip_ok ip -> parse_ip (ip_to_string ip) = Some ip;
}.

(** Answers of the DNS resolver: the records of an SRV query, and the addresses
    or the error text of the [n]-th address query of an operation. *)
Inductive srv_answer : Type :=
| SRV (target : str) (port : Z)
| OtherRecord.

Record Resolver := mkResolver {
  srv_lookup : str -> option (list srv_answer);
  lookup_ip : nat -> str -> str + list IpAddr;
}.

Definition resolver_ok (dns : Resolver) : Prop :=
  forall n host ips, lookup_ip dns n host = inr ips -> Forall ip_ok ips.

Record ServerEndpoint := mkServerEndpoint {
  se_host : str;
  se_port : Z;
  se_server_id : option Z;
}.

(** [ResolvedTargets]: the membership snapshot of a request. *)
Record ResolvedTargets := mkResolvedTargets {
  targets : list SocketAddr;
  target_server_ids : gmap SocketAddr Z;
  allowed_server_ids : gset Z;
}.

(** What a request relies on: identifiers are [u64]s. *)
Definition snapshot_ok (resolved : ResolvedTargets) : Prop :=
  forall id, id ∈ allowed_server_ids resolved -> in_u64 id.

(** The [servers] and [last_dns_refresh] of a client; times are in nanoseconds. *)
Record DiscoveryState := mkDiscoveryState {
  servers : list ServerEndpoint;
  last_dns_refresh : Z;
}.

Definition parse_server_id_from_target (target : str) : option Z :=
  let trimmed := trim_end_matches 46 target in
  first ← head (split_on 46 trimmed);
  let lower := to_ascii_lowercase first in
  decimal ← strip_prefix (lit "s-") lower;
  if bool_decide (decimal = []) then None
  else if (1 <? zlen decimal) && bool_decide (head decimal = Some 48) then None
  else if negb (forallb is_ascii_digit decimal) then None
  else parse_u64 decimal.

Section Discovery.
Context `{IpText} (dns : Resolver).

(** The endpoints of the SRV answers, from the [n]-th on. *)
Fixpoint resolve_answers (n : nat) (answers : list srv_answer) : list ServerEndpoint :=
  match answers with
  | [] => []
  | OtherRecord :: answers => resolve_answers (S n) answers
  | SRV target port :: answers =>
      match parse_server_id_from_target target with
      | None => resolve_answers (S n) answers
      | Some id =>
          match lookup_ip dns n target with
          | inl _ => resolve_answers (S n) answers
          | inr ips =>
              map (fun ip => mkServerEndpoint (ip_to_string ip) port (Some id)) ips
                ++ resolve_answers (S n) answers
          end
      end
  end.

(** [_refresh_servers], which reads the clock as [now] when it succeeds. *)
Definition refresh_servers (service_domain : str) (now : Z) (d : DiscoveryState)
  : outcome CoreError unit * DiscoveryState :=
  match srv_lookup dns (lit "_ratelimitly._udp." ++ service_domain) with
  | Some answers =>
      match resolve_answers 0 answers with
      | [] => (Err (CoreDns (lit "No SRV servers found")), d)
      | resolved => (Ok tt, mkDiscoveryState resolved now)
      end
  | None => (Err (CoreDns (lit "No SRV servers found")), d)
  end.

(** [elapsed().as_secs() > interval], of a clock that never runs backwards. *)
Definition refresh_due (interval_s now : Z) (d : DiscoveryState) : bool :=
  (Z.max 0 (now - last_dns_refresh d) / 1000000000) >? interval_s.

Definition maybe_periodic_dns_refresh (service_domain : str) (interval_s now now' : Z)
    (d : DiscoveryState) : outcome CoreError unit * DiscoveryState :=
  if refresh_due interval_s now d then refresh_servers service_domain now' d else (Ok tt, d).

(** [last_dns_refresh] of a new client: long enough ago, where the clock can
    express it ([Instant::checked_sub]). *)
Definition initial_last_dns_refresh (checked_sub : Z -> Z -> option Z) (interval_s now now' : Z) : Z :=
  default now' (checked_sub now (saturating_add u64_max interval_s 1 * 1000000000)).

(** One address of an endpoint, in the snapshot under construction. *)
Definition add_target (id : option Z) (addr : SocketAddr) (r : ResolvedTargets) : ResolvedTargets :=
  {| targets := targets r ++ [addr];
     target_server_ids :=
       match id with Some id => <[addr:=id]> (target_server_ids r) | None => target_server_ids r end;
     allowed_server_ids :=
       match id with Some id => {[id]} ∪ allowed_server_ids r | None => allowed_server_ids r end |}.

Fixpoint targets_loop (n : nat) (servers : list ServerEndpoint) (r : ResolvedTargets)
  : outcome CoreError ResolvedTargets :=
  match servers with
  | [] => Ok r
  | server :: servers =>
      match parse_ip (se_host server) with
      | Some ip =>
          targets_loop (S n) servers (add_target (se_server_id server) (mkSocketAddr ip (se_port server)) r)
      | None =>
          match lookup_ip dns n (se_host server) with
          | inl e => Err (CoreDns e)
          | inr ips =>
              targets_loop (S n) servers
                (fold_left (fun r ip => add_target (se_server_id server) (mkSocketAddr ip (se_port server)) r)
                   ips r)
          end
      end
  end.

Definition current_targets (d : DiscoveryState) : outcome CoreError ResolvedTargets :=
  targets_loop 0 (servers d) (mkResolvedTargets [] ∅ ∅).

End Discovery.

(** ** Server names *)

Lemma head_split c s p :
  head (split_on c s) = Some p <->
  c ∉ p /\ exists rest, s = p ++ rest /\ (rest = [] \/ exists r, rest = c :: r).
Proof.
  revert p. induction s as [|x s IH]; intros p; cbn [split_on].
  { cbn [head]. split.
    - intros [= <-]. split; [set_solver|]. exists []. auto.
    - intros (_ & rest & Hs & _). by destruct p. }
  destruct (Z.eqb_spec x c) as [->|Hne].
  { cbn [head]. split.
    - intros [= <-]. split; [set_solver|]. exists (c :: s). eauto.
    - intros (Hc & rest & Hs & _). destruct p as [|y p]; [done|]. injection Hs as -> _. set_solver. }
  destruct (split_on_cons c s) as (q & qs & Hq). rewrite Hq in IH |- *. cbn [head] in *. split.
  - intros [= <-]. destruct (proj1 (IH q) eq_refl) as (Hc & rest & -> & Hr).
    split; [set_solver|]. by exists rest.
  - intros (Hc & rest & Hs & Hr). destruct p as [|y p].
    + cbn in Hs. subst rest. destruct Hr as [|[r [=]]]; done.
    + injection Hs as <- Hs. f_equal. f_equal. enough (Some q = Some p) by congruence.
      apply IH. split; [set_solver|]. by exists rest.
Qed.

(** Trailing separators do not change the first piece. *)
Lemma head_split_trim c s : head (split_on c (trim_end_matches c s)) = head (split_on c s).
Proof.
  destruct (trim_end_spec c s) as (n & Hs & _). set (t := trim_end_matches c s) in *. clearbody t. subst s.
  induction t as [|x t IH]; cbn [app split_on].
  - by destruct n; cbn; rewrite ?Z.eqb_refl.
  - destruct (x =? c); [done|].
    destruct (split_on_cons c t) as (p & ps & Hp), (split_on_cons c (t ++ replicate n c)) as (q & qs & Hq).
    rewrite Hp, Hq in IH |- *. injection IH as ->. done.
Qed.

Lemma fmt_dec_head id :
  0 <= id -> fmt_dec id <> [] /\ (head (fmt_dec id) = Some 48 -> fmt_dec id = [48]).
Proof.
  intros H. destruct (fmt_dec_spec id H) as [[Hd [->|(c & t & -> & Hc)]] _]; cbn; split; congruence.
Qed.

(** The decimal part of a server name. *)
Lemma parse_decimal_spec decimal id :
  (if bool_decide (decimal = []) then None
   else if (1 <? zlen decimal) && bool_decide (head decimal = Some 48) then None
   else if negb (forallb is_ascii_digit decimal) then None
   else parse_u64 decimal) = Some id <-> in_u64 id /\ decimal = fmt_dec id.
Proof.
  destruct (bool_decide (decimal = [])) eqn:He; reflect_bools.
  { subst. split; [done|]. intros [[Hid _] Hd]. by destruct (fmt_dec_head id Hid) as [[] _]. }
  destruct (_ && _) eqn:Hz.
  { reflect_bools. split; [done|]. intros [[Hid _] ->]. exfalso.
    destruct (fmt_dec_head id Hid) as [_ Hh]. rewrite Hh in H by done. by vm_compute in H. }
  destruct (forallb _ _) eqn:Hf; cbn [negb].
  2:{ split; [done|]. intros [[Hid _] ->]. destruct (fmt_dec_spec id Hid) as [[Hd _] _].
      exfalso. apply not_true_iff_false in Hf. apply Hf.
      apply forallb_forall. intros c Hc. unfold all_digits in Hd. rewrite List.Forall_forall in Hd. by apply Hd. }
  assert (Hd : all_digits decimal).
  { apply List.Forall_forall. intros c Hc. rewrite forallb_forall in Hf. by apply Hf. }
  rewrite parse_u64_digits by done. split.
  - intros [<- Hm]. split; [split; [by apply dec_value_nonneg | done]|].
    symmetry. apply fmt_dec_canonical. split; [done|]. destruct decimal as [|c t]; [done|].
    destruct (Z.eq_dec c 48) as [->|Hc]; [left | right; eauto]. destruct t as [|c t]; [done|].
    exfalso. rewrite andb_false_iff in Hz. rewrite !zlen_cons in Hz. pose proof (zlen_nonneg t).
    destruct Hz as [Hz|Hz]; [reflect_bools; lia | by vm_compute in Hz].
  - intros [[Hid Hm] ->]. by destruct (fmt_dec_spec id Hid) as [_ ->].
Qed.

(** The first label of a domain name. *)
Definition first_label (name label : str) : Prop :=
  46 ∉ label /\ exists rest, name = label ++ rest /\ (rest = [] \/ exists r, rest = 46 :: r).

Lemma parse_server_id_eq target id :
  parse_server_id_from_target target = Some id <->
  in_u64 id /\ exists label, first_label target label /\ to_ascii_lowercase label = lit "s-" ++ fmt_dec id.
Proof.
  unfold parse_server_id_from_target, first_label. rewrite head_split_trim.
  destruct (split_on_cons 46 target) as (p & ps & Hp).
  assert (Hh : head (split_on 46 target) = Some p) by (by rewrite Hp). rewrite Hh. cbn [mbind option_bind].
  pose proof (head_split 46 target) as Hspec.
  assert (Huniq : forall label, (46 ∉ label /\ exists rest, target = label ++ rest /\
      (rest = [] \/ exists r, rest = 46 :: r)) <-> label = p).
  { intros label. rewrite <- Hspec, Hh. split; congruence. }
  destruct (strip_prefix (lit "s-") (to_ascii_lowercase p)) as [decimal|] eqn:Hs; cbn [mbind option_bind].
  - rewrite parse_decimal_spec. apply strip_prefix_inv in Hs. split.
    + intros [Hid ->]. split; [done|]. exists p. split; [by apply Huniq | done].
    + intros (Hid & label & Hl & Hlow). split; [done|]. apply Huniq in Hl as ->.
      rewrite Hs in Hlow. by apply app_inv_head in Hlow.
  - split; [done|]. intros (_ & label & Hl & Hlow). apply Huniq in Hl as ->.
    by rewrite Hlow, strip_prefix_app in Hs.
Qed.

(** ** Discovery *)

Section Spec.
Context `{IpTextLaws} (dns : Resolver) (Hdns : resolver_ok dns).

(** The servers an SRV answer stands for: identifier and addresses. *)
Fixpoint discovered (n : nat) (answers : list srv_answer) : list (Z * SocketAddr) :=
  match answers with
  | [] => []
  | SRV target port :: answers =>
      match parse_server_id_from_target target, lookup_ip dns n target with
      | Some id, inr ips => map (fun ip => (id, mkSocketAddr ip port)) ips
      | _, _ => []
      end ++ discovered (S n) answers
  | OtherRecord :: answers => discovered (S n) answers
  end.

Definition endpoint_of (s : Z * SocketAddr) : ServerEndpoint :=
  mkServerEndpoint (ip_to_string (addr_ip s.2)) (addr_port s.2) (Some s.1).

Lemma resolve_answers_eq n answers :
  resolve_answers dns n answers = map endpoint_of (discovered n answers).
Proof.
  revert n. induction answers as [|[target port|] answers IH]; intros n; cbn [resolve_answers discovered]; [done| |done].
  rewrite IH. destruct (parse_server_id_from_target target), (lookup_ip dns n target); try done.
  rewrite map_app, map_map. done.
Qed.

Definition server_ok (s : Z * SocketAddr) : Prop := in_u64 s.1 /\ ip_ok (addr_ip s.2).

Lemma discovered_ok n answers : Forall server_ok (discovered n answers).
Proof.
  revert n. induction answers as [|[target port|] answers IH]; intros n; cbn [discovered]; [constructor| |done].
  apply Forall_app. split; [|done].
  destruct (parse_server_id_from_target target) as [id|] eqn:Hp; [|constructor].
  destruct (lookup_ip dns n target) as [|ips] eqn:Hl; [constructor|].
  apply parse_server_id_eq in Hp as [Hid _]. apply Forall_map.
  eapply Forall_impl; [by eapply Hdns|]. by intros ip Hip.
Qed.

(** The snapshot of a list of servers. *)
Definition snapshot_of (found : list (Z * SocketAddr)) (r : ResolvedTargets) : Prop :=
  targets r = map snd found /\
  allowed_server_ids r = list_to_set (map fst found) /\
  (forall a id, target_server_ids r !! a = Some id -> (id, a) ∈ found) /\
  (forall a, a ∈ targets r -> is_Some (target_server_ids r !! a)).

Lemma targets_loop_ok dns' n found pre r :
  Forall server_ok found -> snapshot_of pre r ->
  exists r', targets_loop dns' n (map endpoint_of found) r = Ok r' /\ snapshot_of (pre ++ found) r'.
Proof.
  intros Hok. revert n pre r.
  induction Hok as [|[id a] found [_ Hip] _ IH]; intros n pre r Hr; cbn [map targets_loop].
  { exists r. by rewrite app_nil_r. }
  unfold endpoint_of at 1. cbn [se_host fst snd]. rewrite parse_ip_to_string by done.
  destruct (IH (S n) (pre ++ [(id, a)]) (add_target (Some id) a r)) as (r' & E & Hr').
  - destruct Hr as (Ht & Ha & Hin & Hall). unfold snapshot_of, add_target.
    cbn [targets allowed_server_ids target_server_ids]. rewrite Ht, Ha, !map_app. split_and!.
    + done.
    + rewrite list_to_set_app_L. set_solver.
    + intros b i. rewrite lookup_insert_Some. intros [[<- <-]|[_ Hb]]; [set_solver|].
      apply Hin in Hb. set_solver.
    + intros b. rewrite elem_of_app, list_elem_of_singleton. cbn [snd]. intros Hb.
      destruct (decide (a = b)) as [->|Hne]; [by rewrite lookup_insert_eq|].
      rewrite lookup_insert_ne by done. apply Hall. rewrite Ht. destruct Hb; [done | congruence].
  - exists r'. rewrite <- app_assoc in Hr'. split; [|done]. cbn [se_server_id se_port endpoint_of fst snd].
    by destruct a.
Qed.

Lemma current_targets_ok dns' found d :
  Forall server_ok found -> servers d = map endpoint_of found ->
  exists r, current_targets dns' d = Ok r /\ snapshot_of found r.
Proof.
  intros Hok Hd. unfold current_targets. rewrite Hd.
  apply (targets_loop_ok dns' 0 found []); [done|]. split_and!; try done. intros a Ha. set_solver.
Qed.

Lemma snapshot_of_ok found r :
  Forall server_ok found -> snapshot_of found r -> snapshot_ok r.
Proof.
  intros Hf (_ & Ha & _) id. rewrite Ha, elem_of_list_to_set. intros Hin.
  apply list_elem_of_fmap in Hin as (s & -> & Hs). rewrite Forall_forall in Hf. by apply Hf.
Qed.

(** Every list of servers a client can hold comes from discovery. *)
Definition discovery_ok (d : DiscoveryState) : Prop :=
  exists found, servers d = map endpoint_of found /\ Forall server_ok found.

Lemma refresh_servers_ok domain now d :
  discovery_ok d -> discovery_ok (refresh_servers dns domain now d).2.
Proof.
  intros Hd. unfold refresh_servers. destruct (srv_lookup dns _) as [answers|]; [|done].
  destruct (resolve_answers dns 0 answers) as [|e es] eqn:He; [done|]. cbn [snd].
  exists (discovered 0 answers). cbn [servers]. rewrite <- He, resolve_answers_eq.
  split; [done | apply discovered_ok].
Qed.

Lemma current_targets_snapshot dns' d :
  discovery_ok d -> exists r, current_targets dns' d = Ok r /\ snapshot_ok r.
Proof.
  intros (found & Hd & Hf). destruct (current_targets_ok dns' found d Hf Hd) as (r & E & Hr).
  exists r. split; [done|]. by eapply snapshot_of_ok.
Qed.

End Spec.

(** ** Theorems *)

(** A name denotes a server exactly when its first label is, in any case, "s-"
    followed by the canonical decimal of a [u64], the identifier: leading
    zeros, signs, other characters and larger numbers are refused, and trailing
    dots are ignored. *)
Theorem parse_server_id_from_target_spec target id :
  parse_server_id_from_target target = Some id <->
  in_u64 id /\ exists label, first_label target label /\ to_ascii_lowercase label = lit "s-" ++ fmt_dec id.
Proof. apply parse_server_id_eq. Qed.

(** C29. A refresh either replaces the whole server list by the servers the SRV
    answers denote, in order and with one endpoint per address, or - when the
    query fails or denotes none - reports an error and keeps the old list; and
    the next snapshot then consists of those servers: their addresses in order,
    the set of their identifiers, and an identifier of each address. *)
Theorem refresh_then_targets_spec `{IpTextLaws} dns domain now d (Hdns : resolver_ok dns) :
  let found :=
    match srv_lookup dns (lit "_ratelimitly._udp." ++ domain) with
    | Some answers => discovered dns 0 answers
    | None => []
    end in
  match found with
  | [] => refresh_servers dns domain now d = (Err (CoreDns (lit "No SRV servers found")), d)
  | _ => exists d', refresh_servers dns domain now d = (Ok tt, d') /\ last_dns_refresh d' = now /\
      forall dns', exists r, current_targets dns' d' = Ok r /\ snapshot_of found r /\ snapshot_ok r
  end.
Proof.
  cbv zeta. unfold refresh_servers. destruct (srv_lookup dns _) as [answers|]; [|done].
  rewrite resolve_answers_eq. pose proof (discovered_ok dns Hdns 0 answers) as Hok.
  destruct (discovered dns 0 answers) as [|s found]; [done|]. cbn [map].
  eexists. split; [done|]. split; [done|]. intros dns'.
  destruct (current_targets_ok dns Hdns dns' (s :: found) 
    (mkDiscoveryState (map endpoint_of (s :: found)) now) Hok eq_refl) as (r & E & Hr).
  exists r. split_and!; try done. by eapply snapshot_of_ok.
Qed.

(** C40. A new client discovers servers on its first operation if its clock can
    express the time before construction; where it cannot (checked subtraction
    fails), operations in the first [interval + 1] seconds skip discovery and
    find no server at all. *)
Theorem first_operation_discovers `{IpText} dns domain checked_sub interval now_new now_new' now_op now_op'
    (Hsub : forall t x y, checked_sub t x = Some y -> y = t - x)
    (Hi : 0 <= interval < u64_max) (Hnow : now_new <= now_new' <= now_op) :
  let since := (interval + 1) * 1000000000 in
  let d := mkDiscoveryState [] (initial_last_dns_refresh checked_sub interval now_new now_new') in
  let first := maybe_periodic_dns_refresh dns domain interval now_op now_op' d in
  (checked_sub now_new since <> None -> first = refresh_servers dns domain now_op' d) /\
  (checked_sub now_new since = None -> now_op - now_new' < since ->
     first = (Ok tt, d) /\ current_targets dns d = Ok (mkResolvedTargets [] ∅ ∅)).
Proof.
  cbv zeta. unfold maybe_periodic_dns_refresh, refresh_due, initial_last_dns_refresh.
  unfold saturating_add. rewrite Z.min_l by lia. cbn [last_dns_refresh]. rewrite Z.gtb_ltb.
  destruct (checked_sub now_new _) as [t|] eqn:Hs; cbn [default from_option id]; split; try done.
  - intros _. apply Hsub in Hs as ->. destruct (Z.ltb_spec interval
      (Z.max 0 (now_op - (now_new - (interval + 1) * 1000000000)) / 1000000000)); [done|].
    exfalso. Z.div_mod_to_equations. lia.
  - intros _ Hlt. destruct (Z.ltb_spec interval (Z.max 0 (now_op - now_new') / 1000000000)); [|done].
    exfalso. Z.div_mod_to_equations. lia.
Qed.

(** A text form of addresses, for the examples: the digits of the number after a
    letter for the family. *)
Definition toy_ip_text : IpText := {|
  ip_to_string := fun ip => match ip with V4 z => 52 :: fmt_dec z | V6 z => 54 :: fmt_dec z end;
  parse_ip := fun s =>
    match s with
    | 52 :: s => Some (V4 (dec_value s))
    | 54 :: s => Some (V6 (dec_value s))
    | _ => None
    end;
|}.

Definition demo_ip : IpAddr := V4 2130706433.
Definition demo_resolver : Resolver :=
  mkResolver (fun _ => Some [SRV (lit "s-7.example.") 7000; OtherRecord; SRV (lit "x.example.") 7000])
    (fun _ _ => inr [demo_ip]).

Lemma toy_ip_laws : @IpTextLaws toy_ip_text.
Proof.
  split. intros [z|z] [Hz _]; cbn [ip_to_string parse_ip toy_ip_text];
    by rewrite (proj2 (fmt_dec_spec z Hz)).
Qed.

Lemma demo_resolver_ok : resolver_ok demo_resolver.
Proof. intros n host ips [= <-]. forall_list. cbn. lia. Qed.

Lemma refresh_then_targets_spec_witness :
  exists r, @current_targets toy_ip_text demo_resolver
    (@refresh_servers toy_ip_text demo_resolver (lit "example") 9 (mkDiscoveryState [] 0)).2 = Ok r /\
  targets r = [mkSocketAddr demo_ip 7000] /\ allowed_server_ids r = {[7]}.
Proof.
  destruct (@refresh_then_targets_spec toy_ip_text toy_ip_laws demo_resolver (lit "example") 9
    (mkDiscoveryState [] 0) demo_resolver_ok) as (d' & -> & _ & Hall).
  destruct (Hall demo_resolver) as (r & E & (Ht & Ha & _) & _).
  exists r. split; [exact E|]. split; [exact Ht|]. rewrite Ha. vm_compute. reflexivity.
Defined.

Lemma first_operation_discovers_witness :
  @maybe_periodic_dns_refresh toy_ip_text demo_resolver (lit "example") 60 5 6
    (mkDiscoveryState [] (initial_last_dns_refresh (fun _ _ => None) 60 5 5)) =
  (Ok tt, mkDiscoveryState [] 5).
Proof.
  apply (@first_operation_discovers toy_ip_text demo_resolver (lit "example") (fun _ _ => None) 60 5 5 5 6);
    try reflexivity; unfold u64_max; lia || discriminate.
Defined.
