(* ===== verification/Config.v ===== *)
(** * Client configuration (src/src/config.rs and the fields of CoreClient)

    The configuration a client is created with, and the credential caches
    [CoreClient::new] fills from it. *)

From S2P Require Import Prelude Codec ApiKey Policy Net.

Record ApiKeyConfig := mkApiKeyConfig {
  service_domain : str;
  cfg_key_id : Z;
  cfg_auth_method : AuthMethod;
  cfg_limits : ApiKeyLimits;
  cfg_steering_feedback : bool;
}.

Record CoreConfig := mkCoreConfig {
  api_key : ApiKeyConfig;
  dns_refresh_interval_s : Z;
  ignore_steering_feedback : bool;
  request_policy : RequestPolicy;
  dns_server : option SocketAddr;
}.

(** [CoreConfig::effective_request_policy]. *)
Definition effective_request_policy (c : CoreConfig) : RequestPolicy := request_policy c.

(** The [cookie_hash_cache] and [aes_key_cache] fields, as [new] sets them. *)
Definition cookie_hash_cache (m : AuthMethod) : option (list Z) :=
  match m with AuthCookie secret => Some secret | _ => None end.
Definition aes_key_cache (m : AuthMethod) : option (list Z) :=
  match m with AuthAesGcm secret => Some secret | _ => None end.
