(* ===== verification/Auth.v ===== *)
(** * Packet framing: tenant header and authentication TLV (src/src/client.rs)

    [append_auth_tlv] on the way out, [parse_tenant_header] and [parse_auth_tlv]
    on the way in, the frames they exchange, and the proof that the parsers
    accept exactly those frames. *)

From S2P Require Import Prelude Errors Codec ApiKey Wire Config.

Definition TENANT_TLV_LEN : Z := 40.
Definition PDU_HEADER_LEN : Z := 8.
Definition MAX_PACKET_SIZE : Z := 1200.

Definition protocol_error (s : string) : CoreError := CoreProtocol (lit s).
Definition auth_error (s : string) : CoreError := CoreAuth (lit s).

(** ** Tenant header *)

(** [build_tenant_header]; the request id and the clock are arguments. *)
Definition build_tenant_header (key : ApiKeyConfig) (request_id : list Z) (now_millis : Z)
  : TenantHeader :=
  {| tlv_type := TLV_TENANT;
     tlv_size := as_u16 TENANT_TLV_LEN;
     th_key_id := cfg_key_id key;
     unique_id := request_id;
     time_stamp := now_millis;
     th_steering_feedback := if cfg_steering_feedback key then 1 else 0;
     tenant_mgmt_flag := 0;
     th_padding := [0; 0] |}.

Definition write_tenant_header {E} (packet : list Z) (header : TenantHeader)
  : outcome E (list Z) :=
  let packet := packet ++ zeros TENANT_TLV_LEN in
  with_slice packet 0 TENANT_TLV_LEN (tenant_write_to_buffer header).

Definition parse_tenant_header (data : list Z) : outcome CoreError (TenantHeader * Z) :=
  let pos := 0 in
  _ ← reject_if (zlen data <? pos + 4) (protocol_error "Buffer too small for Tenant TLV header");
  tenant_tlv_type ← u16_at data pos;
  _ ← reject_if (negb (tenant_tlv_type =? TLV_TENANT))
        (CoreProtocol (lit "Expected Tenant TLV type " ++ fmt_hex TLV_TENANT ++ lit ", got " ++
                       fmt_hex tenant_tlv_type));
  tenant_tlv_size ← u16_at data (pos + 2);
  _ ← reject_if (tenant_tlv_size <? TENANT_TLV_LEN) (protocol_error "Tenant TLV too small");
  _ ← reject_if (zlen data <? pos + tenant_tlv_size)
        (protocol_error "Buffer too small for Tenant TLV body");
  body ← data.[pos ..< pos + tenant_tlv_size];
  header ← map_err CoreProtocol (tenant_read_from_buffer body);
  Ok (header, pos + tenant_tlv_size).

(** ** Authentication TLV *)

Definition auth_header_size (m : AuthMethod) : Z :=
  match m with AuthNone => 4 | AuthCookie _ => 36 | AuthAesGcm _ => 32 end.

Section WithPrimitives.
Context `{Primitives}.

(** [append_auth_tlv]; [nonce] is the random nonce [encrypt_pdu] draws. *)
Definition append_auth_tlv (m : AuthMethod) (cookie_cache aes_cache : option (list Z))
    (nonce packet pdu_data : list Z) : outcome CoreError (list Z) :=
  match m with
  | AuthNone =>
      Ok (((packet ++ u16_le TLV_AUTH_NONE) ++ u16_le 4) ++ pdu_data)
  | AuthCookie _ =>
      let packet := (packet ++ u16_le TLV_AUTH_COOKIE) ++ u16_le 36 in
      cookie ← ok_or cookie_cache (auth_error "Missing cookie hash cache");
      Ok ((packet ++ cookie) ++ pdu_data)
  | AuthAesGcm _ =>
      key ← expect aes_cache;
      let packet := (packet ++ u16_le TLV_AUTH_AES) ++ u16_le 32 in
      '(encrypted_pdu, nonce, auth_tag) ← encrypt_pdu nonce pdu_data key packet;
      Ok (((packet ++ nonce) ++ auth_tag) ++ encrypted_pdu)
  end.

Definition expected_auth_type (m : AuthMethod) : Z :=
  match m with
  | AuthNone => TLV_AUTH_NONE
  | AuthCookie _ => TLV_AUTH_COOKIE
  | AuthAesGcm _ => TLV_AUTH_AES
  end.

Definition invalid_auth_size (name : string) (size : Z) : CoreError :=
  CoreProtocol (lit "Invalid size for " ++ lit name ++ lit " TLV: " ++ fmt_dec size).

Definition parse_auth_tlv (data : list Z) (pos : Z) (m : AuthMethod)
    (cookie_cache aes_cache : option (list Z)) : outcome CoreError (list Z) :=
  _ ← reject_if (zlen data <? pos + 4) (protocol_error "Buffer too small for Auth TLV header");
  auth_tlv_type ← u16_at data pos;
  auth_tlv_size ← u16_at data (pos + 2);
  _ ← reject_if (auth_tlv_size <? 4) (protocol_error "Invalid Auth TLV size");
  _ ← reject_if (zlen data <? pos + auth_tlv_size)
        (protocol_error "Buffer too small for Auth TLV body");
  _ ← reject_if (negb (auth_tlv_type =? expected_auth_type m))
        (CoreAuth (lit "Auth type mismatch: expected " ++ fmt_hex (expected_auth_type m) ++
                   lit ", got " ++ fmt_hex auth_tlv_type));
  let pdu_start := pos + auth_tlv_size in
  _ ← reject_if (zlen data <? pdu_start) (protocol_error "Buffer too small for PDU");
  if auth_tlv_type =? TLV_AUTH_NONE then
    _ ← reject_if (negb (auth_tlv_size =? 4)) (invalid_auth_size "AUTH_NONE" auth_tlv_size);
    slice_from data pdu_start
  else if auth_tlv_type =? TLV_AUTH_COOKIE then
    _ ← reject_if (negb (auth_tlv_size =? 36)) (invalid_auth_size "AUTH_COOKIE" auth_tlv_size);
    auth_tlv_body ← data.[pos + 4 ..< pos + auth_tlv_size];
    _ ← match m with
        | AuthCookie _ =>
            expected ← ok_or cookie_cache (auth_error "Missing cookie hash cache");
            reject_if (negb (bool_decide (auth_tlv_body = expected)))
              (auth_error "Cookie auth mismatch")
        | _ => Ok tt
        end;
    slice_from data pdu_start
  else if auth_tlv_type =? TLV_AUTH_AES then
    _ ← reject_if (negb (auth_tlv_size =? 32)) (invalid_auth_size "AUTH_AES" auth_tlv_size);
    auth_tlv_body ← data.[pos + 4 ..< pos + auth_tlv_size];
    nonce ← (s ← auth_tlv_body.[0 ..< 12]; copy_at (zeros 12) 0 12 s);
    auth_tag ← (s ← auth_tlv_body.[12 ..< 28]; copy_at (zeros 16) 0 16 s);
    key ← ok_or aes_cache (auth_error "Missing AES key cache");
    encrypted_pdu ← data.[pdu_start ..<];
    aad ← data.[0 ..< pos + 4 + 12];
    ok_or (decrypt_pdu encrypted_pdu key nonce auth_tag aad)
      (protocol_error "AES decryption failed")
  else Err (CoreProtocol (lit "Unknown Auth TLV type: " ++ fmt_hex auth_tlv_type)).

End WithPrimitives.

(** Four bytes are a type and a size. *)
Lemma split_head l :
  bytes_ok l -> 4 <= zlen l ->
  exists ty sz rest, l = u16_le ty ++ u16_le sz ++ rest /\ in_u16 ty /\ in_u16 sz /\
    bytes_ok rest /\ zlen rest = zlen l - 4.
Proof.
  intros Hb Hs. destruct (split_int 2 _ l Hb eq_refl ltac:(lia)) as (ty & r & -> & Hty & Hrb & Hrl).
  destruct (split_int 2 _ r Hrb Hrl ltac:(lia)) as (sz & rest & -> & Hsz & Hre & Hel).
  change (256 ^ Z.of_nat 2) with 65536 in *. exists ty, sz, rest.
  unfold in_u16, u16_max. split_and!; (done || lia).
Qed.

(** ** Frames

    What a peer must send after the tenant header [packet] to deliver [pdu]. *)

Section Frames.
Context `{PrimitivesLaws}.

Inductive auth_frame (packet : list Z) : AuthMethod -> list Z -> list Z -> Prop :=
| frame_none pdu :
    auth_frame packet AuthNone pdu (u16_le TLV_AUTH_NONE ++ u16_le 4 ++ pdu)
| frame_cookie secret pdu :
    auth_frame packet (AuthCookie secret) pdu (u16_le TLV_AUTH_COOKIE ++ u16_le 36 ++ secret ++ pdu)
| frame_aes key nonce tag ct pdu :
    array_ok 12 nonce -> array_ok 16 tag -> bytes_ok pdu ->
    aes_seal key nonce (packet ++ u16_le TLV_AUTH_AES ++ u16_le 32 ++ nonce) pdu = Some (ct ++ tag) ->
    auth_frame packet (AuthAesGcm key) pdu
      (u16_le TLV_AUTH_AES ++ u16_le 32 ++ nonce ++ tag ++ ct).

(** Bound on the datagrams of the model, far above the 65535 bytes of UDP and
    below the limits of the cipher. *)
Definition datagram_max : Z := 1000000.

Lemma auth_frame_len packet m pdu body :
  auth_ok m -> auth_frame packet m pdu body -> zlen body = auth_header_size m + zlen pdu.
Proof.
  intros Hm Hf. destruct Hf as [pdu|secret pdu|key nonce tag ct pdu [Hn _] [Ht _] _ Hs];
    cbn [auth_header_size auth_ok] in *; [zlen_lia | zlen_lia |].
  apply aes_seal_len in Hs. zlen_lia.
Qed.

Lemma append_auth_frame m nonce packet pdu :
  auth_ok m -> array_ok 12 nonce -> bytes_ok packet -> bytes_ok pdu ->
  zlen packet <= datagram_max -> zlen pdu <= datagram_max ->
  exists body,
    append_auth_tlv m (cookie_hash_cache m) (aes_key_cache m) nonce packet pdu = Ok (packet ++ body) /\
    auth_frame packet m pdu body.
Proof.
  intros Hm Hn Hp Hd Hpl Hdl. destruct m as [|secret|key]; cbn [append_auth_tlv cookie_hash_cache
    aes_key_cache ok_or expect mbind outcome_bind auth_ok] in *.
  - eexists. split; [|constructor]. by rewrite <- !app_assoc.
  - eexists. split; [|constructor]. by rewrite <- !app_assoc.
  - unfold datagram_max in *.
    destruct (@encrypt_pdu_ok _ _ CoreError nonce pdu key ((packet ++ u16_le TLV_AUTH_AES) ++ u16_le 32))
      as (ct & tag & -> & Hct & Ht & Ho); try done.
    { by destruct Hm. }
    { unfold u16_le. auto with bytes. }
    { unfold aes_max. zlen_lia. }
    { unfold aes_max. lia. }
    cbn [mbind outcome_bind]. eexists. split; [by rewrite <- !app_assoc|].
    constructor; [done | done | done |]. apply decrypt_pdu_inv in Ho. by rewrite <- !app_assoc in Ho.
Qed.

(** What is left to do once type and size of the TLV are the expected ones. *)
Definition open_auth (m : AuthMethod) (packet rest : list Z) : outcome CoreError (list Z) :=
  match m with
  | AuthNone => Ok rest
  | AuthCookie secret =>
      if bool_decide (take 32 rest = secret) then Ok (drop 32 rest)
      else Err (auth_error "Cookie auth mismatch")
  | AuthAesGcm key =>
      let nonce := take 12 rest in
      let tag := take 16 (drop 12 rest) in
      ok_or (decrypt_pdu (drop 28 rest) key nonce tag
               (packet ++ u16_le TLV_AUTH_AES ++ u16_le 32 ++ nonce))
        (protocol_error "AES decryption failed")
  end.

Definition auth_name (m : AuthMethod) : string :=
  match m with
  | AuthNone => "AUTH_NONE"
  | AuthCookie _ => "AUTH_COOKIE"
  | AuthAesGcm _ => "AUTH_AES"
  end.

(** The two integers every authentication TLV starts with. *)
Lemma head_type_at {E} packet ty size rest :
  in_u16 ty -> @u16_at E (packet ++ u16_le ty ++ u16_le size ++ rest) (zlen packet) = Ok ty.
Proof. by apply u16_at_app. Qed.

Lemma head_size_at {E} packet ty size rest :
  in_u16 size -> @u16_at E (packet ++ u16_le ty ++ u16_le size ++ rest) (zlen packet + 2) = Ok size.
Proof. intros H1. rewrite app_assoc. apply u16_at_app; [zlen_lia | done]. Qed.

Lemma auth_type_range m : in_u16 (expected_auth_type m).
Proof. destruct m; vm_compute; split; discriminate. Qed.
Lemma auth_size_range m : in_u16 (auth_header_size m).
Proof. destruct m; vm_compute; split; discriminate. Qed.

(** Once both size checks and the type check pass. *)
Lemma parse_auth_accepted m packet rest :
  auth_header_size m - 4 <= zlen rest ->
  parse_auth_tlv (packet ++ u16_le (expected_auth_type m) ++ u16_le (auth_header_size m) ++ rest)
    (zlen packet) m (cookie_hash_cache m) (aes_key_cache m)
  = open_auth m packet rest.
Proof.
  intros Hr. pose proof (zlen_nonneg packet). pose proof (zlen_nonneg rest).
  set (data := packet ++ _).
  assert (Hlen : zlen data = zlen packet + 4 + zlen rest) by (subst data; zlen_lia).
  pose proof (@head_type_at CoreError packet _ (auth_header_size m) rest (auth_type_range m)) as Hty.
  pose proof (@head_size_at CoreError packet (expected_auth_type m) _ rest (auth_size_range m)) as Hsz.
  fold data in Hty, Hsz.
  unfold parse_auth_tlv. rewrite (proj2 (Z.ltb_ge (zlen data) _)) by lia.
  cbn [reject_if mbind outcome_bind]. rewrite Hty. cbn [mbind outcome_bind]. rewrite Hsz.
  cbn [mbind outcome_bind]. rewrite Z.eqb_refl. cbn [negb].
  rewrite (proj2 (Z.ltb_ge (zlen data) (zlen packet + auth_header_size m))) by lia.
  destruct m as [|secret|key]; unfold expected_auth_type, auth_header_size in *.
  - subst data. rewrite !app_assoc. apply slice_from_app. zlen_lia.
  - change (36 <? 4) with false. change (TLV_AUTH_COOKIE =? TLV_AUTH_NONE) with false.
    destruct (split_len 32 rest ltac:(lia)) as (a & r & -> & Ha). unfold open_auth.
    rewrite take_len, drop_len by lia.
    cbn [Z.eqb Pos.eqb reject_if mbind outcome_bind negb TLV_AUTH_COOKIE cookie_hash_cache ok_or].
    assert (@slice CoreError _ data (zlen packet + 4) (zlen packet + 36) = Ok a) as ->.
    { subst data. rewrite (app_assoc packet), (app_assoc (packet ++ _)). apply slice_app_mid; zlen_lia. }
    assert (@slice_from CoreError _ data (zlen packet + 36) = Ok r) as ->.
    { subst data. rewrite !app_assoc. apply slice_from_app. zlen_lia. }
    cbn [mbind outcome_bind]. by case_bool_decide.
  - change (32 <? 4) with false. change (TLV_AUTH_AES =? TLV_AUTH_NONE) with false.
    change (TLV_AUTH_AES =? TLV_AUTH_COOKIE) with false.
    destruct (split_len 12 rest ltac:(lia)) as (nonce & r & -> & Hn). unfold open_auth.
    destruct (split_len 16 r) as (tag & ct & -> & Ht); [rewrite zlen_app in Hr; lia|].
    rewrite (take_len 12), (drop_len 12), (take_len 16) by (rewrite ?zlen_app; lia).
    rewrite (app_assoc nonce tag ct), (drop_len 28) by (rewrite zlen_app; lia).
    cbn [Z.eqb Pos.eqb reject_if mbind outcome_bind negb TLV_AUTH_AES aes_key_cache ok_or].
    assert (@slice CoreError _ data (zlen packet + 4) (zlen packet + 32) = Ok (nonce ++ tag)) as ->.
    { subst data. rewrite (app_assoc packet), (app_assoc (packet ++ _)), (app_assoc nonce).
      apply slice_app_mid; zlen_lia. }
    cbn [mbind outcome_bind]. read_fields.
    rewrite (slice_all tag) by zlen_lia. cbn [mbind outcome_bind]. read_fields.
    assert (@slice_from CoreError _ data (zlen packet + 32) = Ok ct) as ->.
    { subst data. rewrite !app_assoc. apply slice_from_app. zlen_lia. }
    cbn [mbind outcome_bind].
    assert (@slice CoreError _ data 0 (zlen packet + 4 + 12)
            = Ok (packet ++ u16_le TLV_AUTH_AES ++ u16_le 32 ++ nonce)) as ->; [|done].
    assert (data = (packet ++ u16_le TLV_AUTH_AES ++ u16_le 32 ++ nonce) ++ tag ++ ct) as ->
      by (subst data; by rewrite <- !app_assoc).
    apply slice_head; zlen_lia.
Qed.

(** [parse_auth_tlv] on a datagram with room for the four-byte header. *)
Lemma parse_auth_eq m packet ty size rest :
  auth_ok m -> in_u16 ty -> in_u16 size ->
  parse_auth_tlv (packet ++ u16_le ty ++ u16_le size ++ rest) (zlen packet) m
    (cookie_hash_cache m) (aes_key_cache m)
  = if size <? 4 then Err (protocol_error "Invalid Auth TLV size")
    else if zlen rest <? size - 4 then Err (protocol_error "Buffer too small for Auth TLV body")
    else if negb (ty =? expected_auth_type m) then
      Err (CoreAuth (lit "Auth type mismatch: expected " ++ fmt_hex (expected_auth_type m) ++
                     lit ", got " ++ fmt_hex ty))
    else if negb (size =? auth_header_size m) then Err (invalid_auth_size (auth_name m) size)
    else open_auth m packet rest.
Proof.
  intros Hm Ht Hs. pose proof (zlen_nonneg packet). pose proof (zlen_nonneg rest).
  destruct (negb (ty =? expected_auth_type m) || negb (size =? auth_header_size m)
            || (zlen rest <? size - 4)) eqn:C.
  2:{ reflect_bools. subst ty size. rewrite parse_auth_accepted by done.
      rewrite (proj2 (Z.ltb_ge (auth_header_size m) 4)) by (destruct m; cbn; lia).
      rewrite (proj2 (Z.ltb_ge (zlen rest) _)) by done. by rewrite !Z.eqb_refl. }
  set (data := packet ++ _).
  assert (Hlen : zlen data = zlen packet + 4 + zlen rest) by (subst data; zlen_lia).
  unfold parse_auth_tlv. rewrite (proj2 (Z.ltb_ge (zlen data) _)) by lia.
  cbn [reject_if mbind outcome_bind].
  subst data. rewrite head_type_at by done. cbn [mbind outcome_bind].
  rewrite head_size_at by done. cbn [mbind outcome_bind]. set (data := packet ++ _) in *.
  destruct (Z.ltb_spec size 4); cbn [reject_if mbind outcome_bind]; [done|].
  replace (zlen data <? zlen packet + size) with (zlen rest <? size - 4)
    by (destruct (Z.ltb_spec (zlen rest) (size - 4)), (Z.ltb_spec (zlen data) (zlen packet + size)); lia || done).
  destruct (zlen rest <? size - 4) eqn:Hr; cbn [reject_if mbind outcome_bind orb]; [done|].
  destruct (ty =? expected_auth_type m) eqn:Hty; cbn [negb reject_if mbind outcome_bind]; [|done].
  apply Z.eqb_eq in Hty as ->. rewrite orb_false_r in C. cbn [negb orb] in C.
  destruct m; unfold expected_auth_type, auth_header_size, auth_name in *; rewrite C; vm_compute (TLV_AUTH_NONE =? _);
   cbn [reject_if mbind outcome_bind]; done.
Qed.

Lemma parse_auth_short m packet body :
  zlen body < 4 ->
  parse_auth_tlv (packet ++ body) (zlen packet) m (cookie_hash_cache m) (aes_key_cache m)
  = Err (protocol_error "Buffer too small for Auth TLV header").
Proof.
  intros H1. unfold parse_auth_tlv. rewrite (proj2 (Z.ltb_lt _ _)); [done|].
  rewrite zlen_app. lia.
Qed.

Lemma open_auth_frame m packet rest pdu :
  auth_ok m -> bytes_ok rest -> auth_header_size m - 4 <= zlen rest ->
  open_auth m packet rest = Ok pdu ->
  auth_frame packet m pdu (u16_le (expected_auth_type m) ++ u16_le (auth_header_size m) ++ rest).
Proof.
  intros Hm Hb Hr. destruct m as [|secret|key]; unfold open_auth, auth_header_size in *.
  - intros [= <-]. constructor.
  - destruct (split_len 32 rest ltac:(lia)) as (a & r & -> & Ha).
    rewrite take_len, drop_len by lia. case_bool_decide as Hd; [|done]. intros [= <-]. subst.
    constructor.
  - destruct (split_bytes 12 _ rest Hb eq_refl ltac:(lia)) as (nonce & r & -> & Hn & Hnb & Hrb & Hrl).
    destruct (split_bytes 16 _ r Hrb Hrl ltac:(lia)) as (tag & ct & -> & Ht & Htb & Hcb & Hcl).
    rewrite (take_len 12), (drop_len 12), (take_len 16) by (rewrite ?zlen_app; lia).
    rewrite (app_assoc nonce tag ct), (drop_len 28) by (rewrite zlen_app; lia).
    intros Ho. apply ok_or_ok in Ho. rewrite <- (app_assoc nonce tag ct).
    constructor; [by split | by split | | by apply decrypt_pdu_inv].
    eapply aes_open_bytes; [|exact Ho]. by apply bytes_ok_app.
Qed.

Lemma auth_frame_open m packet body pdu :
  auth_ok m -> bytes_ok packet -> zlen packet <= datagram_max -> zlen body <= datagram_max ->
  auth_frame packet m pdu body ->
  exists rest, body = u16_le (expected_auth_type m) ++ u16_le (auth_header_size m) ++ rest /\
    auth_header_size m - 4 <= zlen rest /\ open_auth m packet rest = Ok pdu.
Proof.
  intros Hm Hp Hpl Hbl Hf. pose proof (auth_frame_len _ _ _ _ Hm Hf) as Hlen.
  pose proof (zlen_nonneg pdu).
  destruct Hf as [pdu|secret pdu|key nonce tag ct pdu [Hn Hnb] [Ht Htb] Hpdu Hs];
    eexists; (split; [reflexivity|]); unfold open_auth, auth_header_size, datagram_max in *.
  - split; [zlen_lia | done].
  - destruct Hm as [_ Hm]. split; [zlen_lia|]. rewrite take_len, drop_len by lia.
    by rewrite bool_decide_eq_true_2.
  - split; [pose proof (zlen_nonneg ct); zlen_lia|].
    rewrite (take_len 12), (drop_len 12), (take_len 16) by (rewrite ?zlen_app; lia).
    rewrite (app_assoc nonce tag ct), (drop_len 28) by (rewrite zlen_app; lia).
    destruct (aes_seal_open key nonce (packet ++ u16_le TLV_AUTH_AES ++ u16_le 32 ++ nonce) pdu)
      as (c & Hs' & _ & Ho); try done.
    + by destruct Hm.
    + unfold u16_le. auto with bytes.
    + unfold aes_max. zlen_lia.
    + unfold aes_max. lia.
    + unfold decrypt_pdu. assert (c = ct ++ tag) as -> by congruence. by rewrite Ho.
Qed.

Lemma parse_auth_iff m packet body pdu :
  auth_ok m -> bytes_ok packet -> bytes_ok body ->
  zlen packet <= datagram_max -> zlen body <= datagram_max ->
  parse_auth_tlv (packet ++ body) (zlen packet) m (cookie_hash_cache m) (aes_key_cache m) = Ok pdu
  <-> auth_frame packet m pdu body.
Proof.
  intros Hm Hp Hb Hpl Hbl. split.
  - intros E. destruct (Z.lt_ge_cases (zlen body) 4) as [Hs|Hs];
      [by rewrite parse_auth_short in E|].
    destruct (split_head body Hb Hs) as (ty & sz & rest & -> & Hty & Hsz & Hre & _).
    rewrite parse_auth_eq in E by done.
    destruct (sz <? 4) eqn:C1; [done|]. destruct (zlen rest <? sz - 4) eqn:C2; [done|].
    destruct (ty =? _) eqn:C3; [|done]. destruct (sz =? _) eqn:C4; [|done].
    cbn [negb] in E. reflect_bools. subst. by apply open_auth_frame.
  - intros Hf. destruct (auth_frame_open m packet body pdu) as (rest & -> & Hr & Ho); try done.
    by rewrite parse_auth_accepted.
Qed.

Lemma no_panic_parse_auth m packet body :
  auth_ok m -> bytes_ok body ->
  no_panic (parse_auth_tlv (packet ++ body) (zlen packet) m (cookie_hash_cache m) (aes_key_cache m)).
Proof.
  intros Hm Hb. destruct (Z.lt_ge_cases (zlen body) 4) as [Hs|Hs]; [by rewrite parse_auth_short|].
  destruct (split_head body Hb Hs) as (ty & sz & rest & -> & Hty & Hsz & Hre & _).
  rewrite parse_auth_eq by done.
  unfold open_auth. destruct m; no_panics.
Qed.

End Frames.

(** ** The tenant header, parsed *)

(** A tenant TLV: the header and whatever extension its size announces. *)
Definition tenant_frame (h : TenantHeader) (ext : list Z) : Prop :=
  block_ok h /\ tlv_type h = TLV_TENANT /\ tlv_size h = TENANT_TLV_LEN + zlen ext.

Lemma parse_tenant_eq ty size rest :
  in_u16 ty -> in_u16 size ->
  let data := u16_le ty ++ u16_le size ++ rest in
  parse_tenant_header data
  = if negb (ty =? TLV_TENANT) then
      Err (CoreProtocol (lit "Expected Tenant TLV type " ++ fmt_hex TLV_TENANT ++ lit ", got " ++
                         fmt_hex ty))
    else if size <? 40 then Err (protocol_error "Tenant TLV too small")
    else if zlen data <? size then Err (protocol_error "Buffer too small for Tenant TLV body")
    else
      header ← map_err CoreProtocol (tenant_read_from_buffer (take (Z.to_nat size) data));
      Ok (header, size).
Proof.
  intros Ht Hs data. pose proof (zlen_nonneg rest). unfold in_u16, u16_max in *.
  assert (Hlen : zlen data = 4 + zlen rest) by (subst data; zlen_lia).
  unfold parse_tenant_header. rewrite (proj2 (Z.ltb_ge _ _)) by lia.
  cbn [reject_if mbind outcome_bind].
  assert (@u16_at CoreError data 0 = Ok ty) as -> by (by apply u16_at_head).
  cbn [mbind outcome_bind].
  assert (@u16_at CoreError data (0 + 2) = Ok size) as ->.
  { subst data. rewrite u16_at_skip by zlen_lia. apply u16_at_head; zlen_lia. }
  destruct (ty =? TLV_TENANT); cbn [negb reject_if mbind outcome_bind]; [|done].
  unfold TENANT_TLV_LEN. destruct (Z.ltb_spec size 40); cbn [reject_if mbind outcome_bind]; [done|].
  rewrite !Z.add_0_l. destruct (Z.ltb_spec (zlen data) size); cbn [reject_if mbind outcome_bind]; [done|].
  rewrite slice_ok by lia. cbn [mbind outcome_bind]. by rewrite drop_0, Z.sub_0_r.
Qed.

Lemma parse_tenant_frame h ext rest :
  tenant_frame h ext ->
  parse_tenant_header (encode h ++ ext ++ rest) = Ok (h, TENANT_TLV_LEN + zlen ext).
Proof.
  intros (Hh & Ht & Hs). pose proof (zlen_nonneg ext). pose proof (zlen_nonneg rest).
  pose proof (zlen_encode h Hh) as Hl. cbn [block_len tenant_block] in Hl.
  pose proof Hh as Hh'. cbn [block_ok tenant_block] in Hh'. destruct Hh' as (Hty & Hsz & _).
  assert (encode h ++ ext ++ rest = u16_le (tlv_type h) ++ u16_le (tlv_size h) ++
    drop 4 (encode h ++ ext ++ rest)) as E by done.
  rewrite E, parse_tenant_eq, <- E by done. rewrite Ht, Z.eqb_refl, Hs. unfold TENANT_TLV_LEN in *.
  cbn [negb]. rewrite !(proj2 (Z.ltb_ge _ _)) by (rewrite ?zlen_app; lia).
  rewrite app_assoc, take_len by (rewrite zlen_app; lia).
  by rewrite read_encode.
Qed.

Lemma parse_tenant_inv data h pos :
  bytes_ok data -> parse_tenant_header data = Ok (h, pos) ->
  exists ext rest, data = encode h ++ ext ++ rest /\ tenant_frame h ext /\
    pos = TENANT_TLV_LEN + zlen ext.
Proof.
  intros Hb E.
  destruct (Z.lt_ge_cases (zlen data) 4) as [Hs|Hs].
  { unfold parse_tenant_header in E. by rewrite (proj2 (Z.ltb_lt _ _)) in E. }
  destruct (split_head data Hb Hs) as (ty & sz & rest & Ed & Ht & Hz & Hre & _).
  rewrite Ed, (parse_tenant_eq ty sz rest Ht Hz), <- Ed in E.
  destruct (Z.eqb_spec ty TLV_TENANT) as [Hty'|]; cbn [negb] in E; [|done].
  destruct (Z.ltb_spec sz 40); [done|]. destruct (Z.ltb_spec (zlen data) sz); [done|].
  destruct (split_len sz data ltac:(lia)) as (d & rest' & -> & Hd).
  rewrite take_len in E by lia. apply bytes_ok_app in Hb as [Hdb _].
  destruct (read_total (T := TenantHeader) (read := tenant_read_from_buffer) d) as (x & Hx & Hr & Heq);
    [done | cbn; lia | cbn; lia |].
  rewrite Hr in E. cbn [map_err mbind outcome_bind] in E. injection E as <- <-.
  set (ext := drop _ d) in *. pose proof (zlen_encode x Hx) as Hlx. cbn [block_len tenant_block] in Hlx.
  assert (Hext : sz = 40 + zlen ext) by (rewrite <- Hd, Heq, zlen_app; lia).
  exists ext, rest'. split; [by rewrite Heq, <- app_assoc|]. split; [|done].
  assert (E2 : encode x = u16_le (tlv_type x) ++ u16_le (tlv_size x) ++ drop 4 (encode x)) by done.
  rewrite Heq, E2 in Ed. rewrite <- !app_assoc in Ed.
  pose proof Hx as (Hxt & Hxs & _).
  apply app_inj_len in Ed as [Ety Ed]; [|done]. apply app_inj_len in Ed as [Esz _]; [|done].
  unfold in_u16, u16_max in *. apply to_le_inj in Ety, Esz; try lia.
  by subst ty sz.
Qed.

Lemma no_panic_parse_tenant data : bytes_ok data -> no_panic (parse_tenant_header data).
Proof.
  intros Hb. destruct (Z.lt_ge_cases (zlen data) 4) as [Hs|Hs].
  { unfold parse_tenant_header. by rewrite (proj2 (Z.ltb_lt _ _)). }
  destruct (split_head data Hb Hs) as (ty & sz & rest & Ed & Ht & Hz & Hre & _).
  rewrite Ed, parse_tenant_eq, <- Ed by done.
  destruct (negb _); [done|]. destruct (Z.ltb_spec sz 40); [done|].
  destruct (Z.ltb_spec (zlen data) sz); [done|].
  destruct (read_total (T := TenantHeader) (read := tenant_read_from_buffer)
              (take (Z.to_nat sz) data)) as (x & Hx & -> & _); try done.
  - auto with bytes.
  - rewrite zlen_take_min. cbn. lia.
Qed.

(** ** Theorems *)

(** C31. The authentication TLV parser accepts exactly the authentic frames of its
    own method: on any bytes behind any prefix it never panics, and it returns
    a PDU if and only if those bytes are the frame of that PDU - for a cookie
    key the very cookie, for an AES key a ciphertext and tag that seal the PDU
    under the nonce and everything before it. *)
Theorem parse_auth_tlv_accepts_frames `{PrimitivesLaws} m packet body
    (Hm : auth_ok m) (Hp : bytes_ok packet) (Hb : bytes_ok body)
    (Hpl : zlen packet <= datagram_max) (Hbl : zlen body <= datagram_max) :
  let parse := parse_auth_tlv (packet ++ body) (zlen packet) m (cookie_hash_cache m)
                 (aes_key_cache m) in
  no_panic parse /\ forall pdu, parse = Ok pdu <-> auth_frame packet m pdu body.
Proof.
  cbv zeta. split; [by apply no_panic_parse_auth|]. intros pdu. by apply parse_auth_iff.
Qed.

Definition demo_key : list Z := replicate 32 7.
Definition demo_nonce : list Z := replicate 12 9.

Lemma demo_key_ok : bytes_ok demo_key.
Proof. apply Forall_replicate. unfold is_byte. lia. Qed.

Lemma parse_auth_tlv_accepts_frames_witness :
  @auth_frame toy_primitives [1; 2] (AuthCookie demo_key) [5]
    (u16_le TLV_AUTH_COOKIE ++ u16_le 36 ++ demo_key ++ [5]).
Proof.
  apply (@parse_auth_tlv_accepts_frames toy_primitives toy_primitives_laws (AuthCookie demo_key) [1; 2]
           (u16_le TLV_AUTH_COOKIE ++ u16_le 36 ++ demo_key ++ [5])).
  - split; [apply demo_key_ok | reflexivity].
  - repeat constructor; unfold is_byte; lia.
  - repeat (apply bytes_ok_app; split); [| | apply demo_key_ok |];
      repeat constructor; unfold is_byte; vm_compute; (discriminate || reflexivity).
  - vm_compute. discriminate.
  - vm_compute. discriminate.
  - vm_compute. reflexivity.
Defined.

(** Every check of the TLV parser in its order: a datagram that ends inside
    the four-byte header, a size below four, a body shorter than announced, a
    type other than the configured one (an authentication error), a wrong size
    for the type, and only then the credential itself. *)
Theorem parse_auth_tlv_branches `{PrimitivesLaws} m packet
    (Hm : auth_ok m) :
  let parse body := parse_auth_tlv (packet ++ body) (zlen packet) m (cookie_hash_cache m)
                      (aes_key_cache m) in
  (forall body, zlen body < 4 ->
     parse body = Err (protocol_error "Buffer too small for Auth TLV header")) /\
  (forall ty size rest, in_u16 ty -> in_u16 size ->
     parse (u16_le ty ++ u16_le size ++ rest)
     = if size <? 4 then Err (protocol_error "Invalid Auth TLV size")
       else if zlen rest <? size - 4 then Err (protocol_error "Buffer too small for Auth TLV body")
       else if negb (ty =? expected_auth_type m) then
         Err (CoreAuth (lit "Auth type mismatch: expected " ++ fmt_hex (expected_auth_type m) ++
                        lit ", got " ++ fmt_hex ty))
       else if negb (size =? auth_header_size m) then Err (invalid_auth_size (auth_name m) size)
       else open_auth m packet rest).
Proof.
  cbv zeta. split; intros; [by apply parse_auth_short | by apply parse_auth_eq].
Qed.

Lemma parse_auth_tlv_branches_witness :
  @parse_auth_tlv toy_primitives ([1; 2] ++ [0x4E; 0x41; 5]) 2 AuthNone None None
  = Err (protocol_error "Buffer too small for Auth TLV header").
Proof.
  refine (proj1 (@parse_auth_tlv_branches toy_primitives toy_primitives_laws AuthNone [1; 2] I)
            [0x4E; 0x41; 5] _).
  vm_compute. reflexivity.
Defined.

(** C17. What [append_auth_tlv] writes, [parse_auth_tlv] reads: for each
    authentication method appending to a packet succeeds, adds exactly
    [auth_header_size] bytes and the PDU, leaves the packet in place, and a
    holder of the same key gets the same PDU back. *)
Theorem auth_tlv_roundtrip `{PrimitivesLaws} m nonce packet pdu
    (Hm : auth_ok m) (Hn : array_ok 12 nonce) (Hp : bytes_ok packet) (Hd : bytes_ok pdu)
    (Hpl : zlen packet <= datagram_max) (Hdl : zlen pdu <= 65535) :
  exists body,
    append_auth_tlv m (cookie_hash_cache m) (aes_key_cache m) nonce packet pdu = Ok (packet ++ body) /\
    zlen body = auth_header_size m + zlen pdu /\
    parse_auth_tlv (packet ++ body) (zlen packet) m (cookie_hash_cache m) (aes_key_cache m) = Ok pdu.
Proof.
  destruct (append_auth_frame m nonce packet pdu) as (body & Ha & Hf); try done;
    [unfold datagram_max; lia|].
  pose proof (auth_frame_len _ _ _ _ Hm Hf) as Hlen.
  exists body. split_and!; [done | done |].
  destruct (auth_frame_open m packet body pdu) as (rest & -> & Hr & Ho); try done.
  - rewrite Hlen. unfold datagram_max. destruct m; cbn; lia.
  - by rewrite parse_auth_accepted.
Qed.

Lemma auth_tlv_roundtrip_witness :
  exists body,
    @append_auth_tlv toy_primitives (AuthAesGcm demo_key) None (Some demo_key) demo_nonce [1] [2; 3]
      = Ok ([1] ++ body) /\
    zlen body = 32 + 2 /\
    @parse_auth_tlv toy_primitives ([1] ++ body) 1 (AuthAesGcm demo_key) None (Some demo_key)
      = Ok [2; 3].
Proof.
  apply (@auth_tlv_roundtrip toy_primitives toy_primitives_laws (AuthAesGcm demo_key) demo_nonce [1] [2; 3]).
  - split; [apply demo_key_ok | reflexivity].
  - split; [reflexivity|]. apply Forall_replicate. unfold is_byte. lia.
  - repeat constructor; unfold is_byte; lia.
  - repeat constructor; unfold is_byte; lia.
  - vm_compute. discriminate.
  - vm_compute. discriminate.
Defined.
