(* ===== verification/Request.v ===== *)
(** * Building requests (src/src/client.rs)

    The bodies, PDUs and packets of rate requests and latency reports. *)

From S2P Require Import Prelude Errors Codec ApiKey Policy Net Config Wire Auth.

(** ** Definitions *)

(** [now_millis] of a wall clock in nanoseconds since the epoch: [unwrap] panics on a
    clock before it, [as u64] truncates. *)
Definition now_millis {E} (system_time : Z) : outcome E Z :=
  if system_time <? 0 then Panic else Ok (as_u64 (system_time / 1000000)).

(** [let offset = body.len(); body.resize(offset + len, 0);
    block.write_to_buffer(&mut body[offset..])]. *)
Definition append_block {E} (len : Z) (write : list Z -> outcome E (list Z)) (body : list Z)
  : outcome E (list Z) :=
  let offset := zlen body in
  let body := body ++ zeros len in
  with_slice body offset (zlen body) write.

Definition append_metrics_label_tlv (pdu_body : list Z) (label : str)
  : outcome CoreError (list Z) :=
  let label_bytes := as_bytes label in
  _ ← reject_if (zlen label_bytes >? u16_max) (protocol_error "Metrics label too long");
  let body_len := 2 + zlen label_bytes in
  let padding := (4 - body_len mod 4) mod 4 in
  let tlv_size := 4 + body_len + padding in
  _ ← reject_if (tlv_size >? u16_max) (protocol_error "Metrics label TLV too large");
  let pdu_body := pdu_body ++ u16_le TLV_METRICS_LABEL in
  let pdu_body := pdu_body ++ u16_le (as_u16 tlv_size) in
  let pdu_body := pdu_body ++ u16_le (as_u16 (zlen label_bytes)) in
  let pdu_body := pdu_body ++ label_bytes in
  if padding >? 0 then
    pad ← (zeros 4).[0 ..< padding];
    Ok (pdu_body ++ pad)
  else Ok pdu_body.

Definition build_pdu (pdu_type : Z) (body : list Z) : outcome CoreError (list Z) :=
  let pdu_size := PDU_HEADER_LEN + zlen body in
  _ ← reject_if (pdu_size >? u16_max) (protocol_error "PDU too large");
  Ok (((u16_le pdu_type ++ u16_le (as_u16 pdu_size)) ++ zeros 4) ++ body).

Definition build_rate_request_pdu (dedup_ttl_ms : Z) (body : list Z)
  : outcome CoreError (list Z) :=
  let pdu_size := PDU_HEADER_LEN + zlen body in
  _ ← reject_if (pdu_size >? u16_max) (protocol_error "PDU too large");
  Ok (((u16_le PDU_RATE_REQUEST ++ u16_le (as_u16 pdu_size)) ++ u32_le dedup_ttl_ms) ++ body).

(** [validate_rate_windows_against_quota]; the client always passes a limit. *)
Definition validate_rate_windows_against_quota (resources : list ResourceRequest)
    (rate_window_size_ms_max : option Z) : outcome CoreError unit :=
  match rate_window_size_ms_max with
  | None => Ok tt
  | Some limit =>
      match List.find (fun r => rq_window_size_ms r >? limit) resources with
      | Some r =>
          Err (CoreProtocol (lit "Resource '" ++ bucket_name r ++ lit "' window_size_ms " ++
                 fmt_dec (rq_window_size_ms r) ++ lit " exceeds rate_window_size_ms_max " ++
                 fmt_dec limit))
      | None => Ok tt
      end
  end.

(** A clock after 1970 gives the type that packets carry, exactly for the first [2^64] milliseconds. *)
Lemma now_millis_ok {E} t : 0 <= t -> exists ms, @now_millis E t = Ok ms /\ in_u64 ms /\
  (t < 1000000 * 2 ^ 64 -> ms = t / 1000000).
Proof.
  intros Ht. unfold now_millis. rewrite (proj2 (Z.ltb_ge t 0)) by done. eexists. split; [done|].
  unfold as_u64, in_u64, u64_max. pose proof (Z.mod_pos_bound (t / 1000000) (2 ^ 64)). split; [lia|].
  intros Hlt. apply Z.mod_small. split; [apply Z.div_pos; lia|]. apply Z.div_lt_upper_bound; lia.
Qed.

Section WithPrimitives.
Context `{Primitives}.

Fixpoint append_guards (guards : list LatencyGuard) (body : list Z) : outcome CoreError (list Z) :=
  match guards with
  | [] => Ok body
  | g :: guards =>
      id ← derive_latency_tracker_id (lg_latency_tracker_name g) (lg_ttl_ms g) (lg_max_samples g)
             (lg_min_sample_threshold g);
      let block :=
        {| gb_latency_tracker_id := id; gb_ttl_ms := lg_ttl_ms g;
           gb_max_samples := lg_max_samples g;
           gb_min_sample_threshold := lg_min_sample_threshold g;
           gb_latency_threshold := lg_threshold_ms g; gb_current_latency := 0 |} in
      body ← append_block 36 (guard_write_to_buffer block) body;
      append_guards guards body
  end.

Fixpoint append_resources (resources : list ResourceRequest) (body : list Z)
  : outcome CoreError (list Z) :=
  match resources with
  | [] => Ok body
  | r :: resources =>
      id ← derive_bucket_id (bucket_name r) (rq_window_size_ms r) (rq_rate_limit r);
      let block :=
        {| rb_bucket_id := id; rb_window_size_ms := rq_window_size_ms r;
           rb_rate_limit := rq_rate_limit r; rb_tokens_requested := rq_tokens_requested r;
           rb_padding := 0 |} in
      body ← append_block 28 (resource_write_to_buffer block) body;
      append_resources resources body
  end.

Definition build_rate_request_body (resources : list ResourceRequest) (guards : list LatencyGuard)
    (metrics_label : option str) : outcome CoreError (list Z) :=
  let body := u16_le (as_u16 (zlen guards)) ++ u16_le (as_u16 (zlen resources)) in
  body ← append_guards guards body;
  body ← append_resources resources body;
  match metrics_label with
  | Some label => append_metrics_label_tlv body label
  | None => Ok body
  end.

Fixpoint append_reports (reports : list ServiceLatencyReport) (body : list Z)
  : outcome CoreError (list Z) :=
  match reports with
  | [] => Ok body
  | r :: reports =>
      id ← derive_latency_tracker_id (sr_latency_tracker_name r) (sr_ttl_ms r) (sr_max_samples r)
             (sr_min_sample_threshold r);
      let block :=
        {| sb_latency_tracker_id := id; sb_ttl_ms := sr_ttl_ms r;
           sb_max_samples := sr_max_samples r;
           sb_min_sample_threshold := sr_min_sample_threshold r;
           sb_observed_latency := sr_observed_latency r |} in
      body ← append_block SERVICE_LATENCY_BLOCK_WIRE_LEN (latency_write_to_buffer block) body;
      append_reports reports body
  end.

Definition build_latency_report_body (reports : list ServiceLatencyReport)
  : outcome CoreError (list Z) :=
  append_reports reports (u16_le (as_u16 (zlen reports)) ++ zeros 2).

(** The packet around a PDU, the same in [_check_rate_limit_with_retries] and
    [report_latency]: the MTU check, the tenant header, the authentication TLV. *)
Definition assemble_packet (cfg : CoreConfig) (tenant_header : TenantHeader)
    (nonce pdu_data : list Z) : outcome CoreError (list Z) :=
  let m := cfg_auth_method (api_key cfg) in
  _ ← reject_if (TENANT_TLV_LEN + auth_header_size m + zlen pdu_data >? MAX_PACKET_SIZE)
        (protocol_error "Packet too large for MTU target");
  packet ← write_tenant_header [] tenant_header;
  append_auth_tlv m (cookie_hash_cache m) (aes_key_cache m) nonce packet pdu_data.

Definition rate_request_packet (cfg : CoreConfig) (request_id : list Z) (now_millis : Z)
    (nonce : list Z) (dedup_ttl_ms : Z) (resources : list ResourceRequest)
    (guards : list LatencyGuard) (metrics_label : option str) : outcome CoreError (list Z) :=
  let tenant_header := build_tenant_header (api_key cfg) request_id now_millis in
  pdu_body ← build_rate_request_body resources guards metrics_label;
  pdu_data ← build_rate_request_pdu dedup_ttl_ms pdu_body;
  assemble_packet cfg tenant_header nonce pdu_data.

Definition latency_report_packet (cfg : CoreConfig) (request_id : list Z) (now_millis : Z)
    (nonce : list Z) (reports : list ServiceLatencyReport) : outcome CoreError (list Z) :=
  let tenant_header := build_tenant_header (api_key cfg) request_id now_millis in
  pdu_body ← build_latency_report_body reports;
  pdu_data ← build_pdu PDU_LATENCY_REPORT pdu_body;
  assemble_packet cfg tenant_header nonce pdu_data.

End WithPrimitives.

(** ** Well-formed inputs *)

Definition name_ok (name : str) : Prop := str_ok name /\ str_len name <= u32_max.

Definition guard_request_ok (g : LatencyGuard) : Prop :=
  name_ok (lg_latency_tracker_name g) /\ in_u32 (lg_threshold_ms g) /\ in_u32 (lg_ttl_ms g) /\
  in_u32 (lg_max_samples g) /\ in_u32 (lg_min_sample_threshold g).

Definition resource_request_ok (r : ResourceRequest) : Prop :=
  name_ok (bucket_name r) /\ in_u32 (rq_window_size_ms r) /\ in_u32 (rq_rate_limit r) /\
  in_u16 (rq_tokens_requested r).

Definition report_ok (r : ServiceLatencyReport) : Prop :=
  name_ok (sr_latency_tracker_name r) /\ in_u32 (sr_observed_latency r) /\ in_u32 (sr_ttl_ms r) /\
  in_u32 (sr_max_samples r) /\ in_u32 (sr_min_sample_threshold r).

Definition config_ok (cfg : CoreConfig) : Prop :=
  in_u64 (cfg_key_id (api_key cfg)) /\ auth_ok (cfg_auth_method (api_key cfg)) /\
  limits_ok (cfg_limits (api_key cfg)) /\ policy_ok (request_policy cfg).

(** ** Specification of the bytes *)

Section Spec.
Context `{Primitives}.

Definition tracker_id (name : str) (ttl max_samples min_samples : Z) : list Z :=
  take 16 (blake2s256 (preimage (TrackerDefinition (as_bytes name) ttl max_samples min_samples))).
Definition bucket_id (name : str) (window rate : Z) : list Z :=
  take 16 (blake2s256 (preimage (BucketDefinition (as_bytes name) window rate))).

Definition guard_block_of (g : LatencyGuard) : GuardBlock :=
  {| gb_latency_tracker_id := tracker_id (lg_latency_tracker_name g) (lg_ttl_ms g)
       (lg_max_samples g) (lg_min_sample_threshold g);
     gb_ttl_ms := lg_ttl_ms g; gb_max_samples := lg_max_samples g;
     gb_min_sample_threshold := lg_min_sample_threshold g;
     gb_latency_threshold := lg_threshold_ms g; gb_current_latency := 0 |}.

Definition resource_block_of (r : ResourceRequest) : ResourceBlock :=
  {| rb_bucket_id := bucket_id (bucket_name r) (rq_window_size_ms r) (rq_rate_limit r);
     rb_window_size_ms := rq_window_size_ms r; rb_rate_limit := rq_rate_limit r;
     rb_tokens_requested := rq_tokens_requested r; rb_padding := 0 |}.

Definition latency_block_of (r : ServiceLatencyReport) : ServiceLatencyBlock :=
  {| sb_latency_tracker_id := tracker_id (sr_latency_tracker_name r) (sr_ttl_ms r)
       (sr_max_samples r) (sr_min_sample_threshold r);
     sb_ttl_ms := sr_ttl_ms r; sb_max_samples := sr_max_samples r;
     sb_min_sample_threshold := sr_min_sample_threshold r;
     sb_observed_latency := sr_observed_latency r |}.

(** Blocks one after the other. *)
Definition encode_all {T} `{WireBlock T} (xs : list T) : list Z := concat (map encode xs).

(** The longest label whose TLV size fits 16 bits. *)
Definition label_len_max : Z := 65526.

(** A label TLV is padded to a multiple of four bytes. *)
Definition label_tlv_len (label : str) : Z := 4 * ((6 + str_len label + 3) / 4).
Definition label_tlv (label : str) : list Z :=
  u16_le TLV_METRICS_LABEL ++ u16_le (label_tlv_len label) ++ u16_le (str_len label) ++
  as_bytes label ++ zeros (label_tlv_len label - 6 - str_len label).

Definition rate_body (resources : list ResourceRequest) (guards : list LatencyGuard)
    (label : option str) : list Z :=
  u16_le (zlen guards) ++ u16_le (zlen resources) ++ encode_all (map guard_block_of guards) ++
  encode_all (map resource_block_of resources) ++
  match label with Some l => label_tlv l | None => [] end.

Definition rate_body_len (resources : list ResourceRequest) (guards : list LatencyGuard)
    (label : option str) : Z :=
  4 + 36 * zlen guards + 28 * zlen resources +
  match label with Some l => label_tlv_len l | None => 0 end.

Definition rate_pdu (dedup : Z) (resources : list ResourceRequest) (guards : list LatencyGuard)
    (label : option str) : list Z :=
  u16_le PDU_RATE_REQUEST ++ u16_le (PDU_HEADER_LEN + rate_body_len resources guards label) ++
  u32_le dedup ++ rate_body resources guards label.

End Spec.

(** ** Lemmas *)

Section Lemmas.
Context `{PrimitivesLaws}.

Lemma append_block_ok {T} `{WireBlock T} {write : forall E, T -> list Z -> outcome E (list Z)}
    `{!BlockWriter T write} {E} (x : T) body :
  block_ok x -> 0 <= block_len T ->
  append_block (block_len T) (write E x) body = Ok (body ++ encode x).
Proof.
  intros Hx H2. unfold append_block. apply with_slice_app; [done | by rewrite zlen_app |].
  by apply write_zeros.
Qed.

Lemma tracker_id_ok {E} name ttl mx mn :
  name_ok name -> in_u32 ttl -> in_u32 mx -> in_u32 mn ->
  @derive_latency_tracker_id _ E name ttl mx mn = Ok (tracker_id name ttl mx mn) /\
  array_ok 16 (tracker_id name ttl mx mn).
Proof.
  intros [_ Hn] Ht Hx Hm.
  assert (definition_typed (TrackerDefinition (as_bytes name) ttl mx mn)) as Hd
    by (split; [done | by forall_list]).
  pose proof (@content_id_eq _ _ E _ Hd) as Hid. split; [exact Hid|].
  by eapply content_id_array.
Qed.

Lemma bucket_id_ok {E} name window rate :
  name_ok name -> in_u32 window -> in_u32 rate ->
  @derive_bucket_id _ E name window rate = Ok (bucket_id name window rate) /\
  array_ok 16 (bucket_id name window rate).
Proof.
  intros [_ Hn] Hw Hr.
  assert (definition_typed (BucketDefinition (as_bytes name) window rate)) as Hd
    by (split; [done | by forall_list]).
  pose proof (@content_id_eq _ _ E _ Hd) as Hid. split; [exact Hid|].
  by eapply content_id_array.
Qed.

Lemma guard_block_ok g : guard_request_ok g -> block_ok (guard_block_of g).
Proof.
  intros (Hn & Ht & Hl & Hx & Hm). split; [by apply (@tracker_id_ok Empty_set)|].
  cbn. split_and!; try done; lia.
Qed.

Lemma resource_block_ok r : resource_request_ok r -> block_ok (resource_block_of r).
Proof.
  intros (Hn & Hw & Hr & Ht). split; [by apply (@bucket_id_ok Empty_set)|].
  cbn. split_and!; try done; lia.
Qed.

Lemma latency_block_ok r : report_ok r -> block_ok (latency_block_of r).
Proof.
  intros (Hn & Ho & Ht & Hx & Hm). split; [by apply (@tracker_id_ok Empty_set)|].
  cbn. by split_and!.
Qed.

Lemma append_guards_ok guards body :
  Forall guard_request_ok guards ->
  append_guards guards body = Ok (body ++ encode_all (map guard_block_of guards)).
Proof.
  intros Hg. revert body. induction Hg as [|g guards Hg _ IH]; intros body; cbn [append_guards].
  - by rewrite app_nil_r.
  - destruct Hg as (Hn & Ht & Hl & Hx & Hm) eqn:Heq. clear Heq.
    rewrite (proj1 (tracker_id_ok _ _ _ _ Hn Hl Hx Hm)). cbn [mbind outcome_bind].
    change 36 with (block_len GuardBlock).
    change (guard_write_to_buffer _) with (@guard_write_to_buffer CoreError (guard_block_of g)).
    rewrite (append_block_ok (write := @guard_write_to_buffer) (guard_block_of g)) by (done || by apply guard_block_ok).
    cbn [mbind outcome_bind]. rewrite IH. unfold encode_all. cbn [map concat]. by rewrite app_assoc.
Qed.

Lemma append_resources_ok resources body :
  Forall resource_request_ok resources ->
  append_resources resources body = Ok (body ++ encode_all (map resource_block_of resources)).
Proof.
  intros Hr. revert body. induction Hr as [|r resources Hr _ IH]; intros body; cbn [append_resources].
  - by rewrite app_nil_r.
  - destruct Hr as (Hn & Hw & Hl & Ht) eqn:Heq. clear Heq.
    rewrite (proj1 (bucket_id_ok _ _ _ Hn Hw Hl)). cbn [mbind outcome_bind].
    change 28 with (block_len ResourceBlock).
    change (resource_write_to_buffer _) with (@resource_write_to_buffer CoreError (resource_block_of r)).
    rewrite (append_block_ok (write := @resource_write_to_buffer) (resource_block_of r)) by (done || by apply resource_block_ok).
    cbn [mbind outcome_bind]. rewrite IH. unfold encode_all. cbn [map concat]. by rewrite app_assoc.
Qed.

Lemma append_reports_ok reports body :
  Forall report_ok reports ->
  append_reports reports body = Ok (body ++ encode_all (map latency_block_of reports)).
Proof.
  intros Hr. revert body. induction Hr as [|r reports Hr _ IH]; intros body; cbn [append_reports].
  - by rewrite app_nil_r.
  - destruct Hr as (Hn & Ho & Ht & Hx & Hm) eqn:Heq. clear Heq.
    rewrite (proj1 (tracker_id_ok _ _ _ _ Hn Ht Hx Hm)). cbn [mbind outcome_bind].
    change SERVICE_LATENCY_BLOCK_WIRE_LEN with (block_len ServiceLatencyBlock).
    change (latency_write_to_buffer _) with (@latency_write_to_buffer CoreError (latency_block_of r)).
    rewrite (append_block_ok (write := @latency_write_to_buffer) (latency_block_of r)) by (done || by apply latency_block_ok).
    cbn [mbind outcome_bind]. rewrite IH. unfold encode_all. cbn [map concat]. by rewrite app_assoc.
Qed.

Lemma encode_all_len {T} `{WireBlock T} {write : forall E, T -> list Z -> outcome E (list Z)}
    `{!BlockWriter T write} (xs : list T) :
  Forall block_ok xs -> array_ok (block_len T * zlen xs) (encode_all xs).
Proof.
  induction 1 as [|x xs Hx _ [IHl IHb]]; [split; [by rewrite Z.mul_0_r | constructor]|].
  unfold encode_all in *. cbn [map concat]. destruct (encode_array x Hx) as [Hl Hb]. split.
  - rewrite zlen_app, zlen_cons, Hl, IHl. lia.
  - by apply bytes_ok_app.
Qed.

Lemma Forall_map_ok {A B} (f : A -> B) (P : A -> Prop) (Q : B -> Prop) (xs : list A) :
  (forall x, P x -> Q (f x)) -> Forall P xs -> Forall Q (map f xs).
Proof. intros HPQ. induction 1; cbn; constructor; auto. Qed.

(** *** The metrics label *)

Lemma str_len_nonneg s : 0 <= str_len s.
Proof. apply zlen_nonneg. Qed.

Lemma label_padding label :
  4 + (2 + str_len label) + (4 - (2 + str_len label) mod 4) mod 4 = label_tlv_len label.
Proof.
  unfold label_tlv_len. pose proof (str_len_nonneg label). Z.div_mod_to_equations; lia.
Qed.

Lemma append_label_eq body label :
  append_metrics_label_tlv body label
  = if str_len label <=? label_len_max then Ok (body ++ label_tlv label)
    else if str_len label <=? u16_max then Err (protocol_error "Metrics label TLV too large")
    else Err (protocol_error "Metrics label too long").
Proof.
  unfold append_metrics_label_tlv. cbv zeta. change (zlen (as_bytes label)) with (str_len label).
  pose proof (str_len_nonneg label). pose proof (label_padding label) as Hpad.
  set (padding := (4 - _ mod 4) mod 4) in *.
  assert (Hp : 0 <= padding < 4) by (apply Z.mod_pos_bound; lia).
  rewrite Hpad, !Z.gtb_ltb. unfold u16_max, label_len_max in *.
  destruct (Z.ltb_spec 65535 (str_len label)); cbn [reject_if mbind outcome_bind].
  { by rewrite !(proj2 (Z.leb_gt _ _)) by lia. }
  rewrite (proj2 (Z.leb_le (str_len label) 65535)) by lia.
  assert ((65535 <? label_tlv_len label) = negb (str_len label <=? 65526)) as ->.
  { unfold label_tlv_len.
    destruct (Z.ltb_spec 65535 (4 * ((6 + str_len label + 3) / 4))), (Z.leb_spec (str_len label) 65526);
      try done; exfalso; Z.div_mod_to_equations; lia. }
  destruct (Z.leb_spec (str_len label) 65526); cbn [negb reject_if mbind outcome_bind]; [|done].
  rewrite !as_u16_small by (unfold label_tlv_len in *; Z.div_mod_to_equations; lia).
  unfold label_tlv. replace (label_tlv_len label - 6 - str_len label) with padding by lia.
  destruct (Z.ltb_spec 0 padding).
  - rewrite slice_ok by (rewrite ?zlen_zeros; lia). cbn [mbind outcome_bind].
    rewrite <- !app_assoc. do 6 f_equal.
    unfold zeros. rewrite drop_0, Z.sub_0_r, take_replicate. f_equal. lia.
  - replace padding with 0 by lia. rewrite <- !app_assoc. by rewrite app_nil_r.
Qed.

Lemma label_tlv_array label : str_ok label -> array_ok (label_tlv_len label) (label_tlv label).
Proof.
  intros Hs. pose proof (str_len_nonneg label). unfold label_tlv.
  assert (0 <= label_tlv_len label - 6 - str_len label)
    by (unfold label_tlv_len; Z.div_mod_to_equations; lia).
  pose proof (as_bytes_ok label Hs). split.
  - unfold u16_le. autorewrite with zlens. change (zlen (as_bytes label)) with (str_len label). lia.
  - unfold u16_le. auto 10 with bytes.
Qed.

End Lemmas.

(** ** Packets *)

Section Packets.
Context `{PrimitivesLaws}.

Lemma tenant_header_ok key request_id now :
  in_u64 (cfg_key_id key) -> array_ok 16 request_id -> in_u64 now ->
  block_ok (build_tenant_header key request_id now).
Proof.
  intros Hk Hi Hn. cbn. unfold in_u16, in_u8, u16_max, u8_max, as_u16, array_ok, TLV_TENANT.
  split_and!; try done; try (apply Hi); try (destruct (cfg_steering_feedback key); done).
  forall_list; unfold is_byte; lia.
Qed.

Lemma write_tenant_header_ok {E} h : block_ok h -> @write_tenant_header E [] h = Ok (encode h).
Proof.
  intros Hh. unfold write_tenant_header.
  apply (with_slice_app [] (zeros TENANT_TLV_LEN) (encode h)); [done | done |].
  apply (write_zeros (write := @tenant_write_to_buffer) E h Hh).
Qed.

(** Assembling a packet around a PDU: the size decides, and nothing else can fail. *)
Lemma assemble_packet_ok cfg h nonce pdu :
  config_ok cfg -> block_ok h -> array_ok 12 nonce -> bytes_ok pdu ->
  let m := cfg_auth_method (api_key cfg) in
  let len := TENANT_TLV_LEN + auth_header_size m + zlen pdu in
  if len <=? MAX_PACKET_SIZE then
    exists body, assemble_packet cfg h nonce pdu = Ok (encode h ++ body) /\
      auth_frame (encode h) m pdu body /\ zlen (encode h ++ body) = len
  else assemble_packet cfg h nonce pdu = Err (protocol_error "Packet too large for MTU target").
Proof.
  intros (_ & Hm & _) Hh Hn Hp m len. pose proof (zlen_nonneg pdu).
  pose proof (encode_array (write := @tenant_write_to_buffer) h Hh) as [Hl Hb].
  cbn [block_len tenant_block] in Hl.
  unfold assemble_packet. fold m. fold len. rewrite Z.gtb_ltb, Z.ltb_antisym.
  destruct (Z.leb_spec len MAX_PACKET_SIZE) as [Hlen|]; cbn [negb reject_if mbind outcome_bind]; [|done].
  rewrite write_tenant_header_ok by done. cbn [mbind outcome_bind].
  assert (0 <= auth_header_size m) by (by destruct m).
  unfold MAX_PACKET_SIZE, TENANT_TLV_LEN in *.
  destruct (append_auth_frame m nonce (encode h) pdu) as (body & Ha & Hf);
    try done; try (subst len; unfold datagram_max, TENANT_TLV_LEN in *; lia).
  exists body. split_and!; [done | done |].
  rewrite zlen_app, Hl, (auth_frame_len _ _ _ _ Hm Hf). subst len. fold m. unfold TENANT_TLV_LEN. lia.
Qed.

Definition label_ok (label : option str) : Prop :=
  match label with Some l => str_ok l | None => True end.
Definition label_fits (label : option str) : bool :=
  match label with Some l => str_len l <=? label_len_max | None => true end.

Lemma rate_body_ok resources guards label :
  Forall resource_request_ok resources -> Forall guard_request_ok guards -> label_ok label ->
  array_ok (rate_body_len resources guards label) (rate_body resources guards label).
Proof.
  intros Hr Hg Hl.
  destruct (encode_all_len (write := @guard_write_to_buffer) (map guard_block_of guards)) as [Lg Bg].
  { eapply Forall_map_ok; [apply guard_block_ok | done]. }
  destruct (encode_all_len (write := @resource_write_to_buffer) (map resource_block_of resources)) as [Lr Br].
  { eapply Forall_map_ok; [apply resource_block_ok | done]. }
  cbn [block_len guard_block resource_block] in *. rewrite zlen_map in Lg. rewrite zlen_map in Lr.
  assert (array_ok (match label with Some l => label_tlv_len l | None => 0 end)
            (match label with Some l => label_tlv l | None => [] end)) as [Ll Bl].
  { destruct label; [by apply label_tlv_array | split; [done | constructor]]. }
  unfold rate_body, rate_body_len. split.
  - unfold u16_le. autorewrite with zlens. lia.
  - unfold u16_le. auto 10 with bytes.
Qed.

Lemma u16_le_as_u16 z : u16_le (as_u16 z) = u16_le z.
Proof. apply (to_le_mod 2 2). lia. Qed.

Lemma build_rate_request_body_eq resources guards label :
  Forall resource_request_ok resources -> Forall guard_request_ok guards ->
  build_rate_request_body resources guards label
  = if label_fits label then Ok (rate_body resources guards label)
    else match label with
         | Some l => append_metrics_label_tlv [] l
         | None => Ok []
         end.
Proof.
  intros Hr Hg. unfold build_rate_request_body. rewrite !u16_le_as_u16.
  rewrite append_guards_ok by done. cbn [mbind outcome_bind].
  rewrite append_resources_ok by done. cbn [mbind outcome_bind].
  destruct label as [l|]; unfold label_fits.
  - rewrite !append_label_eq. destruct (str_len l <=? label_len_max); [|done].
    by rewrite <- !app_assoc.
  - rewrite <- !app_assoc. unfold rate_body. by rewrite app_nil_r.
Qed.

Lemma build_rate_request_pdu_eq dedup resources guards label :
  Forall resource_request_ok resources -> Forall guard_request_ok guards -> label_ok label ->
  in_u32 dedup ->
  build_rate_request_pdu dedup (rate_body resources guards label)
  = (if PDU_HEADER_LEN + rate_body_len resources guards label <=? u16_max
     then Ok (rate_pdu dedup resources guards label) else Err (protocol_error "PDU too large")) /\
  array_ok (PDU_HEADER_LEN + rate_body_len resources guards label)
    (rate_pdu dedup resources guards label).
Proof.
  intros Hr Hg Hl Hd. destruct (rate_body_ok resources guards label Hr Hg Hl) as [L B].
  split.
  - unfold build_rate_request_pdu. rewrite L, Z.gtb_ltb, Z.ltb_antisym.
    destruct (_ <=? _); cbn [negb reject_if mbind outcome_bind]; [|done].
    rewrite u16_le_as_u16, <- !app_assoc. done.
  - unfold rate_pdu, PDU_HEADER_LEN. split.
    + unfold u16_le, u32_le. autorewrite with zlens. lia.
    + unfold u16_le, u32_le. auto 10 with bytes.
Qed.

Lemma rate_body_len_pos resources guards label :
  4 + 36 * zlen guards + 28 * zlen resources <= rate_body_len resources guards label.
Proof.
  unfold rate_body_len. destruct label as [l|]; [|lia].
  assert (0 <= label_tlv_len l); [|lia].
  unfold label_tlv_len. pose proof (str_len_nonneg l). Z.div_mod_to_equations; lia.
Qed.

Lemma append_label_err l :
  (str_len l <=? label_len_max) = false ->
  exists e, append_metrics_label_tlv [] l = Err (CoreProtocol e).
Proof. intros Hl. rewrite append_label_eq, Hl. unfold protocol_error. destruct (str_len l <=? u16_max); by eexists. Qed.

End Packets.

(** ** Theorems *)

Lemma rate_request_packet_built `{PrimitivesLaws} cfg request_id now nonce dedup
    resources guards label
    (Hc : config_ok cfg) (Hi : array_ok 16 request_id) (Hnow : in_u64 now)
    (Hn : array_ok 12 nonce) (Hd : in_u32 dedup)
    (Hr : Forall resource_request_ok resources) (Hg : Forall guard_request_ok guards)
    (Hl : label_ok label) :
  let m := cfg_auth_method (api_key cfg) in
  let header := encode (build_tenant_header (api_key cfg) request_id now) in
  let len := TENANT_TLV_LEN + auth_header_size m + PDU_HEADER_LEN +
             rate_body_len resources guards label in
  let built := rate_request_packet cfg request_id now nonce dedup resources guards label in
  if label_fits label && (len <=? MAX_PACKET_SIZE) then
    exists body, built = Ok (header ++ body) /\ zlen (header ++ body) = len /\
      auth_frame header m (rate_pdu dedup resources guards label) body /\
      zlen guards <= u16_max /\ zlen resources <= u16_max
  else exists e, built = Err (CoreProtocol e).
Proof.
  cbv zeta. unfold rate_request_packet. rewrite build_rate_request_body_eq by done.
  destruct (label_fits label) eqn:Hfit; cbn [andb].
  2:{ destruct label as [l|]; [|done]. destruct (append_label_err l Hfit) as [e ->]. by exists e. }
  cbn [mbind outcome_bind].
  destruct (build_rate_request_pdu_eq dedup resources guards label Hr Hg Hl Hd) as [-> [Lp Bp]].
  pose proof (assemble_packet_ok cfg (build_tenant_header (api_key cfg) request_id now) nonce
    (rate_pdu dedup resources guards label) Hc
    (tenant_header_ok _ _ _ (proj1 Hc) Hi Hnow) Hn Bp) as Ha. cbv zeta in Ha. rewrite Lp in Ha.
  rewrite <- Z.add_assoc.
  pose proof (rate_body_len_pos resources guards label). pose proof (zlen_nonneg guards).
  pose proof (zlen_nonneg resources). unfold u16_max, MAX_PACKET_SIZE, PDU_HEADER_LEN, TENANT_TLV_LEN in *.
  assert (0 <= auth_header_size (cfg_auth_method (api_key cfg))) by (by destruct (cfg_auth_method _)).
  destruct (Z.leb_spec (8 + rate_body_len resources guards label) 65535);
    cbn [mbind outcome_bind].
  - destruct (_ <=? 1200) eqn:Hlen; [|rewrite Ha; unfold protocol_error; by eexists]. reflect_bools.
    destruct Ha as (body & -> & Hf & Hlb). exists body. split_and!; (done || lia).
  - rewrite (proj2 (Z.leb_gt _ _)) by lia. unfold protocol_error. by eexists.
Qed.

(** C7. A rate request packet is built exactly when the label fits its TLV and
    the whole packet fits 1200 bytes, and is then, byte for byte, the tenant
    header, the authentication frame of the configured key, and a PDU whose
    counts are the true numbers of guards and resources, whose blocks carry
    each definition and its content identifier, and whose size field and label
    TLV are consistent.  Otherwise the caller gets a protocol error: no size is
    ever truncated and nothing panics. *)
Theorem rate_request_packet_spec `{PrimitivesLaws} cfg request_id now nonce dedup
    resources guards label
    (Hc : config_ok cfg) (Hi : array_ok 16 request_id) (Hnow : in_u64 now)
    (Hn : array_ok 12 nonce) (Hd : in_u32 dedup)
    (Hr : Forall resource_request_ok resources) (Hg : Forall guard_request_ok guards)
    (Hl : label_ok label) :
  let m := cfg_auth_method (api_key cfg) in
  let header := encode (build_tenant_header (api_key cfg) request_id now) in
  let len := TENANT_TLV_LEN + auth_header_size m + PDU_HEADER_LEN +
             rate_body_len resources guards label in
  let built := rate_request_packet cfg request_id now nonce dedup resources guards label in
  if label_fits label && (len <=? MAX_PACKET_SIZE) then
    exists body, built = Ok (header ++ body) /\ zlen (header ++ body) = len /\
      auth_frame header m (rate_pdu dedup resources guards label) body /\
      zlen guards <= u16_max /\ zlen resources <= u16_max
  else exists e, built = Err (CoreProtocol e).
Proof. by apply rate_request_packet_built. Qed.

(** A concrete configuration and request, for evaluation. *)
Definition demo_config (m : AuthMethod) : CoreConfig :=
  {| api_key :=
       {| service_domain := lit "example"; cfg_key_id := 42; cfg_auth_method := m;
          cfg_limits := {| rate_buckets_max := 1; latency_services_max := 1;
                           metrics_labels_max := 1; latency_buffer_size_max := 1;
                           dedup_ttl_ms_max := 60; rate_window_size_ms_max := 1024 |};
          cfg_steering_feedback := true |};
     dns_refresh_interval_s := 30; ignore_steering_feedback := false;
     request_policy := default_policy; dns_server := None |}.
Definition demo_id : list Z := replicate 16 3.
Definition demo_resource : ResourceRequest := mkResourceRequest (lit "checkout") 1000 100 1.
Definition demo_guard : LatencyGuard := mkLatencyGuard (lit "db") 50 1000 10 1.

Lemma demo_config_ok m : auth_ok m -> config_ok (demo_config m).
Proof.
  intros Hm. split_and!; try done. exists 0, 0, 0, 0, 6, 10. split_and!; try done; lia.
Qed.

Lemma replicate_array n x : is_byte x -> array_ok (Z.of_nat n) (replicate n x).
Proof. intros Hx. split; [apply zlen_replicate | by apply Forall_replicate]. Qed.

Lemma demo_resource_ok : Forall resource_request_ok [demo_resource].
Proof.
  constructor; [|constructor]. split; [split|].
  - apply Forall_forall. intros x Hx. vm_compute in Hx. left.
    repeat (apply elem_of_cons in Hx as [->|Hx]; [lia|]). by apply elem_of_nil in Hx.
  - vm_compute. discriminate.
  - repeat split; vm_compute; discriminate.
Qed.

Lemma demo_guard_ok : Forall guard_request_ok [demo_guard].
Proof.
  constructor; [|constructor]. split; [split|].
  - apply Forall_forall. intros x Hx. vm_compute in Hx. left.
    repeat (apply elem_of_cons in Hx as [->|Hx]; [lia|]). by apply elem_of_nil in Hx.
  - vm_compute. discriminate.
  - repeat split; vm_compute; discriminate.
Qed.

Lemma rate_request_packet_spec_witness :
  exists body,
    @rate_request_packet toy_primitives (demo_config AuthNone) demo_id 5 demo_nonce 60
      [demo_resource] [demo_guard] None
    = Ok (encode (build_tenant_header (api_key (demo_config AuthNone)) demo_id 5) ++ body).
Proof.
  pose proof (@rate_request_packet_spec toy_primitives toy_primitives_laws (demo_config AuthNone)
    demo_id 5 demo_nonce 60 [demo_resource] [demo_guard] None (demo_config_ok AuthNone I)
    (replicate_array 16 3 ltac:(unfold is_byte; lia)) ltac:(vm_compute; split; discriminate)
    (replicate_array 12 9 ltac:(unfold is_byte; lia)) ltac:(vm_compute; split; discriminate)
    demo_resource_ok demo_guard_ok I) as H.
  destruct H as (body & Hb & _). exists body. exact Hb.
Defined.

(** The metrics-label TLV is appended if and only if the label's UTF-8 form has
    at most 65526 bytes; it is then four-byte aligned, its size field (at most
    65532) is exact, and it carries the true length and bytes of the label. *)
Theorem metrics_label_tlv_spec body label
    (Hs : str_ok label) :
  (is_ok (append_metrics_label_tlv body label) = true <-> str_len label <= 65526) /\
  (str_len label <= 65526 ->
     append_metrics_label_tlv body label = Ok (body ++ label_tlv label) /\
     array_ok (label_tlv_len label) (label_tlv label) /\
     label_tlv_len label mod 4 = 0 /\ 6 + str_len label <= label_tlv_len label <= 65532).
Proof.
  rewrite append_label_eq. unfold label_len_max. pose proof (str_len_nonneg label).
  destruct (Z.leb_spec (str_len label) 65526).
  - split; [done|]. intros _. split; [done|]. split; [by apply label_tlv_array|].
    unfold label_tlv_len. split; [by rewrite Z.mul_comm, Z.mod_mul by lia|].
    Z.div_mod_to_equations; lia.
  - split; [|lia]. destruct (_ <=? _); cbn; split; (done || lia).
Qed.

Lemma metrics_label_tlv_spec_witness :
  append_metrics_label_tlv [1] (lit "abc") = Ok ([1] ++ label_tlv (lit "abc")) /\
  array_ok (label_tlv_len (lit "abc")) (label_tlv (lit "abc")) /\
  label_tlv_len (lit "abc") mod 4 = 0 /\
  6 + str_len (lit "abc") <= label_tlv_len (lit "abc") <= 65532.
Proof.
  apply (metrics_label_tlv_spec [1] (lit "abc")).
  - change (Forall is_char [97; 98; 99]). unfold is_char. forall_list; lia.
  - vm_compute. discriminate.
Defined.

Lemma latency_report_packet_built `{PrimitivesLaws} cfg request_id now nonce reports
    (Hc : config_ok cfg) (Hi : array_ok 16 request_id) (Hnow : in_u64 now)
    (Hn : array_ok 12 nonce) (Hr : Forall report_ok reports) :
  let m := cfg_auth_method (api_key cfg) in
  let header := encode (build_tenant_header (api_key cfg) request_id now) in
  let len := TENANT_TLV_LEN + auth_header_size m + PDU_HEADER_LEN + (4 + 32 * zlen reports) in
  let built := latency_report_packet cfg request_id now nonce reports in
  if len <=? MAX_PACKET_SIZE then
    exists body, built = Ok (header ++ body) /\ zlen (header ++ body) = len /\
      auth_frame header m
        (u16_le PDU_LATENCY_REPORT ++ u16_le (12 + 32 * zlen reports) ++ zeros 4 ++
         u16_le (zlen reports) ++ zeros 2 ++ encode_all (map latency_block_of reports)) body
  else exists e, built = Err (CoreProtocol e).
Proof.
  cbv zeta. unfold latency_report_packet, build_latency_report_body.
  rewrite append_reports_ok by done. cbn [mbind outcome_bind]. rewrite u16_le_as_u16.
  destruct (encode_all_len (write := @latency_write_to_buffer) (map latency_block_of reports)) as [L B].
  { eapply Forall_map_ok; [apply latency_block_ok | done]. }
  cbn [block_len latency_block] in L. rewrite zlen_map in L.
  set (blocks := encode_all _) in *. set (body := (_ ++ _) ++ blocks).
  assert (Hbl : zlen body = 4 + 32 * zlen reports) by (subst body; zlen_lia).
  pose proof (zlen_nonneg reports).
  set (pdu := u16_le PDU_LATENCY_REPORT ++ _).
  assert (Hpdu : array_ok (8 + (4 + 32 * zlen reports)) pdu).
  { split; [subst pdu; zlen_lia | subst pdu; unfold u16_le; auto 10 with bytes]. }
  unfold build_pdu. rewrite Hbl, Z.gtb_ltb, Z.ltb_antisym, u16_le_as_u16.
  unfold PDU_HEADER_LEN, u16_max, MAX_PACKET_SIZE, TENANT_TLV_LEN.
  assert (0 <= auth_header_size (cfg_auth_method (api_key cfg))) by (by destruct (cfg_auth_method _)).
  destruct (Z.leb_spec (8 + (4 + 32 * zlen reports)) 65535);
    cbn [negb reject_if mbind outcome_bind].
  2:{ rewrite (proj2 (Z.leb_gt _ _)) by lia. unfold protocol_error. by eexists. }
  assert (((u16_le PDU_LATENCY_REPORT ++ u16_le (8 + (4 + 32 * zlen reports))) ++ zeros 4) ++ body
          = pdu) as ->.
  { subst pdu body. rewrite <- !app_assoc. do 3 f_equal. lia. }
  pose proof (assemble_packet_ok cfg (build_tenant_header (api_key cfg) request_id now) nonce pdu Hc
    (tenant_header_ok _ _ _ (proj1 Hc) Hi Hnow) Hn (proj2 Hpdu)) as Ha. cbv zeta in Ha.
  rewrite (proj1 Hpdu) in Ha. rewrite <- Z.add_assoc.
  unfold MAX_PACKET_SIZE, TENANT_TLV_LEN in *. destruct (_ + _ <=? 1200).
  - destruct Ha as (b & -> & Hf & Hlb). exists b. by split_and!.
  - rewrite Ha. unfold protocol_error. by eexists.
Qed.

(** A latency report is built exactly when its blocks fit the 1200-byte
    packet, as the tenant header, the authentication frame, and a PDU with the
    true report count and one block per report in order; a larger batch is a
    protocol error. *)
Theorem latency_report_packet_spec `{PrimitivesLaws} cfg request_id now nonce reports
    (Hc : config_ok cfg) (Hi : array_ok 16 request_id) (Hnow : in_u64 now)
    (Hn : array_ok 12 nonce) (Hr : Forall report_ok reports) :
  let m := cfg_auth_method (api_key cfg) in
  let header := encode (build_tenant_header (api_key cfg) request_id now) in
  let len := TENANT_TLV_LEN + auth_header_size m + PDU_HEADER_LEN + (4 + 32 * zlen reports) in
  let built := latency_report_packet cfg request_id now nonce reports in
  if len <=? MAX_PACKET_SIZE then
    exists body, built = Ok (header ++ body) /\ zlen (header ++ body) = len /\
      auth_frame header m
        (u16_le PDU_LATENCY_REPORT ++ u16_le (12 + 32 * zlen reports) ++ zeros 4 ++
         u16_le (zlen reports) ++ zeros 2 ++ encode_all (map latency_block_of reports)) body
  else exists e, built = Err (CoreProtocol e).
Proof. by apply latency_report_packet_built. Qed.

Lemma latency_report_packet_spec_witness :
  exists body,
    @latency_report_packet toy_primitives (demo_config AuthNone) demo_id 5 demo_nonce []
    = Ok (encode (build_tenant_header (api_key (demo_config AuthNone)) demo_id 5) ++ body).
Proof.
  pose proof (@latency_report_packet_spec toy_primitives toy_primitives_laws (demo_config AuthNone)
    demo_id 5 demo_nonce [] (demo_config_ok AuthNone I)
    (replicate_array 16 3 ltac:(unfold is_byte; lia)) ltac:(vm_compute; split; discriminate)
    (replicate_array 12 9 ltac:(unfold is_byte; lia)) (Forall_nil_2 report_ok)) as H.
  destruct H as (body & Hb & _). exists body. exact Hb.
Defined.
