(* ===== verification/Unambiguous.v ===== *)
(** * Requests are unambiguous (src/src/client.rs, src/src/protocol.rs)

    A server reads from a packet what the client was asked: two requests of one client
    whose packets are equal ask the same; only the name of a guard or of a resource
    depends on the hash, and only on that pair's two definitions.
    [Request] says which bytes a packet consists of; here, that they can be told apart
    without any of the lengths being known beforehand. *)

From S2P Require Import Prelude Errors Codec ApiKey Policy Net Config Wire Auth Request.

(** ** What a request says *)

(** The parameters of a guard and of a resource other than their names. *)
Definition guard_parameters (g : LatencyGuard) : list Z :=
  [lg_threshold_ms g; lg_ttl_ms g; lg_max_samples g; lg_min_sample_threshold g].
Definition resource_parameters (r : ResourceRequest) : list Z :=
  [rq_window_size_ms r; rq_rate_limit r; rq_tokens_requested r].

(** What their names stand for in a packet. *)
Definition guard_definition (g : LatencyGuard) : ContentDefinition :=
  TrackerDefinition (as_bytes (lg_latency_tracker_name g))
    (lg_ttl_ms g) (lg_max_samples g) (lg_min_sample_threshold g).
Definition resource_definition (r : ResourceRequest) : ContentDefinition :=
  BucketDefinition (as_bytes (bucket_name r)) (rq_window_size_ms r) (rq_rate_limit r).

#[export] Instance content_definition_eq_dec : EqDecision ContentDefinition.
Proof. solve_decision. Defined.

(** These two definitions differ and the hash gives them one identifier. *)
Definition collide `{Primitives} (d d' : ContentDefinition) : Prop :=
  d <> d' /\ take 16 (blake2s256 (preimage d)) = take 16 (blake2s256 (preimage d')).

(** The same parameters, and the same name (by its bytes, as the program compares
    strings) unless the definitions of these very two collide. *)
Definition same_guard `{Primitives} (g g' : LatencyGuard) : Prop :=
  guard_parameters g = guard_parameters g' /\
  (as_bytes (lg_latency_tracker_name g) = as_bytes (lg_latency_tracker_name g') \/
   collide (guard_definition g) (guard_definition g')).
Definition same_resource `{Primitives} (r r' : ResourceRequest) : Prop :=
  resource_parameters r = resource_parameters r' /\
  (as_bytes (bucket_name r) = as_bytes (bucket_name r') \/
   collide (resource_definition r) (resource_definition r')).

(** ** The parts of a packet *)

Section Parts.
Context `{PrimitivesLaws}.

Lemma guard_block_contents g g' : guard_block_of g = guard_block_of g' -> same_guard g g'.
Proof.
  intros E. unfold guard_block_of in E. injection E as Hid Et Ex Em Eth.
  split; [unfold guard_parameters; congruence|].
  destruct (decide (guard_definition g = guard_definition g')) as [Hd|Hd]; [left|by right].
  by injection Hd.
Qed.

Lemma resource_block_contents r r' : resource_block_of r = resource_block_of r' -> same_resource r r'.
Proof.
  intros E. unfold resource_block_of in E. injection E as Hid Ew Er Et.
  split; [unfold resource_parameters; congruence|].
  destruct (decide (resource_definition r = resource_definition r')) as [Hd|Hd]; [left|by right].
  by injection Hd.
Qed.

(** Equal blocks, equal contents: for whole lists. *)
Lemma blocks_contents {A B} (block : A -> B) (same : A -> A -> Prop) xs ys :
  (forall x y, block x = block y -> same x y) -> map block xs = map block ys -> Forall2 same xs ys.
Proof.
  intros Hone. revert ys. induction xs as [|x xs IH]; intros [|y ys] E; try done. cbn [map] in E.
  injection E as E1 E2. constructor; auto.
Qed.

Lemma u16_le_inj x y : in_u16 x -> in_u16 y -> u16_le x = u16_le y -> x = y.
Proof. intros Hx Hy. unfold in_u16, u16_max in *. apply to_le_inj; lia. Qed.

Lemma zlen_length {A} (l k : list A) : zlen l = zlen k <-> length l = length k.
Proof. unfold zlen. lia. Qed.

(** Blocks of one layout, as many on both sides. *)
Lemma encode_all_inj {T} `{WireBlock T} {write : forall E, T -> list Z -> outcome E (list Z)}
    {read} `{!BlockWriter T write} `{!BlockReader T read} (xs ys : list T) rest rest' :
  Forall block_ok xs -> Forall block_ok ys -> length xs = length ys ->
  encode_all xs ++ rest = encode_all ys ++ rest' -> xs = ys /\ rest = rest'.
Proof.
  intros Hx. revert ys. induction Hx as [|x xs Hx _ IH]; intros [|y ys] Hy Hl E; try done.
  inversion_clear Hy as [|? ? Hy1 Hys]. unfold encode_all in E. cbn [map concat] in E. rewrite <- !app_assoc in E.
  apply app_inj_len in E as [E1 E2].
  2:{ apply zlen_length. by rewrite (proj1 (encode_array x Hx)), (proj1 (encode_array y Hy1)). }
  assert (x = y) as -> by (by eapply encode_inj).
  destruct (IH ys Hys) as [-> ->]; [by injection Hl | done | done].
Qed.

Lemma label_tlv_inj l l' :
  str_len l <= label_len_max -> str_len l' <= label_len_max -> label_tlv l = label_tlv l' -> as_bytes l = as_bytes l'.
Proof.
  intros Hl Hl' E. unfold label_tlv in E. apply app_inj_len in E as [_ E]; [|done].
  apply app_inj_len in E as [_ E]; [|done]. apply app_inj_len in E as [E1 E]; [|done].
  pose proof (str_len_nonneg l). pose proof (str_len_nonneg l'). unfold label_len_max in *.
  apply u16_le_inj in E1; [|unfold in_u16, u16_max; lia..].
  apply app_inj_len in E as [E _]; [done|]. by apply zlen_length.
Qed.

Lemma body_inj resources guards label resources' guards' label' :
  Forall resource_request_ok resources -> Forall guard_request_ok guards -> label_fits label = true ->
  Forall resource_request_ok resources' -> Forall guard_request_ok guards' -> label_fits label' = true ->
  zlen guards <= u16_max -> zlen resources <= u16_max -> zlen guards' <= u16_max -> zlen resources' <= u16_max ->
  rate_body resources guards label = rate_body resources' guards' label' ->
  Forall2 same_guard guards guards' /\ Forall2 same_resource resources resources' /\
  as_bytes <$> label = as_bytes <$> label'.
Proof.
  intros Hr Hg Hl Hr' Hg' Hl' Lg Lr Lg' Lr' E. unfold rate_body in E.
  apply app_inj_len in E as [Eg E]; [|done]. apply app_inj_len in E as [Er E]; [|done].
  pose proof (zlen_nonneg guards). pose proof (zlen_nonneg resources).
  pose proof (zlen_nonneg guards'). pose proof (zlen_nonneg resources').
  apply u16_le_inj in Eg, Er; [|done..]. apply zlen_length in Eg. apply zlen_length in Er.
  assert (Hgb : forall l, Forall guard_request_ok l -> Forall block_ok (map guard_block_of l))
    by (intros l Hok; eapply Forall_map_ok; [apply guard_block_ok | done]).
  assert (Hrb : forall l, Forall resource_request_ok l -> Forall block_ok (map resource_block_of l))
    by (intros l Hok; eapply Forall_map_ok; [apply resource_block_ok | done]).
  destruct (encode_all_inj (write := @guard_write_to_buffer) _ _ _ _ (Hgb _ Hg) (Hgb _ Hg')
    ltac:(by rewrite !length_map) E) as [Ebg E1].
  destruct (encode_all_inj (write := @resource_write_to_buffer) _ _ _ _ (Hrb _ Hr) (Hrb _ Hr')
    ltac:(by rewrite !length_map) E1) as [Ebr E2].
  split_and!; [by eapply blocks_contents, Ebg; apply guard_block_contents
    | by eapply blocks_contents, Ebr; apply resource_block_contents |].
  destruct label as [l|], label' as [l'|]; cbn [label_fits] in *; try done. cbn. f_equal.
  reflect_bools. by apply label_tlv_inj.
Qed.

End Parts.

(** ** Theorems *)

Section Packets.
Context `{PrimitivesLaws}.

(** A frame carries one PDU. *)
Lemma auth_frame_fun m packet pdu pdu' body :
  auth_ok m -> bytes_ok packet -> zlen packet <= datagram_max -> zlen body <= datagram_max ->
  auth_frame packet m pdu body -> auth_frame packet m pdu' body -> pdu = pdu'.
Proof.
  intros Hm Hp Hpl Hbl F F'.
  destruct (auth_frame_open m packet body pdu) as (rest & -> & _ & Ho); try done.
  destruct (auth_frame_open m packet _ pdu' Hm Hp Hpl Hbl F') as (rest' & E & _ & Ho').
  apply app_inv_head, app_inv_head in E as ->. congruence.
Qed.

(** What a packet that was built is made of. *)
Lemma packet_parts cfg id now nonce dedup resources guards label packet :
  config_ok cfg -> array_ok 16 id -> in_u64 now -> array_ok 12 nonce -> in_u32 dedup ->
  Forall resource_request_ok resources -> Forall guard_request_ok guards -> label_ok label ->
  rate_request_packet cfg id now nonce dedup resources guards label = Ok packet ->
  exists body, packet = encode (build_tenant_header (api_key cfg) id now) ++ body /\ zlen packet <= MAX_PACKET_SIZE /\
    auth_frame (encode (build_tenant_header (api_key cfg) id now)) (cfg_auth_method (api_key cfg))
      (rate_pdu dedup resources guards label) body /\
    label_fits label = true /\ zlen guards <= u16_max /\ zlen resources <= u16_max.
Proof.
  intros Hc Hi Hnow Hn Hd Hr Hg Hl E.
  pose proof (rate_request_packet_built cfg id now nonce dedup resources guards label Hc Hi Hnow Hn Hd Hr Hg Hl) as Hb.
  cbv zeta in Hb. rewrite E in Hb. destruct (label_fits label && _) eqn:Hfit; [|by destruct Hb].
  reflect_bools. destruct Hb as (body & Hp & Hlen & Hf & Hgu & Hru). exists body.
  assert (packet = encode (build_tenant_header (api_key cfg) id now) ++ body) as -> by congruence.
  split; [done|]. split; [by rewrite Hlen|]. by split_and!.
Qed.

End Packets.

(** C8. A packet says what was asked: if two requests of a client, for whatever resources,
    guards and label, at whatever time, with whatever identifier and nonce, are built
    into the same packet, encrypted or not, then identifier, time and deduplication
    lifetime are the same, and so is the label; there are as many guards and as many
    resources, and in order each pair has the same parameters (threshold, lifetime,
    sample counts; window, rate, tokens), whatever the hash does, and the same name,
    unless the two differently named definitions of that very pair have the same
    truncated hash. *)
Theorem request_packet_unambiguous `{PrimitivesLaws} cfg packet
    id now nonce dedup resources guards label id' now' nonce' dedup' resources' guards' label'
    (Hc : config_ok cfg)
    (Hi : array_ok 16 id) (Hnow : in_u64 now) (Hn : array_ok 12 nonce) (Hd : in_u32 dedup)
    (Hr : Forall resource_request_ok resources) (Hg : Forall guard_request_ok guards) (Hl : label_ok label)
    (Hi' : array_ok 16 id') (Hnow' : in_u64 now') (Hn' : array_ok 12 nonce') (Hd' : in_u32 dedup')
    (Hr' : Forall resource_request_ok resources') (Hg' : Forall guard_request_ok guards') (Hl' : label_ok label')
    (E : rate_request_packet cfg id now nonce dedup resources guards label = Ok packet)
    (E' : rate_request_packet cfg id' now' nonce' dedup' resources' guards' label' = Ok packet) :
  id = id' /\ now = now' /\ dedup = dedup' /\
  Forall2 same_guard guards guards' /\ Forall2 same_resource resources resources' /\
  as_bytes <$> label = as_bytes <$> label'.
Proof.
  pose proof Hc as (Hk & Hm & _).
  apply packet_parts in E as (body & -> & Hlen & Hf & Hfit & Hgu & Hru); [|done..].
  apply packet_parts in E' as (body' & Eb & Hlen' & Hf' & Hfit' & Hgu' & Hru'); [|done..].
  pose proof (tenant_header_ok (api_key cfg) id now Hk Hi Hnow) as Hh.
  pose proof (tenant_header_ok (api_key cfg) id' now' Hk Hi' Hnow') as Hh'.
  destruct (encode_array _ Hh) as [Hhl Hhb]. destruct (encode_array _ Hh') as [Hhl' _].
  apply app_inj_len in Eb as [Eh <-]; [|apply zlen_length; by rewrite Hhl, Hhl'].
  apply encode_inj in Eh; [|done..]. unfold build_tenant_header in Eh. injection Eh as -> ->.
  rewrite zlen_app, Hhl in Hlen. pose proof (zlen_nonneg body). unfold MAX_PACKET_SIZE in *.
  change (block_len TenantHeader) with 40 in *.
  assert (Hpdu : rate_pdu dedup resources guards label = rate_pdu dedup' resources' guards' label').
  { refine (auth_frame_fun _ _ _ _ body Hm Hhb _ _ Hf Hf'); [rewrite Hhl|]; unfold datagram_max; lia. }
  unfold rate_pdu in Hpdu. do 2 (apply app_inj_len in Hpdu as [_ Hpdu]; [|done]).
  apply app_inj_len in Hpdu as [Ed Hpdu]; [|done]. apply u32_le_inj in Ed; [|done..].
  split; [done|]. split; [done|]. split; [done|]. by apply body_inj.
Qed.

Lemma request_packet_unambiguous_witness :
  exists packet,
    @rate_request_packet toy_primitives (demo_config (AuthCookie demo_key)) demo_id 5 demo_nonce 60
      [demo_resource] [demo_guard] (Some (lit "web")) = Ok packet /\
    Forall2 (@same_guard toy_primitives) [demo_guard] [demo_guard] /\
    Forall2 (@same_resource toy_primitives) [demo_resource] [demo_resource] /\
    as_bytes <$> Some (lit "web") = as_bytes <$> Some (lit "web").
Proof.
  eexists. split; [vm_compute; reflexivity|].
  refine (proj2 (proj2 (proj2 (@request_packet_unambiguous toy_primitives toy_primitives_laws
    (demo_config (AuthCookie demo_key)) _ demo_id 5 demo_nonce 60 [demo_resource] [demo_guard] (Some (lit "web"))
    demo_id 5 demo_nonce 60 [demo_resource] [demo_guard] (Some (lit "web")) _ _ _ _ _ _ _ _ _ _ _ _ _ _ _ eq_refl eq_refl))));
    try exact demo_resource_ok; try exact demo_guard_ok;
    try (apply (replicate_array 16 3); unfold is_byte; lia);
    try (apply (replicate_array 12 9); unfold is_byte; lia);
    try (split; vm_compute; discriminate).
  - apply demo_config_ok. split; [apply demo_key_ok | reflexivity].
  - change (Forall is_char [119; 101; 98]). forall_list; left; lia.
  - change (Forall is_char [119; 101; 98]). forall_list; left; lia.
Defined.
