(* ===== verification/Response.v ===== *)
(** * Parsing responses (src/src/client.rs)

    From a datagram to a [RateLimitResult]: the PDU parser, the whole-response
    parser, and the two peeks the router and the selector use.  The parser is
    proved to accept exactly the well-formed responses. *)

From S2P Require Import Prelude Errors Codec ApiKey Net Config Wire Auth Request.

(** ** Definitions *)

(** The two block loops of [parse_rate_response_pdu], [count] turns from [pos]. *)
Fixpoint parse_blocks {T R} (len : Z) (read : list Z -> outcome str T) (short : string)
    (result : T -> R) (count : nat) (pdu_body : list Z) (pos : Z)
  : outcome CoreError (list R * Z) :=
  match count with
  | O => Ok ([], pos)
  | S count =>
      _ ← reject_if (zlen pdu_body <? pos + len) (protocol_error short);
      tail ← pdu_body.[pos ..<];
      block ← map_err CoreProtocol (read tail);
      let pos := pos + len in
      '(results, pos) ← parse_blocks len read short result count pdu_body pos;
      Ok (result block :: results, pos)
  end.

Definition guard_result (block : GuardBlock) : GuardResult :=
  {| gr_latency_tracker_id := gb_latency_tracker_id block;
     gr_threshold_ms := gb_latency_threshold block;
     gr_current_latency_ms := gb_current_latency block;
     gr_passed := gb_current_latency block <? gb_latency_threshold block |}.

Definition resource_result (block : ResourceBlock) : ResourceResult :=
  {| rr_bucket_id := rb_bucket_id block;
     rr_tokens_deficit := rb_tokens_requested block;
     rr_actual_rate := rb_rate_limit block |}.

(** [parse_rate_response_pdu] from the point where [pdu_body] is cut out. *)
Definition parse_rate_response_body (pdu_body : list Z) (server_id : Z) (steering_feedback : bool)
  : outcome CoreError RateLimitResult :=
  _ ← reject_if (zlen pdu_body <? 4) (protocol_error "Buffer too small for counts");
  let pos := 0 in
  guard_count ← u16_at pdu_body pos;
  let pos := pos + 2 in
  resource_count ← u16_at pdu_body pos;
  let pos := pos + 2 in
  '(guard_results, pos) ← parse_blocks 36 guard_read_from_buffer "Buffer too small for GuardBlock"
     guard_result (Z.to_nat guard_count) pdu_body pos;
  '(resource_results, pos) ← parse_blocks 28 resource_read_from_buffer
     "Buffer too small for ResourceBlock" resource_result (Z.to_nat resource_count) pdu_body pos;
  let success := forallb gr_passed guard_results &&
                 forallb (fun r => rr_tokens_deficit r =? 0) resource_results in
  Ok {| success := success; guard_results := guard_results; resource_results := resource_results;
        server_id := server_id; steering_feedback := steering_feedback |}.

Definition parse_rate_response_pdu (pdu_data : list Z) (server_id : Z) (steering_feedback : bool)
  : outcome CoreError RateLimitResult :=
  _ ← reject_if (zlen pdu_data <? PDU_HEADER_LEN) (protocol_error "Buffer too small for PDU header");
  pdu_type ← u16_at pdu_data 0;
  _ ← reject_if (negb (pdu_type =? PDU_RATE_RESPONSE))
        (CoreProtocol (lit "Unexpected PDU type: " ++ fmt_hex pdu_type));
  pdu_size ← u16_at pdu_data 2;
  _ ← reject_if (pdu_size <? PDU_HEADER_LEN) (protocol_error "Invalid PDU size");
  _ ← reject_if (zlen pdu_data <? pdu_size) (protocol_error "Incomplete PDU data");
  pdu_body ← pdu_data.[PDU_HEADER_LEN ..< pdu_size];
  parse_rate_response_body pdu_body server_id steering_feedback.

(** [parse_rate_response_with_auth]; [_parse_rate_response] passes the client's caches. *)
Definition parse_rate_response_with_auth `{Primitives} (data : list Z) (m : AuthMethod)
    (cookie_cache aes_cache : option (list Z)) : outcome CoreError RateLimitResult :=
  '(tenant_header, pos) ← parse_tenant_header data;
  let server_id := th_key_id tenant_header in
  let steering_feedback := negb (th_steering_feedback tenant_header =? 0) in
  pdu_data ← parse_auth_tlv data pos m cookie_cache aes_cache;
  parse_rate_response_pdu pdu_data server_id steering_feedback.

Definition parse_rate_response `{Primitives} (cfg : CoreConfig) (data : list Z)
  : outcome CoreError RateLimitResult :=
  let m := cfg_auth_method (api_key cfg) in
  parse_rate_response_with_auth data m (cookie_hash_cache m) (aes_key_cache m).

(** The peeks return an [Option]: [Err tt] is [None]. *)
Definition peek_server_id (data : list Z) : outcome unit Z :=
  _ ← reject_if (zlen data <? 12) tt;
  tlv_type ← u16_at data 0;
  tlv_size ← u16_at data 2;
  _ ← reject_if (negb (tlv_type =? TLV_TENANT) || (tlv_size <? 40) || (zlen data <? tlv_size)) tt;
  int_at 8 data 4 12.

Definition peek_request_id (data : list Z) : outcome unit (list Z) :=
  _ ← reject_if (zlen data <? 28) tt;
  tlv_type ← u16_at data 0;
  tlv_size ← u16_at data 2;
  _ ← reject_if (negb (tlv_type =? TLV_TENANT) || (tlv_size <? 40) || (zlen data <? tlv_size)) tt;
  slice data 12 28.

(** ** Well-formed responses *)

(** A PDU that carries some guard and resource blocks; servers may append TLV
    parameters to the body, and bytes after the PDU are ignored. *)
Inductive response_pdu : list GuardBlock -> list ResourceBlock -> list Z -> Prop :=
| response_pdu_intro gs rs reserved parameters excess :
    Forall block_ok gs -> Forall block_ok rs -> zlen reserved = 4 ->
    zlen gs <= u16_max -> zlen rs <= u16_max ->
    12 + 36 * zlen gs + 28 * zlen rs + zlen parameters <= u16_max ->
    response_pdu gs rs
      (u16_le PDU_RATE_RESPONSE ++
       u16_le (12 + 36 * zlen gs + 28 * zlen rs + zlen parameters) ++ reserved ++
       u16_le (zlen gs) ++ u16_le (zlen rs) ++ encode_all gs ++ encode_all rs ++ parameters ++
       excess).

(** The result such a PDU stands for. *)
Definition response_result (server_id : Z) (steering_feedback : bool)
    (gs : list GuardBlock) (rs : list ResourceBlock) : RateLimitResult :=
  {| success := forallb (fun g => gb_current_latency g <? gb_latency_threshold g) gs &&
                forallb (fun r => rb_tokens_requested r =? 0) rs;
     guard_results := map guard_result gs; resource_results := map resource_result rs;
     server_id := server_id; steering_feedback := steering_feedback |}.

(** A datagram that delivers [r] to a client authenticating with [m]. *)
Inductive response_datagram `{Primitives} (m : AuthMethod) (r : RateLimitResult) : list Z -> Prop :=
| response_datagram_intro h ext body pdu gs rs :
    tenant_frame h ext -> auth_frame (encode h ++ ext) m pdu body -> response_pdu gs rs pdu ->
    r = response_result (th_key_id h) (negb (th_steering_feedback h =? 0)) gs rs ->
    response_datagram m r ((encode h ++ ext) ++ body).

(** ** Blocks *)

Section Blocks.
Context {T R : Type} `{WireBlock T}.
Context {write : forall E, T -> list Z -> outcome E (list Z)} `{!BlockWriter T write}.
Context {read : list Z -> outcome str T} `{!BlockReader T read}.
Context (short : string) (result : T -> R) (Hpos : 0 <= block_len T).

Lemma parse_blocks_ok xs pre rest :
  Forall block_ok xs ->
  parse_blocks (block_len T) read short result (length xs) (pre ++ encode_all xs ++ rest) (zlen pre)
  = Ok (map result xs, zlen pre + block_len T * zlen xs).
Proof.
  intros Hx. revert pre. induction Hx as [|x xs Hx Hxs IH]; intros pre; cbn [length parse_blocks].
  { by rewrite Z.mul_0_r, Z.add_0_r. }
  destruct (encode_array (write := write) x Hx) as [Hl _].
  destruct (encode_all_len (write := write) xs Hxs) as [Hal _].
  pose proof (zlen_nonneg rest). pose proof (zlen_nonneg xs).
  unfold encode_all in *. cbn [map concat]. rewrite <- app_assoc.
  rewrite (proj2 (Z.ltb_ge _ _)) by (autorewrite with zlens; rewrite Hl, Hal; nia).
  cbn [reject_if mbind outcome_bind].
  rewrite slice_from_app by done. cbn [mbind outcome_bind].
  rewrite read_encode by done. cbn [map_err mbind outcome_bind].
  rewrite app_assoc. replace (zlen pre + block_len T) with (zlen (pre ++ encode x))
    by (rewrite zlen_app; lia).
  rewrite IH. cbn [mbind outcome_bind map]. do 2 f_equal.
  rewrite zlen_app, zlen_cons. lia.
Qed.

(** On arbitrary bytes: enough of them are blocks, too few are an error. *)
Lemma parse_blocks_total n pre l :
  bytes_ok l ->
  (exists xs rest, Forall block_ok xs /\ length xs = n /\ l = encode_all xs ++ rest /\ bytes_ok rest) \/
  (zlen l < block_len T * Z.of_nat n /\
   parse_blocks (block_len T) read short result n (pre ++ l) (zlen pre) = Err (protocol_error short)).
Proof.
  revert pre l. induction n as [|n IH]; intros pre l Hl.
  { left. exists [], l. by split_and!. }
  pose proof (zlen_nonneg l). cbn [parse_blocks]. rewrite zlen_app.
  destruct (Z.ltb_spec (zlen pre + zlen l) (zlen pre + block_len T)) as [Hs|Hs].
  { right. split; [nia | done]. }
  assert (Hle : block_len T <= zlen l) by lia.
  destruct (read_total (read := read) l Hl Hle Hpos) as (x & Hx & Hr & Heq).
  cbn [reject_if mbind outcome_bind]. rewrite slice_from_app by done. cbn [mbind outcome_bind].
  rewrite Hr. cbn [map_err mbind outcome_bind].
  destruct (encode_array (write := write) x Hx) as [Hlx _].
  set (l' := drop _ l) in *. rewrite Heq in Hl. apply bytes_ok_app in Hl as [Hbx Hbl].
  destruct (IH (pre ++ encode x) l' Hbl) as [(xs & rest & Hxs & Hn & Hl' & Hbr)|[Hlt Herr]].
  - left. exists (x :: xs), rest. unfold encode_all in *. cbn [map concat].
    rewrite <- app_assoc, <- Hl'. split_and!; try done; [by constructor | by cbn; rewrite Hn].
  - right. rewrite Heq. rewrite zlen_app, Hlx. split; [lia|].
    rewrite app_assoc. replace (zlen pre + block_len T) with (zlen (pre ++ encode x))
      by (rewrite zlen_app; lia). by rewrite Herr.
Qed.

End Blocks.

(** ** The PDU *)

Lemma forallb_map_eq {A B} (f : A -> B) (p : B -> bool) l :
  forallb p (map f l) = forallb (fun x => p (f x)) l.
Proof. induction l; cbn; [done | by f_equal]. Qed.

Lemma Z_length {A} (l : list A) n : zlen l = n -> length l = Z.to_nat n.
Proof. intros <-. unfold zlen. by rewrite Nat2Z.id. Qed.

Lemma parse_body_ok gs rs parameters sid sf :
  Forall block_ok gs -> Forall block_ok rs -> zlen gs <= u16_max -> zlen rs <= u16_max ->
  parse_rate_response_body
    (u16_le (zlen gs) ++ u16_le (zlen rs) ++ encode_all gs ++ encode_all rs ++ parameters) sid sf
  = Ok (response_result sid sf gs rs).
Proof.
  intros Hg Hr Hgl Hrl. pose proof (zlen_nonneg gs). pose proof (zlen_nonneg rs).
  set (body := _ ++ _). pose proof (zlen_nonneg (encode_all gs ++ encode_all rs ++ parameters)).
  unfold parse_rate_response_body.
  rewrite (proj2 (Z.ltb_ge _ _)) by (subst body; unfold u16_le; rewrite !(zlen_app (to_le _ _)), !zlen_to_le; lia).
  cbn [reject_if mbind outcome_bind].
  assert (@u16_at CoreError body 0 = Ok (zlen gs)) as -> by (by apply (head_type_at [])).
  cbn [mbind outcome_bind].
  assert (@u16_at CoreError body (0 + 2) = Ok (zlen rs)) as -> by (by apply (head_size_at [])).
  cbn [mbind outcome_bind]. rewrite <- (Z_length gs _ eq_refl), <- (Z_length rs _ eq_refl).
  subst body. rewrite (app_assoc (u16_le _) (u16_le _)).
  set (pre := u16_le _ ++ u16_le _).
  change (0 + 2 + 2) with (zlen pre).
  change (parse_blocks 36) with (@parse_blocks GuardBlock GuardResult (block_len GuardBlock)).
  rewrite (parse_blocks_ok (write := @guard_write_to_buffer)) by (done || (cbn; lia)).
  cbn [mbind outcome_bind].
  rewrite (app_assoc pre (encode_all gs)).
  destruct (encode_all_len (write := @guard_write_to_buffer) gs Hg) as [Hl _].
  replace (zlen pre + block_len GuardBlock * zlen gs) with (zlen (pre ++ encode_all gs))
    by (rewrite zlen_app; lia).
  change (parse_blocks 28) with (@parse_blocks ResourceBlock ResourceResult (block_len ResourceBlock)).
  rewrite (parse_blocks_ok (write := @resource_write_to_buffer)) by (done || (cbn; lia)).
  cbn [mbind outcome_bind]. unfold response_result. by rewrite !forallb_map_eq.
Qed.

Lemma counts_at {E} x y l :
  in_u16 x -> in_u16 y ->
  @u16_at E (u16_le x ++ u16_le y ++ l) 0 = Ok x /\ @u16_at E (u16_le x ++ u16_le y ++ l) (0 + 2) = Ok y.
Proof. intros Hx Hy. split; [by apply (head_type_at []) | by apply (head_size_at [])]. Qed.

Lemma guard_len_pos : 0 <= block_len GuardBlock.
Proof. cbn. lia. Qed.
Lemma resource_len_pos : 0 <= block_len ResourceBlock.
Proof. cbn. lia. Qed.

(** A body either is laid out as counts, guards, resources and parameters, or is
    refused. *)
Lemma parse_body_total body sid sf :
  bytes_ok body ->
  (exists (gs : list GuardBlock) (rs : list ResourceBlock) parameters, Forall block_ok gs /\ Forall block_ok rs /\ zlen gs <= u16_max /\
     zlen rs <= u16_max /\
     body = u16_le (zlen gs) ++ u16_le (zlen rs) ++ encode_all gs ++ encode_all rs ++ parameters) \/
  exists e, parse_rate_response_body body sid sf = Err (CoreProtocol e).
Proof.
  intros Hb. destruct (Z.lt_ge_cases (zlen body) 4) as [Hs|Hs].
  { right. unfold parse_rate_response_body. rewrite (proj2 (Z.ltb_lt _ _) Hs). by eexists. }
  destruct (split_head body Hb Hs) as (ng & nr & l & -> & Hng & Hnr & Hlb & _).
  unfold in_u16 in *.
  pose proof (parse_blocks_total (write := @guard_write_to_buffer) (read := guard_read_from_buffer)
    "Buffer too small for GuardBlock" guard_result guard_len_pos (Z.to_nat ng)
    (u16_le ng ++ u16_le nr) l Hlb) as [(gs & l2 & Hgs & Hgn & -> & Hl2b)|[_ Hg]].
  2:{ right. unfold parse_rate_response_body. rewrite (proj2 (Z.ltb_ge _ _)) by lia.
      cbn [reject_if mbind outcome_bind].
      destruct (@counts_at CoreError ng nr l Hng Hnr) as [-> ->]. cbn [mbind outcome_bind].
      rewrite app_assoc. change (0 + 2 + 2) with (zlen (u16_le ng ++ u16_le nr)).
      change 36 with (block_len GuardBlock). rewrite Hg. by eexists. }
  assert (zlen gs = ng) as <- by (unfold zlen; lia).
  destruct (encode_all_len (write := @guard_write_to_buffer) gs Hgs) as [Hgl _].
  pose proof (parse_blocks_total (write := @resource_write_to_buffer) (read := resource_read_from_buffer)
    "Buffer too small for ResourceBlock" resource_result resource_len_pos (Z.to_nat nr)
    ((u16_le (zlen gs) ++ u16_le nr) ++ encode_all gs) l2 Hl2b) as [(rs & l3 & Hrs & Hrn & -> & _)|[_ Hr]].
  2:{ right. unfold parse_rate_response_body. rewrite (proj2 (Z.ltb_ge _ _)) by lia.
      cbn [reject_if mbind outcome_bind].
      destruct (@counts_at CoreError _ nr (encode_all gs ++ l2) Hng Hnr) as [-> ->].
      cbn [mbind outcome_bind].
      rewrite (app_assoc (u16_le _) (u16_le nr)).
      change (0 + 2 + 2) with (zlen (u16_le (zlen gs) ++ u16_le nr)).
      rewrite <- (Z_length gs _ eq_refl).
      change (parse_blocks 36) with (@parse_blocks GuardBlock GuardResult (block_len GuardBlock)).
      rewrite (parse_blocks_ok (write := @guard_write_to_buffer)) by (done || (cbn; lia)).
      cbn [mbind outcome_bind]. rewrite <- Hgl, <- zlen_app, app_assoc.
      change 28 with (block_len ResourceBlock). rewrite Hr. by eexists. }
  left. exists gs, rs, l3. assert (zlen rs = nr) as <- by (unfold zlen; lia).
  split_and!; try done; lia.
Qed.

Lemma parse_pdu_eq ty size reserved rest sid sf :
  in_u16 ty -> in_u16 size -> zlen reserved = 4 ->
  parse_rate_response_pdu (u16_le ty ++ u16_le size ++ reserved ++ rest) sid sf
  = if negb (ty =? PDU_RATE_RESPONSE) then
      Err (CoreProtocol (lit "Unexpected PDU type: " ++ fmt_hex ty))
    else if size <? 8 then Err (protocol_error "Invalid PDU size")
    else if zlen rest <? size - 8 then Err (protocol_error "Incomplete PDU data")
    else parse_rate_response_body (take (Z.to_nat (size - 8)) rest) sid sf.
Proof.
  intros Ht Hs H4. pose proof (zlen_nonneg rest). set (data := _ ++ _).
  assert (Hlen : zlen data = 8 + zlen rest) by (subst data; zlen_lia).
  unfold parse_rate_response_pdu, PDU_HEADER_LEN. rewrite (proj2 (Z.ltb_ge _ _)) by lia.
  cbn [reject_if mbind outcome_bind].
  assert (@u16_at CoreError data 0 = Ok ty) as -> by (by apply (head_type_at [])).
  cbn [mbind outcome_bind].
  destruct (ty =? PDU_RATE_RESPONSE); cbn [negb reject_if mbind outcome_bind]; [|done].
  assert (@u16_at CoreError data 2 = Ok size) as -> by (by apply (head_size_at [])).
  cbn [mbind outcome_bind].
  destruct (Z.ltb_spec size 8); cbn [reject_if mbind outcome_bind]; [done|].
  replace (zlen data <? size) with (zlen rest <? size - 8)
    by (destruct (Z.ltb_spec (zlen rest) (size - 8)), (Z.ltb_spec (zlen data) size); lia || done).
  destruct (Z.ltb_spec (zlen rest) (size - 8)); cbn [reject_if mbind outcome_bind]; [done|].
  rewrite slice_ok by lia. cbn [mbind outcome_bind]. do 2 f_equal. subst data.
  rewrite !app_assoc. apply drop_len. zlen_lia.
Qed.

Lemma parse_pdu_ok gs rs pdu sid sf :
  response_pdu gs rs pdu -> parse_rate_response_pdu pdu sid sf = Ok (response_result sid sf gs rs).
Proof.
  intros [gs' rs' reserved parameters excess Hg Hr Hres Hgl Hrl Hsz].
  pose proof (zlen_nonneg gs'). pose proof (zlen_nonneg rs'). pose proof (zlen_nonneg parameters).
  pose proof (zlen_nonneg excess).
  destruct (encode_all_len (write := @guard_write_to_buffer) gs' Hg) as [Lg _].
  destruct (encode_all_len (write := @resource_write_to_buffer) rs' Hr) as [Lr _].
  cbn [block_len guard_block resource_block] in Lg, Lr.
  set (body := u16_le (zlen gs') ++ u16_le (zlen rs') ++ encode_all gs' ++ encode_all rs' ++ parameters).
  assert (Hbl : zlen body = 4 + 36 * zlen gs' + 28 * zlen rs' + zlen parameters)
    by (subst body; zlen_lia).
  assert (u16_le (zlen gs') ++ u16_le (zlen rs') ++ encode_all gs' ++ encode_all rs' ++ parameters ++ excess
          = body ++ excess) as -> by (subst body; by rewrite <- !app_assoc).
  rewrite parse_pdu_eq by (done || (unfold in_u16; lia)).
  change (PDU_RATE_RESPONSE =? PDU_RATE_RESPONSE) with true. cbn [negb].
  rewrite !(proj2 (Z.ltb_ge _ _)) by (rewrite ?zlen_app; lia).
  rewrite take_len by lia. by apply parse_body_ok.
Qed.

(** A PDU either is a response PDU, or is refused. *)
Lemma parse_pdu_total pdu sid sf :
  bytes_ok pdu ->
  (exists gs rs, response_pdu gs rs pdu) \/
  exists e, parse_rate_response_pdu pdu sid sf = Err (CoreProtocol e).
Proof.
  intros Hb. destruct (Z.lt_ge_cases (zlen pdu) 8) as [Hs|Hs].
  { right. unfold parse_rate_response_pdu. rewrite (proj2 (Z.ltb_lt _ _)) by done. by eexists. }
  destruct (split_head pdu Hb ltac:(lia)) as (ty & sz & l & -> & Ht & Hsz & Hlb & Hll).
  destruct (split_bytes 4 _ l Hlb Hll ltac:(lia)) as (reserved & rest & -> & Hres & _ & Hrb & Hrl).
  rewrite parse_pdu_eq by done.
  destruct (Z.eqb_spec ty PDU_RATE_RESPONSE) as [->|]; cbn [negb]; [|right; by eexists].
  destruct (Z.ltb_spec sz 8); [right; by eexists|].
  destruct (Z.ltb_spec (zlen rest) (sz - 8)); [right; by eexists|].
  destruct (split_len (sz - 8) rest ltac:(lia)) as (body & excess & -> & Hbl).
  rewrite take_len by lia. apply bytes_ok_app in Hrb as [Hbb _].
  destruct (parse_body_total body sid sf Hbb)
    as [(gs & rs & parameters & Hg & Hr & Hgn & Hrn & ->)|He]; [left|by right].
  exists gs, rs. destruct (encode_all_len (write := @guard_write_to_buffer) gs Hg) as [Lg _].
  destruct (encode_all_len (write := @resource_write_to_buffer) rs Hr) as [Lr _].
  cbn [block_len guard_block resource_block] in Lg, Lr. unfold in_u16 in *.
  assert (sz = 12 + 36 * zlen gs + 28 * zlen rs + zlen parameters) as ->.
  { clear -Hbl Lg Lr. unfold u16_le in Hbl. autorewrite with zlens in Hbl. lia. }
  rewrite <- !app_assoc. constructor; (done || lia).
Qed.

(** ** The whole datagram *)

Section Datagram.
Context `{PrimitivesLaws}.

Lemma auth_frame_bytes packet m pdu body :
  auth_frame packet m pdu body -> bytes_ok body -> bytes_ok pdu.
Proof.
  intros Hf Hb. destruct Hf; rewrite ?bytes_ok_app in Hb; by destruct_and?.
Qed.

Lemma tenant_packet_len (h : TenantHeader) ext :
  block_ok h -> zlen (encode h ++ ext) = TENANT_TLV_LEN + zlen ext.
Proof. intros Hh. by rewrite zlen_app, (zlen_encode h Hh). Qed.

Lemma parse_datagram_ok m r data :
  auth_ok m -> bytes_ok data -> zlen data <= datagram_max -> response_datagram m r data ->
  parse_rate_response_with_auth data m (cookie_hash_cache m) (aes_key_cache m) = Ok r.
Proof.
  intros Hm Hb Hl Hd. destruct Hd as [h ext body pdu gs rs Ht Ha Hp ->].
  rewrite zlen_app in Hl. pose proof (zlen_nonneg body). pose proof (zlen_nonneg (encode h ++ ext)).
  apply bytes_ok_app in Hb as [Hbp Hbb]. unfold parse_rate_response_with_auth.
  pose proof (parse_tenant_frame h ext body Ht) as Htp. rewrite app_assoc in Htp. rewrite Htp.
  cbn [mbind outcome_bind]. rewrite <- (tenant_packet_len h ext) by apply Ht.
  apply (parse_auth_iff m _ body pdu) in Ha; [|done..|lia|lia]. rewrite Ha.
  cbn [mbind outcome_bind]. by apply parse_pdu_ok.
Qed.

(** Every datagram is a well-formed response, or is refused; the parser knows which. *)
Lemma parse_datagram_total m data :
  auth_ok m -> bytes_ok data -> zlen data <= datagram_max ->
  (exists r, response_datagram m r data) \/
  exists e, parse_rate_response_with_auth data m (cookie_hash_cache m) (aes_key_cache m) = Err e.
Proof.
  intros Hm Hb Hl. unfold parse_rate_response_with_auth.
  pose proof (no_panic_parse_tenant data Hb) as Hnp.
  destruct (parse_tenant_header data) as [[h pos]|e|] eqn:Ht; [|right; by eexists|done].
  destruct (parse_tenant_inv data h pos Hb Ht) as (ext & rest & -> & Hf & ->).
  rewrite app_assoc in *. apply bytes_ok_app in Hb as [Hbp Hbb].
  rewrite zlen_app in Hl. pose proof (zlen_nonneg rest). pose proof (zlen_nonneg (encode h ++ ext)).
  cbn [mbind outcome_bind]. rewrite <- (tenant_packet_len h ext) by apply Hf.
  pose proof (no_panic_parse_auth m (encode h ++ ext) rest Hm Hbb) as Hna.
  destruct (parse_auth_tlv _ _ _ _ _) as [pdu|e|] eqn:Ha; [|right; by eexists|done].
  apply parse_auth_iff in Ha; [|done..|lia|lia]. cbn [mbind outcome_bind].
  destruct (parse_pdu_total pdu (th_key_id h) (negb (th_steering_feedback h =? 0)))
    as [(gs & rs & Hp)|[e He]]; [by eapply auth_frame_bytes| |right; by eexists].
  left. eexists. by econstructor.
Qed.

Lemma parse_datagram_iff m data r :
  auth_ok m -> bytes_ok data -> zlen data <= datagram_max ->
  parse_rate_response_with_auth data m (cookie_hash_cache m) (aes_key_cache m) = Ok r
  <-> response_datagram m r data.
Proof.
  intros Hm Hb Hl. split; [|by apply parse_datagram_ok].
  intros E. destruct (parse_datagram_total m data Hm Hb Hl) as [[r' Hr]|[e He]]; [|congruence].
  pose proof (parse_datagram_ok m r' data Hm Hb Hl Hr). by replace r with r' by congruence.
Qed.

Lemma no_panic_parse_datagram m data :
  auth_ok m -> bytes_ok data -> zlen data <= datagram_max ->
  no_panic (parse_rate_response_with_auth data m (cookie_hash_cache m) (aes_key_cache m)).
Proof.
  intros Hm Hb Hl. destruct (parse_datagram_total m data Hm Hb Hl) as [[r Hr]|[e ->]]; [|done].
  by rewrite (parse_datagram_ok m r data).
Qed.

End Datagram.

(** ** The peeks *)

Lemma peek_frame h ext rest :
  tenant_frame h ext ->
  peek_server_id (encode h ++ ext ++ rest) = Ok (th_key_id h) /\
  peek_request_id (encode h ++ ext ++ rest) = Ok (unique_id h).
Proof.
  intros (Hh & Ht & Hs). pose proof (zlen_nonneg ext). pose proof (zlen_nonneg rest).
  pose proof (zlen_encode h Hh) as Hl. cbn [block_len tenant_block] in Hl. unfold TENANT_TLV_LEN in *.
  set (data := _ ++ _). assert (Hlen : zlen data = 40 + zlen ext + zlen rest)
    by (subst data; rewrite !zlen_app; lia).
  assert (Hd : data = u16_le (tlv_type h) ++ u16_le (tlv_size h) ++ drop 4 data) by done.
  pose proof Hh as (Hty & Hsz & Hk & [Hu _] & _).
  assert (Hg : negb (tlv_type h =? TLV_TENANT) || (tlv_size h <? 40) || (zlen data <? tlv_size h) = false).
  { rewrite Ht, Hs, Z.eqb_refl. cbn [negb orb]. rewrite !(proj2 (Z.ltb_ge _ _)) by lia. done. }
  unfold peek_server_id, peek_request_id. rewrite !(proj2 (Z.ltb_ge (zlen data) _)) by lia.
  cbn [reject_if mbind outcome_bind].
  assert (forall E, @u16_at E data 0 = Ok (tlv_type h)) as -> by (intros; rewrite Hd; by apply counts_at).
  assert (forall E, @u16_at E data 2 = Ok (tlv_size h)) as -> by (intros; rewrite Hd; by apply counts_at).
  cbn [mbind outcome_bind]. rewrite Hg. cbn [reject_if mbind outcome_bind].
  subst data. clear Hd Hg Hlen. unfold in_u16, in_u64, u16_max, u64_max in *.
  cbn [encode tenant_block]. rewrite <- !app_assoc. split; by read_fields.
Qed.

Lemma no_panic_peeks data : no_panic (peek_server_id data) /\ no_panic (peek_request_id data).
Proof.
  split; unfold peek_server_id, peek_request_id.
  - destruct (Z.ltb_spec (zlen data) 12); cbn [reject_if mbind outcome_bind]; [done|].
    apply no_panic_bind; [apply no_panic_u16_at; lia|]. intros ty _.
    apply no_panic_bind; [apply no_panic_u16_at; lia|]. intros sz _.
    apply no_panic_bind; [apply no_panic_reject|]. intros _ _.
    unfold int_at. rewrite slice_ok by lia. cbn [mbind outcome_bind].
    rewrite (proj2 (Z.eqb_eq _ _)); [done|]. rewrite zlen_take_min, zlen_drop_max. lia.
  - destruct (Z.ltb_spec (zlen data) 28); cbn [reject_if mbind outcome_bind]; [done|].
    apply no_panic_bind; [apply no_panic_u16_at; lia|]. intros ty _.
    apply no_panic_bind; [apply no_panic_u16_at; lia|]. intros sz _.
    apply no_panic_bind; [apply no_panic_reject|]. intros _ _. apply no_panic_slice; lia.
Qed.

(** ** Theorems *)

(** C6. On every datagram of bytes the response parser terminates without a panic
    and accepts exactly the well-formed, authenticated responses: it returns
    [r] if and only if the datagram is a tenant header, the authentication
    frame of a rate-response PDU, and [r] is the reading of that PDU's blocks
    with the server id and steering flag of the header. *)
Theorem parse_rate_response_exact `{PrimitivesLaws} m data
    (Hm : auth_ok m) (Hb : bytes_ok data) (Hl : zlen data <= datagram_max) :
  let parse := parse_rate_response_with_auth data m (cookie_hash_cache m) (aes_key_cache m) in
  no_panic parse /\ forall r, parse = Ok r <-> response_datagram m r data.
Proof.
  cbv zeta. split; [by apply no_panic_parse_datagram|]. intros r. by apply parse_datagram_iff.
Qed.

(** A response of server 77 with one failed guard, for evaluation. *)
Definition demo_header : TenantHeader := mkTenantHeader TLV_TENANT 40 77 demo_id 5 1 0 [0; 0].
Definition demo_guard_block : GuardBlock := mkGuardBlock demo_id 1000 10 1 50 60.
Definition demo_response : list Z :=
  encode demo_header ++ u16_le TLV_AUTH_COOKIE ++ u16_le 36 ++ demo_key ++
  u16_le PDU_RATE_RESPONSE ++ u16_le 48 ++ [0; 0; 0; 0] ++ u16_le 1 ++ u16_le 0 ++
  encode demo_guard_block.
Definition demo_result : RateLimitResult :=
  {| success := false; guard_results := [mkGuardResult demo_id 50 60 false];
     resource_results := []; server_id := 77; steering_feedback := true |}.

Definition is_byte_bool (b : Z) : bool := (0 <=? b) && (b <? 256).
Lemma bytes_ok_bool l : forallb is_byte_bool l = true -> bytes_ok l.
Proof.
  induction l as [|b l IH]; cbn [forallb]; [constructor|]. intros Hb. reflect_bools.
  constructor; [|by apply IH]. unfold is_byte_bool in *. reflect_bools. unfold is_byte. lia.
Qed.

Lemma parse_rate_response_exact_witness :
  @response_datagram toy_primitives (AuthCookie demo_key) demo_result demo_response.
Proof.
  apply (@parse_rate_response_exact toy_primitives toy_primitives_laws (AuthCookie demo_key)
           demo_response).
  - split; [apply demo_key_ok | reflexivity].
  - apply bytes_ok_bool. vm_compute. reflexivity.
  - vm_compute. discriminate.
  - vm_compute. reflexivity.
Defined.

(** The two peeks never panic, and they agree with the parser: whenever the
    parser accepts a datagram, [peek_server_id] is the server id of the result
    and [peek_request_id] the request id of the same header, so the router's
    and the selector's filters act on what is later returned. *)
Theorem peeks_agree_with_parser `{PrimitivesLaws} m data r
    (Hm : auth_ok m) (Hb : bytes_ok data) (Hl : zlen data <= datagram_max)
    (Hr : parse_rate_response_with_auth data m (cookie_hash_cache m) (aes_key_cache m) = Ok r) :
  no_panic (peek_server_id data) /\ no_panic (peek_request_id data) /\
  peek_server_id data = Ok (server_id r) /\
  exists h pos, parse_tenant_header data = Ok (h, pos) /\ peek_request_id data = Ok (unique_id h) /\
    server_id r = th_key_id h.
Proof.
  destruct (no_panic_peeks data). split_and!; [done | done | |];
    apply parse_datagram_iff in Hr as Hd; try done;
    destruct Hd as [h ext body pdu gs rs Ht Ha Hp ->]; rewrite <- app_assoc;
    destruct (peek_frame h ext body Ht) as [Hs Hi]; [done|].
  exists h, (TENANT_TLV_LEN + zlen ext). split_and!; [by apply parse_tenant_frame | done | done].
Qed.

Lemma peeks_agree_with_parser_witness :
  no_panic (peek_server_id demo_response) /\ no_panic (peek_request_id demo_response) /\
  peek_server_id demo_response = Ok (server_id demo_result) /\
  exists h pos, parse_tenant_header demo_response = Ok (h, pos) /\
    peek_request_id demo_response = Ok (unique_id h) /\ server_id demo_result = th_key_id h.
Proof.
  apply (@peeks_agree_with_parser toy_primitives toy_primitives_laws (AuthCookie demo_key)
           demo_response demo_result).
  - split; [apply demo_key_ok | reflexivity].
  - apply bytes_ok_bool. vm_compute. reflexivity.
  - vm_compute. discriminate.
  - vm_compute. reflexivity.
Defined.

(** A response is a grant exactly when every guard it carries measured a
    latency strictly below its threshold and every resource reports no deficit;
    the flags and numbers of the result are those of the blocks. *)
Theorem response_success_iff pdu server feedback r
    (Hb : bytes_ok pdu) (Hr : parse_rate_response_pdu pdu server feedback = Ok r) :
  (success r = true <->
     Forall (fun g => gr_current_latency_ms g < gr_threshold_ms g) (guard_results r) /\
     Forall (fun x => rr_tokens_deficit x = 0) (resource_results r)) /\
  Forall (fun g => gr_passed g = (gr_current_latency_ms g <? gr_threshold_ms g)) (guard_results r) /\
  server_id r = server /\ steering_feedback r = feedback.
Proof.
  destruct (parse_pdu_total pdu server feedback Hb) as [(gs & rs & Hp)|[e He]]; [|congruence].
  apply (parse_pdu_ok _ _ _ server feedback) in Hp. rewrite Hp in Hr. injection Hr as <-.
  unfold response_result. cbn [success guard_results resource_results server_id steering_feedback].
  rewrite andb_true_iff, !forallb_forall, !Forall_map, !Forall_forall.
  split_and!; try done. cbn.
  setoid_rewrite Z.ltb_lt. setoid_rewrite Z.eqb_eq. setoid_rewrite <- list_elem_of_In. done.
Qed.

Lemma response_success_iff_witness :
  let pdu := u16_le PDU_RATE_RESPONSE ++ u16_le 48 ++ [0; 0; 0; 0] ++ u16_le 1 ++ u16_le 0 ++
             encode demo_guard_block in
  server_id demo_result = 77 /\ steering_feedback demo_result = true.
Proof.
  intros pdu. apply (response_success_iff pdu 77 true demo_result).
  - apply bytes_ok_bool. vm_compute. reflexivity.
  - vm_compute. reflexivity.
Defined.
