(* ===== verification/Age.v ===== *)
(** * Server age (src/src/client.rs)

    Server identifiers carry the start second of the server in their upper bits;
    the client prefers the oldest server. *)

From S2P Require Import Prelude Errors.

Definition SERVER_ID_EPOCH_S_2025 : Z := 1735689600.

(** [server_start_s_from_id]. *)
Definition server_start_s_from_id {E} (server_id : Z) : outcome E Z :=
  add_op u64_max SERVER_ID_EPOCH_S_2025 (Z.shiftr server_id 23).

(** The lexicographic order of pairs of [u64]s. *)
Definition pair_cmp (a b : Z * Z) : comparison :=
  match Z.compare a.1 b.1 with Eq => Z.compare a.2 b.2 | c => c end.

(** [compare_server_age]. *)
Definition compare_server_age {E} (left right : Z) : outcome E comparison :=
  l ← server_start_s_from_id left;
  r ← server_start_s_from_id right;
  Ok (pair_cmp (l, left) (r, right)).

Lemma shiftr_mono a b k : 0 <= k -> a <= b -> Z.shiftr a k <= Z.shiftr b k.
Proof. intros Hk H. rewrite !Z.shiftr_div_pow2 by done. apply Z.div_le_mono; lia. Qed.

Lemma server_start_ok {E} id :
  in_u64 id -> @server_start_s_from_id E id = Ok (SERVER_ID_EPOCH_S_2025 + Z.shiftr id 23).
Proof.
  intros [H0 H]. apply add_op_ok. pose proof (shiftr_mono id u64_max 23 ltac:(lia) H) as Hs.
  change (Z.shiftr u64_max 23) with 2199023255551 in Hs.
  unfold SERVER_ID_EPOCH_S_2025, u64_max. lia.
Qed.

(** Comparing ages is comparing identifiers. *)
Lemma compare_server_age_eq {E} a b :
  in_u64 a -> in_u64 b -> @compare_server_age E a b = Ok (Z.compare a b).
Proof.
  intros Ha Hb. unfold compare_server_age. rewrite !server_start_ok by done.
  cbn [mbind outcome_bind]. f_equal. unfold pair_cmp. cbn [fst snd].
  destruct (Z.compare_spec (SERVER_ID_EPOCH_S_2025 + Z.shiftr a 23)
              (SERVER_ID_EPOCH_S_2025 + Z.shiftr b 23)) as [Heq|Hlt|Hgt]; [done | |].
  - symmetry. apply Z.compare_lt_iff. destruct (Z.lt_ge_cases a b) as [|Hge]; [done|].
    pose proof (shiftr_mono b a 23 ltac:(lia) Hge). lia.
  - symmetry. apply Z.compare_gt_iff. destruct (Z.lt_ge_cases b a) as [|Hge]; [done|].
    pose proof (shiftr_mono a b 23 ltac:(lia) Hge). lia.
Qed.

(** [Iterator::min_by] with [compare_server_age]: the first of the least. *)
Fixpoint min_by_age {E} (ids : list Z) (least : option Z) : outcome E (option Z) :=
  match ids with
  | [] => Ok least
  | id :: ids =>
      match least with
      | None => min_by_age ids (Some id)
      | Some l =>
          c ← compare_server_age l id;
          min_by_age ids (match c with Gt => Some id | _ => Some l end)
      end
  end.

Lemma min_by_age_spec {E} ids least :
  Forall in_u64 ids -> (forall l, least = Some l -> in_u64 l) ->
  exists r, @min_by_age E ids least = Ok r /\
    match r with
    | None => ids = [] /\ least = None
    | Some o => (o ∈ ids \/ least = Some o) /\ Forall (fun x => o <= x) ids /\
        (forall l, least = Some l -> o <= l)
    end.
Proof.
  intros Hids. revert least. induction Hids as [|id ids Hid Hids IH]; intros least Hl; cbn [min_by_age].
  { exists least. split; [done|]. destruct least as [l|]; [|done].
    split_and!; [by right | constructor |]. intros ? [= ->]. lia. }
  destruct least as [l|].
  - rewrite compare_server_age_eq by (done || by apply Hl). cbn [mbind outcome_bind].
    destruct (Z.compare_spec l id) as [Heq|Hlt|Hgt].
    1,2: destruct (IH (Some l)) as (r & -> & Hr); [intros ? [= <-]; by apply Hl|];
      exists r; split; [done|]; destruct r as [o|]; [|naive_solver];
      destruct Hr as (Hin & Hall & Hle); specialize (Hle l eq_refl);
      split_and!; [set_solver | constructor; [lia | done] | intros ? [= <-]; lia].
    destruct (IH (Some id)) as (r & -> & Hr); [intros ? [= <-]; done|].
    exists r. split; [done|]. destruct r as [o|]; [|naive_solver].
    destruct Hr as (Hin & Hall & Hle). specialize (Hle id eq_refl).
    split_and!; [set_solver | constructor; [lia | done] | intros ? [= <-]; lia].
  - destruct (IH (Some id)) as (r & -> & Hr); [intros ? [= <-]; done|].
    exists r. split; [done|]. destruct r as [o|]; [|naive_solver].
    destruct Hr as (Hin & Hall & Hle). specialize (Hle id eq_refl).
    split_and!; [set_solver | by constructor | done].
Qed.

(** ** Theorems *)

(** Server age is the numeric order of server identifiers: comparing start
    seconds first and identifiers second never differs from comparing the
    identifiers, and the sum of epoch and offset never overflows. *)
Theorem compare_server_age_is_id_order a b
    (Ha : in_u64 a) (Hb : in_u64 b) :
  @compare_server_age CoreError a b = Ok (Z.compare a b).
Proof. by apply compare_server_age_eq. Qed.

Lemma compare_server_age_is_id_order_witness :
  @compare_server_age CoreError 18446744073709551615 5 = Ok Gt.
Proof.
  apply (compare_server_age_is_id_order 18446744073709551615 5); split; vm_compute; discriminate.
Defined.
