(* ===== verification/World.v ===== *)
(** * The world of a request

    What the asynchronous code of the client observes while one request runs: a
    monotone clock, the channel of packets the router delivers for the request,
    the outcome of each datagram send, and the shared server statistics.

    Scheduling is an oracle ([Env]): any clock reading or wake-up may come any
    time after the event that caused it, and any send may succeed, be partial
    or fail.  Every theorem quantifies over the oracle. *)

From S2P Require Import Prelude Errors Net Sockets.

Record ResponsePacket := mkResponsePacket { packet_data : list Z; packet_addr : SocketAddr }.

Record ServerStats := mkServerStats {
  last_seen : Z;
  valid_responses : Z;
  send_failures : Z;
}.

(** [ServerStats::new]. *)
Definition new_server_stats (now : Z) : ServerStats :=
  {| last_seen := now; valid_responses := 0; send_failures := 0 |}.

(** Answers of the operating system, indexed by the number of steps taken. *)
Record Env := mkEnv {
  env_delay : nat -> Z;
  env_send : nat -> io_error + Z;
}.

Definition env_ok (env : Env) : Prop := forall n, 0 <= env_delay env n.

(** One attempted datagram: when, what, to whom, and what the send returned. *)
Record Send := mkSend {
  send_time : Z;
  send_packet : list Z;
  send_target : SocketAddr;
  send_result : io_error + Z;
}.

Record World := mkWorld {
  now : Z;                              (** nanoseconds *)
  steps : nat;
  inbox : list (Z * ResponsePacket);    (** arrival time and packet, in channel order *)
  sockets : FamilySockets;
  server_stats : gmap Z ServerStats;
  sends : list Send;
}.

(** An action that may fail or panic, and changes the world either way. *)
Definition act (A : Type) : Type := World -> outcome CoreError A * World.

#[export] Instance act_bind : MBind act := fun A B f m w =>
  match m w with
  | (Ok a, w) => f a w
  | (Err e, w) => (Err e, w)
  | (Panic, w) => (Panic, w)
  end.

Definition ret {A} (a : A) : act A := fun w => (Ok a, w).

(** A computation without effects, as an action. *)
Definition lift {A} (m : outcome CoreError A) : act A := fun w => (m, w).

(** An action that depends on the world it starts in. *)
Definition with_world {A} (f : World -> act A) : act A := fun w => f w w.

(** An action whose errors are results: [match action.await { Ok .. , Err .. }]. *)
Definition try_act {A} (m : act A) : act (outcome CoreError A) := fun w =>
  match m w with
  | (Panic, w) => (Panic, w)
  | (r, w) => (Ok r, w)
  end.

(** [Instant::now()]. *)
Definition clock (env : Env) : act Z := fun w =>
  let t := now w + env_delay env (steps w) in
  (Ok t, mkWorld t (S (steps w)) (inbox w) (sockets w) (server_stats w) (sends w)).

(** [timeout(remaining, response_rx.recv()).await]: the task wakes up for the
    first packet or for the timer, whichever comes first, and polls the
    channel before the timer.  [None] is a timeout.  The channel is not closed
    while the request is registered. *)
Definition recv_timeout (env : Env) (remaining : Z) : act (option ResponsePacket) := fun w =>
  let timer := now w + remaining in
  let ready := match inbox w with (a, _) :: _ => Z.min a timer | [] => timer end in
  let t := Z.max (now w) ready + env_delay env (steps w) in
  match inbox w with
  | (a, p) :: rest =>
      if a <=? t
      then (Ok (Some p), mkWorld t (S (steps w)) rest (sockets w) (server_stats w) (sends w))
      else (Ok None, mkWorld t (S (steps w)) (inbox w) (sockets w) (server_stats w) (sends w))
  | [] => (Ok None, mkWorld t (S (steps w)) [] (sockets w) (server_stats w) (sends w))
  end.

(** [FamilySockets::send_to]: the socket of the target's family, or an error. *)
Definition send_to (env : Env) (target : SocketAddr) (w : World) : io_error + Z :=
  match socket_for (sockets w) target with
  | Some _ => env_send env (steps w)
  | None => inl AddrNotAvailable
  end.

(** [send_datagram]; the sends of the request are kept in [sends]. *)
Definition send_datagram (env : Env) (packet : list Z) (target : SocketAddr)
  : act (io_error + Z) := fun w =>
  let r := send_to env target w in
  let t := now w + env_delay env (steps w) in
  (Ok r, mkWorld t (S (steps w)) (inbox w) (sockets w) (server_stats w)
           (sends w ++ [mkSend t packet target r])).

(** An update of the shared statistics. *)
Definition modify_stats (f : gmap Z ServerStats -> gmap Z ServerStats) : act unit := fun w =>
  (Ok tt, mkWorld (now w) (steps w) (inbox w) (sockets w) (f (server_stats w)) (sends w)).

(** [stats.entry(id).or_insert_with(new)] followed by an update of the entry. *)
Definition upsert_stats (now : Z) (id : Z) (f : ServerStats -> ServerStats)
    (stats : gmap Z ServerStats) : gmap Z ServerStats :=
  <[id := f (default (new_server_stats now) (stats !! id))]> stats.

(** The time the oracle adds between two numbers of steps. *)
Fixpoint delays (env : Env) (from : nat) (n : nat) : Z :=
  match n with
  | O => 0
  | S n => env_delay env from + delays env (S from) n
  end.

(** Time between two worlds, less the oracle's delays: what the code itself waits. *)
Definition waits (env : Env) (w w' : World) : Z :=
  now w' - now w - delays env (steps w) (steps w' - steps w).

Lemma delays_nonneg env from n : env_ok env -> 0 <= delays env from n.
Proof.
  intros H. revert from. induction n as [|n IH]; intros from; cbn [delays]; [lia|].
  specialize (H from). specialize (IH (S from)). lia.
Qed.

Lemma delays_app env from n m : delays env from (n + m) = delays env from n + delays env (from + n) m.
Proof.
  revert from. induction n as [|n IH]; intros from; cbn [delays Nat.add].
  - by rewrite Nat.add_0_r.
  - rewrite IH. replace (S from + n)%nat with (from + S n)%nat by lia. lia.
Qed.

Lemma act_bind_ok {A B} (m : act A) (f : A -> act B) w b w' :
  (m ≫= f) w = (Ok b, w') <-> exists a w1, m w = (Ok a, w1) /\ f a w1 = (Ok b, w').
Proof.
  unfold mbind, act_bind. destruct (m w) as [[a|e|] w1]; split; intros H; try done.
  - eauto.
  - by destruct H as (? & ? & [= <- <-] & ?).
  - by destruct H as (? & ? & ? & ?).
  - by destruct H as (? & ? & ? & ?).
Qed.

(** Runs the first step of a bind. *)
Lemma act_run {A B} (m : act A) (f : A -> act B) w a w1 :
  m w = (Ok a, w1) -> (m ≫= f) w = f a w1.
Proof. intros H. unfold mbind, act_bind. by rewrite H. Qed.

Lemma act_run_err {A B} (m : act A) (f : A -> act B) w e w1 :
  m w = (Err e, w1) -> (m ≫= f) w = (Err e, w1).
Proof. intros H. unfold mbind, act_bind. by rewrite H. Qed.

(** ** What an action sends *)

(** Every datagram the action sends is [packet]. *)
Definition emits {A} (packet : list Z) (m : act A) : Prop :=
  forall w, exists new, sends (m w).2 = sends w ++ new /\ Forall (fun s => send_packet s = packet) new.

Lemma emits_quiet {A} packet (m : act A) : (forall w, sends (m w).2 = sends w) -> emits packet m.
Proof. intros H w. exists []. by rewrite H, app_nil_r. Qed.

Lemma emits_bind {A B} packet (m : act A) (f : A -> act B) :
  emits packet m -> (forall a, emits packet (f a)) -> emits packet (m ≫= f).
Proof.
  intros Hm Hf w. destruct (Hm w) as (new & Hs & Hn). unfold mbind, act_bind.
  destruct (m w) as [[a|e|] w1] eqn:Hmw; cbn [snd] in *; [|by exists new..].
  destruct (Hf a w1) as (new' & Hs' & Hn'). exists (new ++ new').
  rewrite Hs', Hs, app_assoc. split; [done | by apply Forall_app].
Qed.

Lemma emits_try {A} packet (m : act A) : emits packet m -> emits packet (try_act m).
Proof. intros Hm w. destruct (Hm w) as (new & Hs & Hn). exists new. unfold try_act. by destruct (m w) as [[]]. Qed.

Lemma emits_with_world {A} packet (f : World -> act A) :
  (forall w, emits packet (f w)) -> emits packet (with_world f).
Proof. intros Hf w. apply Hf. Qed.

Lemma emits_send env packet target : emits packet (send_datagram env packet target).
Proof. intros w. eexists. split; [reflexivity|]. forall_list. done. Qed.

Lemma emits_ret {A} packet (a : A) : emits packet (ret a).
Proof. by apply emits_quiet. Qed.
Lemma emits_lift {A} packet (m : outcome CoreError A) : emits packet (lift m).
Proof. by apply emits_quiet. Qed.
Lemma emits_clock env packet : emits packet (clock env).
Proof. by apply emits_quiet. Qed.
Lemma emits_modify packet f : emits packet (modify_stats f).
Proof. by apply emits_quiet. Qed.
Lemma emits_recv env packet remaining : emits packet (recv_timeout env remaining).
Proof.
  apply emits_quiet. intros w. unfold recv_timeout. destruct (inbox w) as [|[a p] rest]; [done|].
  by destruct (a <=? _).
Qed.

Create HintDb emits.
#[export] Hint Resolve emits_send emits_ret emits_lift emits_clock emits_modify emits_recv emits_try
  emits_with_world : emits.

(** Decomposes an action into its steps. *)
Ltac emit_steps :=
  repeat first
    [ progress auto with emits
    | match goal with
      | |- emits _ (_ ≫= _) => apply emits_bind; [|intros ?]
      | |- emits _ (with_world _) => apply emits_with_world; intros ?
      | |- emits _ (if ?b then _ else _) => destruct b
      | |- emits _ (match ?x with _ => _ end) => destruct x
      end ].
