(* ===== verification/Selection.v ===== *)
(** * Delivery and selection (src/src/client.rs)

    Sending a request to the servers that have not answered, accepting their
    responses, and the high-availability policy that picks one. *)

From stdpp Require Import sorting.
From S2P Require Import Prelude Errors Codec ApiKey Policy Net Sockets Config Wire Auth Request Response.
From S2P Require Import Age Discovery World.

(** The [seen_server_ids] and [seen_addrs] of a request. *)
Record Seen := mkSeen { seen_server_ids : gset Z; seen_addrs : gset SocketAddr }.
Definition no_seen : Seen := {| seen_server_ids := ∅; seen_addrs := ∅ |}.

(** A [u64] event counter, with the wrap-around of a release build. *)
Definition bump (n : Z) : Z := as_u64 (n + 1).

Section Delivery.
Context `{Primitives} (env : Env) (cfg : CoreConfig).

(** ** Sending *)

(** The [responded] test of [send_to_missing]. *)
Definition responded (resolved : ResolvedTargets) (seen : Seen) (target : SocketAddr) : bool :=
  match target_server_ids resolved !! target with
  | None => bool_decide (target ∈ seen_addrs seen)
  | Some id => bool_decide (id ∈ seen_server_ids seen)
  end.

(** The counters of the send loop. *)
Record Tally := mkTally {
  attempted : Z;
  delivered : Z;
  last_error : option io_error;
  failed_server_ids : list Z;
}.

Fixpoint send_loop (packet : list Z) (resolved : ResolvedTargets) (seen : Seen)
    (ts : list SocketAddr) (t : Tally) : act Tally :=
  match ts with
  | [] => ret t
  | target :: ts =>
      if responded resolved seen target then send_loop packet resolved seen ts t
      else
        r ← send_datagram env packet target;
        let t :=
          match r with
          | inr _ => mkTally (attempted t + 1) (delivered t + 1) (last_error t) (failed_server_ids t)
          | inl error =>
              mkTally (attempted t + 1) (delivered t) (Some error)
                (match target_server_ids resolved !! target with
                 | Some id => failed_server_ids t ++ [id]
                 | None => failed_server_ids t
                 end)
          end in
        send_loop packet resolved seen ts t
  end.

Definition record_send_failures (server_ids : list Z) : act unit :=
  match server_ids with
  | [] => ret tt
  | _ =>
      now ← clock env;
      modify_stats (fun stats =>
        fold_left (fun stats id =>
          upsert_stats now id
            (fun s => mkServerStats (last_seen s) (valid_responses s) (bump (send_failures s))) stats)
          server_ids stats)
  end.

Definition send_to_missing (packet : list Z) (resolved : ResolvedTargets) (seen : Seen) : act unit :=
  t ← send_loop packet resolved seen (targets resolved) (mkTally 0 0 None []);
  if delivered t =? 0 then
    match last_error t with
    | Some error => lift (Err (CoreIo error))
    | None => ret tt
    end
  else if delivered t <? attempted t then record_send_failures (failed_server_ids t)
  else ret tt.

(** ** Receiving *)

Definition accept_policy_response (packet : ResponsePacket) (allowed : gset Z) (seen : Seen)
  : act (option RateLimitResult * Seen) :=
  match peek_server_id (packet_data packet) with
  | Panic => lift Panic
  | Err _ => ret (None, seen)
  | Ok id =>
      if negb (bool_decide (allowed = ∅)) && negb (bool_decide (id ∈ allowed)) then ret (None, seen)
      else
        match parse_rate_response cfg (packet_data packet) with
        | Panic => lift Panic
        | Err _ => ret (None, seen)
        | Ok result =>
            let seen := mkSeen ({[server_id result]} ∪ seen_server_ids seen)
                               ({[packet_addr packet]} ∪ seen_addrs seen) in
            now ← clock env;
            _ ← modify_stats (upsert_stats now (server_id result)
                  (fun s => mkServerStats now (bump (valid_responses s)) (send_failures s)));
            ret (Some result, seen)
        end
  end.

(** How a receive loop ends: its deadline passed, or it returned a response.
    [OutOfFuel] is not an exit of the code; [round_loop_spec] shows that the fuel
    given suffices. *)
Inductive loop_exit : Type :=
| Expired (best : option RateLimitResult) (seen : Seen)
| Returned (best : option RateLimitResult) (seen : Seen)
| OutOfFuel.

(** [best.as_ref().is_none_or(|current| ... .is_lt())]. *)
Definition replaces (best : option RateLimitResult) (result : RateLimitResult)
  : outcome CoreError bool :=
  match best with
  | None => Ok true
  | Some current =>
      c ← compare_server_age (server_id result) (server_id current);
      Ok (match c with Lt => true | _ => false end)
  end.

(** The [while] loop of a transmission round. *)
Fixpoint round_loop (fuel : nat) (allowed : gset Z) (oldest : option Z) (round deadline : Z)
    (best : option RateLimitResult) (seen : Seen) : act loop_exit :=
  match fuel with
  | O => ret OutOfFuel
  | S fuel =>
      t ← clock env;
      if t <? deadline then
        t ← clock env;
        let remaining := Z.max 0 (deadline - t) in
        received ← recv_timeout env remaining;
        match received with
        | None => ret (Expired best seen)
        | Some packet =>
            '(accepted, seen) ← accept_policy_response packet allowed seen;
            match accepted with
            | None => round_loop fuel allowed oldest round deadline best seen
            | Some result =>
                better ← lift (replaces best result);
                let best := if (better : bool) then Some result else best in
                if bool_decide (oldest = Some (server_id result)) || (round >? 0)
                then ret (Returned best seen)
                else round_loop fuel allowed oldest round deadline best seen
            end
        end
      else ret (Expired best seen)
  end.

(** The [while] loop of the final receive phase. *)
Fixpoint final_loop (fuel : nat) (allowed : gset Z) (deadline : Z) (seen : Seen) : act loop_exit :=
  match fuel with
  | O => ret OutOfFuel
  | S fuel =>
      t ← clock env;
      if t <? deadline then
        t ← clock env;
        let remaining := Z.max 0 (deadline - t) in
        received ← recv_timeout env remaining;
        match received with
        | None => ret (Expired None seen)
        | Some packet =>
            '(accepted, seen) ← accept_policy_response packet allowed seen;
            match accepted with
            | None => final_loop fuel allowed deadline seen
            | Some result => ret (Returned (Some result) seen)
            end
        end
      else ret (Expired None seen)
  end.

(** Every turn of a loop that goes on takes a packet from the channel. *)
Definition channel_fuel (w : World) : nat := S (length (inbox w)).

(** [Duration::from_millis(ms)] in nanoseconds. *)
Definition millis (ms : Z) : Z := ms * 1000000.

(** The rounds [round], [round + 1], ... of the transmission loop, [n] of them, then
    the final receive phase: the body of the [async] block. *)
Fixpoint select_rounds (n : nat) (policy : RequestPolicy) (packet : list Z)
    (resolved : ResolvedTargets) (oldest : option Z) (round : Z) (seen : Seen)
  : act (option RateLimitResult * Seen) :=
  match n with
  | O =>
      if final_receive_units policy >? 0 then
        t ← clock env;
        let deadline := t + millis (saturating_mul u64_max (unit_ms policy)
                                      (final_receive_units policy)) in
        exit ← with_world (fun w =>
          final_loop (channel_fuel w) (allowed_server_ids resolved) deadline seen);
        match exit with
        | Expired _ seen => ret (None, seen)
        | Returned best seen => ret (best, seen)
        | OutOfFuel => lift Panic
        end
      else ret (None, seen)
  | S n =>
      _ ← send_to_missing packet resolved seen;
      u ← lift (map_err config_error (units (replay_gap policy) round));
      t ← clock env;
      let deadline := t + millis (saturating_mul u64_max (unit_ms policy) u) in
      exit ← with_world (fun w =>
        round_loop (channel_fuel w) (allowed_server_ids resolved) oldest round deadline None seen);
      match exit with
      | Returned best seen => ret (best, seen)
      | Expired (Some best) seen => ret (Some best, seen)
      | Expired None seen => select_rounds n policy packet resolved oldest (round + 1) seen
      | OutOfFuel => lift Panic
      end
  end.

(** [_check_rate_limit_with_retries] from [oldest_server_id] to the completion
    delivery. *)
Definition deliver_and_select (policy : RequestPolicy) (dedup_ttl_ms : Z) (packet : list Z)
    (resolved : ResolvedTargets) : act RateLimitResult :=
  oldest_server_id ← lift (min_by_age (elements (allowed_server_ids resolved)) None);
  started_at ← clock env;
  '(selected, seen) ← select_rounds (Z.to_nat (replay_count policy + 1)) policy packet resolved
                        oldest_server_id 0 no_seen;
  match selected with
  | None => lift (Err CoreTimeout)
  | Some result =>
      t ← (if completion_delivery policy then clock env else ret 0);
      _ ← (if completion_delivery policy && (t - started_at <? millis dedup_ttl_ms)
           then _ ← try_act (send_to_missing packet resolved seen); ret tt
           else ret tt);
      ret result
  end.

End Delivery.

(** ** Steps of the world *)

Section World.
Context (env : Env).

(** The time of a world less what the oracle has added to it. *)
Definition own_time (w : World) : Z := now w - delays env 0 (steps w).

(** Nothing but the clock and the statistics moved. *)
Record calm (w w' : World) : Prop := {
  calm_inbox : inbox w' = inbox w;
  calm_sends : sends w' = sends w;
  calm_sockets : sockets w' = sockets w;
  calm_own : own_time w' = own_time w;
  calm_steps : (steps w <= steps w')%nat;
}.

Lemma calm_refl w : calm w w.
Proof. by split. Qed.

Lemma calm_trans w1 w2 w3 : calm w1 w2 -> calm w2 w3 -> calm w1 w3.
Proof. intros [] []. split; congruence || lia. Qed.

Lemma delays_S n : delays env 0 (S n) = delays env 0 n + env_delay env n.
Proof. replace (S n) with (n + 1)%nat by lia. rewrite delays_app. cbn. lia. Qed.

Lemma delays_mono n m : env_ok env -> (n <= m)%nat -> delays env 0 n <= delays env 0 m.
Proof.
  intros He Hm. replace m with (n + (m - n))%nat by lia. rewrite delays_app.
  pose proof (delays_nonneg env (0 + n) (m - n) He). lia.
Qed.

(** A calm step takes as long as the oracle says. *)
Lemma calm_now w w' : env_ok env -> calm w w' -> now w <= now w'.
Proof.
  intros He [_ _ _ Ho Hs]. unfold own_time in Ho.
  pose proof (delays_mono _ _ He Hs). lia.
Qed.

Lemma clock_calm w : exists w', clock env w = (Ok (now w'), w') /\ calm w w'.
Proof.
  exists (clock env w).2. split; [reflexivity|]. split; try done; cbn; [|lia].
  unfold own_time. cbn [now steps]. rewrite delays_S. lia.
Qed.

Lemma modify_calm f w : exists w', modify_stats f w = (Ok tt, w') /\ calm w w' /\ now w' = now w.
Proof. exists (modify_stats f w).2. split; [reflexivity|]. by split. Qed.

Lemma recv_spec rem w :
  env_ok env -> 0 <= rem ->
  exists r w', recv_timeout env rem w = (Ok r, w') /\
    sends w' = sends w /\ sockets w' = sockets w /\ (steps w <= steps w')%nat /\
    own_time w <= own_time w' <= own_time w + rem /\
    match r with
    | Some p => exists a, inbox w = (a, p) :: inbox w' /\ a <= now w'
    | None => inbox w' = inbox w /\ now w + rem <= now w' /\
        forall a p rest, inbox w = (a, p) :: rest -> now w' < a
    end.
Proof.
  intros He Hr. pose proof (He (steps w)) as Hd. unfold recv_timeout.
  destruct (inbox w) as [|[a p] rest] eqn:Hi.
  - eexists None, _. split; [reflexivity|]. unfold own_time. cbn [now steps sends sockets inbox].
    rewrite delays_S. split_and!; try done; lia.
  - destruct (Z.leb_spec a (Z.max (now w) (Z.min a (now w + rem)) + env_delay env (steps w))).
    + eexists (Some p), _. split; [reflexivity|]. unfold own_time. cbn [now steps sends sockets inbox].
      rewrite delays_S. split_and!; try done; try lia. exists a. split; [done | lia].
    + eexists None, _. split; [reflexivity|]. unfold own_time. cbn [now steps sends sockets inbox].
      rewrite delays_S. split_and!; try done; try lia. intros ? ? ? [= <- <- <-]. lia.
Qed.

(** What the oracle added between two worlds. *)
Definition lag (w w' : World) : Z := delays env 0 (steps w') - delays env 0 (steps w).

Lemma lag_nonneg w w' : env_ok env -> (steps w <= steps w')%nat -> 0 <= lag w w'.
Proof. intros He Hs. unfold lag. pose proof (delays_mono _ _ He Hs). lia. Qed.

Lemma own_lag w w' : now w' - now w = own_time w' - own_time w + lag w w'.
Proof. unfold own_time, lag. lia. Qed.

(** The task sleeps until the first packet at most. *)
Lemma recv_lag rem w p w' :
  recv_timeout env rem w = (Ok (Some p), w') ->
  forall a q rest, inbox w = (a, q) :: rest -> now w' <= Z.max (now w) a + lag w w'.
Proof.
  intros Hr a q rest Hi. unfold recv_timeout in Hr. rewrite Hi in Hr.
  destruct (_ <=? _); [|done]. injection Hr as _ <-. unfold lag. cbn [now steps]. rewrite delays_S. lia.
Qed.

End World.

(** The channel holds the packets in the order of their arrival. *)
Definition in_order (l : list (Z * ResponsePacket)) : Prop := StronglySorted (fun x y => x.1 <= y.1) l.

Lemma in_order_tail x l y : in_order (x :: l) -> y ∈ l -> x.1 <= y.1.
Proof. intros H Hy. apply StronglySorted_cons in H as [H _]. rewrite Forall_forall in H. by apply H. Qed.

Lemma in_order_cons x l : in_order (x :: l) -> in_order l.
Proof. by intros [_ H]%StronglySorted_cons. Qed.

Lemma in_order_app l k : in_order (l ++ k) -> in_order k.
Proof. apply StronglySorted_app_1_r. Qed.

(** ** Valid responses *)

Section Selection.
Context `{PrimitivesLaws} (env : Env) (Henv : env_ok env) (cfg : CoreConfig) (Hcfg : config_ok cfg).

(** A packet the router can deliver. *)
Definition packet_ok (p : ResponsePacket) : Prop :=
  bytes_ok (packet_data p) /\ zlen (packet_data p) <= datagram_max.
Definition arrivals_ok (l : list (Z * ResponsePacket)) : Prop := Forall (fun x => packet_ok x.2) l.

(** The response a packet carries: it parses, under this key, and names an allowed
    server. *)
Definition valid_response (allowed : gset Z) (p : ResponsePacket) : option RateLimitResult :=
  match parse_rate_response cfg (packet_data p) with
  | Ok r => if bool_decide (allowed = ∅) || bool_decide (server_id r ∈ allowed) then Some r else None
  | _ => None
  end.

Definition see (seen : Seen) (p : ResponsePacket) (r : RateLimitResult) : Seen :=
  mkSeen ({[server_id r]} ∪ seen_server_ids seen) ({[packet_addr p]} ∪ seen_addrs seen).

Lemma parse_rate_response_id data r :
  bytes_ok data -> zlen data <= datagram_max -> parse_rate_response cfg data = Ok r ->
  peek_server_id data = Ok (server_id r) /\ in_u64 (server_id r).
Proof.
  intros Hb Hl Hr. destruct Hcfg as (_ & Hm & _).
  apply parse_datagram_iff in Hr; [|done..].
  destruct Hr as [h ext body pdu gs rs Ht Ha Hp Er]. rewrite Er, <- app_assoc. clear Er.
  split; [by apply peek_frame|]. by destruct Ht as ((_ & _ & Hk & _) & _).
Qed.

Lemma no_panic_parse_rate_response data :
  bytes_ok data -> zlen data <= datagram_max -> no_panic (parse_rate_response cfg data).
Proof. intros. destruct Hcfg as (_ & Hm & _). by apply no_panic_parse_datagram. Qed.

Lemma accept_spec p allowed seen w :
  packet_ok p ->
  exists w', accept_policy_response env cfg p allowed seen w
    = (Ok (valid_response allowed p,
           match valid_response allowed p with Some r => see seen p r | None => seen end), w') /\
    calm env w w'.
Proof.
  intros [Hb Hl]. unfold accept_policy_response, valid_response.
  pose proof (no_panic_parse_rate_response _ Hb Hl) as Hnp.
  destruct (no_panic_peeks (packet_data p)) as [Hpk _].
  destruct (parse_rate_response cfg (packet_data p)) as [r|e|] eqn:Hr; [| |done].
  - destruct (parse_rate_response_id _ _ Hb Hl Hr) as [-> _].
    destruct (bool_decide (allowed = ∅)), (bool_decide (server_id r ∈ allowed)); cbn [negb andb orb];
      try (eexists; split; [reflexivity | apply calm_refl]);
      (destruct (clock_calm env w) as (w1 & Hc & Hw1);
       destruct (modify_calm env (upsert_stats (now w1) (server_id r)
         (fun s => mkServerStats (now w1) (bump (valid_responses s)) (send_failures s))) w1)
         as (w2 & Hm & Hw2 & _);
       exists w2; split; [|by eapply calm_trans];
       unfold mbind, act_bind; rewrite Hc, Hm; reflexivity).
  - destruct (peek_server_id (packet_data p)) as [id|[]|]; [| |done];
      [destruct (negb _ && negb _)|]; eexists; (split; [reflexivity | apply calm_refl]).
Qed.

Lemma valid_response_id allowed p r :
  packet_ok p -> valid_response allowed p = Some r ->
  in_u64 (server_id r) /\ (allowed = ∅ \/ server_id r ∈ allowed).
Proof.
  intros [Hb Hl]. unfold valid_response.
  destruct (parse_rate_response cfg (packet_data p)) eqn:Hr; [|done..].
  destruct (_ || _) eqn:Ha; [|done]. intros [= ->].
  split; [by eapply parse_rate_response_id|].
  apply orb_true_iff in Ha as [Ha|Ha]; apply bool_decide_eq_true in Ha; auto.
Qed.

(** ** The receive loops *)

(** The valid responses among some arrivals, in order. *)
Definition responses (allowed : gset Z) (cs : list (Z * ResponsePacket)) : list RateLimitResult :=
  omap (fun x => valid_response allowed x.2) cs.

(** What a request has seen after some arrivals. *)
Definition seen_after (allowed : gset Z) (seen : Seen) (cs : list (Z * ResponsePacket)) : Seen :=
  fold_left (fun s x => match valid_response allowed x.2 with Some r => see s x.2 r | None => s end)
    cs seen.

(** The oldest response, the first of them among equals. *)
Definition keep_older (best : option RateLimitResult) (r : RateLimitResult) : option RateLimitResult :=
  match best with
  | None => Some r
  | Some c => if server_id r <? server_id c then Some r else Some c
  end.
Definition oldest_of (best : option RateLimitResult) (rs : list RateLimitResult)
  : option RateLimitResult := fold_left keep_older rs best.

Definition ids_ok (best : option RateLimitResult) : Prop :=
  forall r, best = Some r -> in_u64 (server_id r).

Lemma replaces_ok best r :
  ids_ok best -> in_u64 (server_id r) ->
  exists b, replaces best r = Ok b /\ (if b then Some r else best) = keep_older best r.
Proof.
  intros Hb Hr. unfold replaces, keep_older. destruct best as [c|]; [|by exists true].
  rewrite compare_server_age_eq by (done || by apply Hb). cbn [mbind outcome_bind].
  eexists. split; [reflexivity|]. unfold Z.ltb. by destruct (server_id r ?= server_id c).
Qed.

Lemma keep_older_ids best r : ids_ok best -> in_u64 (server_id r) -> ids_ok (keep_older best r).
Proof.
  intros Hb Hr x. unfold keep_older. destruct best as [c|]; [destruct (_ <? _)|];
    intros [= <-]; done || by apply Hb.
Qed.

(** How the arrivals [cs] a loop took relate to the way it ended. *)
Definition exit_spec (allowed : gset Z) (oldest : option Z) (round deadline : Z)
    (best : option RateLimitResult) (seen : Seen) (cs : list (Z * ResponsePacket))
    (exit : loop_exit) (w' : World) : Prop :=
  let goes_on cs := round <= 0 /\ Forall (fun r => oldest <> Some (server_id r)) (responses allowed cs)
                    \/ responses allowed cs = [] in
  match exit with
  | OutOfFuel => False
  | Expired b s =>
      b = oldest_of best (responses allowed cs) /\ s = seen_after allowed seen cs /\
      goes_on cs /\ deadline <= now w'
  | Returned b s =>
      b = oldest_of best (responses allowed cs) /\ s = seen_after allowed seen cs /\
      exists cs0 x r, cs = cs0 ++ [x] /\ valid_response allowed x.2 = Some r /\ goes_on cs0 /\
        (oldest = Some (server_id r) \/ 0 < round)
  end.

(** One more arrival in front of those a loop takes afterwards. *)
Lemma exit_spec_cons allowed oldest round deadline best seen x cs exit w' :
  match valid_response allowed x.2 with
  | Some r => oldest <> Some (server_id r) /\ round <= 0 /\
      exit_spec allowed oldest round deadline (keep_older best r) (see seen x.2 r) cs exit w'
  | None => exit_spec allowed oldest round deadline best seen cs exit w'
  end ->
  exit_spec allowed oldest round deadline best seen (x :: cs) exit w'.
Proof.
  assert (Hresp : responses allowed (x :: cs)
    = match valid_response allowed x.2 with Some r => [r] | None => [] end ++ responses allowed cs).
  { unfold responses. cbn [omap list_omap]. by destruct (valid_response _ _). }
  intros He. destruct exit as [b s|b s|]; cbn [exit_spec] in *;
    [| |by destruct (valid_response allowed x.2); [destruct He as (_ & _ & [])|]].
  - rewrite Hresp. cbn [seen_after fold_left].
    destruct (valid_response allowed x.2) as [r|] eqn:Hv; cbn [app].
    + destruct He as (Hne & Hr & -> & -> & Hg & Hd). split_and!; try done.
      left. split; [done|]. constructor; [done|].
      destruct Hg as [[_ Hg]|Hg]; [done | rewrite Hg; constructor].
    + destruct He as (-> & -> & Hg & Hd). by split_and!.
  - rewrite Hresp. cbn [seen_after fold_left].
    destruct (valid_response allowed x.2) as [r|] eqn:Hv; cbn [app].
    + destruct He as (Hne & Hr & -> & -> & cs0 & y & r' & -> & Hy & Hg & Hex).
      split_and!; try done. exists (x :: cs0), y, r'. split_and!; try done.
      left. split; [done|]. unfold responses. cbn [omap list_omap]. rewrite Hv.
      constructor; [done|]. destruct Hg as [[_ Hg]|Hg]; [done|].
      unfold responses in Hg. rewrite Hg. constructor.
    + destruct He as (-> & -> & cs0 & y & r' & -> & Hy & Hg & Hex). split_and!; try done.
      exists (x :: cs0), y, r'. split_and!; try done.
      unfold responses in *. cbn [omap list_omap]. by rewrite Hv.
Qed.

Lemma exit_spec_expired allowed oldest round deadline best seen w' :
  deadline <= now w' -> exit_spec allowed oldest round deadline best seen [] (Expired best seen) w'.
Proof. intros Hd. split; [done|]. split; [done|]. split; [by right | done]. Qed.

Lemma exit_spec_returned allowed oldest round deadline best seen x r w' :
  valid_response allowed x.2 = Some r -> oldest = Some (server_id r) \/ 0 < round ->
  exit_spec allowed oldest round deadline best seen [x] (Returned (keep_older best r) (see seen x.2 r)) w'.
Proof.
  intros Hv Ho. cbn [exit_spec responses omap list_omap seen_after fold_left]. rewrite Hv.
  split; [done|]. split; [done|]. exists [], x, r. split; [done|]. split; [done|].
  split; [by right | done].
Qed.

(** What a turn of the loop, and the loop, leave alone, and how long they wait. *)
Record turned (deadline : Z) (w w' : World) : Prop := {
  turned_sends : sends w' = sends w;
  turned_sockets : sockets w' = sockets w;
  turned_steps : (steps w <= steps w')%nat;
  turned_own : own_time env w <= own_time env w' <= Z.max (own_time env w) (deadline - delays env 0 (steps w));
}.

Lemma turned_calm deadline w w' : calm env w w' -> turned deadline w w'.
Proof. intros [_ Hs Hk Ho Hst]. split; try done. lia. Qed.

Lemma turned_trans deadline w1 w2 w3 : turned deadline w1 w2 -> turned deadline w2 w3 -> turned deadline w1 w3.
Proof.
  intros [S1 K1 St1 O1] [S2 K2 St2 O2]. pose proof (delays_mono env _ _ Henv St1).
  split; congruence || lia.
Qed.

(** One turn: the loop ends at its deadline, or it takes the next packet and goes on or
    returns. *)
Lemma round_turn fuel allowed oldest round deadline best seen w :
  arrivals_ok (inbox w) -> ids_ok best ->
  let loop fuel := round_loop env cfg fuel allowed oldest round deadline in
  (exists w', loop (S fuel) best seen w = (Ok (Expired best seen), w') /\ turned deadline w w' /\
     inbox w' = inbox w /\ deadline <= now w' /\
     forall x rest, inbox w = x :: rest -> deadline <= Z.max (now w) x.1 + lag env w w') \/
  exists a p w', inbox w = (a, p) :: inbox w' /\ turned deadline w w' /\ packet_ok p /\
    now w' <= Z.max (now w) a + lag env w w' /\
    loop (S fuel) best seen w =
      match valid_response allowed p with
      | None => loop fuel best seen w'
      | Some r =>
          if bool_decide (oldest = Some (server_id r)) || (round >? 0)
          then (Ok (Returned (keep_older best r) (see seen p r)), w')
          else loop fuel (keep_older best r) (see seen p r) w'
      end.
Proof.
  intros Hin Hids. cbv zeta. cbn [round_loop]. destruct (clock_calm env w) as (w1 & Hc1 & Hw1).
  rewrite !(act_run _ _ _ _ _ Hc1). pose proof (own_lag env w w1). pose proof (calm_own _ _ _ Hw1).
  destruct (Z.ltb_spec (now w1) deadline) as [Ht|Ht].
  2:{ left. exists w1. split; [done|]. split; [by apply turned_calm|]. split; [apply Hw1|]. split; [done|]. lia. }
  destruct (clock_calm env w1) as (w2 & Hc2 & Hw2). rewrite !(act_run _ _ _ _ _ Hc2).
  pose proof (calm_now _ _ _ Henv Hw2) as Hn2. pose proof (calm_trans _ _ _ _ Hw1 Hw2) as Hw12.
  destruct (recv_spec env (Z.max 0 (deadline - now w2)) w2 Henv ltac:(lia))
    as (r & w3 & Hr & Hs3 & Hk3 & Hst3 & Ho3 & Hm). rewrite !(act_run _ _ _ _ _ Hr).
  assert (H23 : turned deadline w2 w3) by (split; try done; unfold own_time in *; lia).
  pose proof (turned_trans _ _ _ _ (turned_calm _ _ _ Hw12) H23) as H03.
  pose proof (calm_inbox _ _ _ Hw12) as Hi2. pose proof (lag_nonneg env w w3 Henv (turned_steps _ _ _ H03)).
  destruct r as [p|].
  2:{ left. exists w3. destruct Hm as (Hi3 & Hn3 & Hlate). split; [done|]. split; [done|]. split; [congruence|].
      split; [lia|]. intros [a q] rest Hi. rewrite <- Hi2 in Hi. specialize (Hlate _ _ _ Hi). cbn. lia. }
  right. destruct Hm as (a & Hi3 & _). pose proof (recv_lag env _ _ _ _ Hr _ _ _ Hi3) as Hn3. rewrite Hi2 in Hi3.
  assert (Hp : packet_ok p) by (rewrite Hi3 in Hin; by inversion Hin).
  destruct (accept_spec p allowed seen w3 Hp) as (w4 & Hacc & Hw4). rewrite !(act_run _ _ _ _ _ Hacc).
  exists a, p, w4. split; [by rewrite (calm_inbox _ _ _ Hw4)|].
  split; [by eapply turned_trans, turned_calm|]. split; [done|]. split.
  { pose proof (own_lag env w w2). pose proof (own_lag env w3 w4). pose proof (calm_own _ _ _ Hw12).
    pose proof (calm_own _ _ _ Hw4). pose proof (lag_nonneg env w w2 Henv (calm_steps _ _ _ Hw12)).
    pose proof (lag_nonneg env w3 w4 Henv (calm_steps _ _ _ Hw4)). unfold lag in *. lia. }
  destruct (valid_response allowed p) as [r|] eqn:Hv; [|done].
  destruct (replaces_ok best r Hids (proj1 (valid_response_id _ _ _ Hp Hv))) as (b & Hrep & Hkeep).
  rewrite (act_run (lift (replaces best r)) _ w4 b w4) by (unfold lift; by rewrite Hrep). rewrite Hkeep.
  by destruct (bool_decide _ || _).
Qed.

(** The loop takes some arrivals and ends as the policy says, never out of fuel,
    and waits no longer than until its deadline. *)
Lemma round_loop_spec fuel allowed oldest round deadline best seen w :
  arrivals_ok (inbox w) -> ids_ok best -> (length (inbox w) < fuel)%nat ->
  exists exit w' cs,
    round_loop env cfg fuel allowed oldest round deadline best seen w = (Ok exit, w') /\
    inbox w = cs ++ inbox w' /\ turned deadline w w' /\
    exit_spec allowed oldest round deadline best seen cs exit w'.
Proof.
  revert best seen w. induction fuel as [|fuel IH]; intros best seen w Hin Hids Hf; [lia|].
  destruct (round_turn fuel allowed oldest round deadline best seen w Hin Hids)
    as [(w' & E & Hw & Hi & Hd & _)|(a & p & w1 & Hi & Hw & Hp & _ & E)].
  { exists (Expired best seen), w', []. rewrite Hi. split_and!; try done. by apply exit_spec_expired. }
  assert (Hin1 : arrivals_ok (inbox w1)) by (rewrite Hi in Hin; by inversion Hin).
  rewrite Hi in Hf. cbn [length] in Hf. rewrite E.
  assert (Hgo : forall best' seen', ids_ok best' ->
    exists exit w' cs,
      round_loop env cfg fuel allowed oldest round deadline best' seen' w1 = (Ok exit, w') /\
      inbox w = ((a, p) :: cs) ++ inbox w' /\ turned deadline w w' /\
      exit_spec allowed oldest round deadline best' seen' cs exit w').
  { intros best' seen' Hb'. destruct (IH best' seen' w1 Hin1 Hb' ltac:(lia)) as (exit & w' & cs & Hl & Hi' & Hw' & Hex).
    exists exit, w', cs. split_and!; try done; [by rewrite Hi, Hi' | by eapply turned_trans]. }
  destruct (valid_response allowed p) as [r|] eqn:Hv.
  - destruct (bool_decide_reflect (oldest = Some (server_id r))) as [Hold|Hold]; cbn [orb];
      [|rewrite Z.gtb_ltb; destruct (Z.ltb_spec 0 round)].
    1,2: exists (Returned (keep_older best r) (see seen p r)), w1, [(a, p)]; split_and!; try done;
      apply (exit_spec_returned _ _ _ _ _ _ (a, p)); auto.
    destruct (Hgo (keep_older best r) (see seen p r)) as (exit & w' & cs & Hl & Hi' & Hw' & Hex);
      [by apply keep_older_ids, (valid_response_id _ _ _ Hp Hv)|].
    exists exit, w', ((a, p) :: cs). split_and!; try done.
    apply exit_spec_cons. cbn [snd]. rewrite Hv. split_and!; try done; lia.
  - destruct (Hgo best seen Hids) as (exit & w' & cs & Hl & Hi' & Hw' & Hex).
    exists exit, w', ((a, p) :: cs). split_and!; try done. apply exit_spec_cons. cbn [snd]. by rewrite Hv.
Qed.

(** A loop that ran to its deadline left only packets that came too late: later than
    the deadline, less what the oracle added. *)
Lemma round_loop_patient fuel allowed oldest round deadline best seen w exit w' :
  arrivals_ok (inbox w) -> in_order (inbox w) -> ids_ok best ->
  round_loop env cfg fuel allowed oldest round deadline best seen w = (Ok exit, w') ->
  (steps w <= steps w')%nat /\ (forall x, x ∈ inbox w' -> x ∈ inbox w) /\
  match exit with
  | Expired _ _ => forall x, x ∈ inbox w' -> deadline <= Z.max (now w) x.1 + lag env w w'
  | _ => True
  end.
Proof.
  revert best seen w. induction fuel as [|fuel IH]; intros best seen w Hin Hord Hids.
  { cbn [round_loop]. by intros [= <- <-]. }
  destruct (round_turn fuel allowed oldest round deadline best seen w Hin Hids)
    as [(w1 & -> & Hw & Hi & _ & Hlate)|(a & p & w1 & Hi & Hw & Hp & Hn & ->)]; pose proof (turned_steps _ _ _ Hw).
  { intros [= <- <-]. rewrite Hi. split_and!; [done | done |]. intros x Hx.
    destruct (inbox w) as [|y rest] eqn:Hiw; [set_solver|]. specialize (Hlate y rest eq_refl).
    apply elem_of_cons in Hx as [->|Hx]; [done|]. pose proof (in_order_tail _ _ _ Hord Hx). lia. }
  rewrite Hi in Hin, Hord. assert (Hin1 : arrivals_ok (inbox w1)) by (by inversion Hin).
  pose proof (lag_nonneg env w w1 Henv ltac:(done)).
  assert (Hgo : forall best' seen', ids_ok best' ->
    round_loop env cfg fuel allowed oldest round deadline best' seen' w1 = (Ok exit, w') ->
    (steps w <= steps w')%nat /\ (forall x, x ∈ inbox w' -> x ∈ inbox w) /\
    match exit with
    | Expired _ _ => forall x, x ∈ inbox w' -> deadline <= Z.max (now w) x.1 + lag env w w'
    | _ => True
    end).
  { intros best' seen' Hb' Hl. destruct (IH best' seen' w1 Hin1 (in_order_cons _ _ Hord) Hb' Hl)
      as (Hst & Hsub & Hex). split; [lia|]. split; [intros x Hx; rewrite Hi; right; by apply Hsub|].
    destruct exit as [b s|b s|]; try done. intros x Hx. specialize (Hex x Hx).
    pose proof (in_order_tail _ _ _ Hord (Hsub x Hx)) as Hax. cbn [fst] in Hax. unfold lag in *. lia. }
  destruct (valid_response allowed p) as [r|] eqn:Hv; [|by apply Hgo].
  destruct (bool_decide (oldest = Some (server_id r)) || (round >? 0)).
  - intros [= <- <-]. split; [done|]. split; [rewrite Hi; set_solver | done].
  - by apply Hgo, keep_older_ids, (valid_response_id _ _ _ Hp Hv).
Qed.

(** The final phase is a round that accepts the first valid response. *)
Lemma final_loop_eq fuel allowed oldest deadline seen w :
  arrivals_ok (inbox w) ->
  final_loop env cfg fuel allowed deadline seen w
  = round_loop env cfg fuel allowed oldest 1 deadline None seen w.
Proof.
  revert seen w. induction fuel as [|fuel IH]; intros seen w Hin; [done|].
  cbn [final_loop round_loop].
  destruct (clock_calm env w) as (w1 & Hc1 & Hw1). rewrite !(act_run _ _ _ _ _ Hc1).
  destruct (now w1 <? deadline); [|done].
  destruct (clock_calm env w1) as (w2 & Hc2 & Hw2). rewrite !(act_run _ _ _ _ _ Hc2).
  destruct (recv_spec env (Z.max 0 (deadline - now w2)) w2 Henv ltac:(lia))
    as (r & w3 & Hr & _ & _ & _ & _ & Hm).
  rewrite !(act_run _ _ _ _ _ Hr). destruct r as [p|]; [|done].
  destruct Hm as (a & Hi3 & _).
  rewrite (calm_inbox _ _ _ Hw2), (calm_inbox _ _ _ Hw1) in Hi3. rewrite Hi3 in Hin.
  inversion Hin as [|? ? Hp Hin3]; subst.
  destruct (accept_spec p allowed seen w3 Hp) as (w4 & Hacc & Hw4).
  rewrite !(act_run _ _ _ _ _ Hacc).
  destruct (valid_response allowed p) as [r|].
  - rewrite (act_run (lift (replaces None r)) _ w4 true w4) by done. by rewrite orb_true_r.
  - apply IH. by rewrite (calm_inbox _ _ _ Hw4).
Qed.

End Selection.

(** ** Sending *)

Definition failure (s : Send) : option io_error :=
  match send_result s with inl e => Some e | inr _ => None end.

Definition reached (s : Send) : bool :=
  match send_result s with inl _ => false | inr _ => true end.

(** The error of a delivery that reached nobody: that of its last datagram. *)
Definition delivery_error (new : list Send) : option io_error :=
  if forallb (fun s => negb (reached s)) new then last (omap failure new) else None.

(** The targets that have not responded, in the order of the snapshot. *)
Definition missing (resolved : ResolvedTargets) (seen : Seen) : list SocketAddr :=
  List.filter (fun t => negb (responded resolved seen t)) (targets resolved).

Section Sending.
Context (env : Env).

(** One datagram per target to be reached, in order, and nothing else moves. *)
Definition sent_to (ts : list SocketAddr) (w w' : World) (new : list Send) : Prop :=
  sends w' = sends w ++ new /\ map send_target new = ts /\ inbox w' = inbox w /\
  sockets w' = sockets w /\ own_time env w' = own_time env w /\ (steps w <= steps w')%nat.

Lemma send_datagram_spec packet target w :
  exists r w', send_datagram env packet target w = (Ok r, w') /\
    exists s, sent_to [target] w w' [s] /\ send_result s = r.
Proof.
  eexists _, (send_datagram env packet target w).2. split; [reflexivity|].
  exists (mkSend (now w + env_delay env (steps w)) packet target (send_to env target w)).
  split; [|reflexivity]. unfold sent_to, own_time. cbn [now steps sends inbox sockets send_datagram snd].
  rewrite delays_S. split_and!; try done; lia.
Qed.

Lemma sent_to_trans ts1 ts2 w1 w2 w3 n1 n2 :
  sent_to ts1 w1 w2 n1 -> sent_to ts2 w2 w3 n2 -> sent_to (ts1 ++ ts2) w1 w3 (n1 ++ n2).
Proof.
  intros (S1 & T1 & I1 & K1 & O1 & St1) (S2 & T2 & I2 & K2 & O2 & St2).
  unfold sent_to. rewrite map_app, S2, S1, T1, T2, app_assoc. split_and!; congruence || lia.
Qed.

Lemma sent_to_calm ts w w1 w2 new :
  sent_to ts w w1 new -> calm env w1 w2 -> sent_to ts w w2 new.
Proof.
  intros (S1 & T1 & I1 & K1 & O1 & St1) [I2 S2 K2 O2 St2].
  unfold sent_to. split_and!; congruence || lia.
Qed.

(** The loop's counters count its datagrams. *)
Lemma send_loop_spec packet resolved seen ts t w :
  exists t' w' new, send_loop env packet resolved seen ts t w = (Ok t', w') /\
    sent_to (List.filter (fun t => negb (responded resolved seen t)) ts) w w' new /\
    attempted t' = attempted t + zlen new /\
    delivered t' = delivered t + zlen (List.filter reached new) /\
    last_error t' = match last (omap failure new) with Some e => Some e | None => last_error t end.
Proof.
  revert t w. induction ts as [|target ts IH]; intros t w; cbn [send_loop List.filter].
  { exists t, w, []. split; [reflexivity|]. unfold sent_to. rewrite app_nil_r, zlen_nil, !Z.add_0_r.
    by split_and!. }
  destruct (responded resolved seen target); cbn [negb]; [apply IH|].
  destruct (send_datagram_spec packet target w) as (r & w1 & Hs & s & Hsent & Hr).
  rewrite (act_run _ _ _ _ _ Hs).
  match goal with |- context [send_loop _ _ _ _ ts ?t' w1] => set (t1 := t') end.
  destruct (IH t1 w1) as (t' & w' & new & Hl & Hsent' & Ha & Hd & He).
  exists t', w', (s :: new). split; [done|]. split; [by apply (sent_to_trans [target] _ _ w1 _ [s])|].
  rewrite zlen_cons. cbn [List.filter omap list_omap].
  assert (reached s = match r with inl _ => false | inr _ => true end) as -> by (unfold reached; by rewrite Hr).
  assert (failure s = match r with inl e => Some e | inr _ => None end) as -> by (unfold failure; by rewrite Hr).
  subst t1. destruct r as [e|len]; cbn [attempted delivered last_error] in *.
  - split_and!; [lia | done |].
    rewrite He, last_cons. by destruct (last (omap failure new)).
  - rewrite zlen_cons. split_and!; [lia | lia | done].
Qed.

Lemma record_send_failures_calm ids w :
  exists w', record_send_failures env ids w = (Ok tt, w') /\ calm env w w'.
Proof.
  unfold record_send_failures. destruct ids as [|id ids].
  - exists w. split; [done | apply calm_refl].
  - destruct (clock_calm env w) as (w1 & Hc & Hw1). rewrite (act_run _ _ _ _ _ Hc).
    destruct (modify_calm env (fun stats =>
        fold_left (fun stats id =>
          upsert_stats (now w1) id
            (fun s => mkServerStats (last_seen s) (valid_responses s) (bump (send_failures s))) stats)
          (id :: ids) stats) w1) as (w2 & Hm & Hw2 & _).
    exists w2. split; [done | by eapply calm_trans].
Qed.

Lemma filter_none_forallb {A} (p : A -> bool) l :
  zlen (List.filter p l) = 0 <-> forallb (fun x => negb (p x)) l = true.
Proof.
  induction l as [|x l IH]; cbn; [done|]. pose proof (zlen_nonneg (List.filter p l)).
  destruct (p x); cbn [negb andb]; [|done]. rewrite zlen_cons. split; [lia | done].
Qed.

(** A delivery addresses exactly the missing targets, and fails only if it
    reached none of them. *)
Lemma send_to_missing_eq packet resolved seen w :
  exists w' new,
    send_to_missing env packet resolved seen w
    = (match delivery_error new with Some e => Err (CoreIo e) | None => Ok tt end, w') /\
    sent_to (missing resolved seen) w w' new.
Proof.
  unfold send_to_missing, missing.
  destruct (send_loop_spec packet resolved seen (targets resolved) (mkTally 0 0 None []) w)
    as (t & w1 & new & Hl & Hsent & Ha & Hd & He).
  rewrite (act_run _ _ _ _ _ Hl). cbn [attempted delivered last_error] in *. rewrite Z.add_0_l in Hd.
  assert (Hall : (delivered t =? 0) = forallb (fun s => negb (reached s)) new)
    by (rewrite Hd; apply eq_true_iff_eq; rewrite Z.eqb_eq; apply filter_none_forallb).
  assert (Herr : delivery_error new = if delivered t =? 0 then last (omap failure new) else None)
    by (unfold delivery_error; by rewrite <- Hall).
  destruct (delivered t =? 0).
  - exists w1, new. split; [|done]. rewrite He, Herr. by destruct (last (omap failure new)).
  - destruct (delivered t <? attempted t).
    + destruct (record_send_failures_calm (failed_server_ids t) w1) as (w2 & -> & Hw2).
      exists w2, new. rewrite Herr. split; [done | by eapply sent_to_calm].
    + exists w1, new. by rewrite Herr.
Qed.

End Sending.

(** ** The policy *)

Section Policy.
Context `{PrimitivesLaws} (env : Env) (Henv : env_ok env) (cfg : CoreConfig) (Hcfg : config_ok cfg).

(** A phase of a request - a transmission round, or the final receive phase - with the
    packets it took and when, by the clock, it began and ended. *)
Record Phase := mkPhase {
  arrivals : list (Z * ResponsePacket);
  began : Z;
  ended : Z;
}.

(** The packets taken by some phases. *)
Definition taken (phases : list Phase) : list (Z * ResponsePacket) := concat (map arrivals phases).

(** Phases that follow one another between two moments. *)
Fixpoint in_sequence (t : Z) (phases : list Phase) (t' : Z) : Prop :=
  match phases with
  | [] => t <= t'
  | ph :: phases => t <= began ph /\ began ph <= ended ph /\ in_sequence (ended ph) phases t'
  end.

(** How long phase [k] lasts if nothing ends it: round [k], then the final phase. *)
Definition phase_ms (policy : RequestPolicy) (k : Z) : Z :=
  unit_ms policy * (if k <=? replay_count policy then round_units (replay_gap policy) k
                    else final_receive_units policy).
Definition ran_out (policy : RequestPolicy) (k : Z) (ph : Phase) : Prop :=
  began ph + millis (phase_ms policy k) <= ended ph.

(** The number of phases of a request that nothing ends. *)
Definition phase_count (policy : RequestPolicy) : Z :=
  replay_count policy + 1 + if 0 <? final_receive_units policy then 1 else 0.

(** The selection algorithm of the high-availability policy, from phase [k] on. *)
Inductive ha_selects (policy : RequestPolicy) (allowed : gset Z) (oldest : option Z)
  : Z -> list Phase -> option RateLimitResult -> Prop :=
| ha_oldest cs x r b e :
    (** the oldest server answered the initial round: its response is taken at once *)
    valid_response cfg allowed x.2 = Some r -> oldest = Some (server_id r) ->
    Forall (fun r' => oldest <> Some (server_id r')) (responses cfg allowed cs) ->
    ha_selects policy allowed oldest 0 [mkPhase (cs ++ [x]) b e] (Some r)
| ha_deadline ph r :
    (** the initial round ran to its deadline without it: the oldest responder seen *)
    ran_out policy 0 ph -> r ∈ responses cfg allowed (arrivals ph) ->
    Forall (fun r' => server_id r <= server_id r' /\ oldest <> Some (server_id r'))
      (responses cfg allowed (arrivals ph)) ->
    ha_selects policy allowed oldest 0 [ph] (Some r)
| ha_first k cs x r b e :
    (** a later phase takes its first valid response *)
    0 < k -> responses cfg allowed cs = [] -> valid_response cfg allowed x.2 = Some r ->
    ha_selects policy allowed oldest k [mkPhase (cs ++ [x]) b e] (Some r)
| ha_silent k ph phases sel :
    (** a phase that ran to its deadline without a valid response *)
    ran_out policy k ph -> responses cfg allowed (arrivals ph) = [] ->
    ha_selects policy allowed oldest (k + 1) phases sel ->
    ha_selects policy allowed oldest k (ph :: phases) sel
| ha_timeout k :
    (** no phase is left *)
    k = phase_count policy -> ha_selects policy allowed oldest k [] None.

(** Phases from [k] on that all ran to their deadlines without a valid response. *)
Fixpoint silent_from (policy : RequestPolicy) (allowed : gset Z) (k : Z) (phases : list Phase) : Prop :=
  match phases with
  | [] => True
  | ph :: phases => ran_out policy k ph /\ responses cfg allowed (arrivals ph) = [] /\
      silent_from policy allowed (k + 1) phases
  end.

(** The preferred server is the oldest of the membership snapshot. *)
Definition oldest_ok (allowed : gset Z) (oldest : option Z) : Prop :=
  match oldest with
  | None => allowed = ∅
  | Some o => o ∈ allowed /\ forall id, id ∈ allowed -> o <= id
  end.

Lemma oldest_of_spec best rs :
  match oldest_of best rs with
  | None => best = None /\ rs = []
  | Some r => (r ∈ rs \/ best = Some r) /\ Forall (fun x => server_id r <= server_id x) rs /\
      (forall c, best = Some c -> server_id r <= server_id c)
  end.
Proof.
  revert best. induction rs as [|x rs IH]; intros best; cbn [oldest_of fold_left].
  { destruct best as [c|]; [|done]. split_and!; [by right | constructor |]. intros ? [= ->]. lia. }
  specialize (IH (keep_older best x)). unfold oldest_of in *.
  destruct (fold_left keep_older rs (keep_older best x)) as [r|].
  2:{ destruct IH as [IH _]. unfold keep_older in IH. destruct best; [by destruct (_ <? _)|done]. }
  destruct IH as (Hin & Hall & Hbest). unfold keep_older in *. destruct best as [c|].
  - destruct (Z.ltb_spec (server_id x) (server_id c)); specialize (Hbest _ eq_refl);
      (split_and!; [ | constructor; [lia | done] | intros ? [= <-]; lia]);
      destruct Hin as [Hin|[= <-]]; set_solver.
  - specialize (Hbest _ eq_refl). split_and!; [ | constructor; [lia | done] | done].
    destruct Hin as [Hin|[= <-]]; set_solver.
Qed.

Lemma responses_app allowed cs1 cs2 :
  responses cfg allowed (cs1 ++ cs2) = responses cfg allowed cs1 ++ responses cfg allowed cs2.
Proof. apply omap_app. Qed.

Lemma responses_allowed allowed cs :
  arrivals_ok cs -> Forall (fun r => allowed = ∅ \/ server_id r ∈ allowed) (responses cfg allowed cs).
Proof.
  induction 1 as [|x cs Hx _ IH]; [constructor|]. unfold responses in *. cbn [omap list_omap].
  destruct (valid_response cfg allowed x.2) as [r|] eqn:Hv; [|done].
  constructor; [|done]. by eapply valid_response_id.
Qed.

(** The response of the preferred server is the best of those seen with it. *)
Lemma oldest_of_preferred allowed o cs r :
  oldest_ok allowed (Some o) -> arrivals_ok cs -> server_id r = o ->
  Forall (fun r' => Some o <> Some (server_id r')) (responses cfg allowed cs) ->
  oldest_of None (responses cfg allowed cs ++ [r]) = Some r.
Proof.
  intros [Ho Hmin] Hcs <- Hne. unfold oldest_of. rewrite fold_left_app. cbn [fold_left].
  pose proof (oldest_of_spec None (responses cfg allowed cs)) as Hs. unfold oldest_of in Hs.
  destruct (fold_left keep_older _ None) as [c|]; [|done]. cbn [keep_older].
  destruct Hs as ([Hin|] & _); [|done].
  rewrite Forall_forall in Hne. specialize (Hne c Hin).
  pose proof (responses_allowed allowed cs Hcs) as Hal. rewrite Forall_forall in Hal.
  destruct (Hal c Hin) as [He|Hc]; [set_solver|]. specialize (Hmin _ Hc).
  rewrite (proj2 (Z.ltb_lt _ _)); [done|]. assert (server_id r <> server_id c) by congruence. lia.
Qed.

(** The last phase of a run that selected a response, from the exit of its loop. *)
Lemma exit_selects policy allowed oldest round deadline seen cs w' bst s k b e :
  oldest_ok allowed oldest -> arrivals_ok cs -> (round <= 0 -> k = 0) -> (0 < round -> 0 < k) ->
  exit_spec cfg allowed oldest round deadline None seen cs (Returned bst s) w' ->
  s = seen_after cfg allowed seen cs /\
  exists r, bst = Some r /\ ha_selects policy allowed oldest k [mkPhase cs b e] (Some r).
Proof.
  intros Hold Hcs Hk0 Hk1 (-> & -> & cs0 & x & r & -> & Hv & Hg & Hex). split; [done|].
  apply Forall_app in Hcs as [Hcs0 _]. rewrite responses_app.
  assert (responses cfg allowed [x] = [r]) as -> by (unfold responses; cbn; by rewrite Hv).
  destruct (Z.leb_spec round 0) as [Hz|Hz].
  - destruct Hex as [->|]; [|lia]. rewrite (Hk0 Hz).
    assert (Hne : Forall (fun r' => Some (server_id r) <> Some (server_id r')) (responses cfg allowed cs0)).
    { destruct Hg as [[_ Hg]|Hg]; [done|]. rewrite Hg. constructor. }
    exists r. split; [by eapply oldest_of_preferred | by constructor].
  - destruct Hg as [[Hg _]|Hg]; [lia|]. rewrite Hg. exists r. split; [done|]. constructor; auto.
Qed.

(** The same for a round that ended at its deadline with a response. *)
Lemma exit_selects_deadline policy allowed oldest round deadline seen cs w' bst s :
  0 <= round ->
  exit_spec cfg allowed oldest round deadline None seen cs (Expired bst s) w' ->
  s = seen_after cfg allowed seen cs /\
  match bst with
  | Some r => round = 0 /\ forall b e, ran_out policy 0 (mkPhase cs b e) ->
      ha_selects policy allowed oldest 0 [mkPhase cs b e] (Some r)
  | None => responses cfg allowed cs = []
  end.
Proof.
  intros Hr (-> & -> & Hg & _). split; [done|].
  pose proof (oldest_of_spec None (responses cfg allowed cs)) as Hs.
  destruct (oldest_of None (responses cfg allowed cs)) as [r|]; [|by destruct Hs].
  destruct Hs as ([Hin|] & Hall & _); [|done]. destruct Hg as [[Hz Hg]|Hg].
  - split; [lia|]. intros b e Hran. constructor; [done | done |]. by apply Forall_and.
  - rewrite Hg in Hin. by apply not_elem_of_nil in Hin.
Qed.

Lemma seen_after_silent allowed seen cs :
  responses cfg allowed cs = [] -> seen_after cfg allowed seen cs = seen.
Proof.
  unfold seen_after, responses. revert seen. induction cs as [|x cs IH]; intros seen; [done|].
  cbn [omap list_omap fold_left]. destruct (valid_response cfg allowed x.2); [done|]. apply IH.
Qed.

Lemma seen_after_app allowed seen cs1 cs2 :
  seen_after cfg allowed seen (cs1 ++ cs2) = seen_after cfg allowed (seen_after cfg allowed seen cs1) cs2.
Proof. apply fold_left_app. Qed.

Lemma arrivals_app a b : arrivals_ok (a ++ b) <-> arrivals_ok a /\ arrivals_ok b.
Proof. apply Forall_app. Qed.

(** What a run of the policy does to the world: it takes arrivals from the front
    of the channel, sends, and lets at most [limit] nanoseconds of its own pass. *)
Definition ran (taken : list (Z * ResponsePacket)) (ts : list SocketAddr) (limit : Z) (w w' : World) : Prop :=
  inbox w = taken ++ inbox w' /\
  (exists new, sends w' = sends w ++ new /\ map send_target new = ts) /\
  sockets w' = sockets w /\ (steps w <= steps w')%nat /\
  own_time env w <= own_time env w' <= own_time env w + limit.

Lemma ran_calm w w' : calm env w w' -> ran [] [] 0 w w'.
Proof.
  intros [Hi Hs Hk Ho Hst]. split_and!; try done; try lia. exists []. by rewrite app_nil_r.
Qed.

Lemma ran_sent ts w w' new : sent_to env ts w w' new -> ran [] ts 0 w w'.
Proof.
  intros (S1 & T1 & I1 & K1 & O1 & St1). split_and!; try done; try lia. by exists new.
Qed.

Lemma ran_trans c1 c2 t1 t2 l1 l2 w1 w2 w3 :
  ran c1 t1 l1 w1 w2 -> ran c2 t2 l2 w2 w3 -> ran (c1 ++ c2) (t1 ++ t2) (l1 + l2) w1 w3.
Proof.
  intros (I1 & (n1 & S1 & T1) & K1 & St1 & O1) (I2 & (n2 & S2 & T2) & K2 & St2 & O2).
  split_and!; try (congruence || lia).
  - by rewrite <- app_assoc, <- I2.
  - exists (n1 ++ n2). rewrite S2, S1, map_app, T1, T2. split; [by rewrite app_assoc | done].
Qed.

Lemma ran_now c t l w w' : ran c t l w w' -> now w <= now w'.
Proof.
  intros (_ & _ & _ & St & O1 & _). pose proof (delays_mono env _ _ Henv St). unfold own_time in *. lia.
Qed.

Lemma ran_le c t l l' w w' : l <= l' -> ran c t l w w' -> ran c t l' w w'.
Proof. intros Hl (I1 & S1 & K1 & St1 & O1). split_and!; try done; lia. Qed.

Lemma ran_nil_l c t l w1 w2 w3 : ran [] [] 0 w1 w2 -> ran c t l w2 w3 -> ran c t l w1 w3.
Proof. intros R1 R2. apply (ran_trans _ _ _ _ _ _ _ _ _ R1 R2). Qed.

(** A receive loop of [len] milliseconds, started by reading the clock. *)
Lemma round_ran allowed oldest round best seen w w1 len :
  arrivals_ok (inbox w) -> ids_ok best -> calm env w w1 -> 0 <= len ->
  exists exit w' cs,
    round_loop env cfg (channel_fuel w1) allowed oldest round (now w1 + millis len) best seen w1
      = (Ok exit, w') /\
    ran cs [] (millis len) w w' /\
    exit_spec cfg allowed oldest round (now w1 + millis len) best seen cs exit w'.
Proof.
  intros Hin Hids Hw1 Hlen. pose proof (calm_inbox _ _ _ Hw1) as Hi1.
  destruct (round_loop_spec env Henv cfg Hcfg (channel_fuel w1) allowed oldest round
    (now w1 + millis len) best seen w1) as (exit & w' & cs & Hl & Hi & [Hs Hk Hst Ho] & Hex);
    [by rewrite Hi1 | done | unfold channel_fuel; lia |].
  exists exit, w', cs. split; [done|]. split; [|done].
  apply (ran_nil_l _ _ _ _ _ _ (ran_calm _ _ Hw1)). unfold ran, millis, own_time in *.
  split_and!; try done; try lia. exists []. by rewrite app_nil_r.
Qed.

Lemma millis_saturating a b : millis (saturating_mul u64_max a b) <= millis (a * b).
Proof. unfold millis, saturating_mul. lia. Qed.

(** No phase of a valid policy saturates. *)
Lemma saturating_exact policy b :
  policy_ok policy -> 0 <= b <= u32_max ->
  saturating_mul u64_max (unit_ms policy) b = unit_ms policy * b.
Proof.
  intros ((_ & [Hrc _] & Hst & [Hf _]) & Hu & _ & Hv & Hh) Hb. unfold saturating_mul, horizon_spec in *.
  pose proof (sum_rounds_bounds (replay_gap policy) 0 (Z.to_nat (replay_count policy + 1)) Hst Hv ltac:(lia)).
  unfold u64_max, u32_max in *. apply Z.min_l. nia.
Qed.

(** A phase of [len] milliseconds ran to its end: it lasted that long, and what it left
    in the channel came too late, if the oracle added less than a time unit. *)
Definition waited (policy : RequestPolicy) (len : Z) (w w' : World) : Prop :=
  now w + millis len <= now w' /\
  (in_order (inbox w) -> lag env w w' < millis (unit_ms policy) ->
   forall x, x ∈ inbox w' -> now w + millis len <= x.1 + lag env w w').

Lemma phase_waited policy allowed oldest round seen w w1 len b s w' :
  arrivals_ok (inbox w) -> inbox w1 = inbox w -> own_time env w1 = own_time env w -> (steps w <= steps w1)%nat ->
  unit_ms policy <= len ->
  round_loop env cfg (channel_fuel w1) allowed oldest round (now w1 + millis len) None seen w1
    = (Ok (Expired b s), w') ->
  now w1 + millis len <= now w' -> waited policy len w w'.
Proof.
  intros Hin Hi Ho Hst Hlen Hl Hend. pose proof (own_lag env w w1). pose proof (lag_nonneg env w w1 Henv Hst).
  split; [lia|]. intros Hord Hlag x Hx.
  apply (round_loop_patient env Henv cfg Hcfg) in Hl as (Hst' & _ & Hp); [| by rewrite Hi.. | done].
  specialize (Hp x Hx). unfold lag, millis in *. lia.
Qed.

Lemma waited_trans policy l1 l2 w1 w2 w3 c t l c' t' l' :
  ran c t l w1 w2 -> ran c' t' l' w2 w3 ->
  waited policy l1 w1 w2 -> waited policy l2 w2 w3 -> waited policy (l1 + l2) w1 w3.
Proof.
  intros (I1 & _ & _ & St1 & _) (_ & _ & _ & St2 & _) [H1 _] [H2 U2].
  pose proof (lag_nonneg env w1 w2 Henv St1). split; [unfold millis in *; lia|].
  intros Hord Hlag x Hx. rewrite I1 in Hord. apply in_order_app in Hord.
  specialize (U2 Hord ltac:(unfold lag in *; lia) x Hx). unfold lag, millis in *. lia.
Qed.

(** How a run of the policy from [round] on ended, with [n] rounds left. *)
Definition run_spec (n : nat) (policy : RequestPolicy) (resolved : ResolvedTargets)
    (oldest : option Z) (round : Z) (seen : Seen) (phases : list Phase)
    (rounds : nat) (res : outcome CoreError (option RateLimitResult * Seen)) : Prop :=
  match res with
  | Ok (sel, s) =>
      ha_selects policy (allowed_server_ids resolved) oldest round phases sel /\
      s = seen_after cfg (allowed_server_ids resolved) seen (taken phases) /\
      (sel = None -> rounds = n)
  | Err e => (exists io, e = CoreIo io) /\ silent_from policy (allowed_server_ids resolved) round phases
  | Panic => False
  end.

Lemma in_sequence_le t0 t phases t' : t0 <= t -> in_sequence t phases t' -> in_sequence t0 phases t'.
Proof. destruct phases as [|ph phases]; cbn [in_sequence]; [lia|]. intros Ht (Hb & Hs). split; [lia | done]. Qed.

Lemma in_sequence_end t phases t1 t2 : t1 <= t2 -> in_sequence t phases t1 -> in_sequence t phases t2.
Proof.
  intros Ht. revert t. induction phases as [|ph phases IH]; intros t; cbn [in_sequence]; [lia|].
  intros (Hb & He & Hs). split_and!; auto.
Qed.

(** A single phase. *)
Lemma taken_one cs b e : taken [mkPhase cs b e] = cs.
Proof. apply app_nil_r. Qed.

Lemma one_in_sequence cs w w' :
  now w <= now w' -> in_sequence (now w) [mkPhase cs (now w) (now w')] (now w').
Proof. intros Hn. cbn. lia. Qed.

Lemma waited_ran_out policy k cs w w' :
  waited policy (phase_ms policy k) w w' -> ran_out policy k (mkPhase cs (now w) (now w')).
Proof. by intros [Hend _]. Qed.

Lemma final_phase policy packet resolved oldest round seen w :
  policy_ok policy -> round = replay_count policy + 1 -> arrivals_ok (inbox w) ->
  oldest_ok (allowed_server_ids resolved) oldest ->
  exists res w' phases,
    select_rounds env cfg 0 policy packet resolved oldest round seen w = (res, w') /\
    ran (taken phases) [] (millis (unit_ms policy * final_receive_units policy)) w w' /\
    in_sequence (now w) phases (now w') /\
    run_spec 0 policy resolved oldest round seen phases 0 res /\
    (forall s, res = Ok (None, s) -> 0 < final_receive_units policy ->
       waited policy (unit_ms policy * final_receive_units policy) w w').
Proof.
  intros Hp Hr Hin Hold. pose proof Hp as (Ht & Hu & _). destruct Ht as (_ & [Hrc _] & _ & [Hf Hf']).
  cbn [select_rounds]. unfold run_spec. rewrite Z.gtb_ltb.
  assert (Hms : phase_ms policy round = unit_ms policy * final_receive_units policy)
    by (unfold phase_ms; by rewrite (proj2 (Z.leb_gt _ _)) by lia).
  assert (Hcount : phase_count policy = round + if 0 <? final_receive_units policy then 1 else 0)
    by (unfold phase_count; lia).
  revert Hcount.
  destruct (Z.ltb_spec 0 (final_receive_units policy)) as [Hpos|Hz]; intros Hcount.
  2:{ exists (Ok (None, seen)), w, []. split; [done|]. split; [|split; [cbn; lia|]].
      - apply (ran_le _ _ 0); [unfold millis; nia | apply ran_calm, calm_refl].
      - split; [split; [constructor; lia | done] | lia]. }
  destruct (clock_calm env w) as (w1 & Hc1 & Hw1). rewrite (act_run _ _ _ _ _ Hc1).
  set (len := saturating_mul _ _ _).
  assert (Hlen : 0 <= len) by (unfold len, saturating_mul, u64_max; lia).
  destruct (round_ran (allowed_server_ids resolved) oldest 1 None seen w w1 len)
    as (exit & w' & cs & Hl & Hran & Hex); [done | done | done | done |].
  assert (Hfl : final_loop env cfg (channel_fuel w1) (allowed_server_ids resolved)
                  (now w1 + millis len) seen w1 = (Ok exit, w')).
  { rewrite (final_loop_eq env Henv cfg Hcfg _ _ oldest); [done|]. by rewrite (calm_inbox _ _ _ Hw1). }
  rewrite (act_run (with_world _) _ w1 exit w') by exact Hfl.
  apply (ran_le _ _ _ _ _ _ (millis_saturating _ _)) in Hran.
  assert (Hcs : arrivals_ok cs) by (destruct Hran as [Hi _]; rewrite Hi in Hin; by apply arrivals_app in Hin as [? ?]).
  pose proof (one_in_sequence cs w w' (ran_now _ _ _ _ _ Hran)) as Hseq.
  destruct exit as [b s|b s|]; [| |done].
  - pose proof (proj2 (proj2 (proj2 Hex))) as Hend. apply (exit_selects_deadline policy) in Hex as [-> Hb]; [|lia].
    destruct b as [r|]; [destruct Hb; lia|].
    assert (Hwait : waited policy (unit_ms policy * final_receive_units policy) w w').
    { assert (len = unit_ms policy * final_receive_units policy) as <- by (by apply saturating_exact).
      destruct Hw1 as [Hi1 _ _ Ho1 St1].
      eapply (phase_waited _ _ _ _ _ w w1); try done.
      unfold len. rewrite saturating_exact by done. nia. }
    exists (Ok (None, seen_after cfg (allowed_server_ids resolved) seen cs)), w', [mkPhase cs (now w) (now w')].
    rewrite taken_one. split; [done|]. split; [done|]. split; [done|]. split; [|done].
    split; [|done]. constructor; [apply waited_ran_out; by rewrite Hms | done | constructor; lia].
  - destruct (exit_selects policy _ _ 1 _ _ _ _ _ _ round (now w) (now w') Hold Hcs ltac:(lia) ltac:(lia) Hex)
      as (-> & r & -> & Hsel).
    exists (Ok (Some r, seen_after cfg (allowed_server_ids resolved) seen cs)), w', [mkPhase cs (now w) (now w')].
    rewrite taken_one. split; [done|]. split; [done|]. split; [done|]. by split_and!.
Qed.

Lemma waited_calm policy len w w1 w2 :
  calm env w w1 -> (steps w1 <= steps w2)%nat -> waited policy len w1 w2 -> waited policy len w w2.
Proof.
  intros [Hi _ _ Ho St] St2 [Hn Hu]. pose proof (own_lag env w w1). pose proof (lag_nonneg env w w1 Henv St).
  split; [lia|]. rewrite <- Hi. intros Hord Hlag x Hx.
  specialize (Hu Hord ltac:(unfold lag in *; lia) x Hx). unfold lag in *. lia.
Qed.

(** One transmission round: the delivery reaches nobody, or a receive loop runs and
    its exit decides how the request goes on. *)
Lemma transmission_round n policy packet resolved oldest round seen w :
  policy_ok policy -> 0 <= round -> arrivals_ok (inbox w) ->
  (exists io w1, select_rounds env cfg (S n) policy packet resolved oldest round seen w
      = (Err (CoreIo io), w1) /\ ran [] (missing resolved seen) 0 w w1) \/
  exists exit w' cs deadline,
    select_rounds env cfg (S n) policy packet resolved oldest round seen w
    = (match exit with
       | Returned best seen => ret (best, seen)
       | Expired (Some best) seen => ret (Some best, seen)
       | Expired None seen => select_rounds env cfg n policy packet resolved oldest (round + 1) seen
       | OutOfFuel => lift Panic
       end) w' /\
    ran cs (missing resolved seen) (millis (unit_ms policy * round_units (replay_gap policy) round)) w w' /\
    arrivals_ok cs /\ arrivals_ok (inbox w') /\
    exit_spec cfg (allowed_server_ids resolved) oldest round deadline None seen cs exit w' /\
    (forall b s, exit = Expired b s ->
       waited policy (unit_ms policy * round_units (replay_gap policy) round) w w').
Proof.
  intros Hp Hr Hin. pose proof Hp as (Ht & Hu & Hrc & Hv & _). destruct Ht as (_ & _ & Hst & _).
  pose proof (round_units_bounds _ round Hst Hv Hr) as [[Hu1 Hu2] Hu3].
  pose proof Hst as (_ & [_ Hmx] & _). cbn [select_rounds].
  destruct (send_to_missing_eq env packet resolved seen w) as (w1 & new & Hsend & Hw1).
  pose proof Hw1 as (_ & _ & Hi1 & _ & Ho1 & St1).
  apply ran_sent in Hw1. destruct (delivery_error new) as [io|].
  { left. exists io, w1. by rewrite (act_run_err _ _ _ _ _ Hsend). }
  right. rewrite (act_run _ _ _ _ _ Hsend).
  rewrite (act_run (lift (map_err config_error (units (replay_gap policy) round))) _ w1
    (round_units (replay_gap policy) round) w1) by (unfold lift; by rewrite units_eq, Hv).
  destruct (clock_calm env w1) as (w2 & Hc2 & Hw2). rewrite (act_run _ _ _ _ _ Hc2).
  set (len := saturating_mul _ _ _).
  assert (Hlen : 0 <= len) by (unfold len, saturating_mul, u64_max; nia).
  assert (Hin1 : arrivals_ok (inbox w1)) by (by destruct Hw1 as [Hi _]; rewrite Hi in Hin).
  destruct (round_ran (allowed_server_ids resolved) oldest round None seen w1 w2 len)
    as (exit & w3 & cs & Hl & Hran & Hex); [done | done | done | done |].
  exists exit, w3, cs, (now w2 + millis len).
  rewrite (act_run (with_world _) _ w2 exit w3) by exact Hl. split; [done|].
  apply (ran_le _ _ _ _ _ _ (millis_saturating _ _)) in Hran.
  assert (Hcs : arrivals_ok cs /\ arrivals_ok (inbox w3))
    by (destruct Hran as [Hi _]; rewrite Hi in Hin1; by apply arrivals_app in Hin1).
  pose proof (ran_trans _ _ _ _ _ _ _ _ _ Hw1 Hran) as Hall. cbn [app] in Hall.
  rewrite app_nil_r in Hall. destruct Hcs. split_and!; try done.
  intros b s ->. assert (len = unit_ms policy * round_units (replay_gap policy) round) as <-
    by (apply saturating_exact; done || lia).
  destruct Hw2 as [Hi2 _ _ Ho2 St2].
  eapply (phase_waited _ _ _ _ _ w w2); [done | congruence | congruence | lia | | exact Hl | apply Hex].
  unfold len. rewrite saturating_exact by (done || lia). nia.
Qed.

(** A silent round in front of the others. *)
Lemma run_spec_silent n policy resolved oldest round seen ph phases rounds res :
  ran_out policy round ph -> responses cfg (allowed_server_ids resolved) (arrivals ph) = [] ->
  run_spec n policy resolved oldest (round + 1) seen phases rounds res ->
  run_spec (S n) policy resolved oldest round seen (ph :: phases) (S rounds) res.
Proof.
  intros Hout Hsilent. unfold run_spec. destruct res as [[sel s]|e|]; [| |done].
  - intros (Hsel & -> & Hnone). split; [by constructor|]. split; [|intros Hs; by rewrite (Hnone Hs)].
    unfold taken. cbn [map concat]. by rewrite seen_after_app, (seen_after_silent _ _ (arrivals ph)) by done.
  - intros [He Hsil]. split; [done|]. by split_and!.
Qed.

(** A silent round before the others: all of their time has passed. *)
Lemma rounds_waited n policy packet resolved oldest round seen s c t l c' t' l' w w1 w' :
  ran c t l w w1 -> ran c' t' l' w1 w' -> 0 <= final_receive_units policy ->
  select_rounds env cfg n policy packet resolved oldest (round + 1) seen w1 = (Ok (None, s), w') ->
  waited policy (unit_ms policy * round_units (replay_gap policy) round) w w1 ->
  (n <> 0%nat \/ 0 < final_receive_units policy ->
   waited policy (unit_ms policy * (sum_rounds (replay_gap policy) (round + 1) n + final_receive_units policy)) w1 w') ->
  waited policy (unit_ms policy * (sum_rounds (replay_gap policy) round (S n) + final_receive_units policy)) w w'.
Proof.
  intros Hran Hran' Hf E Hwait Hrest. cbn [sum_rounds].
  destruct (decide (n <> 0%nat \/ 0 < final_receive_units policy)) as [Hmore|Hlast].
  - specialize (Hrest Hmore). rewrite <- Z.add_assoc, Z.mul_add_distr_l. by eapply waited_trans.
  - assert (n = 0%nat) as -> by lia. cbn [select_rounds sum_rounds] in *.
    rewrite Z.gtb_ltb, (proj2 (Z.ltb_ge _ _)) in E by lia. injection E as _ <-.
    by replace (final_receive_units policy) with 0 by lia; rewrite !Z.add_0_r.
Qed.

(** The body of the [async] block: whatever the environment does, it ends, without
    a panic, within the horizon of its own waiting, with the selection the
    policy prescribes for the packets it took - or with an I/O error, after
    silent rounds. *)
Lemma select_rounds_spec n policy packet resolved oldest round seen w :
  policy_ok policy -> 0 <= round -> round + Z.of_nat n = replay_count policy + 1 ->
  arrivals_ok (inbox w) -> oldest_ok (allowed_server_ids resolved) oldest ->
  exists res w' phases rounds,
    select_rounds env cfg n policy packet resolved oldest round seen w = (res, w') /\
    (Nat.min n 1 <= rounds <= n)%nat /\
    ran (taken phases) (concat (replicate rounds (missing resolved seen)))
      (millis (unit_ms policy * (sum_rounds (replay_gap policy) round n + final_receive_units policy))) w w' /\
    in_sequence (now w) phases (now w') /\
    run_spec n policy resolved oldest round seen phases rounds res /\
    (forall s, res = Ok (None, s) -> (n <> 0%nat \/ 0 < final_receive_units policy) ->
       waited policy (unit_ms policy * (sum_rounds (replay_gap policy) round n + final_receive_units policy)) w w').
Proof.
  intros Hp. revert round seen w. induction n as [|n IH]; intros round seen w Hr Hn Hin Hold.
  { destruct (final_phase policy packet resolved oldest round seen w Hp ltac:(lia) Hin Hold)
      as (res & w' & phases & E & Hran & Hseq & Hspec & Hwait).
    exists res, w', phases, 0%nat. split_and!; try done. intros s Hs [|Hf]; [done | by eapply Hwait]. }
  pose proof Hp as (Ht & Hu & Hrc & Hv & _). destruct Ht as (_ & _ & Hst & [Hf _]).
  pose proof (round_units_bounds _ round Hst Hv Hr) as [[Hu1 Hu2] _].
  pose proof (sum_rounds_bounds (replay_gap policy) (round + 1) n Hst Hv ltac:(lia)) as [Hsum _].
  cbn [sum_rounds].
  assert (Hms : phase_ms policy round = unit_ms policy * round_units (replay_gap policy) round)
    by (unfold phase_ms; by rewrite (proj2 (Z.leb_le _ _)) by lia).
  destruct (transmission_round n policy packet resolved oldest round seen w Hp Hr Hin)
    as [(io & w1 & -> & Hran)|(exit & w3 & cs & dl & -> & Hran & Hcs & Hin3 & Hex & Hwait)].
  { exists (Err (CoreIo io)), w1, [], 1%nat. split; [done|]. split; [lia|].
    cbn [taken map concat replicate]. rewrite app_nil_r. split; [|split; [by eapply ran_now|]].
    - apply (ran_le _ _ 0); [unfold millis; nia | done].
    - split; [split; [by exists io | constructor] | done]. }
  pose proof (one_in_sequence cs w w3 (ran_now _ _ _ _ _ Hran)) as Hseq.
  destruct exit as [b s|b s|]; [| |done].
  - assert (Hout : ran_out policy round (mkPhase cs (now w) (now w3)))
      by (apply waited_ran_out; rewrite Hms; by eapply Hwait).
    apply (exit_selects_deadline policy) in Hex as [-> Hb]; [|lia]. destruct b as [r|].
    + destruct Hb as [-> Hb].
      exists (Ok (Some r, seen_after cfg (allowed_server_ids resolved) seen cs)), w3, [mkPhase cs (now w) (now w3)], 1%nat.
      split; [done|]. split; [lia|]. rewrite taken_one. cbn [concat replicate]. rewrite app_nil_r.
      split; [|split; [done|]].
      * eapply ran_le; [|exact Hran]. unfold millis. nia.
      * unfold run_spec. rewrite taken_one. split; [|done]. split; [by apply Hb | done].
    + rewrite seen_after_silent by done.
      destruct (IH (round + 1) seen w3 ltac:(lia) ltac:(lia) Hin3 Hold)
        as (res & w' & phases & rounds & E & Hrn & Hran' & Hseq' & Hspec & Hwait').
      exists res, w', (mkPhase cs (now w) (now w3) :: phases), (S rounds). split; [done|]. split; [lia|].
      cbn [concat replicate in_sequence began ended]. change (taken (mkPhase cs ?b ?e :: phases)) with (cs ++ taken phases).
      split; [|split; [|split]].
      * pose proof (ran_trans _ _ _ _ _ _ _ _ _ Hran Hran') as Hall.
        eapply ran_le; [|exact Hall]. unfold millis. nia.
      * pose proof (ran_now _ _ _ _ _ Hran). split_and!; [lia | lia | done].
      * by apply run_spec_silent.
      * intros s0 -> _. eapply (rounds_waited n policy packet resolved oldest round); try done.
        -- by eapply Hwait.
        -- by eapply Hwait'.
  - destruct (exit_selects policy _ _ round _ _ _ _ _ _ round (now w) (now w3) Hold Hcs ltac:(lia) ltac:(lia) Hex)
      as (-> & r & -> & Hsel).
    exists (Ok (Some r, seen_after cfg (allowed_server_ids resolved) seen cs)), w3, [mkPhase cs (now w) (now w3)], 1%nat.
    split; [done|]. split; [lia|]. rewrite taken_one. cbn [concat replicate]. rewrite app_nil_r.
    split; [|split; [done|]].
    + eapply ran_le; [|exact Hran]. unfold millis. nia.
    + unfold run_spec. rewrite taken_one. by split_and!.
Qed.

End Policy.

(** ** The whole delivery *)

Section Deliver.
Context `{PrimitivesLaws} (env : Env) (Henv : env_ok env) (cfg : CoreConfig) (Hcfg : config_ok cfg).

Lemma oldest_server_ok resolved :
  snapshot_ok resolved ->
  exists oldest, @min_by_age CoreError (elements (allowed_server_ids resolved)) None = Ok oldest /\
    oldest_ok (allowed_server_ids resolved) oldest.
Proof.
  intros Hs. destruct (@min_by_age_spec CoreError (elements (allowed_server_ids resolved)) None)
    as (r & E & Hr); [|done|].
  - apply Forall_forall. intros id Hid. apply Hs. by apply elem_of_elements.
  - exists r. split; [done|]. destruct r as [o|]; cbn [oldest_ok].
    + destruct Hr as ([Hin|] & Hall & _); [|done]. split; [by apply elem_of_elements|].
      intros id Hid. rewrite Forall_forall in Hall. by apply Hall, elem_of_elements.
    + destruct Hr as [Hr _]. by apply elements_empty_iff, leibniz_equiv in Hr.
Qed.

Lemma missing_all resolved : missing resolved no_seen = targets resolved.
Proof.
  unfold missing. induction (targets resolved) as [|t ts IH]; [done|]. cbn [List.filter].
  assert (responded resolved no_seen t = false) as ->.
  { unfold responded, no_seen. cbn. destruct (_ !! _); apply bool_decide_eq_false; set_solver. }
  cbn [negb]. by rewrite IH.
Qed.

(** The world when the rounds are over, before completion delivery: the rounds begin
    once the request has read the clock ([started_at]). *)
Definition decision_world (policy : RequestPolicy) (packet : list Z) (resolved : ResolvedTargets) (w : World) : World :=
  match @min_by_age CoreError (elements (allowed_server_ids resolved)) None with
  | Ok oldest =>
      (select_rounds env cfg (Z.to_nat (replay_count policy + 1)) policy packet resolved oldest 0 no_seen
         (clock env w).2).2
  | _ => w
  end.

(** What completion delivery adds once [seen] has responded: it compares with the
    lifetime what the clock shows after the rounds ([started_at.elapsed()]) less what it
    showed when the request started. *)
Definition completion_spec (policy : RequestPolicy) (dedup : Z) (packet : list Z) (resolved : ResolvedTargets)
    (seen : Seen) (extra : list SocketAddr) (w w' : World) : Prop :=
  let started := now (clock env w).2 in
  let checked := now (clock env (decision_world policy packet resolved w)).2 in
  now w <= started <= checked /\ (completion_delivery policy = true -> checked <= now w') /\
  extra = if completion_delivery policy && (checked - started <? millis dedup)
          then missing resolved seen else [].

Lemma complete_spec policy dedup packet resolved seen started w :
  exists w' extra,
    (t ← (if completion_delivery policy then clock env else ret 0);
     _ ← (if completion_delivery policy && (t - started <? millis dedup)
          then _ ← try_act (send_to_missing env packet resolved seen); ret tt
          else ret tt);
     ret tt) w = (Ok tt, w') /\ ran env [] extra 0 w w' /\
    now w <= now (clock env w).2 /\ (completion_delivery policy = true -> now (clock env w).2 <= now w') /\
    extra = (if completion_delivery policy && (now (clock env w).2 - started <? millis dedup)
             then missing resolved seen else []).
Proof.
  destruct (clock_calm env w) as (w1 & Hc1 & Hw1). rewrite Hc1. cbn [snd].
  pose proof (calm_now _ _ _ Henv Hw1) as Hn1.
  destruct (completion_delivery policy); cbn [andb].
  2:{ exists w, []. split; [done|]. split; [apply ran_calm, calm_refl | by split]. }
  rewrite (act_run _ _ _ _ _ Hc1).
  destruct (Z.ltb_spec (now w1 - started) (millis dedup)) as [Hlt|Hge].
  2:{ exists w1, []. split; [done|]. split; [by apply ran_calm|]. split; [lia|]. by split. }
  destruct (send_to_missing_eq env packet resolved seen w1) as (w2 & new & Hs & Hw2).
  exists w2, (missing resolved seen). split.
  { unfold mbind, act_bind, try_act. rewrite Hs. by destruct (delivery_error new). }
  split; [eapply ran_nil_l; [by apply ran_calm | by eapply ran_sent]|].
  destruct Hw2 as (_ & _ & _ & _ & Ho & Hst). unfold own_time in Ho.
  pose proof (delays_mono env _ _ Henv Hst). split; [lia|]. split; [lia | done].
Qed.

Definition selection_spec (policy : RequestPolicy) (resolved : ResolvedTargets) (oldest : option Z)
    (phases : list Phase) (res : outcome CoreError RateLimitResult) : Prop :=
  match res with
  | Ok r => ha_selects cfg policy (allowed_server_ids resolved) oldest 0 phases (Some r)
  | Err CoreTimeout => ha_selects cfg policy (allowed_server_ids resolved) oldest 0 phases None
  | Err (CoreIo _) => silent_from cfg policy (allowed_server_ids resolved) 0 phases
  | _ => False
  end.

Lemma deliver_spec policy dedup packet resolved w :
  policy_ok policy -> snapshot_ok resolved -> arrivals_ok (inbox w) ->
  exists res w' oldest phases rounds extra,
    deliver_and_select env cfg policy dedup packet resolved w = (res, w') /\
    oldest_ok (allowed_server_ids resolved) oldest /\
    1 <= Z.of_nat rounds <= replay_count policy + 1 /\
    (res = Err CoreTimeout -> Z.of_nat rounds = replay_count policy + 1) /\
    ran env (taken phases) (concat (replicate rounds (targets resolved)) ++ extra)
      (millis (horizon_spec policy)) w w' /\
    (selection_spec policy resolved oldest phases res /\ in_sequence (now w) phases (now w')) /\
    (if is_ok res then completion_spec policy dedup packet resolved
       (seen_after cfg (allowed_server_ids resolved) no_seen (taken phases)) extra w w'
     else extra = []) /\
    (res = Err CoreTimeout -> waited env policy (horizon_spec policy) w w').
Proof.
  intros Hp Hs Hin. pose proof Hp as ((_ & [Hrc _] & _ & [Hf _]) & Hu & _).
  unfold deliver_and_select, completion_spec, decision_world.
  destruct (oldest_server_ok resolved Hs) as (oldest & Hmin & Hold). rewrite Hmin.
  rewrite (act_run (lift (Ok oldest)) _ w oldest w) by done.
  destruct (clock_calm env w) as (w1 & Hc1 & Hw1). rewrite (act_run _ _ _ _ _ Hc1), Hc1. cbn [snd].
  pose proof (calm_now _ _ _ Henv Hw1) as Hn1.
  destruct (select_rounds_spec env Henv cfg Hcfg (Z.to_nat (replay_count policy + 1)) policy packet
    resolved oldest 0 no_seen w1) as (res & w2 & phases & rounds & E & Hrn & Hran & Hseq & Hspec & Hwait);
    [done | lia | lia | by rewrite (calm_inbox _ _ _ Hw1) | done |].
  rewrite missing_all in Hran. fold (horizon_spec policy) in Hran. rewrite E.
  apply (ran_nil_l _ _ _ _ _ _ _ (ran_calm _ _ _ Hw1)) in Hran as Hran1.
  pose proof (ran_now env Henv _ _ _ _ _ Hran) as Hn2. apply (in_sequence_le (now w)) in Hseq; [|lia].
  destruct res as [[sel seen]|e|]; [| |done].
  2:{ rewrite (act_run_err _ _ _ _ _ E). destruct Hspec as [[io ->] Hsil].
      exists (Err (CoreIo io)), w2, oldest, phases, rounds, []. rewrite app_nil_r.
      split_and!; try done; lia. }
  rewrite (act_run _ _ _ _ _ E). destruct Hspec as (Hsel & -> & Hnone).
  destruct sel as [r|].
  2:{ rewrite (Hnone eq_refl) in *.
      exists (Err CoreTimeout), w2, oldest, phases, (Z.to_nat (replay_count policy + 1)), [].
      rewrite app_nil_r. split_and!; try done; try lia.
      intros _. eapply waited_calm; [done | exact Hw1 | apply Hran |]. eapply Hwait; [done | lia]. }
  set (seen := seen_after _ _ _ _).
  destruct (complete_spec policy dedup packet resolved seen (now w1) w2)
    as (w3 & extra & Ec & Hrc3 & Ht1 & Ht2 & Hextra).
  exists (Ok r), w3, oldest, phases, rounds, extra. split.
  { revert Ec. unfold mbind, act_bind, ret.
    repeat match goal with |- context [match ?x with _ => _ end] => destruct x eqn:? end; congruence. }
  split; [done|]. split; [lia|]. split; [done|]. split.
  { pose proof (ran_trans _ _ _ _ _ _ _ _ _ _ Hran1 Hrc3) as Hall. by rewrite app_nil_r, Z.add_0_r in Hall. }
  split; [split; [done|]|].
  { eapply in_sequence_end; [by eapply ran_now | done]. }
  split; [|done]. cbn [snd is_ok]. split_and!; lia || done.
Qed.

Lemma waits_own w w' : (steps w <= steps w')%nat -> waits env w w' = own_time env w' - own_time env w.
Proof.
  intros Hs. unfold waits, own_time.
  pose proof (delays_app env 0 (steps w) (steps w' - steps w)) as Hd.
  replace (steps w + (steps w' - steps w))%nat with (steps w') in Hd by lia.
  cbn [Nat.add] in Hd. lia.
Qed.

End Deliver.

(** ** What a request sends *)

Section Emits.
Context `{Primitives} (env : Env) (cfg : CoreConfig).

Lemma emits_send_loop packet resolved seen ts t : emits packet (send_loop env packet resolved seen ts t).
Proof. revert t. induction ts as [|target ts IH]; intros t; cbn [send_loop]; emit_steps. Qed.

Lemma emits_record packet ids : emits packet (record_send_failures env ids).
Proof. unfold record_send_failures. emit_steps. Qed.

Lemma emits_send_to_missing packet resolved seen : emits packet (send_to_missing env packet resolved seen).
Proof.
  unfold send_to_missing. apply emits_bind; [apply emits_send_loop|]. intros t. emit_steps. apply emits_record.
Qed.

Lemma emits_accept packet p allowed seen : emits packet (accept_policy_response env cfg p allowed seen).
Proof. unfold accept_policy_response. emit_steps. Qed.

Lemma emits_round_loop packet fuel allowed oldest round deadline best seen :
  emits packet (round_loop env cfg fuel allowed oldest round deadline best seen).
Proof.
  revert best seen. induction fuel as [|fuel IH]; intros best seen; cbn [round_loop]; emit_steps.
  apply emits_accept.
Qed.

Lemma emits_final_loop packet fuel allowed deadline seen :
  emits packet (final_loop env cfg fuel allowed deadline seen).
Proof.
  revert seen. induction fuel as [|fuel IH]; intros seen; cbn [final_loop]; emit_steps.
  apply emits_accept.
Qed.

Lemma emits_select_rounds packet n policy resolved oldest round seen :
  emits packet (select_rounds env cfg n policy packet resolved oldest round seen).
Proof.
  revert round seen. induction n as [|n IH]; intros round seen; cbn [select_rounds]; emit_steps;
    auto using emits_send_to_missing, emits_round_loop, emits_final_loop.
Qed.

(** Every datagram of a request is its one packet. *)
Lemma emits_deliver policy dedup packet resolved :
  emits packet (deliver_and_select env cfg policy dedup packet resolved).
Proof.
  unfold deliver_and_select. emit_steps; auto using emits_select_rounds, emits_send_to_missing with emits.
Qed.

End Emits.

(** ** Theorems *)

(** A concrete request, for evaluation: one server, which answers after 5 ms. *)
Definition demo_env : Env := {| env_delay := fun _ => 0; env_send := fun _ => inr 100 |}.
Definition demo_addr : SocketAddr := mkSocketAddr (V4 2130706433) 7000.
Definition demo_targets : ResolvedTargets :=
  {| targets := [demo_addr]; target_server_ids := {[demo_addr := 77]};
     allowed_server_ids := {[77]} |}.
Definition demo_world : World :=
  {| now := 0; steps := 0; inbox := [(5000000, mkResponsePacket demo_response demo_addr)];
     sockets := mkFamilySockets (Some 50000) (Some 50000) false; server_stats := ∅; sends := [] |}.
Definition demo_cookie_config : CoreConfig := demo_config (AuthCookie demo_key).

Lemma demo_cookie_ok : config_ok demo_cookie_config.
Proof. apply demo_config_ok. split; [apply demo_key_ok | reflexivity]. Qed.
Lemma demo_env_ok : env_ok demo_env.
Proof. intros n. cbn. lia. Qed.
Lemma demo_targets_ok : snapshot_ok demo_targets.
Proof. intros id Hid. cbn in Hid. apply elem_of_singleton in Hid as ->. split; vm_compute; discriminate. Qed.
Lemma demo_inbox_ok : arrivals_ok (inbox demo_world).
Proof.
  constructor; [|constructor]. split.
  - apply bytes_ok_bool. vm_compute. reflexivity.
  - vm_compute. discriminate.
Qed.

(** C1. The delivery loop implements the high-availability policy: for every
    schedule of packets, clock readings and send outcomes it terminates without a panic,
    it takes packets from the front of its channel in phases that follow one another
    between its start and its end - the rounds and the final receive phase - and its
    outcome is the one the policy prescribes for those phases: the response of the
    preferred (oldest) server at once in the initial round; else, once the initial round
    has run to its deadline, the oldest responder; else the first valid response of a
    later phase, when every phase before it has run to its deadline in silence; a
    timeout only after every phase has; an I/O error only before any valid response. *)
Theorem ha_selection_refines_policy `{PrimitivesLaws} env cfg policy dedup packet resolved w
    (Henv : env_ok env) (Hcfg : config_ok cfg) (Hp : policy_ok policy)
    (Hs : snapshot_ok resolved) (Hin : arrivals_ok (inbox w)) :
  let run := deliver_and_select env cfg policy dedup packet resolved w in
  exists oldest phases,
    oldest_ok (allowed_server_ids resolved) oldest /\
    inbox w = taken phases ++ inbox run.2 /\
    in_sequence (now w) phases (now run.2) /\
    selection_spec cfg policy resolved oldest phases run.1.
Proof.
  destruct (deliver_spec env Henv cfg Hcfg policy dedup packet resolved w Hp Hs Hin)
    as (res & w' & oldest & phases & rounds & extra & E & Hold & _ & _ & Hran & [Hsel Hseq] & _).
  cbv zeta. rewrite E. exists oldest, phases. split_and!; [done | by destruct Hran | done | done].
Qed.

Lemma ha_selection_refines_policy_witness :
  let run := @deliver_and_select toy_primitives demo_env demo_cookie_config default_policy 60 [1]
               demo_targets demo_world in
  exists oldest phases,
    oldest_ok {[77]} oldest /\ inbox demo_world = taken phases ++ inbox run.2 /\
    in_sequence 0 phases (now run.2) /\
    @selection_spec toy_primitives demo_cookie_config default_policy demo_targets oldest phases run.1.
Proof.
  apply (@ha_selection_refines_policy toy_primitives toy_primitives_laws demo_env demo_cookie_config
           default_policy 60 [1] demo_targets demo_world demo_env_ok demo_cookie_ok default_policy_ok
           demo_targets_ok demo_inbox_ok).
Defined.

(** The concrete request is granted its response, and the server, having answered, is
    sent no completion delivery. *)
Example demo_run :
  let run := @deliver_and_select toy_primitives demo_env demo_cookie_config default_policy 60 [1]
               demo_targets demo_world in
  run.1 = Ok demo_result /\ now run.2 = 5000000 /\ map send_target (sends run.2) = [demo_addr].
Proof. vm_compute. split_and!; reflexivity. Qed.

(** C30. A request never waits longer than its horizon [U * (B(0) + ... + B(N) + F)]:
    the time between start and outcome, less what the scheduler itself adds
    between steps, is at most the horizon, whatever arrives and whatever fails. *)
Theorem request_within_horizon `{PrimitivesLaws} env cfg policy dedup packet resolved w
    (Henv : env_ok env) (Hcfg : config_ok cfg) (Hp : policy_ok policy)
    (Hs : snapshot_ok resolved) (Hin : arrivals_ok (inbox w)) :
  let run := deliver_and_select env cfg policy dedup packet resolved w in
  0 <= waits env w run.2 <= millis (horizon_spec policy).
Proof.
  destruct (deliver_spec env Henv cfg Hcfg policy dedup packet resolved w Hp Hs Hin)
    as (res & w' & oldest & phases & rounds & extra & E & _ & _ & _ & Hran & _).
  cbv zeta. rewrite E. destruct Hran as (_ & _ & _ & Hst & Ho). cbn [snd].
  rewrite waits_own by done. lia.
Qed.

Lemma request_within_horizon_witness :
  let run := @deliver_and_select toy_primitives demo_env demo_cookie_config default_policy 60 [1]
               demo_targets demo_world in
  0 <= waits demo_env demo_world run.2 <= millis (horizon_spec default_policy).
Proof.
  apply (@request_within_horizon toy_primitives toy_primitives_laws demo_env demo_cookie_config
           default_policy 60 [1] demo_targets demo_world demo_env_ok demo_cookie_ok default_policy_ok
           demo_targets_ok demo_inbox_ok).
Defined.

(** C5. What is sent: every datagram is the one packet of the request; every transmission round addresses every server of the
    snapshot once, in order (a round only follows silent ones, so all of them
    are still missing), at least one and at most [N + 1] rounds, and all of them
    before a timeout; after a decision exactly one completion delivery follows,
    to exactly the servers that have not answered, if it is enabled and what the clock
    shows after the rounds is less than the deduplication lifetime after what it showed
    at the start, and nothing otherwise; a failed request adds none. *)
Theorem deliveries_spec `{PrimitivesLaws} env cfg policy dedup packet resolved w
    (Henv : env_ok env) (Hcfg : config_ok cfg) (Hp : policy_ok policy)
    (Hs : snapshot_ok resolved) (Hin : arrivals_ok (inbox w)) :
  let run := deliver_and_select env cfg policy dedup packet resolved w in
  exists taken new rounds extra,
    inbox w = taken ++ inbox run.2 /\ sends run.2 = sends w ++ new /\
    map send_target new = concat (replicate rounds (targets resolved)) ++ extra /\
    Forall (fun s => send_packet s = packet) new /\
    1 <= Z.of_nat rounds <= replay_count policy + 1 /\
    (run.1 = Err CoreTimeout -> Z.of_nat rounds = replay_count policy + 1) /\
    (if is_ok run.1 then completion_spec env cfg policy dedup packet resolved
       (seen_after cfg (allowed_server_ids resolved) no_seen taken) extra w run.2
     else extra = []).
Proof.
  destruct (deliver_spec env Henv cfg Hcfg policy dedup packet resolved w Hp Hs Hin)
    as (res & w' & oldest & phases & rounds & extra & E & _ & Hr & Hto & Hran & _ & Hc & _).
  cbv zeta. rewrite E. destruct Hran as (Hi & (new & Hn & Ht) & _).
  exists (taken phases), new, rounds, extra. split_and!; try (done || lia).
  destruct (emits_deliver env cfg policy dedup packet resolved w) as (new' & Hn' & Hp').
  rewrite E in Hn'. cbn [snd] in Hn'. rewrite Hn in Hn'. by apply app_inv_head in Hn' as ->.
Qed.

Lemma deliveries_spec_witness :
  let run := @deliver_and_select toy_primitives demo_env demo_cookie_config default_policy 60 [1]
               demo_targets demo_world in
  exists taken new rounds extra,
    inbox demo_world = taken ++ inbox run.2 /\ sends run.2 = [] ++ new /\
    map send_target new = concat (replicate rounds [demo_addr]) ++ extra /\
    Forall (fun s => send_packet s = [1]) new /\
    1 <= Z.of_nat rounds <= 2 /\ (run.1 = Err CoreTimeout -> Z.of_nat rounds = 2) /\
    (if is_ok run.1 then @completion_spec toy_primitives demo_env demo_cookie_config default_policy 60 [1] demo_targets
       (@seen_after toy_primitives demo_cookie_config {[77]} no_seen taken) extra demo_world run.2
     else extra = []).
Proof.
  apply (@deliveries_spec toy_primitives toy_primitives_laws demo_env demo_cookie_config
           default_policy 60 [1] demo_targets demo_world demo_env_ok demo_cookie_ok default_policy_ok
           demo_targets_ok demo_inbox_ok).
Defined.

Lemma forallb_false_inv {A} (p : A -> bool) l :
  forallb p l = false -> exists x, In x l /\ p x = false.
Proof.
  induction l as [|x l IH]; cbn; [done|]. destruct (p x) eqn:Hx; [|by eauto].
  intros H. destruct (IH H) as (y & ? & ?). eauto.
Qed.

(** One delivery sends one datagram to each target that has not responded, in
    order, and to no other; it takes nothing from the channel, and it fails -
    with the error of its last datagram - exactly when it addressed somebody and
    reached nobody, so one unreachable endpoint never hides the others. *)
Theorem send_to_missing_spec env packet resolved seen w :
  let run := send_to_missing env packet resolved seen w in
  exists new,
    sends run.2 = sends w ++ new /\ map send_target new = missing resolved seen /\
    inbox run.2 = inbox w /\
    (run.1 = Ok tt <-> new = [] \/ exists s, s ∈ new /\ reached s = true) /\
    (forall e, run.1 = Err e <-> exists io, e = CoreIo io /\ delivery_error new = Some io).
Proof.
  destruct (send_to_missing_eq env packet resolved seen w) as (w' & new & E & Hs & Ht & Hi & _).
  cbv zeta. rewrite E. exists new. cbn [fst snd].
  assert (Hnone : delivery_error new = None <-> new = [] \/ exists s, s ∈ new /\ reached s = true).
  { unfold delivery_error. destruct (forallb _ new) eqn:Hall.
    - rewrite forallb_forall in Hall. split.
      + intros Hlast. left. destruct new as [|s new]; [done|]. exfalso.
        rewrite last_None in Hlast. specialize (Hall s (or_introl eq_refl)).
        cbn [omap list_omap] in Hlast. unfold failure, reached in *. by destruct (send_result s).
      + intros [->|(s & Hin & Hr)]; [done|]. apply list_elem_of_In in Hin.
        specialize (Hall s Hin). by rewrite Hr in Hall.
    - split; [intros _; right | done].
      apply forallb_false_inv in Hall as (s & Hin & Hr). exists s.
      split; [by apply list_elem_of_In | by apply negb_false_iff]. }
  rewrite <- Hnone. split_and!; try done; [|intros e];
    (destruct (delivery_error new) as [io|]; naive_solver).
Qed.


(** Accepting a packet: a packet that does not parse under the key, or whose
    authenticated server id is not in the snapshot, changes nothing at all; a
    valid one is returned, its server and address are marked as seen, and the
    statistics of that server alone get one more valid response. *)
Theorem accept_policy_response_spec `{PrimitivesLaws} env cfg p allowed seen w
    (Henv : env_ok env) (Hcfg : config_ok cfg) (Hp : packet_ok p) :
  let run := accept_policy_response env cfg p allowed seen w in
  match valid_response cfg allowed p with
  | None => run = (Ok (None, seen), w)
  | Some r => exists t, now w <= t /\
      run.1 = Ok (Some r, see seen p r) /\ inbox run.2 = inbox w /\ sends run.2 = sends w /\
      server_stats run.2 = <[server_id r :=
        let s := default (new_server_stats t) (server_stats w !! server_id r) in
        mkServerStats t (bump (valid_responses s)) (send_failures s)]> (server_stats w) /\
      peek_server_id (packet_data p) = Ok (server_id r)
  end.
Proof.
  destruct Hp as [Hb Hl]. cbv zeta. unfold accept_policy_response, valid_response.
  pose proof (no_panic_parse_rate_response cfg Hcfg _ Hb Hl) as Hnp.
  destruct (no_panic_peeks (packet_data p)) as [Hpk _].
  destruct (parse_rate_response cfg (packet_data p)) as [r|e|] eqn:Hr; [| |done].
  - destruct (parse_rate_response_id cfg Hcfg _ _ Hb Hl Hr) as [-> _].
    destruct (bool_decide (allowed = ∅)), (bool_decide (server_id r ∈ allowed)); cbn [negb andb orb];
      try done; exists (now w + env_delay env (steps w)); pose proof (Henv (steps w));
      (split; [lia|]); by split_and!.
  - destruct (peek_server_id (packet_data p)) as [id|[]|]; [by destruct (negb _ && negb _) | done | done].
Qed.

Lemma accept_policy_response_spec_witness :
  let run := @accept_policy_response toy_primitives demo_env demo_cookie_config
               (mkResponsePacket demo_response demo_addr) {[78]} no_seen demo_world in
  run = (Ok (None, no_seen), demo_world).
Proof.
  pose proof (@accept_policy_response_spec toy_primitives toy_primitives_laws demo_env demo_cookie_config
    (mkResponsePacket demo_response demo_addr) {[78]} no_seen demo_world demo_env_ok
    demo_cookie_ok (Forall_inv demo_inbox_ok)) as Hspec.
  assert (@valid_response toy_primitives demo_cookie_config {[78]}
            (mkResponsePacket demo_response demo_addr) = None) as Hv by (vm_compute; reflexivity).
  cbv zeta in Hspec. rewrite Hv in Hspec. exact Hspec.
Defined.
