(* ===== verification/Timely.v ===== *)
(** * Answers that come in time (src/src/client.rs)

    [Selection] says what a request may return for the packets it took.  Here: it
    takes every packet that comes in time.  A request does not give up early, and an
    answer that arrives before its deadline, less what the scheduler adds, decides. *)

From S2P Require Import Prelude Errors Policy Net Discovery Config Wire Request Response Age World Selection.

(** A packet that arrived at [a] came within [len] milliseconds of the start [w], in spite
    of what the scheduler added until [w']. *)
Definition in_time (env : Env) (w w' : World) (a len : Z) : Prop :=
  a + lag env w w' < now w + millis len.

Section Timely.
Context `{PrimitivesLaws} (env : Env) (Henv : env_ok env) (cfg : CoreConfig) (Hcfg : config_ok cfg).

(** A timeout follows silent phases only. *)
Lemma timeout_silent policy allowed oldest k phases :
  ha_selects cfg policy allowed oldest k phases None ->
  Forall (fun ph => responses cfg allowed (arrivals ph) = []) phases.
Proof.
  remember None as sel eqn:Hs. intros Hsel. revert Hs. induction Hsel; intros Hs; try done; constructor; auto.
Qed.

Lemma response_in allowed a p r cs :
  (a, p) ∈ cs -> valid_response cfg allowed p = Some r -> r ∈ responses cfg allowed cs.
Proof. intros Hin Hv. apply list_elem_of_omap. by exists (a, p). Qed.

(** The rest of a request, once its rounds ended. *)
Definition after_rounds (policy : RequestPolicy) (dedup : Z) (packet : list Z) (resolved : ResolvedTargets)
    (started : Z) (res : outcome CoreError (option RateLimitResult * Seen) * World)
  : outcome CoreError RateLimitResult * World :=
  match res with
  | (Ok (Some result, seen), w) =>
      (t ← (if completion_delivery policy then clock env else ret 0);
       _ ← (if completion_delivery policy && (t - started <? millis dedup)
            then _ ← try_act (send_to_missing env packet resolved seen); ret tt
            else ret tt);
       ret result) w
  | (Ok (None, _), w) => (Err CoreTimeout, w)
  | (Err e, w) => (Err e, w)
  | (Panic, w) => (Panic, w)
  end.

(** It keeps the outcome, and time goes on. *)
Lemma after_rounds_spec policy dedup packet resolved started r w :
  exists w', (steps w <= steps w')%nat /\
    after_rounds policy dedup packet resolved started (r, w)
    = (match r with
       | Ok (Some result, _) => Ok result
       | Ok (None, _) => Err CoreTimeout
       | Err e => Err e
       | Panic => Panic
       end, w').
Proof.
  destruct r as [[[result|] seen]|e|]; cbn [after_rounds]; [|by exists w..].
  destruct (complete_spec env Henv policy dedup packet resolved seen started w)
    as (w' & extra & Ec & (_ & _ & _ & Hsteps & _) & _).
  exists w'. split; [done|]. revert Ec. unfold mbind, act_bind, ret.
  repeat match goal with |- context [match ?x with _ => _ end] => destruct x eqn:? end; congruence.
Qed.

(** A whole request: its first round, the other rounds, the rest. *)
Lemma deliver_stages policy dedup packet resolved w :
  policy_ok policy -> snapshot_ok resolved ->
  exists oldest w1, oldest_ok (allowed_server_ids resolved) oldest /\ calm env w w1 /\
    deliver_and_select env cfg policy dedup packet resolved w
    = after_rounds policy dedup packet resolved (now w1)
        (select_rounds env cfg (S (Z.to_nat (replay_count policy))) policy packet resolved oldest 0 no_seen w1).
Proof.
  intros ((_ & [Hrc _] & _) & _) Hs. unfold deliver_and_select.
  destruct (oldest_server_ok resolved Hs) as (oldest & Hmin & Hold).
  rewrite (act_run (lift (min_by_age _ _)) _ w oldest w) by (unfold lift; by rewrite Hmin).
  destruct (clock_calm env w) as (w1 & Hc1 & Hw1). rewrite (act_run _ _ _ _ _ Hc1).
  exists oldest, w1. split; [done|]. split; [done|].
  replace (Z.to_nat (replay_count policy + 1)) with (S (Z.to_nat (replay_count policy))) by lia.
  unfold mbind at 1, act_bind at 1. by destruct (select_rounds _ _ _ _ _ _ _ _ _ _) as [[[[r|] seen]|e|] w2].
Qed.

(** A preferred server that answers within the first round, in spite of what the
    scheduler adds, is the one selected. *)
Lemma preferred_selected policy dedup packet resolved w a p r :
  policy_ok policy -> snapshot_ok resolved -> arrivals_ok (inbox w) -> in_order (inbox w) ->
  (a, p) ∈ inbox w -> valid_response cfg (allowed_server_ids resolved) p = Some r ->
  oldest_ok (allowed_server_ids resolved) (Some (server_id r)) ->
  let run := deliver_and_select env cfg policy dedup packet resolved w in
  lag env w run.2 < millis (unit_ms policy) ->
  a + lag env w run.2 < now w + millis (unit_ms policy * round_units (replay_gap policy) 0) ->
  (exists r', run.1 = Ok r' /\ server_id r' = server_id r) \/ exists io, run.1 = Err (CoreIo io).
Proof.
  intros Hp Hs Hin Hord Hx Hv Hpref. cbv zeta.
  destruct (deliver_stages policy dedup packet resolved w Hp Hs) as (oldest & w1 & Hold & Hw1 & ->).
  assert (oldest = Some (server_id r)) as ->.
  { destruct oldest as [o|]; cbn [oldest_ok] in *; [|set_solver]. f_equal.
    destruct Hold as [H1 H2], Hpref as [H3 H4]. specialize (H2 _ H3). specialize (H4 _ H1). lia. }
  pose proof (calm_inbox _ _ _ Hw1) as Hi1. rewrite <- Hi1 in Hin, Hord, Hx.
  destruct (transmission_round env Henv cfg Hcfg (Z.to_nat (replay_count policy)) policy packet resolved
    (Some (server_id r)) 0 no_seen w1 Hp ltac:(lia) Hin)
    as [(io & w2 & -> & _)|(exit & w2 & cs & dl & -> & Hran & Hcs & Hin2 & Hex & Hwait)]; [right; by exists io|].
  destruct exit as [b s|b s|]; [| |done].
  - assert (Hlate : (a, p) ∈ inbox w2).
    { destruct Hran as [Hi _]. rewrite Hi in Hx. apply elem_of_app in Hx as [Hx|]; [|done]. exfalso.
      pose proof (response_in _ _ _ _ _ Hx Hv) as Hr. destruct Hex as (_ & _ & [[_ Hg]|Hg] & _).
      - rewrite Forall_forall in Hg. by apply (Hg r Hr).
      - rewrite Hg in Hr. by apply not_elem_of_nil in Hr. }
    pose proof (waited_calm env Henv policy _ _ _ _ Hw1 (proj1 (proj2 (proj2 (proj2 Hran)))) (Hwait _ _ eq_refl))
      as [_ Hlast]. rewrite <- Hi1 in Hlast. specialize (Hlast Hord).
    match goal with |- context [after_rounds _ _ _ _ _ ?x] => set (rest := x) end.
    assert (Hst : (steps w2 <= steps rest.2)%nat).
    { subst rest. destruct b as [x|]; [cbn; lia|].
      destruct (select_rounds_spec env Henv cfg Hcfg (Z.to_nat (replay_count policy)) policy packet resolved
        (Some (server_id r)) (0 + 1) s w2) as (res & w3 & phases & rounds & -> & _ & (_ & _ & _ & Hst & _) & _);
        try done; destruct Hp as ((_ & [Hrc _] & _) & _); lia. }
    destruct rest as [res w3]. destruct (after_rounds_spec policy dedup packet resolved (now w1) res w3)
      as (w4 & Hst4 & ->). cbn [fst snd] in *. intros Hlag Ha. exfalso.
    specialize (Hlast ltac:(unfold lag in *; pose proof (delays_mono env (steps w2) (steps w4) Henv ltac:(lia)); lia)
      _ Hlate). unfold lag in *. pose proof (delays_mono env (steps w2) (steps w4) Henv ltac:(lia)). cbn [fst] in *. lia.
  - destruct Hex as (-> & -> & cs0 & x & r0 & -> & Hv0 & Hg & [Ho|?]); [|lia].
    assert (oldest_of None (responses cfg (allowed_server_ids resolved) (cs0 ++ [x])) = Some r0) as ->.
    { rewrite responses_app. assert (responses cfg (allowed_server_ids resolved) [x] = [r0]) as ->
        by (unfold responses; cbn; by rewrite Hv0). apply Forall_app in Hcs as [Hcs _].
      apply (oldest_of_preferred env Henv cfg Hcfg _ (server_id r)); try done; [congruence|].
      destruct Hg as [[_ Hg]|Hg]; [done | rewrite Hg; constructor]. }
    cbn [ret]. destruct (after_rounds_spec policy dedup packet resolved (now w1)
      (Ok (Some r0, seen_after cfg (allowed_server_ids resolved) no_seen (cs0 ++ [x]))) w2) as (w4 & _ & E).
    unfold ret. rewrite E. left. exists r0. split; [done | congruence].
Qed.

(** What [timely_answers_decide] states, for the operations built on a delivery. *)
Lemma timely_answers policy dedup packet resolved w :
  policy_ok policy -> snapshot_ok resolved -> arrivals_ok (inbox w) -> in_order (inbox w) ->
  let run := deliver_and_select env cfg policy dedup packet resolved w in
  (run.1 = Err CoreTimeout -> now w + millis (horizon_spec policy) <= now run.2) /\
  forall a p r,
    (a, p) ∈ inbox w -> valid_response cfg (allowed_server_ids resolved) p = Some r ->
    lag env w run.2 < millis (unit_ms policy) ->
    (in_time env w run.2 a (horizon_spec policy) -> run.1 <> Err CoreTimeout) /\
    (oldest_ok (allowed_server_ids resolved) (Some (server_id r)) ->
     in_time env w run.2 a (unit_ms policy * round_units (replay_gap policy) 0) ->
     (exists r', run.1 = Ok r' /\ server_id r' = server_id r) \/ exists io, run.1 = Err (CoreIo io)).
Proof.
  intros Hp Hs Hin Hord. unfold in_time. destruct (deliver_spec env Henv cfg Hcfg policy dedup packet resolved w Hp Hs Hin)
    as (res & w' & oldest & phases & rounds & extra & E & _ & _ & _ & (Hi & _) & [Hsel _] & _ & Hwait).
  split; [rewrite E; intros Ht; by apply Hwait|]. intros a p r Hx Hv Hlag.
  split; [|intros Hpref Ha; by eapply preferred_selected].
  rewrite E in Hlag |- *. cbn [fst snd] in *. intros Ha ->. destruct (Hwait eq_refl) as [_ Hlate].
  specialize (Hlate Hord Hlag). apply timeout_silent in Hsel.
  rewrite Hi in Hx. apply elem_of_app in Hx as [Hx|Hx]; [|specialize (Hlate _ Hx); cbn [fst] in *; lia].
  apply list_elem_of_In, in_concat in Hx as (cs & Hcs%list_elem_of_In & Hx%list_elem_of_In).
  apply list_elem_of_fmap in Hcs as (ph & -> & Hph).
  rewrite Forall_forall in Hsel. pose proof (response_in _ _ _ _ _ Hx Hv) as Hr. rewrite (Hsel _ Hph) in Hr.
  by apply not_elem_of_nil in Hr.
Qed.

End Timely.

(** ** Theorems *)

(** C2. A request gives up only when its whole horizon has passed.  If the scheduler
    adds less than one time unit, then a valid answer that arrives before the end of the
    horizon, less what the scheduler added, prevents the timeout, and one of the
    preferred server that so arrives within the initial round decides: its server's
    response is returned, unless sending itself failed. *)
Theorem timely_answers_decide `{PrimitivesLaws} env cfg policy dedup packet resolved w
    (Henv : env_ok env) (Hcfg : config_ok cfg) (Hp : policy_ok policy)
    (Hs : snapshot_ok resolved) (Hin : arrivals_ok (inbox w)) (Hord : in_order (inbox w)) :
  let run := deliver_and_select env cfg policy dedup packet resolved w in
  (run.1 = Err CoreTimeout -> now w + millis (horizon_spec policy) <= now run.2) /\
  forall a p r,
    (a, p) ∈ inbox w -> valid_response cfg (allowed_server_ids resolved) p = Some r ->
    lag env w run.2 < millis (unit_ms policy) ->
    (in_time env w run.2 a (horizon_spec policy) -> run.1 <> Err CoreTimeout) /\
    (oldest_ok (allowed_server_ids resolved) (Some (server_id r)) ->
     in_time env w run.2 a (unit_ms policy * round_units (replay_gap policy) 0) ->
     (exists r', run.1 = Ok r' /\ server_id r' = server_id r) \/ exists io, run.1 = Err (CoreIo io)).
Proof. by apply timely_answers. Qed.

Lemma timely_answers_decide_witness :
  let run := @deliver_and_select toy_primitives demo_env demo_cookie_config default_policy 60 [1]
               demo_targets demo_world in
  run.1 <> Err CoreTimeout /\
  ((exists r', run.1 = Ok r' /\ server_id r' = 77) \/ exists io, run.1 = Err (CoreIo io)).
Proof.
  pose proof (@timely_answers_decide toy_primitives toy_primitives_laws demo_env demo_cookie_config default_policy
    60 [1] demo_targets demo_world demo_env_ok demo_cookie_ok default_policy_ok demo_targets_ok demo_inbox_ok
    ltac:(repeat constructor)) as [_ Ht].
  destruct (Ht 5000000 (mkResponsePacket demo_response demo_addr) demo_result) as [Hno Hyes].
  - left.
  - vm_compute. reflexivity.
  - vm_compute. reflexivity.
  - split; [apply Hno; vm_compute; reflexivity|]. apply Hyes; [|vm_compute; reflexivity].
    split; [reflexivity|]. intros id Hid. cbn in Hid. apply elem_of_singleton in Hid as ->. reflexivity.
Defined.
