(* ===== verification/Router.v ===== *)
(** * The response router (src/src/client.rs)

    One background task reads datagrams and hands each to the channel of the
    request it names.  Requests register and unregister themselves; steering
    replaces the socket and waits until the router has picked the new one up. *)

From S2P Require Import Prelude Transitions Errors Codec ApiKey Policy Net Sockets Config Wire Auth.
From S2P Require Import Request Response World.

(** ** Dispatch *)

(** The [InflightMap]: the channel of each registered request, by what was sent
    into it. *)
Notation InflightMap := (gmap (list Z) (list ResponsePacket)).

(** The receive buffer of [response_router]; a longer datagram is cut. *)
Definition recv_buf (traffic_stats : bool) : Z := if traffic_stats then 65536 else 2048.

(** One received datagram: the body of the [recv_from] branch.  The channels are
    unbounded, so a send to a registered request succeeds. *)
Definition route (payload : list Z) (addr : SocketAddr) (inflight : InflightMap)
  : outcome CoreError InflightMap :=
  match peek_request_id payload with
  | Panic => Panic
  | Err e => Ok inflight
  | Ok request_id =>
      match inflight !! request_id with
      | Some sent => Ok (<[request_id := sent ++ [mkResponsePacket payload addr]]> inflight)
      | None => Ok inflight
      end
  end.

(** What happens to the map: a request registers ([insert] of a fresh channel) or
    unregisters ([Drop] of its [InflightRegistration]), a datagram arrives, or
    [recv_from] fails. *)
Inductive router_event : Type :=
| Register (request_id : list Z)
| Unregister (request_id : list Z)
| Datagram (payload : list Z) (addr : SocketAddr)
| ReceiveError (error : io_error).

Definition router_step (traffic_stats : bool) (e : router_event) (inflight : InflightMap)
  : outcome CoreError InflightMap :=
  match e with
  | Register request_id => Ok (<[request_id := []]> inflight)
  | Unregister request_id => Ok (delete request_id inflight)
  | Datagram payload addr =>
      route (take (Z.to_nat (recv_buf traffic_stats)) payload) addr inflight
  | ReceiveError _ => Ok inflight
  end.

Fixpoint router_run (traffic_stats : bool) (es : list router_event) (inflight : InflightMap)
  : outcome CoreError InflightMap :=
  match es with
  | [] => Ok inflight
  | e :: es => inflight ← router_step traffic_stats e inflight; router_run traffic_stats es inflight
  end.

(** ** Picking up a new socket *)

(** The shared socket and epoch, which the writer changes together under the
    write lock; what the router listens on; the epoch it last announced; and
    whether steering waits for an announcement. *)
Record handshake := mkHandshake {
  current : nat;              (** the shared socket *)
  epoch : Z;
  listening : option (nat * Z);  (** [active_socket] and [active_epoch]; [None] at the top of the loop *)
  loaded : option (nat * Z);     (** read under the lock, not announced yet *)
  ready : Z;
  waiting : bool;
}.

(** [abandons]: whether a rebind may be dropped while it waits. *)
Inductive handshake_step (abandons : bool) : handshake -> handshake -> Prop :=
| load h :
    listening h = None -> loaded h = None ->
    handshake_step abandons h
      (mkHandshake (current h) (epoch h) None (Some (current h, epoch h)) (ready h) (waiting h))
| announce h s e :
    loaded h = Some (s, e) ->
    handshake_step abandons h (mkHandshake (current h) (epoch h) (Some (s, e)) None e (waiting h))
| next_turn h a :
    listening h = Some a ->
    handshake_step abandons h (mkHandshake (current h) (epoch h) None None (ready h) (waiting h))
| replace h s :
    waiting h = false ->
    handshake_step abandons h (mkHandshake s (as_u64 (epoch h + 1)) (listening h) (loaded h) (ready h) true)
| wake h :
    waiting h = true -> ready h = epoch h ->
    handshake_step abandons h (mkHandshake (current h) (epoch h) (listening h) (loaded h) (ready h) false)
| abandon h :
    abandons = true -> waiting h = true ->
    handshake_step abandons h (mkHandshake (current h) (epoch h) (listening h) (loaded h) (ready h) false).

Definition handshake_start (s : nat) : handshake := mkHandshake s 0 None None 0 false.

(** ** Dispatch *)

Definition names (payload : list Z) (request_id : list Z) : bool :=
  bool_decide (peek_request_id payload = Ok request_id).

(** The packets that the datagrams among [es] put into the channel of [request_id]. *)
Fixpoint packets_for (traffic_stats : bool) (request_id : list Z) (es : list router_event)
  : list ResponsePacket :=
  match es with
  | [] => []
  | Datagram payload addr :: es =>
      let data := take (Z.to_nat (recv_buf traffic_stats)) payload in
      (if names data request_id then [mkResponsePacket data addr] else [])
        ++ packets_for traffic_stats request_id es
  | _ :: es => packets_for traffic_stats request_id es
  end.

(** No event of [es] registers or unregisters [request_id]. *)
Definition undisturbed (request_id : list Z) (es : list router_event) : Prop :=
  Forall (fun e => e <> Register request_id /\ e <> Unregister request_id) es.

Lemma route_lookup payload addr inflight rid :
  exists inflight', route payload addr inflight = Ok inflight' /\
    inflight' !! rid =
      match inflight !! rid with
      | Some sent => Some (sent ++ if names payload rid then [mkResponsePacket payload addr] else [])
      | None => None
      end.
Proof.
  unfold route, names. destruct (no_panic_peeks payload) as [_ Hnp].
  destruct (peek_request_id payload) as [id|e|]; [| |done].
  - destruct (inflight !! id) as [sent|] eqn:Hid.
    + exists (<[id := sent ++ [mkResponsePacket payload addr]]> inflight). split; [done|].
      destruct (decide (id = rid)) as [->|Hne].
      * by rewrite lookup_insert_eq, Hid, bool_decide_true.
      * rewrite lookup_insert_ne by done. rewrite bool_decide_false by congruence.
        destruct (inflight !! rid); [by rewrite app_nil_r | done].
    + exists inflight. split; [done|]. destruct (decide (id = rid)) as [->|Hne]; [by rewrite Hid|].
      rewrite bool_decide_false by congruence. destruct (inflight !! rid); [by rewrite app_nil_r | done].
  - exists inflight. split; [done|]. rewrite bool_decide_false by done.
    destruct (inflight !! rid); [by rewrite app_nil_r | done].
Qed.

(** The channel of a request after undisturbed events. *)
Definition channel_after (ts : bool) (rid : list Z) (es : list router_event)
    (channel : option (list ResponsePacket)) : option (list ResponsePacket) :=
  match channel with Some sent => Some (sent ++ packets_for ts rid es) | None => None end.

Lemma router_run_undisturbed ts rid es inflight :
  undisturbed rid es ->
  exists m, router_run ts es inflight = Ok m /\ m !! rid = channel_after ts rid es (inflight !! rid).
Proof.
  intros H. revert inflight. unfold channel_after.
  induction H as [|e es [Hr Hu] _ IH]; intros inflight; cbn [router_run].
  { exists inflight. split; [done|]. destruct (inflight !! rid); [by rewrite app_nil_r | done]. }
  destruct e as [id|id|payload addr|error]; cbn [router_step mbind outcome_bind packets_for]; [| | |apply IH].
  - destruct (IH (<[id := []]> inflight)) as (m & E & Hm). exists m. split; [done|].
    by rewrite Hm, lookup_insert_ne by congruence.
  - destruct (IH (delete id inflight)) as (m & E & Hm). exists m. split; [done|].
    by rewrite Hm, lookup_delete_ne by congruence.
  - set (data := take _ payload).
    destruct (route_lookup data addr inflight rid) as (inflight' & -> & Hl). cbn [mbind outcome_bind].
    destruct (IH inflight') as (m & E & Hm). exists m. split; [done|]. rewrite Hm, Hl.
    destruct (inflight !! rid); [by rewrite app_assoc | done].
Qed.

Lemma router_run_app ts es es' inflight :
  router_run ts (es ++ es') inflight = (m ← router_run ts es inflight; router_run ts es' m).
Proof.
  revert inflight. induction es as [|e es IH]; intros inflight; cbn [app router_run]; [done|].
  destruct (router_step ts e inflight); cbn [mbind outcome_bind]; [apply IH | done | done].
Qed.

Lemma router_run_total ts es inflight : exists m, router_run ts es inflight = Ok m.
Proof.
  revert inflight. induction es as [|e es IH]; intros inflight; cbn [router_run]; [by exists inflight|].
  destruct e as [id|id|payload addr|error]; cbn [router_step mbind outcome_bind]; [apply IH | apply IH | | apply IH].
  destruct (route_lookup (take (Z.to_nat (recv_buf ts)) payload) addr inflight []) as (m & -> & _). apply IH.
Qed.

(** ** The handshake *)

(** What the router listens on, or is about to announce. *)
Definition router_pairs (h : handshake) : list (nat * Z) :=
  option_list (listening h) ++ option_list (loaded h).

Definition previous (e p : Z) : Prop := in_u64 p /\ e = as_u64 (p + 1).

Record handshake_inv (h : handshake) : Prop := {
  inv_epoch : in_u64 (epoch h);
  inv_one : listening h = None \/ loaded h = None;
  inv_pairs : exists p, previous (epoch h) p /\
    (ready h = epoch h \/ ready h = p /\ waiting h = true) /\
    Forall (fun a => a = (current h, epoch h) \/ (a.2 = p /\ ready h = p)) (router_pairs h);
}.

Lemma previous_ne e p : previous e p -> p <> e.
Proof. unfold previous, in_u64, u64_max, as_u64. intros [Hp ->]. Z.div_mod_to_equations. lia. Qed.

Lemma next_epoch_in e : in_u64 (as_u64 (e + 1)).
Proof. unfold in_u64, u64_max, as_u64. Z.div_mod_to_equations. lia. Qed.

Lemma handshake_step_inv h h' : handshake_step false h h' -> handshake_inv h -> handshake_inv h'.
Proof.
  intros Hs [He Ho (p & Hp & Hr & Ha)]. pose proof (previous_ne _ _ Hp) as Hne.
  unfold router_pairs in *. destruct Hs as [h Hl Hd|h s e Hd|h a Hl|h s Hw|h Hw Hre|h Hab Hw]; [..|done];
    (split; cbn [epoch listening loaded current ready waiting option_list app]; [done || apply next_epoch_in|..]).
  - by left.
  - exists p. rewrite Hl, Hd in *. split_and!; [done | done | forall_list; by left].
  - by right.
  - rewrite Hd in *. apply Forall_app in Ha as [_ Ha]. apply Forall_inv in Ha.
    exists p. split; [done|]. destruct Ha as [[= -> ->]|[Hep Hrp]]; cbn [snd] in *.
    + split; [by left | forall_list; by left].
    + subst e. destruct Hr as [Hr|[_ Hw]]; [congruence|]. split; [by right|].
      forall_list. by right.
  - by left.
  - exists p. split_and!; [done | done | constructor].
  - destruct Ho; [by left | by right].
  - exists (epoch h). split; [done|]. destruct Hr as [Hr|[_ Hr]]; [|congruence].
    split; [right; done|]. eapply Forall_impl; [exact Ha|]. intros a [-> | [_ Hrp]]; [by right | congruence].
  - destruct Ho; [by left | by right].
  - exists p. split; [done|]. split; [by left|].
    eapply Forall_impl; [exact Ha|]. intros a [-> | [_ Hrp]]; [by left | congruence].
Qed.

Lemma handshake_reachable s h : rtc (handshake_step false) (handshake_start s) h -> handshake_inv h.
Proof.
  intros H. eapply rtc_invariant; [apply handshake_step_inv | exact H |].
  split; [vm_compute; split; discriminate | by left|]. exists u64_max. cbn.
  split; [split; [vm_compute; split; discriminate | reflexivity]|]. split; [by left | constructor].
Qed.

(** A waiting writer is let go by the router's own steps. *)
Lemma handshake_progress ab h :
  waiting h = true ->
  exists h', rtc (handshake_step ab) h h' /\ waiting h' = false /\ current h' = current h.
Proof.
  intros Hw.
  assert (Hload : forall h, waiting h = true -> listening h = None -> loaded h = None ->
    exists h', rtc (handshake_step ab) h h' /\ waiting h' = false /\ current h' = current h).
  { intros k Hk Hl Hd. eexists. split; [|split; [|shelve]].
    - eapply rtc_l; [by apply load|]. eapply rtc_l; [by eapply announce|]. apply rtc_once. by apply wake.
    - done.
    Unshelve. done. }
  assert (Hturn : forall h a, waiting h = true -> listening h = Some a -> loaded h = None ->
    exists h', rtc (handshake_step ab) h h' /\ waiting h' = false /\ current h' = current h).
  { intros k a Hk Hl Hd. destruct (Hload (mkHandshake (current k) (epoch k) None None (ready k) (waiting k)))
      as (h' & Hr & Hn & Hc); try done. exists h'. split; [|done].
    eapply rtc_l; [by eapply next_turn | exact Hr]. }
  destruct (loaded h) as [[s e]|] eqn:Hd.
  - destruct (Hturn (mkHandshake (current h) (epoch h) (Some (s, e)) None e (waiting h)) (s, e))
      as (h' & Hr & Hn & Hc); try done. exists h'. split; [|done].
    eapply rtc_l; [by eapply announce | exact Hr].
  - destruct (listening h) as [a|] eqn:Hl; [by eapply Hturn | by apply Hload].
Qed.

(** With dropped rebinds, as long as the epoch has not come round: the router's epochs
    lie between the one it announced last and the current one. *)
Record abandoned_inv (n : nat) (h : handshake) : Prop := {
  ab_epoch : 0 <= ready h <= epoch h /\ epoch h <= Z.of_nat n;
  ab_one : listening h = None \/ loaded h = None;
  ab_pairs : Forall (fun a => ready h <= a.2 <= epoch h /\ (a.2 = epoch h -> a.1 = current h)) (router_pairs h);
}.

Lemma abandoned_step n h h' :
  Z.of_nat (S n) <= u64_max -> handshake_step true h h' -> abandoned_inv n h -> abandoned_inv (S n) h'.
Proof.
  intros Hn Hs [[[He1 He2] He3] Ho Hp]. unfold router_pairs in *.
  destruct Hs as [h Hl Hd|h s e Hd|h a Hl|h s Hw|h Hw Hre|h Hab Hw];
    split; unfold router_pairs; cbn [epoch listening loaded current ready waiting option_list option_rect app] in *; try lia; auto.
  - rewrite Hl, Hd in *. forall_list. cbn. split; [lia | done].
  - rewrite Hd in Hp. apply Forall_app in Hp as [_ Hp]. apply Forall_inv in Hp as [Hp _]. cbn in Hp. lia.
  - rewrite Hd in Hp. apply Forall_app in Hp as [_ Hp]. apply Forall_inv in Hp as [Hp Hc]. cbn in *.
    forall_list. cbn. split; [lia | done].
  - unfold as_u64, u64_max in *. rewrite Z.mod_small by lia. lia.
  - unfold as_u64, u64_max in *. rewrite Z.mod_small by lia. eapply Forall_impl; [exact Hp|].
    cbn. intros a [Ha _]. split; lia.
Qed.

Lemma abandoned_reachable s n h :
  nsteps (handshake_step true) n (handshake_start s) h -> Z.of_nat n <= u64_max -> abandoned_inv n h.
Proof.
  revert h. induction n as [|n IH]; intros h Hrun Hn.
  - inversion Hrun; subst. split; cbn; [lia | by left | constructor].
  - apply nsteps_inv_r in Hrun as (h1 & Hrun & Hs). eapply abandoned_step; [done | exact Hs|].
    apply IH; [done | lia].
Qed.

(** ** Theorems *)

(** C26. The router keeps requests apart and loses nothing it reads: it never panics,
    and whatever else happens, from the registration of a request until its end its
    channel receives exactly the datagrams that name it, in order of arrival and cut
    to the receive buffer; once it has unregistered it receives nothing. *)
Theorem router_delivers ts pre es rid inflight
    (Hes : undisturbed rid es) :
  (exists m, router_run ts (pre ++ Register rid :: es) inflight = Ok m /\
     m !! rid = Some (packets_for ts rid es)) /\
  (exists m, router_run ts (pre ++ Unregister rid :: es) inflight = Ok m /\ m !! rid = None).
Proof.
  destruct (router_run_total ts pre inflight) as [m0 E0].
  rewrite !router_run_app, E0. cbn [mbind outcome_bind router_run router_step].
  destruct (router_run_undisturbed ts rid es (<[rid := []]> m0) Hes) as (m1 & E1 & H1).
  destruct (router_run_undisturbed ts rid es (delete rid m0) Hes) as (m2 & E2 & H2).
  rewrite lookup_insert_eq in H1. rewrite lookup_delete_eq in H2.
  split; [by exists m1 | by exists m2].
Qed.

(** C27. When steering returns, the router has left the old socket: in every
    reachable state in which no rebind waits, the router listens on nothing but the
    current socket, even where the epoch wraps around.  If rebinds may be dropped while
    they wait, the same holds whenever a rebind is let go, for the first [2^64 - 1]
    steps.  And a rebind that waits can always be let go by the router, with the socket
    unchanged. *)
Theorem handshake_spec abandons s n h (Hrun : nsteps (handshake_step abandons) n (handshake_start s) h) :
  (abandons = false -> waiting h = false -> Forall (fun a => a = (current h, epoch h)) (router_pairs h)) /\
  (abandons = true -> Z.of_nat n <= u64_max -> ready h = epoch h ->
     Forall (fun a => a = (current h, epoch h)) (router_pairs h)) /\
  (waiting h = true ->
     exists h', rtc (handshake_step abandons) h h' /\ waiting h' = false /\ current h' = current h).
Proof.
  split; [|split; [|by apply handshake_progress]].
  - intros -> Hw. apply rtc_nsteps_2, handshake_reachable in Hrun as [_ _ (p & Hp & Hr & Ha)].
    pose proof (previous_ne _ _ Hp). destruct Hr as [Hr|[_ Hr]]; [|congruence].
    eapply Forall_impl; [exact Ha|]. intros a [-> | [_ Hrp]]; [done | congruence].
  - intros -> Hn Hre. apply abandoned_reachable in Hrun as [_ _ Hp]; [|done].
    eapply Forall_impl; [exact Hp|]. intros [s' e'] [Ha Hc]. cbn in *. rewrite Hc by lia. f_equal. lia.
Qed.

(** A datagram for another request, and one for this. *)
Definition demo_events : list router_event :=
  [Datagram [1; 2; 3] (mkSocketAddr (V4 1) 2); Register (replicate 16 4);
   Datagram demo_response (mkSocketAddr (V4 1) 2)].

Lemma router_delivers_witness :
  exists m, router_run false ([] ++ Register demo_id :: demo_events) ∅ = Ok m /\
    m !! demo_id = Some [mkResponsePacket demo_response (mkSocketAddr (V4 1) 2)].
Proof.
  destruct (router_delivers false [] demo_events demo_id ∅) as [(m & E & Hm) _].
  - unfold demo_events. forall_list; split; discriminate.
  - exists m. split; [exact E|]. rewrite Hm. vm_compute. reflexivity.
Defined.

(** A rebind has replaced the socket; the router, still on the old one, can let it go. *)
Lemma handshake_spec_witness :
  exists h', rtc (handshake_step true) (mkHandshake 8 1 None None 0 true) h' /\ waiting h' = false /\
    current h' = 8%nat.
Proof.
  apply (handshake_spec true 7 1); [|reflexivity]. apply nsteps_once. by apply (replace true (handshake_start 7) 8).
Defined.
