(* ===== verification/Reception.v ===== *)
(** * Reading both sockets (src/src/client.rs)

    [FamilySockets::recv_from] reads the sockets of both families for the response
    router.  Here the router's turns run against the receive queues of the operating
    system, to which anything may be added at any time: nothing is read out of order,
    and neither family keeps the other waiting. *)

From S2P Require Import Prelude Errors Codec ApiKey Policy Net Sockets Config Wire Auth Request Response World Router.

(** ** The queues *)

(** What a receive from one socket returns: an error, or a datagram and its sender. *)
Definition received : Type := io_error + list Z * SocketAddr.

(** The receive queues by family ([true] for IPv6). *)
Definition queues : Type := bool -> list received.

Definition readable (l : list received) : bool := match l with [] => false | _ => true end.

Definition arrive (q a : queues) : queues := fun f => q f ++ a f.
Definition pop (f : bool) (q : queues) : queues := fun g => if bool_decide (g = f) then tail (q g) else q g.

(** A poll per element of [arrivals], which is queued before it: what is read, by
    family, and the queues left. *)
Fixpoint receive_run (s : FamilySockets) (q : queues) (arrivals : list queues)
  : list (bool * received) * queues :=
  match arrivals with
  | [] => ([], q)
  | a :: arrivals =>
      let q := arrive q a in
      let '(family, s) := poll_recv_from s (readable (q false)) (readable (q true)) in
      match family with
      | Some f =>
          let '(out, rest) := receive_run s (pop f q) arrivals in
          (match head (q f) with Some x => (f, x) :: out | None => out end, rest)
      | None => receive_run s q arrivals
      end
  end.

(** The turn of the router that a result causes. *)
Definition event_of (x : bool * received) : router_event :=
  match x.2 with
  | inl error => ReceiveError error
  | inr (payload, addr) => Datagram payload addr
  end.

(** What was read from one family. *)
Definition read_from (f : bool) (out : list (bool * received)) : list received :=
  omap (fun x => if bool_decide (x.1 = f) then Some x.2 else None) out.

Definition bound (s : FamilySockets) (f : bool) : Prop := (if f then fs_v6 s else fs_v4 s) <> None.

(** ** One poll *)

(** A poll reads a family whose socket is bound and ready; it reads [f] if that is
    ready and has its turn, and otherwise gives it the next turn. *)
Lemma poll_turn s q f :
  let '(family, s') := poll_recv_from s (readable (q false)) (readable (q true)) in
  (forall g, family = Some g -> readable (q g) = true) /\
  (forall g, bound s' g <-> bound s g) /\ v6_first s' = negb (v6_first s) /\
  (bound s f -> readable (q f) = true -> family = Some f \/ (v6_first s <> f /\ family = Some (negb f))).
Proof.
  unfold poll_recv_from, bound.
  destruct s as [[] [] []], f, (readable (q false)) eqn:H4, (readable (q true)) eqn:H6; cbn;
    (split; [intros [] [=]; done|]); (split; [by intros []|]); (split; [done|]); intros; naive_solver.
Qed.

Lemma readable_head l : readable l = true <-> exists x k, l = x :: k.
Proof. destruct l; naive_solver. Qed.

Lemma read_from_cons f g x out :
  read_from f ((g, x) :: out) = if bool_decide (g = f) then x :: read_from f out else read_from f out.
Proof. unfold read_from. cbn. by destruct (bool_decide _). Qed.

Lemma pop_same f q : pop f q f = tail (q f).
Proof. unfold pop. by rewrite bool_decide_true. Qed.
Lemma pop_other f g q : g <> f -> pop f q g = q g.
Proof. intros H. unfold pop. by rewrite bool_decide_false. Qed.

(** ** Runs *)

(** Nothing is lost, doubled or overtaken within a family. *)
Lemma receive_fifo f s q arrivals :
  let '(out, rest) := receive_run s q arrivals in
  read_from f out ++ rest f = q f ++ concat (map (fun a => a f) arrivals).
Proof.
  revert s q. induction arrivals as [|a arrivals IH]; intros s q; cbn [receive_run]; [by rewrite app_nil_r|].
  pose proof (poll_turn s (arrive q a) f) as Hp.
  destruct (poll_recv_from _ _ _) as [[g|] s']; destruct Hp as (Hg & _); cbn [map concat].
  - specialize (IH s' (pop g (arrive q a))). destruct (receive_run _ _ _) as [out rest].
    pose proof (Hg g eq_refl) as (x & k & Hx)%readable_head. rewrite Hx. cbn [head]. rewrite read_from_cons.
    case_bool_decide as Hgf.
    + subst g. rewrite pop_same, Hx in IH. cbn [app]. rewrite IH. cbn [tail]. rewrite app_comm_cons, <- Hx.
      unfold arrive. by rewrite <- app_assoc.
    + rewrite pop_other in IH by congruence. rewrite IH. unfold arrive. by rewrite <- app_assoc.
  - specialize (IH s' (arrive q a)). destruct (receive_run _ _ _) as [out rest]. rewrite IH. unfold arrive.
    by rewrite <- app_assoc.
Qed.

(** The polls until entry [k] of a queue is read: two for each entry, one less if the
    family has its turn. *)
Definition polls (s : FamilySockets) (f : bool) (k : nat) : nat :=
  2 * k + (if bool_decide (v6_first s = f) then 1 else 2).

Lemma receive_prompt f k x s q arrivals :
  bound s f -> q f !! k = Some x -> (polls s f k <= length arrivals)%nat ->
  read_from f (receive_run s q arrivals).1 !! k = Some x.
Proof.
  revert s q k. induction arrivals as [|a arrivals IH]; intros s q k Hb Hx Hn; cbn [receive_run length] in *.
  { unfold polls in Hn. destruct (bool_decide _); lia. }
  assert (Hxa : arrive q a f !! k = Some x) by (unfold arrive; by apply lookup_app_l_Some).
  clear Hx. set (q' := arrive q a) in *. clearbody q'.
  destruct (q' f) as [|y l] eqn:Hq; [done|].
  assert (Hready : readable (q' f) = true) by (apply readable_head; by exists y, l).
  pose proof (poll_turn s q' f) as Hp. destruct (poll_recv_from _ _ _) as [family s'].
  destruct Hp as (_ & Hb' & Hv & Ht). unfold polls in *.
  destruct (Ht Hb Hready) as [-> | [Hne ->]].
  - specialize (IH s' (pop f q')). destruct (receive_run _ _ _) as [out rest]. cbn [fst] in *.
    rewrite Hq. cbn [head]. rewrite read_from_cons, bool_decide_true by done. destruct k as [|k]; [done|].
    cbn [lookup list_lookup] in *. apply IH; [by apply Hb' | by rewrite pop_same, Hq |].
    rewrite Hv. destruct (v6_first s), f; cbn [negb] in *; repeat case_bool_decide; (lia || congruence).
  - specialize (IH s' (pop (negb f) q') k). destruct (receive_run _ _ _) as [out rest]. cbn [fst] in *.
    rewrite pop_other, Hq, Hv, bool_decide_true in IH by (destruct (v6_first s), f; done).
    rewrite bool_decide_false in Hn by done.
    destruct (head (q' (negb f))) as [z|]; [rewrite read_from_cons, bool_decide_false by (by destruct f)|];
      (apply IH; [by apply Hb' | done | lia]).
Qed.

(** ** Into the channels *)

Lemma read_from_elem f x out : x ∈ read_from f out -> (f, x) ∈ out.
Proof.
  unfold read_from. rewrite list_elem_of_omap. intros ([g y] & Hin & Hy). cbn in Hy. case_bool_decide; by simplify_eq.
Qed.

Lemma events_undisturbed rid out : undisturbed rid (map event_of out).
Proof. apply Forall_map, Forall_forall. intros [f [e|[payload addr]]] _; by split. Qed.

Lemma packets_for_elem ts rid es payload addr :
  Datagram payload addr ∈ es -> let data := take (Z.to_nat (recv_buf ts)) payload in
  names data rid = true -> mkResponsePacket data addr ∈ packets_for ts rid es.
Proof.
  cbv zeta. intros Hin Hn. induction es as [|e es IH]; [by apply not_elem_of_nil in Hin|].
  apply elem_of_cons in Hin as [<-|Hin]; cbn [packets_for].
  - rewrite Hn. apply elem_of_app. left. by apply list_elem_of_singleton.
  - destruct e; try by apply IH. apply elem_of_app. right. by apply IH.
Qed.

(** ** Theorem *)

(** C20. The router reads both families fairly and in order, whatever arrives.  For a
    bound socket, what is read and what is left are what was queued, in order; entry
    [k] of its queue is read within [2 k + 2] polls, even if the other socket is never
    empty; and if that is a datagram that names a registered request, it is then in the
    channel of the request - errors of other receives do not stop it. *)
Theorem reception_fair ts s f q arrivals (Hbound : bound s f) :
  let '(out, rest) := receive_run s q arrivals in
  read_from f out ++ rest f = q f ++ concat (map (fun a => a f) arrivals) /\
  forall k x, q f !! k = Some x -> (2 * k + 2 <= length arrivals)%nat ->
    read_from f out !! k = Some x /\
    forall payload addr inflight rid sent, x = inr (payload, addr) -> inflight !! rid = Some sent ->
      let data := take (Z.to_nat (recv_buf ts)) payload in
      names data rid = true ->
      exists m packets, router_run ts (map event_of out) inflight = Ok m /\
        m !! rid = Some (sent ++ packets) /\ mkResponsePacket data addr ∈ packets.
Proof.
  pose proof (receive_fifo f s q arrivals) as Hf. pose proof (receive_prompt f) as Hp.
  destruct (receive_run s q arrivals) as [out rest] eqn:E. split; [done|]. intros k x Hx Hn.
  assert (Hread : read_from f out !! k = Some x).
  { specialize (Hp k x s q arrivals Hbound Hx). rewrite E in Hp. apply Hp. unfold polls. destruct (bool_decide _); lia. }
  split; [done|]. intros payload addr inflight rid sent -> Hsent data Hname.
  destruct (router_run_undisturbed ts rid _ inflight (events_undisturbed rid out)) as (m & Hm & Hl).
  exists m, (packets_for ts rid (map event_of out)). split; [done|]. rewrite Hl, Hsent. split; [done|].
  apply packets_for_elem; [|done]. apply list_elem_of_fmap. eexists (f, inr (payload, addr)). split; [done|].
  by eapply read_from_elem, list_elem_of_lookup_2.
Qed.

(** An error and an answer wait on IPv4, while IPv6 is never empty. *)
Lemma reception_fair_witness :
  let busy : queues := fun f => if f then [inr ([0], mkSocketAddr (V6 1) 1)] else [] in
  let waiting : queues := fun f => if f then [] else [inl AddrInUse; inr (demo_response, mkSocketAddr (V4 1) 2)] in
  exists m packets,
    router_run false (map event_of (receive_run (mkFamilySockets (Some 5) (Some 6) true) waiting (replicate 4 busy)).1)
      {[demo_id := []]} = Ok m /\
    m !! demo_id = Some ([] ++ packets) /\ mkResponsePacket demo_response (mkSocketAddr (V4 1) 2) ∈ packets.
Proof.
  intros busy waiting.
  pose proof (reception_fair false (mkFamilySockets (Some 5) (Some 6) true) false waiting (replicate 4 busy)) as H.
  destruct (receive_run _ _ _) as [out rest]. destruct H as [_ H]; [discriminate|]. cbn [fst].
  destruct (H 1%nat (inr (demo_response, mkSocketAddr (V4 1) 2)) eq_refl) as [_ Hin]; [cbn; lia|].
  apply (Hin demo_response (mkSocketAddr (V4 1) 2) {[demo_id := []]} demo_id [] eq_refl);
    [by apply lookup_singleton_eq | vm_compute; reflexivity].
Defined.
