(* ===== verification/Traffic.v ===== *)
(** * Traffic counters (src/src/traffic.rs)

    Lock-free cumulative counters.  [add] is a compare-and-exchange loop on one
    atomic; several tasks run it at once.  The model is a step relation between
    the shared counters and the threads, in which a relaxed load, and a failed
    weak exchange, may return any value, stale or not: every execution of the
    code is one of the relation.  [run_ops] is the sequential reference.  [access] is
    the same relation with each access labelled, to bound the length of runs. *)

From S2P Require Import Prelude Transitions Errors Net.

(** ** The counters *)

Record TrafficDirection := mkTrafficDirection {
  datagrams : Z;
  payload_bytes : Z;
  ip_bytes : Z;
}.

Record TrafficStats := mkTrafficStats {
  sent : TrafficDirection;
  received : TrafficDirection;
  send_failures : Z;
  incomplete : bool;
}.

(** [TrafficCounters] holds the atomics of the same fields: its contents are a
    [TrafficStats]. *)
Definition TrafficCounters : Type := TrafficStats.

Definition default_counters : TrafficCounters :=
  mkTrafficStats (mkTrafficDirection 0 0 0) (mkTrafficDirection 0 0 0) 0 false.

(** The [AtomicU64]s, as [&AtomicU64] arguments name them. *)
Inductive direction_field : Type := Datagrams | PayloadBytes | IpBytes.
Inductive counter : Type :=
| SentCounter (f : direction_field)
| ReceivedCounter (f : direction_field)
| SendFailures.

#[export] Instance direction_field_eq_dec : EqDecision direction_field.
Proof. solve_decision. Defined.
#[export] Instance counter_eq_dec : EqDecision counter.
Proof. solve_decision. Defined.

Definition dir_get (f : direction_field) (d : TrafficDirection) : Z :=
  match f with
  | Datagrams => datagrams d
  | PayloadBytes => payload_bytes d
  | IpBytes => ip_bytes d
  end.
Definition dir_set (f : direction_field) (z : Z) (d : TrafficDirection) : TrafficDirection :=
  match f with
  | Datagrams => mkTrafficDirection z (payload_bytes d) (ip_bytes d)
  | PayloadBytes => mkTrafficDirection (datagrams d) z (ip_bytes d)
  | IpBytes => mkTrafficDirection (datagrams d) (payload_bytes d) z
  end.

Definition get (c : counter) (t : TrafficCounters) : Z :=
  match c with
  | SentCounter f => dir_get f (sent t)
  | ReceivedCounter f => dir_get f (received t)
  | SendFailures => send_failures t
  end.
Definition set_counter (c : counter) (z : Z) (t : TrafficCounters) : TrafficCounters :=
  match c with
  | SentCounter f => mkTrafficStats (dir_set f z (sent t)) (received t) (send_failures t) (incomplete t)
  | ReceivedCounter f => mkTrafficStats (sent t) (dir_set f z (received t)) (send_failures t) (incomplete t)
  | SendFailures => mkTrafficStats (sent t) (received t) z (incomplete t)
  end.
Definition set_incomplete (t : TrafficCounters) : TrafficCounters :=
  mkTrafficStats (sent t) (received t) (send_failures t) true.

(** ** The operations, as the calls of [add] they make *)

Definition ip_headers (peer : SocketAddr) : Z :=
  match addr_ip peer with
  | V4 _ => 28
  | V6 address => match to_ipv4_mapped address with Some _ => 28 | None => 48 end
  end.

(** [record], on the counters that [field] selects. *)
Definition record (field : direction_field -> counter) (len : Z) (peer : SocketAddr)
  : outcome CoreError (list (counter * Z)) :=
  ip ← add_op u64_max (as_u64 len) (ip_headers peer);
  Ok [(field Datagrams, 1); (field PayloadBytes, as_u64 len); (field IpBytes, ip)].

(** The calls of the client: [sent(len, peer, &result)] and [received(len, peer)]. *)
Inductive traffic_op : Type :=
| Sent (len : Z) (peer : SocketAddr) (result : io_error + Z)
| Received (len : Z) (peer : SocketAddr).

Definition op_adds (op : traffic_op) : outcome CoreError (list (counter * Z)) :=
  match op with
  | Sent len peer result =>
      if match result with inr n => n =? len | inl _ => false end
      then record SentCounter len peer
      else Ok [(SendFailures, 1)]
  | Received len peer => record ReceivedCounter len peer
  end.

(** A task's calls, one after the other. *)
Fixpoint program (ops : list traffic_op) : outcome CoreError (list (counter * Z)) :=
  match ops with
  | [] => Ok []
  | op :: ops => a ← op_adds op; b ← program ops; Ok (a ++ b)
  end.

(** ** One task *)

(** A completed [add]. *)
Definition run_add (t : TrafficCounters) (a : counter * Z) : TrafficCounters :=
  let '(c, value) := a in
  let previous := get c t in
  let t' := set_counter c (saturating_add u64_max previous value) t in
  match checked_add u64_max previous value with
  | None => set_incomplete t'
  | Some _ => t'
  end.

Definition run_adds (t : TrafficCounters) (l : list (counter * Z)) : TrafficCounters :=
  fold_left run_add l t.

Definition run_ops (t : TrafficCounters) (ops : list traffic_op) : outcome CoreError TrafficCounters :=
  l ← program ops; Ok (run_adds t l).

(** [snapshot]: a load of each field, of the counters as they are at [reads c]. *)
Definition snapshot (reads : counter -> TrafficCounters) (flag : TrafficCounters) : TrafficStats :=
  let direction (field : direction_field -> counter) :=
    mkTrafficDirection (get (field Datagrams) (reads (field Datagrams)))
      (get (field PayloadBytes) (reads (field PayloadBytes)))
      (get (field IpBytes) (reads (field IpBytes))) in
  mkTrafficStats (direction SentCounter) (direction ReceivedCounter)
    (get SendFailures (reads SendFailures)) (incomplete flag).

(** ** Many tasks *)

(** Where a task is in [add]: before the load, before an exchange that expects
    [previous], or before the store to [incomplete]. *)
Inductive add_pc : Type :=
| Loading
| Exchanging (previous : Z)
| Flagging.

Record task := mkTask { todo : list (counter * Z); pc : add_pc }.

(** A single atomic access of a task in [add]. *)
Inductive add_step : TrafficCounters * task -> TrafficCounters * task -> Prop :=
| step_load t a l previous :
    add_step (t, mkTask (a :: l) Loading) (t, mkTask (a :: l) (Exchanging previous))
| step_exchange t c value l :
    checked_add u64_max (get c t) value <> None ->
    add_step (t, mkTask ((c, value) :: l) (Exchanging (get c t)))
      (set_counter c (saturating_add u64_max (get c t) value) t, mkTask l Loading)
| step_exchange_full t c value l :
    checked_add u64_max (get c t) value = None ->
    add_step (t, mkTask ((c, value) :: l) (Exchanging (get c t)))
      (set_counter c (saturating_add u64_max (get c t) value) t, mkTask ((c, value) :: l) Flagging)
| step_exchange_fails t a l previous actual :
    add_step (t, mkTask (a :: l) (Exchanging previous)) (t, mkTask (a :: l) (Exchanging actual))
| step_flag t a l :
    add_step (t, mkTask (a :: l) Flagging) (set_incomplete t, mkTask l Loading).

(** Any task takes the next step. *)
Inductive step : TrafficCounters * list task -> TrafficCounters * list task -> Prop :=
| step_task t ts i s t' s' :
    ts !! i = Some s -> add_step (t, s) (t', s') -> step (t, ts) (t', <[i:=s']> ts).

Definition start (l : list (counter * Z)) : task := mkTask l Loading.
Definition finished (ts : list task) : Prop := Forall (fun s => s = mkTask [] Loading) ts.

(** ** Amounts *)

(** What a list of calls adds to a counter. *)
Definition amount (c : counter) (l : list (counter * Z)) : Z :=
  sum_list_with_Z (fun a => if decide (a.1 = c) then a.2 else 0) l.

(** The calls of a task that have not changed their counter yet. *)
Definition remaining (s : task) : list (counter * Z) :=
  match pc s with Flagging => tail (todo s) | _ => todo s end.

Definition pending (c : counter) (ts : list task) : Z :=
  sum_list_with_Z (fun s => amount c (remaining s)) ts.

Definition adds_ok (l : list (counter * Z)) : Prop := Forall (fun a => in_u64 a.2) l.
Definition counters_ok (t : TrafficCounters) : Prop := forall c, in_u64 (get c t).

Definition task_ok (s : task) : Prop :=
  adds_ok (todo s) /\ (pc s <> Loading -> todo s <> []).

Lemma get_set c c' z t : get c (set_counter c' z t) = if decide (c = c') then z else get c t.
Proof. destruct c as [[]|[]|], c' as [[]|[]|]; done. Qed.

Lemma get_incomplete c t : get c (set_incomplete t) = get c t.
Proof. by destruct c. Qed.

Lemma incomplete_set c z t : incomplete (set_counter c z t) = incomplete t.
Proof. by destruct c. Qed.

Lemma counters_ext t t' :
  (forall c, get c t = get c t') -> incomplete t = incomplete t' -> t = t'.
Proof.
  intros Hg Hi. destruct t as [[] [] ? ?], t' as [[] [] ? ?].
  pose proof (Hg (SentCounter Datagrams)). pose proof (Hg (SentCounter PayloadBytes)).
  pose proof (Hg (SentCounter IpBytes)). pose proof (Hg (ReceivedCounter Datagrams)).
  pose proof (Hg (ReceivedCounter PayloadBytes)). pose proof (Hg (ReceivedCounter IpBytes)).
  pose proof (Hg SendFailures). cbn in *. by subst.
Qed.

Lemma amount_cons c a l : amount c (a :: l) = (if decide (a.1 = c) then a.2 else 0) + amount c l.
Proof. done. Qed.

Lemma amount_app c l k : amount c (l ++ k) = amount c l + amount c k.
Proof. apply sum_app_Z. Qed.

Lemma amount_nonneg c l : adds_ok l -> 0 <= amount c l.
Proof.
  induction 1 as [|[c' v] l [Hv _] _ IH]; [done|]. rewrite amount_cons. cbn [fst snd] in *.
  case_decide; lia.
Qed.

Lemma pending_insert c ts i s s' :
  ts !! i = Some s ->
  pending c (<[i:=s']> ts) = pending c ts - amount c (remaining s) + amount c (remaining s').
Proof. apply (sum_insert_Z (fun s => amount c (remaining s))). Qed.

Lemma remaining_ok s : task_ok s -> adds_ok (remaining s).
Proof.
  intros [Ha _]. unfold remaining. destruct (pc s); try done.
  destruct Ha; [constructor | done].
Qed.

Lemma pending_nonneg c ts : Forall task_ok ts -> 0 <= pending c ts.
Proof.
  induction 1 as [|s ts Hs _ IH]; [done|]. unfold pending in *. cbn [sum_list_with_Z].
  pose proof (amount_nonneg c _ (remaining_ok s Hs)). lia.
Qed.

Lemma pending_finished c ts : finished ts -> pending c ts = 0.
Proof. induction 1 as [|s ts -> _ IH]; [done|]. unfold pending in *. cbn. lia. Qed.

Lemma pending_start c ls : pending c (map start ls) = amount c (concat ls).
Proof.
  induction ls as [|l ls IH]; [done|]. cbn [map concat]. rewrite amount_app, <- IH. done.
Qed.

(** ** The invariant of concurrent updates *)

(** A counter [value] that should have reached [total] but for saturation, with
    [rest] still to come. *)
Definition saturated (value rest total : Z) : Prop :=
  value + rest = total \/ (value + rest < total /\ value = u64_max).

Record traffic_inv (t0 : TrafficCounters) (T : counter -> Z) (t : TrafficCounters) (ts : list task)
    : Prop := {
  inv_counters : counters_ok t;
  inv_tasks : Forall task_ok ts;
  inv_totals : forall c, saturated (get c t) (pending c ts) (T c);
  inv_flag : incomplete t = true \/ Exists (fun s => pc s = Flagging) ts <->
             incomplete t0 = true \/ exists c, get c t + pending c ts < T c;
}.

Lemma saturating_add_in previous value :
  in_u64 previous -> in_u64 value -> in_u64 (saturating_add u64_max previous value).
Proof. unfold in_u64, saturating_add. lia. Qed.

Lemma add_step_task_ok t s t' s' : add_step (t, s) (t', s') -> task_ok s -> task_ok s'.
Proof.
  intros Hs [Ha Hn]. inversion Hs; subst; cbn [todo pc] in *; split; try done;
    try (by inversion Ha); done.
Qed.

Lemma add_step_counters_ok t s t' s' :
  add_step (t, s) (t', s') -> task_ok s -> counters_ok t -> counters_ok t'.
Proof.
  intros Hs [Ha _] Hc c. specialize (Hc c) as Hgc. inversion Hs; subst; cbn [todo] in *; try done.
  1,2: rewrite get_set; case_decide; [subst|done]; apply saturating_add_in; [done|];
    by inversion Ha.
Qed.

(** What a step does to a counter and to the calls that remain of the task. *)
Lemma add_step_amounts t s t' s' c :
  add_step (t, s) (t', s') -> task_ok s -> counters_ok t ->
  let moved := get c t' + amount c (remaining s') - get c t - amount c (remaining s) in
  moved <= 0 /\ (moved < 0 -> get c t' = u64_max /\ pc s' = Flagging) /\
  (get c t = u64_max -> get c t' = u64_max).
Proof.
  intros Hs [Ha _] Hc. cbv zeta. pose proof (Hc c) as Hgc. unfold in_u64 in Hgc.
  inversion Hs as [| ? c' v l Hadd | ? c' v l Hadd | | ]; subst;
    unfold remaining; cbn [pc todo tail]; rewrite ?get_incomplete; try lia.
  all: apply Forall_inv in Ha; unfold in_u64 in Ha; cbn [snd] in Ha; rewrite get_set, amount_cons;
    cbn [fst snd]; unfold checked_add, saturating_add in *;
    destruct (Z.leb_spec (get c' t + v) u64_max); try done;
    destruct (decide (c = c')) as [<-|Hne].
  all: repeat case_decide; try congruence;
    (split_and!; [lia | intros; (exfalso; lia) || (split; [lia | done]) | intros; lia]).
Qed.

Lemma add_step_flag t s t' s' :
  add_step (t, s) (t', s') -> incomplete t = true \/ pc s = Flagging ->
  incomplete t' = true \/ pc s' = Flagging.
Proof. intros Hs. inversion Hs; subst; cbn [pc]; rewrite ?incomplete_set; intros [|]; try discriminate; auto. Qed.

Lemma add_step_flag_inv t s t' s' :
  add_step (t, s) (t', s') -> task_ok s ->
  incomplete t' = true \/ pc s' = Flagging ->
  incomplete t = true \/ pc s = Flagging \/
  exists c, get c t' + amount c (remaining s') < get c t + amount c (remaining s).
Proof.
  intros Hs [Ha _]. inversion Hs as [| | ? c v l Hadd | | ]; subst; cbn [pc]; rewrite ?incomplete_set;
    try (intros [|]; try discriminate; auto; done).
  intros _. right. right. exists c. apply Forall_inv in Ha. unfold in_u64 in Ha. cbn [snd] in Ha.
  unfold remaining, checked_add, saturating_add in *. cbn [pc todo tail].
  rewrite get_set, amount_cons, !decide_True by done. cbn [snd].
  destruct (Z.leb_spec (get c t + v) u64_max); [done | lia].
Qed.

Lemma Exists_insert {A} (P : A -> Prop) l i x y :
  l !! i = Some x -> Exists P (<[i:=y]> l) <-> P y \/ exists j z, j <> i /\ l !! j = Some z /\ P z.
Proof.
  intros Hl. rewrite Exists_exists. split.
  - intros (z & Hin & Hz). apply list_elem_of_lookup in Hin as [j Hj].
    apply list_lookup_insert_Some in Hj as [(-> & <- & _)|[Hne Hj]]; eauto 10.
  - intros [Hy|(j & z & Hne & Hj & Hz)].
    + exists y. split; [|done]. apply list_elem_of_lookup. exists i.
      apply list_lookup_insert_eq. by eapply lookup_lt_Some.
    + exists z. split; [|done]. apply list_elem_of_lookup. exists j. by rewrite list_lookup_insert_ne.
Qed.

Lemma Exists_split {A} (P : A -> Prop) l i x :
  l !! i = Some x -> Exists P l <-> P x \/ exists j z, j <> i /\ l !! j = Some z /\ P z.
Proof.
  intros Hl. rewrite <- (Exists_insert P l i x x Hl). by rewrite list_insert_id.
Qed.

Lemma traffic_step_inv t0 T t ts t' ts' :
  step (t, ts) (t', ts') -> traffic_inv t0 T t ts -> traffic_inv t0 T t' ts'.
Proof.
  intros Hstep [Hc Ht HT Hf]. inversion Hstep as [? ? i s ? s' Hi Hs]; subst.
  assert (task_ok s) as Hok by (by eapply Forall_lookup_1).
  pose proof (add_step_task_ok _ _ _ _ Hs Hok) as Hok'.
  pose proof (add_step_counters_ok _ _ _ _ Hs Hok Hc) as Hc'.
  assert (Forall task_ok (<[i:=s']> ts)) as Ht' by (by apply Forall_insert).
  pose proof (fun c => add_step_amounts _ _ _ _ c Hs Hok Hc) as Ham. cbv zeta in Ham.
  assert (forall c, get c t' + pending c (<[i:=s']> ts) =
    get c t + pending c ts + (get c t' + amount c (remaining s') - get c t - amount c (remaining s)))
    as Hp by (intros c; rewrite (pending_insert c ts i s s' Hi); lia).
  split; try done.
  - intros c. specialize (Ham c). specialize (HT c). unfold saturated in *. rewrite !Hp. lia.
  - rewrite (Exists_insert _ _ _ _ _ Hi). rewrite (Exists_split _ _ _ _ Hi) in Hf.
    assert (forall A B C : Prop, A \/ B \/ C <-> (A \/ B) \/ C) as Hassoc by (intros; tauto).
    rewrite Hassoc in Hf |- *. split.
    + intros H. assert (incomplete t0 = true \/ (exists c, get c t + pending c ts < T c) \/
        exists c, get c t' + amount c (remaining s') < get c t + amount c (remaining s)) as Hcase.
      { destruct H as [H|H]; [|tauto].
        destruct (add_step_flag_inv _ _ _ _ Hs Hok H) as [|[|]]; tauto. }
      destruct Hcase as [|[[c Hl]|[c Hl]]]; [by left | right; exists c..];
        rewrite Hp; specialize (Ham c); specialize (HT c); unfold saturated in HT; lia.
    + intros H. destruct H as [H|[c Hl]].
      * destruct (proj2 Hf (or_introl H)) as [H'|]; [left; by eapply add_step_flag | by right].
      * rewrite Hp in Hl. destruct (Ham c) as (Hle & Hlost & _).
        destruct (Z.eq_dec (get c t' + amount c (remaining s') - get c t - amount c (remaining s)) 0)
          as [He|He]; [|left; right; apply Hlost; lia].
        destruct (proj2 Hf) as [H'|]; [right; exists c; lia | left; by eapply add_step_flag | by right].
Qed.

Lemma steps_inv t0 T t ts t' ts' :
  rtc step (t, ts) (t', ts') -> traffic_inv t0 T t ts -> traffic_inv t0 T t' ts'.
Proof.
  intros H. refine (rtc_invariant step (fun x => traffic_inv t0 T x.1 x.2) (t, ts) (t', ts') _ H).
  intros [a as'] [b bs]. apply traffic_step_inv.
Qed.

(** The total a counter would reach without saturation. *)
Definition total (t0 : TrafficCounters) (l : list (counter * Z)) (c : counter) : Z :=
  get c t0 + amount c l.

Lemma start_inv t0 ls :
  counters_ok t0 -> Forall adds_ok ls ->
  traffic_inv t0 (total t0 (concat ls)) t0 (map start ls).
Proof.
  intros Hc Hl. split.
  - done.
  - apply Forall_map. eapply Forall_impl; [exact Hl|]. intros l H. by split.
  - intros c. left. unfold total. by rewrite pending_start.
  - unfold total. split; intros [H|H]; try (by left); exfalso.
    + apply Exists_exists in H as (s & Hin & Hs). apply list_elem_of_fmap in Hin as (l & -> & _). done.
    + destruct H as [c H]. rewrite pending_start in H. lia.
Qed.

(** All calls done: each counter holds its saturated total, and the flag says
    whether one of them saturated. *)
Definition settled (t0 : TrafficCounters) (T : counter -> Z) (t : TrafficCounters) : Prop :=
  (forall c, get c t = Z.min (T c) u64_max) /\
  (incomplete t = true <-> incomplete t0 = true \/ exists c, u64_max < T c).

Lemma finished_settled t0 T t ts : traffic_inv t0 T t ts -> finished ts -> settled t0 T t.
Proof.
  intros [Hc Ht HT Hf] Hfin.
  assert (forall c, get c t = Z.min (T c) u64_max /\ (get c t < T c <-> u64_max < T c)) as Hg.
  { intros c. specialize (HT c). specialize (Hc c). unfold saturated, in_u64 in *.
    rewrite (pending_finished c ts Hfin) in HT. lia. }
  split; [intros c; apply Hg|].
  assert (Exists (fun s => pc s = Flagging) ts <-> False) as He.
  { split; [|done]. intros H. apply Exists_exists in H as (s & Hin & Hs).
    unfold finished in Hfin. rewrite Forall_forall in Hfin. by rewrite (Hfin s Hin) in Hs. }
  rewrite He in Hf. rewrite <- (or_False (incomplete t = true)) at 1. rewrite Hf.
  split; intros [H|[c H]]; try (by left); right; exists c; pose proof (proj2 (Hg c));
    rewrite (pending_finished c ts Hfin) in *; lia.
Qed.

Lemma settled_unique t0 T t1 t2 : settled t0 T t1 -> settled t0 T t2 -> t1 = t2.
Proof.
  intros [Hg1 Hf1] [Hg2 Hf2]. apply counters_ext.
  - intros c. by rewrite Hg1, Hg2.
  - apply eq_bool_prop_intro. rewrite !Is_true_true, Hf1, Hf2. done.
Qed.

Lemma settled_ext t0 T T' t : (forall c, T c = T' c) -> settled t0 T t -> settled t0 T' t.
Proof. intros He [Hg Hf]. split; [intros c; by rewrite <- He | setoid_rewrite <- He; done]. Qed.

(** ** A task that runs alone *)

Lemma exchange_alone t a l :
  exists n, (1 <= n <= 2)%nat /\
    nsteps add_step n (t, mkTask (a :: l) (Exchanging (get a.1 t))) (run_add t a, mkTask l Loading).
Proof.
  destruct a as [c v]. unfold run_add. cbn [fst]. destruct (checked_add u64_max (get c t) v) eqn:H.
  - exists 1%nat. split; [lia|]. apply nsteps_once. by apply step_exchange; rewrite H.
  - exists 2%nat. split; [lia|]. eapply nsteps_l; [by apply step_exchange_full|].
    apply nsteps_once. apply step_flag.
Qed.

Lemma run_adds_alone t l : rtc add_step (t, start l) (run_adds t l, start []).
Proof.
  revert t. induction l as [|a l IH]; intros t; [apply rtc_refl|].
  destruct (exchange_alone t a l) as (n & _ & Hs).
  eapply rtc_l; [apply (step_load t a l (get a.1 t))|].
  etrans; [apply rtc_nsteps_2 with n; exact Hs | apply IH].
Qed.

(** The steps of one task are steps of the whole. *)
Lemma lift_nsteps n t s t' s' ts i :
  ts !! i = Some s -> nsteps add_step n (t, s) (t', s') -> nsteps step n (t, ts) (t', <[i:=s']> ts).
Proof.
  intros Hi H. remember (t, s) as x eqn:Hx. remember (t', s') as y eqn:Hy.
  revert t s ts Hx Hy Hi. induction H as [x|n x [t1 s1] y Hs Hr IH]; intros; subst.
  - injection Hy as -> ->. rewrite list_insert_id by done. constructor.
  - eapply nsteps_l; [by apply step_task with s|].
    rewrite <- (list_insert_insert_eq ts i s' s1). eapply IH; [done..|].
    apply list_lookup_insert_eq. by eapply lookup_lt_Some.
Qed.

Lemma tasks_alone t pre ls :
  rtc step (t, pre ++ map start ls) (run_adds t (concat ls), pre ++ map (fun _ => start []) ls).
Proof.
  revert t pre. induction ls as [|l ls IH]; intros t pre; [apply rtc_refl|]. cbn [map concat].
  destruct (rtc_nsteps_1 _ _ (run_adds_alone t l)) as [n Hn]. etrans.
  - apply rtc_nsteps_2 with n.
    eapply (lift_nsteps n t (start l) _ _ (pre ++ start l :: map start ls) (length pre));
      [by rewrite list_lookup_middle | exact Hn].
  - rewrite insert_app_r_alt, Nat.sub_diag by done. cbn [insert list_insert]. specialize (IH (run_adds t l) (pre ++ [start []])).
    rewrite <- !app_assoc in IH. unfold run_adds in *. by rewrite fold_left_app.
Qed.

Lemma run_adds_settled t l :
  counters_ok t -> adds_ok l -> settled t (total t l) (run_adds t l).
Proof.
  intros Hc Hl. apply settled_ext with (total t (concat [l])).
  { intros c. unfold total. cbn [concat]. by rewrite app_nil_r. }
  apply finished_settled with [start []]; [|by constructor].
  eapply (steps_inv t _ t (map start [l])).
  - pose proof (tasks_alone t [] [l]) as Hrun. cbn [concat] in Hrun. by rewrite app_nil_r in Hrun.
  - apply start_inv; [done | by constructor].
Qed.

(** Counters never decrease. *)
Lemma add_step_monotone t s t' s' c :
  add_step (t, s) (t', s') -> task_ok s -> counters_ok t -> get c t <= get c t'.
Proof.
  intros Hs [Ha _] Hc. specialize (Hc c). unfold in_u64 in Hc.
  inversion Hs; subst; cbn [todo] in *; rewrite ?get_incomplete; try lia.
  all: apply Forall_inv in Ha; unfold in_u64 in Ha; cbn [snd] in Ha; rewrite get_set;
    case_decide; subst; unfold saturating_add; lia.
Qed.

Lemma steps_monotone t0 T x y c :
  rtc step x y -> traffic_inv t0 T x.1 x.2 -> get c x.1 <= get c y.1.
Proof.
  induction 1 as [x|[t ts] [t1 ts1] y Hs Hr IH]; intros Hinv; [lia|]. cbn [fst snd] in *.
  specialize (IH (traffic_step_inv _ _ _ _ _ _ Hs Hinv)). enough (get c t <= get c t1) by lia.
  destruct Hinv as [Hc Ht _ _]. inversion Hs as [? ? i s ? s' Hi Ha]; subst.
  eapply add_step_monotone; [exact Ha | by eapply Forall_lookup_1 | done].
Qed.

(** ** Progress

    An access that does not advance the task's call is charged to its cause: a
    read that returned another value than the counter's, an exchange that failed
    although the counter held the expected value, or another task's success. *)

(** The task's next exchange expects another value than the counter's. *)
Definition outdated (t : TrafficCounters) (s : task) : bool :=
  match todo s, pc s with
  | (c, _) :: _, Exchanging previous => negb (previous =? get c t)
  | _, _ => false
  end.

(** A load or a failed exchange that returned a stale value, or a failed
    exchange that expected the value the counter held (a spurious failure). *)
Definition unlucky (t : TrafficCounters) (s : task) (t' : TrafficCounters) (s' : task) : bool :=
  match pc s, pc s' with
  | Loading, Exchanging _ => outdated t' s'
  | Exchanging _, Exchanging _ => outdated t' s' || negb (outdated t s)
  | _, _ => false
  end.

(** [step], with the task that took it and whether it was unlucky. *)
Inductive access : TrafficCounters * list task -> nat * bool -> TrafficCounters * list task -> Prop :=
| access_task t ts i s t' s' :
    ts !! i = Some s -> add_step (t, s) (t', s') ->
    access (t, ts) (i, unlucky t s t' s') (t', <[i:=s']> ts).

(** An access that was not. *)
Definition lucky_step (x y : TrafficCounters * list task) : Prop := exists i, access x (i, false) y.

(** The unlucky accesses of a run. *)
Definition misfortunes (run : list (nat * bool)) : Z :=
  sum_list_with_Z (fun l => Z.b2z l.2) run.

(** The accesses a task still needs, at [w] for each call. *)
Definition cost (w : Z) (t : TrafficCounters) (s : task) : Z :=
  w * Z.of_nat (length (todo s)) -
  match pc s with Loading => 0 | Exchanging _ => Z.b2z (negb (outdated t s)) | Flagging => w - 1 end.

Definition calls_left (ts : list task) : Z := sum_list_with_Z (fun s => Z.of_nat (length (todo s))) ts.

Lemma step_access x y : step x y <-> exists l, access x l y.
Proof.
  split.
  - intros [t ts i s t' s' Hi Hs]. eexists. by apply access_task.
  - intros [l [t ts i s t' s' Hi Hs]]. by apply step_task with s.
Qed.

Lemma outdated_ext t t' s : (forall c, get c t' = get c t) -> outdated t' s = outdated t s.
Proof. intros H. unfold outdated. destruct (todo s) as [|[c v] l]; [done|]. by rewrite H. Qed.

Lemma cost_nonneg w t s : 1 <= w -> task_ok s -> 0 <= cost w t s.
Proof.
  intros Hw [_ Hn]. unfold cost. destruct (todo s) as [|a l]; cbn [length].
  - destruct (pc s); [lia | by destruct Hn..].
  - destruct (pc s); [nia | destruct (outdated t s); cbn; nia | nia].
Qed.

Lemma cost_le w t s : 1 <= w -> cost w t s <= w * Z.of_nat (length (todo s)).
Proof. intros Hw. unfold cost. destruct (pc s); [lia | destruct (outdated t s); cbn; lia | lia]. Qed.

(** An access pays for itself; one that changes a counter also pays for the
    retries it causes. *)
Lemma add_step_cost w t s t' s' :
  3 <= w -> add_step (t, s) (t', s') ->
  let paid := cost w t s - cost w t' s' + 2 * Z.b2z (unlucky t s t' s') in
  1 <= paid /\ ((forall c, get c t' = get c t) \/ w - 2 <= paid).
Proof.
  intros Hw Hs. cbv zeta. inversion Hs; subst; unfold cost, unlucky, outdated; cbn [todo pc length].
  1,4: destruct a as [c v]; (split; [|by left]);
    repeat match goal with |- context [?x =? ?y] => destruct (x =? y) end; cbn; lia.
  1,2: rewrite Z.eqb_refl; cbn; (split; [|right]); lia.
  split; [cbn; lia | left; intros c; apply get_incomplete].
Qed.

Lemma cost_disturbed w t t' s : cost w t' s <= cost w t s + 1.
Proof. unfold cost. destruct (pc s); [lia | destruct (outdated t s), (outdated t' s); cbn; lia | lia]. Qed.

Lemma cost_undisturbed w t t' s : (forall c, get c t' = get c t) -> cost w t' s = cost w t s.
Proof. intros H. unfold cost. by rewrite (outdated_ext _ _ _ H). Qed.

Lemma costs_disturbed w t t' ts i s :
  ts !! i = Some s ->
  sum_list_with_Z (cost w t') ts - cost w t' s <=
  sum_list_with_Z (cost w t) ts - cost w t s + Z.of_nat (length ts) - 1.
Proof.
  assert (forall l, sum_list_with_Z (cost w t') l <= sum_list_with_Z (cost w t) l + Z.of_nat (length l)) as Hall.
  { induction l as [|x l IH]; cbn [sum_list_with_Z length]; [done|].
    pose proof (cost_disturbed w t t' x). lia. }
  revert i. induction ts as [|x ts IH]; intros [|i] Hi; cbn [sum_list_with_Z length] in *; try done.
  - injection Hi as ->. pose proof (Hall ts). lia.
  - pose proof (cost_disturbed w t t' x). pose proof (IH i Hi). lia.
Qed.

Lemma costs_undisturbed w t t' ts :
  (forall c, get c t' = get c t) -> sum_list_with_Z (cost w t') ts = sum_list_with_Z (cost w t) ts.
Proof.
  intros H. induction ts as [|s ts IH]; [done|]. cbn [sum_list_with_Z].
  by rewrite IH, (cost_undisturbed _ _ _ _ H).
Qed.

Lemma costs_le w t ts : 1 <= w -> sum_list_with_Z (cost w t) ts <= w * calls_left ts.
Proof.
  intros Hw. unfold calls_left. induction ts as [|s ts IH]; cbn [sum_list_with_Z]; [lia|].
  pose proof (cost_le w t s Hw). lia.
Qed.

Lemma costs_nonneg w t ts : 1 <= w -> Forall task_ok ts -> 0 <= sum_list_with_Z (cost w t) ts.
Proof.
  intros Hw. induction 1 as [|s ts Hs _ IH]; cbn [sum_list_with_Z]; [done|].
  pose proof (cost_nonneg w t s Hw Hs). lia.
Qed.

(** What an access leaves to do for [n] tasks. *)
Lemma access_cost n x l y :
  access x l y -> length x.2 = n -> Forall task_ok x.2 ->
  length y.2 = n /\ Forall task_ok y.2 /\
  sum_list_with_Z (cost (Z.of_nat n + 2) y.1) y.2 + 1 <=
    sum_list_with_Z (cost (Z.of_nat n + 2) x.1) x.2 + 2 * Z.b2z l.2.
Proof.
  intros [t ts i s t' s' Hi Hs] <- Hok. cbn [fst snd].
  pose proof (Forall_lookup_1 _ _ _ _ Hok Hi) as Hsok. pose proof (lookup_lt_Some _ _ _ Hi) as Hlt.
  split_and!; [by rewrite length_insert | |].
  - apply Forall_insert; [done|]. by eapply add_step_task_ok.
  - rewrite (sum_insert_Z _ ts i s s' Hi).
    destruct (add_step_cost (Z.of_nat (length ts) + 2) t s t' s' ltac:(lia) Hs) as [H1 [H2|H2]].
    + rewrite (costs_undisturbed _ t t') by done. rewrite (cost_undisturbed _ t t' s) by done. lia.
    + pose proof (costs_disturbed (Z.of_nat (length ts) + 2) t t' ts i s Hi). lia.
Qed.

(** A run pays for every access it makes. *)
Lemma run_cost n x run y :
  trace access x run y -> length x.2 = n -> Forall task_ok x.2 ->
  Z.of_nat (length run) <= sum_list_with_Z (cost (Z.of_nat n + 2) x.1) x.2 + 2 * misfortunes run.
Proof.
  unfold misfortunes. induction 1 as [x|x l x1 run y Ha _ IH]; intros Hn Hok.
  - cbn. pose proof (costs_nonneg (Z.of_nat n + 2) x.1 x.2 ltac:(lia) Hok). lia.
  - destruct (access_cost n x l x1 Ha Hn Hok) as (Hn1 & Hok1 & Hcost).
    specialize (IH Hn1 Hok1). cbn [length sum_list_with_Z]. lia.
Qed.

Lemma run_alone_cost i x run y :
  trace access x run y -> forall s, x.2 !! i = Some s -> task_ok s ->
  Forall (fun l => l.1 = i) run ->
  Z.of_nat (length run) <= cost 3 x.1 s + 2 * misfortunes run.
Proof.
  unfold misfortunes. induction 1 as [x|x l x1 run y Ha _ IH]; intros s Hi Hok Halone.
  - cbn. pose proof (cost_nonneg 3 x.1 s ltac:(lia) Hok). lia.
  - apply Forall_cons_1 in Halone as [Hl Halone].
    destruct Ha as [t ts j sj t' s' Hj Hs]. cbn [fst snd] in *. subst j.
    assert (sj = s) as -> by congruence.
    destruct (add_step_cost 3 t s t' s' ltac:(lia) Hs) as [H1 _].
    specialize (IH s'). rewrite list_lookup_insert_eq in IH by (by eapply lookup_lt_Some).
    specialize (IH eq_refl (add_step_task_ok _ _ _ _ Hs Hok) Halone).
    cbn [length sum_list_with_Z snd]. lia.
Qed.

Lemma steps_length x y : rtc step x y -> length y.2 = length x.2.
Proof.
  induction 1 as [|x x1 y Hs _ IH]; [done|]. rewrite IH. destruct Hs. cbn [snd]. by rewrite length_insert.
Qed.

(** A task with a call left has a lucky access, and a finished one has none. *)
Lemma lucky_or_done t ts i s :
  ts !! i = Some s -> task_ok s -> s <> start [] <-> exists x, access (t, ts) (i, false) x.
Proof.
  intros Hi [_ Hn]. destruct s as [[|[c v] l] p]; cbn [todo pc] in *.
  - destruct p; [|by destruct Hn..]. split; [done|]. intros [x Hx]. exfalso.
    inversion Hx as [? ? ? s' ? ? Hi' Hs]; subst. rewrite Hi in Hi'. injection Hi' as <-.
    by inversion Hs.
  - split; [intros _ | done].
    assert (exists t' s', add_step (t, mkTask ((c, v) :: l) p) (t', s') /\
      unlucky t (mkTask ((c, v) :: l) p) t' s' = false) as (t' & s' & Hs & <-).
    { unfold unlucky, outdated. destruct p as [|q|].
      - do 2 eexists. split; [apply (step_load t _ _ (get c t))|]. cbn. by rewrite Z.eqb_refl.
      - destruct (Z.eqb_spec q (get c t)) as [->|Hq].
        + destruct (checked_add u64_max (get c t) v) eqn:Hadd; do 2 eexists.
          * split; [by apply step_exchange; rewrite Hadd | done].
          * split; [by apply step_exchange_full | done].
        + do 2 eexists. split; [apply (step_exchange_fails t _ _ q (get c t))|].
          cbn. rewrite Z.eqb_refl. apply Z.eqb_neq in Hq. by rewrite Hq.
      - do 2 eexists. split; [apply step_flag | done]. }
    eexists. by apply access_task.
Qed.

(** Lucky accesses come to an end, and only when all the calls are done. *)
Lemma lucky_finish t ts :
  Forall task_ok ts -> eventually lucky_step (fun x => finished x.2) (t, ts).
Proof.
  intros Hok.
  apply (eventually_measure lucky_step (fun x => length x.2 = length ts /\ Forall task_ok x.2) _
    (fun x => Z.to_nat (sum_list_with_Z (cost (Z.of_nat (length ts) + 2) x.1) x.2))); [| |done].
  - intros x y [i Hxy] [Hn Hx]. destruct (access_cost _ _ _ _ Hxy Hn Hx) as (Hn' & Hy & Hcost).
    split; [done|]. cbn [snd Z.b2z] in Hcost.
    pose proof (costs_nonneg (Z.of_nat (length ts) + 2) y.1 y.2 ltac:(lia) Hy). lia.
  - intros [t1 ts1] [_ Hx]. cbn [snd] in *.
    destruct (decide (Forall (fun s => todo s = []) ts1)) as [Hall|Hsome].
    + left. unfold finished. rewrite Forall_forall in *. intros s Hin. specialize (Hall s Hin).
      destruct (Hx s Hin) as [_ Hp]. destruct s as [l p]. cbn [todo pc] in *. subst l.
      destruct p; [done | by destruct Hp..].
    + right. apply not_Forall_Exists in Hsome; [|intros s; apply _].
      apply Exists_exists in Hsome as (s & Hin & Hs). apply list_elem_of_lookup in Hin as [i Hi].
      destruct (proj1 (lucky_or_done t1 ts1 i s Hi ltac:(by eapply Forall_lookup_1))) as [x Hax].
      { intros ->. by apply Hs. }
      exists x. by exists i.
Qed.

(** ** What the operations add *)

(** A slice length. *)
Definition op_len (op : traffic_op) : Z :=
  match op with Sent len _ _ => len | Received len _ => len end.
Definition op_ok (op : traffic_op) : Prop := 0 <= op_len op < 2 ^ 63.

(** One datagram of [len] bytes to or from [peer], in each field. *)
Definition datagram_amount (f : direction_field) (len : Z) (peer : SocketAddr) : Z :=
  match f with Datagrams => 1 | PayloadBytes => len | IpBytes => len + ip_headers peer end.

Definition op_amount (c : counter) (op : traffic_op) : Z :=
  match op, c with
  | Sent len peer result, SentCounter f => if decide (result = inr len) then datagram_amount f len peer else 0
  | Sent len peer result, SendFailures => if decide (result = inr len) then 0 else 1
  | Received len peer, ReceivedCounter f => datagram_amount f len peer
  | _, _ => 0
  end.

Definition ops_amount (c : counter) (ops : list traffic_op) : Z := sum_list_with_Z (op_amount c) ops.

Lemma ip_headers_cases peer : ip_headers peer = 28 \/ ip_headers peer = 48.
Proof. unfold ip_headers. destruct (addr_ip peer); [by left|]. destruct (to_ipv4_mapped _); auto. Qed.

Lemma record_ok field len peer :
  0 <= len < 2 ^ 63 ->
  record field len peer =
    Ok [(field Datagrams, 1); (field PayloadBytes, len); (field IpBytes, len + ip_headers peer)].
Proof.
  intros H. unfold record. rewrite as_u64_small by lia.
  rewrite add_op_ok; [done|]. unfold u64_max. destruct (ip_headers_cases peer); lia.
Qed.

Lemma op_adds_ok op :
  op_ok op -> exists l, op_adds op = Ok l /\ adds_ok l /\ forall c, amount c l = op_amount c op.
Proof.
  unfold op_ok. destruct op as [len peer result|len peer]; cbn [op_len op_adds]; intros H;
    destruct (ip_headers_cases peer) as [Hh|Hh].
  1,2: assert ((match result with inr n => n =? len | inl _ => false end) =
      bool_decide (result = inr len)) as ->
    by (destruct result as [|n]; [done|]; destruct (Z.eqb_spec n len);
        [subst; by rewrite bool_decide_true | rewrite bool_decide_false; congruence]).
  1,2: case_bool_decide as Hw; [rewrite record_ok by done|].
  5,6: rewrite record_ok by done.
  all: eexists; split; [reflexivity|]; split;
    [unfold adds_ok; forall_list; unfold in_u64, u64_max; cbn [fst snd]; lia|].
  all: intros [[]|[]|]; cbn [op_amount]; rewrite ?amount_cons; cbn [fst snd];
    repeat case_decide; try congruence; cbn; lia.
Qed.

Lemma program_ok ops :
  Forall op_ok ops ->
  exists l, program ops = Ok l /\ adds_ok l /\ forall c, amount c l = ops_amount c ops.
Proof.
  induction 1 as [|op ops Hop _ (l & Hl & Hok & Ha)].
  - exists []. split_and!; [done | constructor | done].
  - destruct (op_adds_ok op Hop) as (k & Hk & Hkok & Hka). exists (k ++ l). cbn [program].
    rewrite Hk, Hl. split_and!; [done | by apply Forall_app |].
    intros c. by rewrite amount_app, Hka, Ha.
Qed.

Lemma programs_ok opss ls :
  Forall (Forall op_ok) opss -> Forall2 (fun ops l => program ops = Ok l) opss ls ->
  Forall adds_ok ls /\ forall c, amount c (concat ls) = ops_amount c (concat opss).
Proof.
  intros Hok H. induction H as [|ops l opss ls Hl _ IH]; [done|].
  inversion Hok as [|? ? Hops Hopss]; subst. destruct (IH Hopss) as [H1 H2].
  destruct (program_ok ops Hops) as (l' & Hl' & Hlok & Ha). assert (l' = l) as -> by congruence.
  split; [by constructor|]. intros c. cbn [concat]. rewrite amount_app, Ha, H2.
  unfold ops_amount. by rewrite sum_app_Z.
Qed.

Lemma run_ops_settled t0 ops :
  counters_ok t0 -> Forall op_ok ops ->
  exists t, run_ops t0 ops = Ok t /\ settled t0 (fun c => get c t0 + ops_amount c ops) t.
Proof.
  intros Hc Hops. destruct (program_ok ops Hops) as (l & Hl & Hok & Ha).
  exists (run_adds t0 l). unfold run_ops. rewrite Hl. split; [done|].
  apply settled_ext with (total t0 l); [|by apply run_adds_settled].
  intros c. unfold total. by rewrite Ha.
Qed.

(** ** Theorems *)

(** C28. No update is lost: however the tasks that record traffic interleave,
    whatever their relaxed loads and failed exchanges return, once all are done
    the counters are exactly what the same calls leave when one task makes them
    in any order; and a snapshot whose fields are read at different moments of
    the run lies between the counters before and after. *)
Theorem traffic_updates_linearizable t0 opss ls t ts ops
    (Hc : counters_ok t0) (Hops : Forall (Forall op_ok) opss)
    (Hls : Forall2 (fun ops l => program ops = Ok l) opss ls)
    (Hrun : rtc step (t0, map start ls) (t, ts)) (Hfin : finished ts)
    (Hperm : ops ≡ₚ concat opss) :
  run_ops t0 ops = Ok t /\
  forall reads flag c,
    (forall c, exists rs, rtc step (t0, map start ls) (reads c, rs) /\ rtc step (reads c, rs) (t, ts)) ->
    get c t0 <= get c (snapshot reads flag) <= get c t.
Proof.
  destruct (programs_ok opss ls Hops Hls) as [Hlok Ha].
  pose proof (start_inv t0 ls Hc Hlok) as Hinv. split.
  - assert (Forall op_ok ops) as Hok by (rewrite Hperm; by apply Forall_concat).
    destruct (run_ops_settled t0 ops Hc Hok) as (t' & -> & Hset). f_equal.
    eapply settled_unique; [exact Hset|].
    apply settled_ext with (total t0 (concat ls)).
    + intros c. unfold total. rewrite Ha. unfold ops_amount. by rewrite (sum_perm_Z _ _ _ Hperm).
    + eapply finished_settled; [|done]. by eapply steps_inv.
  - intros reads flag c Hreads.
    assert (get c (snapshot reads flag) = get c (reads c)) as -> by (by destruct c as [[]|[]|]).
    destruct (Hreads c) as (rs & H1 & H2).
    pose proof (steps_monotone _ _ _ _ c H1 Hinv) as Hm1.
    pose proof (steps_monotone _ _ _ _ c H2 (steps_inv _ _ _ _ _ _ H1 Hinv)) as Hm2.
    cbn [fst] in *. lia.
Qed.

(** What the counters count: a send adds a datagram, its payload and its
    payload with 28 (IPv4 and IPv4-mapped) or 48 (IPv6) header bytes only when
    the socket took it whole, and counts one send failure otherwise; a received
    datagram always counts.  Each counter is its saturated total, nothing
    overflows, and [incomplete] is raised exactly when some total does not fit. *)
Theorem traffic_totals t0 ops
    (Hc : counters_ok t0) (Hops : Forall op_ok ops) :
  exists t, run_ops t0 ops = Ok t /\
    (forall c, get c t = Z.min (get c t0 + ops_amount c ops) u64_max) /\
    (incomplete t = true <->
       incomplete t0 = true \/ exists c, u64_max < get c t0 + ops_amount c ops).
Proof. by apply run_ops_settled. Qed.

(** C39. Recording is lock-free.  In every state the tasks can reach:
    - every run, whatever the schedule and whatever its loads and exchanges
      return, makes at most [n + 2] accesses for each call left ([n] tasks), and
      two for each stale value or spurious failure it meets;
    - a task that runs alone makes at most three for each call it has left, and
      the same two, whatever the others were doing when they stopped;
    - no task with a call left is ever blocked, and no access is needed when
      none is left: so without such misfortunes all the tasks finish, whatever
      the schedule. *)
Theorem traffic_lock_free t0 ls t ts
    (Hc : counters_ok t0) (Hls : Forall adds_ok ls)
    (Hrun : rtc step (t0, map start ls) (t, ts)) :
  (forall run x, trace access (t, ts) run x ->
     Z.of_nat (length run) <= (Z.of_nat (length ls) + 2) * calls_left ts + 2 * misfortunes run) /\
  (forall i s run x, ts !! i = Some s -> trace access (t, ts) run x ->
     Forall (fun l => l.1 = i) run ->
     Z.of_nat (length run) <= 3 * Z.of_nat (length (todo s)) + 2 * misfortunes run) /\
  (forall i s, ts !! i = Some s -> s <> start [] <-> exists x, access (t, ts) (i, false) x) /\
  eventually lucky_step (fun x => finished x.2) (t, ts).
Proof.
  destruct (steps_inv _ _ _ _ _ _ Hrun (start_inv t0 ls Hc Hls)) as [_ Ht _ _].
  pose proof (steps_length _ _ Hrun) as Hlen. cbn [snd] in Hlen. rewrite length_map in Hlen.
  rewrite <- Hlen. split_and!.
  - intros run x Hr. pose proof (run_cost (length ts) _ _ _ Hr eq_refl Ht) as H.
    pose proof (costs_le (Z.of_nat (length ts) + 2) t ts). cbn [fst snd] in *. lia.
  - intros i s run x Hi Hr Halone. pose proof (Forall_lookup_1 _ _ _ _ Ht Hi) as Hs.
    pose proof (run_alone_cost i _ _ _ Hr s Hi Hs Halone).
    pose proof (cost_le 3 t s). cbn [fst] in *. lia.
  - intros i s Hi. apply (lucky_or_done t ts i s); [done | by eapply Forall_lookup_1].
  - by apply lucky_finish.
Qed.

Definition demo_peer : SocketAddr := mkSocketAddr (V6 281473913978881) 1234.

Lemma traffic_updates_linearizable_witness :
  run_ops default_counters [Received 7 demo_peer; Sent 5 demo_peer (inr 4)] =
    Ok (mkTrafficStats (mkTrafficDirection 0 0 0) (mkTrafficDirection 1 7 35) 1 false).
Proof.
  refine (proj1 (traffic_updates_linearizable default_counters
    [[Sent 5 demo_peer (inr 4)]; [Received 7 demo_peer]]
    [[(SendFailures, 1)]; [(ReceivedCounter Datagrams, 1); (ReceivedCounter PayloadBytes, 7);
      (ReceivedCounter IpBytes, 35)]] _ [start []; start []] _ _ _ _ _ _ _)).
  - intros [[]|[]|]; split; vm_compute; discriminate.
  - forall_list; unfold op_ok; cbn; lia.
  - repeat constructor.
  - exact (tasks_alone default_counters [] [[(SendFailures, 1)]; [(ReceivedCounter Datagrams, 1);
      (ReceivedCounter PayloadBytes, 7); (ReceivedCounter IpBytes, 35)]]).
  - by repeat constructor.
  - cbn. apply Permutation_swap.
Defined.

Lemma traffic_totals_witness :
  exists t, run_ops default_counters [Sent 5 demo_peer (inr 5)] = Ok t /\
    get (SentCounter IpBytes) t = 33.
Proof.
  destruct (traffic_totals default_counters [Sent 5 demo_peer (inr 5)]) as (t & Ht & Hg & _).
  - intros [[]|[]|]; split; vm_compute; discriminate.
  - forall_list. unfold op_ok. cbn. lia.
  - exists t. split; [exact Ht|]. rewrite Hg. reflexivity.
Defined.

(** One task has loaded the counter the other has just incremented: its exchange
    fails once. *)
Lemma traffic_lock_free_witness :
  let contended := (set_counter SendFailures 1 default_counters,
    [start []; mkTask [(SendFailures, 1)] (Exchanging 0)]) in
  (forall run x, trace access contended run x ->
     Z.of_nat (length run) <= 4 + 2 * misfortunes run) /\
  eventually lucky_step (fun x => finished x.2) contended.
Proof.
  assert (rtc step (default_counters, map start [[(SendFailures, 1)]; [(SendFailures, 1)]])
    (set_counter SendFailures 1 default_counters,
     [start []; mkTask [(SendFailures, 1)] (Exchanging 0)])) as Hrun.
  { eapply rtc_l; [apply (step_task _ _ 1 (start [(SendFailures, 1)])); [done | apply (step_load _ _ _ 0)]|].
    eapply rtc_l; [apply (step_task _ _ 0 (start [(SendFailures, 1)])); [done | apply (step_load _ _ _ 0)]|].
    exact (rtc_once _ _ (step_task default_counters
      [mkTask [(SendFailures, 1)] (Exchanging 0); mkTask [(SendFailures, 1)] (Exchanging 0)]
      0 (mkTask [(SendFailures, 1)] (Exchanging 0)) _ (start []) eq_refl
      (step_exchange default_counters SendFailures 1 [] ltac:(done)))). }
  destruct (traffic_lock_free default_counters [[(SendFailures, 1)]; [(SendFailures, 1)]] _ _
    ltac:(intros [[]|[]|]; split; vm_compute; discriminate)
    ltac:(forall_list; cbn; unfold in_u64, u64_max; lia) Hrun) as (Hall & _ & _ & Hfin).
  split; [exact Hall | exact Hfin].
Defined.
