(* ===== verification/Steering.v ===== *)
(** * Source-port steering (src/src/client.rs)

    A server may advise the client to change its source port.  Concurrent
    advisories are coalesced into one rebind, which waits until no request uses
    the current socket.  The model has the change itself ([rebind], sequential)
    and the protocol around it: a step relation between tasks over the pending
    flag, the lock of [apply_steering_feedback] and the read/write lock
    [request_activity].  A task's future may be dropped wherever it awaits. *)

From S2P Require Import Prelude Transitions Errors Net Sockets.

(** ** The change of the port *)

Record SteeringStats := mkSteeringStats {
  feedback_zero_count : Z;
  port_changes : Z;
  last_port : option Z;
  next_port : Z;
}.

Definition default_steering_stats : SteeringStats := mkSteeringStats 0 0 None 0.

(** What a rebind changes: the statistics, the shared socket and its epoch. *)
Record SocketState := mkSocketState {
  steering_stats : SteeringStats;
  socket : FamilySockets;
  socket_epoch : Z;
}.

(** [apply_steering_feedback], from the [steering_stats] lock on: the epoch
    handshake with the response router is in [Router]. *)
Definition rebind (os_bind : nat -> Z -> bool -> io_error + Z) (s : SocketState)
  : outcome CoreError unit * SocketState :=
  let stats := steering_stats s in
  let stats := mkSteeringStats (as_u64 (feedback_zero_count stats + 1)) (port_changes stats)
                 (last_port stats) (next_port stats) in
  let s := mkSocketState stats (socket s) (socket_epoch s) in
  match local_port (socket s) with
  | Panic => (Panic, s)
  | Err e => (Err e, s)
  | Ok current_port =>
      match bind_next_steering_socket os_bind (next_port stats) current_port with
      | Panic => (Panic, s)
      | Err e => (Err e, s)
      | Ok (new_socket, next_port) =>
          let stats := mkSteeringStats (feedback_zero_count stats) (port_changes stats)
                         (last_port stats) next_port in
          let next_epoch := as_u64 (socket_epoch s + 1) in
          let s := mkSocketState stats new_socket next_epoch in
          match local_port new_socket with
          | Panic => (Panic, s)
          | Err e => (Err e, s)
          | Ok actual_port =>
              let changes := if bool_decide (last_port stats = Some actual_port) then port_changes stats
                             else as_u64 (port_changes stats + 1) in
              (Ok tt, mkSocketState (mkSteeringStats (feedback_zero_count stats) changes (Some actual_port)
                                       next_port) new_socket next_epoch)
          end
      end
  end.

(** The states in which [rebind] awaits: a lock before and after the advisory is
    counted, a lock with the new sockets bound, and, once they are shared, the response
    router. *)
Definition rebind_awaits (os_bind : nat -> Z -> bool -> io_error + Z) (s : SocketState) : list SocketState :=
  let stats := steering_stats s in
  let counted := mkSteeringStats (as_u64 (feedback_zero_count stats + 1)) (port_changes stats)
                   (last_port stats) (next_port stats) in
  [s; mkSocketState counted (socket s) (socket_epoch s)] ++
  match local_port (E:=CoreError) (socket s) with
  | Ok current_port =>
      match bind_next_steering_socket os_bind (next_port stats) current_port with
      | Ok (new_socket, next_port) =>
          let found := mkSteeringStats (feedback_zero_count counted) (port_changes stats)
                         (last_port stats) next_port in
          [mkSocketState found (socket s) (socket_epoch s);
           mkSocketState found new_socket (as_u64 (socket_epoch s + 1))]
      | _ => []
      end
  | _ => []
  end.

(** Whether a result makes the client steer: the guard of [apply_steering_feedback]. *)
Definition steering_advised (key_steering ignore result_steering : bool) : bool :=
  negb (negb key_steering || result_steering || ignore).

(** ** Coalescing *)

(** Where a task is: outside, in a request (it holds a read guard of
    [request_activity]), or in [apply_steering_feedback] - before the store,
    waiting for the lock, holding it before the first check, waiting for the
    write guard, holding it before the [swap], rebinding - or past it: applied,
    failed, or its future was dropped. *)
Inductive pc : Type :=
| Outside
| InRequest
| Advised
| WaitLock
| Locked
| WaitWrite
| Writing
| Rebinding
| Applied
| Failed
| Dropped.

#[export] Instance pc_eq_dec : EqDecision pc.
Proof. solve_decision. Defined.

(** How a rebind ended: it succeeded, failed, or its future was dropped. *)
Inductive ending : Type :=
| Succeeded
| Refused
| Abandoned.

(** What the tasks did, most recent first: an advisory was stored; a rebind took the
    flag; that rebind ended, and left the shared state [after]. *)
Inductive event : Type :=
| Stored (task : nat)
| Started (task : nat)
| Ended (task : nat) (how : ending) (after : SocketState).

Record config := mkConfig {
  tasks : list pc;
  steering_pending : bool;
  apply_lock : option nat;
  shared : SocketState;
  history : list event;
}.

(** A task holds a read guard, or the write guard. *)
Definition reading (p : pc) : bool := bool_decide (p = InRequest).
Definition writing (p : pc) : bool := bool_decide (p = Writing) || bool_decide (p = Rebinding).

Definition move (i : nat) (p : pc) (c : config) : config :=
  mkConfig (<[i:=p]> (tasks c)) (steering_pending c) (apply_lock c) (shared c) (history c).
Definition unlock (c : config) : config :=
  mkConfig (tasks c) (steering_pending c) None (shared c) (history c).

(** [fair]: whether a task that waits for the write guard already keeps new
    readers out (it does once it is in the queue of the lock). *)
Inductive step (fair : bool) : config -> config -> Prop :=
| request_starts c i :
    tasks c !! i = Some Outside ->
    forallb (fun p => negb (writing p) && negb (fair && bool_decide (p = WaitWrite))) (tasks c) = true ->
    step fair c (move i InRequest c)
| request_ends c i :
    tasks c !! i = Some InRequest -> step fair c (move i Applied c)
| request_advised c i :
    tasks c !! i = Some InRequest -> step fair c (move i Advised c)
| store_pending c i :
    tasks c !! i = Some Advised ->
    step fair c (mkConfig (<[i:=WaitLock]> (tasks c)) true (apply_lock c) (shared c) (Stored i :: history c))
| take_lock c i :
    tasks c !! i = Some WaitLock -> apply_lock c = None ->
    step fair c (mkConfig (<[i:=Locked]> (tasks c)) (steering_pending c) (Some i) (shared c) (history c))
| check_clear c i :
    tasks c !! i = Some Locked -> steering_pending c = false -> step fair c (move i Applied (unlock c))
| check_pending c i :
    tasks c !! i = Some Locked -> steering_pending c = true -> step fair c (move i WaitWrite c)
| take_write c i :
    tasks c !! i = Some WaitWrite ->
    forallb (fun p => negb (reading p) && negb (writing p)) (tasks c) = true ->
    step fair c (move i Writing c)
| swap_clear c i :
    tasks c !! i = Some Writing -> steering_pending c = false -> step fair c (move i Applied (unlock c))
| swap_pending c i :
    tasks c !! i = Some Writing -> steering_pending c = true ->
    step fair c (mkConfig (<[i:=Rebinding]> (tasks c)) false (apply_lock c) (shared c) (Started i :: history c))
| rebind_ends c i os_bind s' r :
    tasks c !! i = Some Rebinding -> rebind os_bind (shared c) = (r, s') ->
    step fair c (mkConfig (<[i:=if is_ok r then Applied else Failed]> (tasks c)) (steering_pending c) None s'
              (Ended i (if is_ok r then Succeeded else Refused) s' :: history c))

(** A future that is dropped where it awaits gives back what it holds: the request its
    read guard, steering its place in the queue of the lock, the lock, or the lock and
    the write guard, with the change of the port as far as it got. *)
| drop_request c i :
    tasks c !! i = Some InRequest -> step fair c (move i Dropped c)
| drop_wait_lock c i :
    tasks c !! i = Some WaitLock -> step fair c (move i Dropped c)
| drop_wait_write c i :
    tasks c !! i = Some WaitWrite -> step fair c (move i Dropped (unlock c))
| drop_rebinding c i os_bind s' :
    tasks c !! i = Some Rebinding -> s' ∈ rebind_awaits os_bind (shared c) ->
    step fair c (mkConfig (<[i:=Dropped]> (tasks c)) (steering_pending c) None s'
              (Ended i Abandoned s' :: history c)).

Definition initial (n : nat) (s : SocketState) : config :=
  mkConfig (replicate n Outside) false None s [].

(** ** Reachable states *)

Definition rank (p : pc) : nat :=
  match p with
  | Outside => 9 | InRequest => 8 | Advised => 7 | WaitLock => 6 | Locked => 5
  | WaitWrite => 4 | Writing => 3 | Rebinding => 2 | Applied | Failed | Dropped => 0
  end.
Definition work (ts : list pc) : Z := sum_list_with_Z (fun p => Z.of_nat (rank p)) ts.

(** The task owns [steering_apply_lock]. *)
Definition locking (p : pc) : bool :=
  match p with Locked | WaitWrite | Writing | Rebinding => true | _ => false end.

(** The last rebind, if any, started before the last store. *)
Fixpoint unserved (h : list event) : bool :=
  match h with
  | Stored _ :: _ => true
  | Ended _ _ _ :: h => unserved h
  | _ => false
  end.

(** The rebind that has started and not ended. *)
Fixpoint running (h : list event) : option nat :=
  match h with
  | [] | Ended _ _ _ :: _ => None
  | Started j :: _ => Some j
  | Stored _ :: h => running h
  end.

(** Rebinds start one at a time, and end once. *)
Fixpoint one_at_a_time (h : list event) : Prop :=
  match h with
  | [] => True
  | Stored _ :: h => one_at_a_time h
  | Started _ :: h => running h = None /\ one_at_a_time h
  | Ended j _ _ :: h => running h = Some j /\ one_at_a_time h
  end.

(** The rebind of [j] started after the store of task [i]. *)
Definition taken_by (i j : nat) (h : list event) : Prop :=
  exists l1 l2, h = l1 ++ Started j :: l2 /\ Stored i ∈ l2.

(** The rebind of [j] started after the store of task [i] and ended. *)
Definition closed (i j : nat) (how : ending) (after : SocketState) (h : list event) : Prop :=
  exists l1 l2, h = l1 ++ Started j :: l2 /\ Stored i ∈ l2 /\ Ended j how after ∈ l1.

(** Some rebind took the advisory of task [i] and ended. *)
Definition served (i : nat) (h : list event) : Prop := exists j how after, closed i j how after h.

Definition stores (h : list event) : Z :=
  sum_list_with_Z (fun e => match e with Stored _ => 1 | _ => 0 end) h.
Definition rebinds (h : list event) : Z :=
  sum_list_with_Z (fun e => match e with Started _ => 1 | _ => 0 end) h.

(** The shared state after a history that began with [s]. *)
Fixpoint shared_after (s : SocketState) (h : list event) : SocketState :=
  match h with
  | [] => s
  | Ended _ _ after :: _ => after
  | _ :: h => shared_after s h
  end.

(** What a rebind made of the shared state: it replaced the sockets, or it failed, or
    it stopped where it awaited. *)
Definition change (how : ending) (before after : SocketState) : Prop :=
  exists os_bind,
    match how with
    | Succeeded => rebind os_bind before = (Ok tt, after)
    | Refused => exists r, rebind os_bind before = (r, after) /\ is_ok r = false
    | Abandoned => after ∈ rebind_awaits os_bind before
    end.

Fixpoint changes_ok (s : SocketState) (h : list event) : Prop :=
  match h with
  | [] => True
  | Ended _ how after :: h => change how (shared_after s h) after /\ changes_ok s h
  | _ :: h => changes_ok s h
  end.

(** What a task at [p] has behind it. *)
Definition task_history (h : list event) (i : nat) (p : pc) : Prop :=
  match p with
  | Outside | InRequest | Advised => Stored i ∉ h
  | WaitLock | Locked | WaitWrite | Writing => Stored i ∈ h
  | Rebinding => taken_by i i h
  | Applied | Failed => Stored i ∈ h -> served i h
  | Dropped => True
  end.

(** What a task at [p] implies for the shared state, and for the other tasks. *)
Definition task_shared (c : config) (i : nat) (p : pc) : Prop :=
  (locking p = true -> apply_lock c = Some i) /\
  (p = WaitWrite \/ p = Writing -> steering_pending c = true) /\
  (writing p = true -> forall j q, tasks c !! j = Some q -> reading q = false).

Record steering_inv (c : config) : Prop := {
  inv_task : forall i p, tasks c !! i = Some p -> task_history (history c) i p /\ task_shared c i p;
  inv_lock : forall i, apply_lock c = Some i -> exists p, tasks c !! i = Some p /\ locking p = true;
  inv_pending : steering_pending c = unserved (history c);
  inv_history : one_at_a_time (history c);
  inv_running : forall i, running (history c) = Some i <-> tasks c !! i = Some Rebinding;
  inv_count : rebinds (history c) + (if steering_pending c then 1 else 0) <= stores (history c);
}.

Lemma taken_cons e i j h : taken_by i j h -> taken_by i j (e :: h).
Proof. intros (l1 & l2 & -> & Hin). by exists (e :: l1), l2. Qed.

Lemma served_cons e i h : served i h -> served i (e :: h).
Proof.
  intros (j & how & s & l1 & l2 & -> & Hin & He). exists j, how, s, (e :: l1), l2.
  split; [done|]. split; [done|]. by apply elem_of_cons; right.
Qed.

Lemma taken_ended i j how s h : taken_by i j h -> served i (Ended j how s :: h).
Proof.
  intros (l1 & l2 & -> & Hin). exists j, how, s, (Ended j how s :: l1), l2.
  split; [done|]. split; [done|]. by apply elem_of_cons; left.
Qed.

(** A store that no rebind has taken is the pending one; one that was taken, by a
    rebind that is not running, is served. *)
Lemma unserved_taken i h :
  unserved h = false -> Stored i ∈ h -> one_at_a_time h ->
  match running h with Some j => taken_by i j h | None => served i h end.
Proof.
  induction h as [|[j|j|j how s] h IH]; cbn [unserved running one_at_a_time];
    intros Hu Hin Hone; [set_solver | done | |].
  - exists [], h. split; [done | set_solver].
  - destruct Hone as [Hr Hone]. assert (Stored i ∈ h) as Hin' by set_solver.
    specialize (IH Hu Hin' Hone). rewrite Hr in IH. by apply taken_ended.
Qed.

Lemma task_history_other e i p h :
  (forall j, e = Stored j -> j <> i) -> task_history h i p -> task_history (e :: h) i p.
Proof.
  intros He. destruct p; cbn [task_history]; try set_solver; try apply taken_cons.
  all: rewrite elem_of_cons; intros H [Heq|Hin]; [by destruct (He i) | by apply served_cons, H].
Qed.

Lemma insert_cases {A} (l : list A) i j x y :
  <[i:=y]> l !! j = Some x -> (j = i /\ x = y) \/ (j <> i /\ l !! j = Some x).
Proof. intros [(<- & <- & _)|[Hne H]]%list_lookup_insert_Some; auto. Qed.

(** How a step may change the lock: not at all, released by its owner, or taken. *)
Definition lock_change (c : config) (i : nat) (p : pc) (lock : option nat) : Prop :=
  lock = apply_lock c \/ (lock = None /\ locking p = true) \/ (lock = Some i /\ apply_lock c = None).

Lemma inv_update c i p p' pend lock sh h :
  steering_inv c -> tasks c !! i = Some p ->
  h = history c \/ (exists e, h = e :: history c /\ forall j, e = Stored j -> j = i) ->
  task_history h i p' ->
  lock_change c i p lock -> (locking p' = true <-> lock = Some i) ->
  (p' = WaitWrite \/ p' = Writing -> pend = true) ->
  pend = true \/ locking p = true \/ pend = steering_pending c ->
  (writing p' = true -> forall j q, tasks c !! j = Some q -> j <> i -> reading q = false) ->
  (reading p' = true -> forall j q, tasks c !! j = Some q -> j <> i -> writing q = false) ->
  pend = unserved h -> one_at_a_time h ->
  running h = (if decide (p' = Rebinding) then Some i else if decide (p = Rebinding) then None
               else running (history c)) ->
  rebinds h + (if pend then 1 else 0) <= stores h ->
  steering_inv (mkConfig (<[i:=p']> (tasks c)) pend lock sh h).
Proof.
  intros [Ht Hl Hp Hone Hrun Hc] Hi Hh Hown Hlock Hlp Hpend Hpends Hw Hr Hu Hone' Hrun' Hcount.
  assert (Hothers : forall j q, tasks c !! j = Some q -> locking q = true -> locking p = true -> j = i).
  { intros j q Hj Hq Hlo. destruct (Ht j q Hj) as [_ [H1 _]], (Ht i p Hi) as [_ [H2 _]].
    specialize (H1 Hq). specialize (H2 Hlo). congruence. }
  assert (Hwr : forall q, writing q = true -> locking q = true) by (by intros []).
  assert (Hrw : forall q, reading q = true -> writing q = false) by (by intros []).
  split; cbn [tasks steering_pending apply_lock history]; try done.
  - intros j q Hj. apply insert_cases in Hj as [[-> ->]|[Hne Hj]].
    + split; [done|]. split; [apply Hlp|]. split; [done|].
      intros Hwp k r Hk. apply insert_cases in Hk as [[-> ->]|[Hne Hk]]; [|by eapply Hw].
      destruct (reading p') eqn:Hrp; [|done]. apply Hrw in Hrp. congruence.
    + destruct (Ht j q Hj) as [H1 (H2 & H3 & H4)]. split.
      { destruct Hh as [->|(e & -> & He)]; [done|]. apply task_history_other; [|done].
        intros k Hk. apply He in Hk as ->. congruence. }
      split; [|split].
      * intros Hq. specialize (H2 Hq). destruct Hlock as [->|[[-> Hlo]|[-> Hno]]]; [done| |congruence].
        by destruct (Hne (Hothers j q Hj Hq Hlo)).
      * intros Hq. destruct Hpends as [->|[Hlo| ->]]; [done| |by apply H3].
        exfalso. apply Hne, (Hothers j q); [done | by destruct Hq as [-> | ->] | done].
      * intros Hq k r Hk. apply insert_cases in Hk as [[-> ->]|[_ Hk]]; [|by eapply H4].
        destruct (reading p') eqn:Hrp; [|done]. rewrite (Hr eq_refl j q Hj Hne) in Hq. done.
  - intros j Hj. destruct (decide (j = i)) as [->|Hne].
    { exists p'. split; [|by apply Hlp]. apply list_lookup_insert_eq. by eapply lookup_lt_Some. }
    rewrite list_lookup_insert_ne by done. destruct Hlock as [->|[[-> _]|[-> _]]]; [by apply Hl | done | congruence].
  - intros j. rewrite Hrun'. destruct (decide (j = i)) as [->|Hne].
    { rewrite list_lookup_insert_eq by (by eapply lookup_lt_Some).
      repeat case_decide; subst; try (split; congruence). rewrite Hrun. split; congruence. }
    rewrite list_lookup_insert_ne by done.
    assert (Hnone : lock = Some i \/ p = Rebinding -> tasks c !! j <> Some Rebinding).
    { intros Ho Hj. destruct (Ht j _ Hj) as [_ [H2 _]]. specialize (H2 eq_refl).
      destruct Ho as [->| ->]; [|by destruct (Hne (Hothers j _ Hj eq_refl eq_refl))].
      destruct Hlock as [E|[[E _]|[_ E]]]; congruence. }
    destruct (decide (p' = Rebinding)) as [->|].
    + split; [congruence|]. intros Hj. destruct (Hnone (or_introl (proj1 Hlp eq_refl)) Hj).
    + destruct (decide (p = Rebinding)) as [->|]; [|apply Hrun].
      split; [done|]. intros Hj. destruct (Hnone (or_intror eq_refl) Hj).
Qed.

Lemma lock_owner c i p :
  steering_inv c -> tasks c !! i = Some p -> apply_lock c = Some i <-> locking p = true.
Proof.
  intros [Ht Hl _ _ _ _] Hi. split; [|apply (Ht i p Hi)].
  intros H. destruct (Hl i H) as (q & Hq & Hlo). congruence.
Qed.

(** No rebind runs while another task holds the lock. *)
Lemma none_running c i p :
  steering_inv c -> tasks c !! i = Some p -> locking p = true -> p <> Rebinding -> running (history c) = None.
Proof.
  intros Hinv Hi Hp Hne. destruct (running (history c)) as [j|] eqn:Hj; [|done].
  apply (inv_running _ Hinv) in Hj. apply (lock_owner _ _ _ Hinv Hi) in Hp.
  pose proof (proj2 (lock_owner _ _ _ Hinv Hj) eq_refl). assert (j = i) as -> by congruence. congruence.
Qed.

(** A task that holds the lock and finds the flag cleared has been served. *)
Lemma cleared_served c i p :
  steering_inv c -> tasks c !! i = Some p -> locking p = true -> p <> Rebinding ->
  steering_pending c = false -> Stored i ∈ history c -> served i (history c).
Proof.
  intros Hinv Hi Hp Hne Hclear Hin. pose proof (none_running c i p Hinv Hi Hp Hne) as Hnone.
  rewrite (inv_pending _ Hinv) in Hclear.
  pose proof (unserved_taken i (history c) Hclear Hin (inv_history _ Hinv)) as H. by rewrite Hnone in H.
Qed.

Lemma forallb_at {A} (f : A -> bool) l i x : forallb f l = true -> l !! i = Some x -> f x = true.
Proof. intros H Hi. rewrite forallb_forall in H. apply H, list_elem_of_In. by eapply list_elem_of_lookup_2. Qed.

Lemma steering_step_inv fair c c' : step fair c c' -> steering_inv c -> steering_inv c'.
Proof.
  intros Hs Hinv. pose proof Hinv as [Ht Hl Hp Hone Hrun Hc].
  destruct Hs as [c i Hi Hno|c i Hi|c i Hi|c i Hi|c i Hi Hfree|c i Hi Hpend|c i Hi Hpend|c i Hi Hno
    |c i Hi Hpend|c i Hi Hpend|c i os_bind s' r Hi Hr|c i Hi|c i Hi|c i Hi|c i os_bind s' Hi _];
    destruct (Ht _ _ Hi) as [Hh (Hlo & Hpe & Hwr)]; pose proof (lock_owner _ _ _ Hinv Hi) as Hown;
    cbn [task_history locking] in *;
    try destruct (is_ok r); (eapply (inv_update c i); [exact Hinv | exact Hi | ..]);
    cbn [task_history locking writing reading unserved running one_at_a_time];
    try done; try (by left); try (by right); try (by right; right); try (by right; left);
    try (by intros [|]).
  all: try (by rewrite Hown); try (split; congruence);
    try (right; eexists; split; [reflexivity | by intros ? [= ->]]).
  all: try (unfold stores, rebinds in *; cbn [sum_list_with_Z];
            destruct (steering_pending c); lia || done).
  all: try (intros _; by apply taken_ended).
  all: try (split; [by apply Hrun | done]).
  all: try (intros _ j q Hj _; pose proof (forallb_at _ _ _ _ Hno Hj) as Hq; by destruct q).
  - by apply (cleared_served c i Locked).
  - intros _. apply Hpe. by left.
  - by apply (cleared_served c i Writing).
  - by exists [], (history c).
  - intros _ j q Hj _. by apply (Hwr eq_refl j q).
  - split; [by apply (none_running c i Writing) | done].
Qed.

Lemma initial_inv n s : steering_inv (initial n s).
Proof.
  split; cbn; try done; intros i.
  - intros p Hp. apply lookup_replicate in Hp as [-> _].
    cbn. split; [set_solver|]. split_and!; try done. by intros [|].
  - split; [done|]. intros Hp. by apply lookup_replicate in Hp as [? _].
Qed.

Lemma reachable_inv fair n s c : rtc (step fair) (initial n s) c -> steering_inv c.
Proof.
  intros H. eapply rtc_invariant; [apply steering_step_inv | exact H | apply initial_inv].
Qed.

(** ** The rebind *)

Definition stats_ok (s : SteeringStats) : Prop := next_port s = 0 \/ steering_port (next_port s).
Definition state_ok (s : SocketState) : Prop := stats_ok (steering_stats s) /\ sockets_ok (socket s).

Lemma local_port_ok {E} s : sockets_ok s -> exists p, @local_port E s = Ok p.
Proof.
  unfold sockets_ok, local_port. destruct s as [[p|] [q|] b]; cbn; eauto. by intros [|].
Qed.

(** The port the search starts at. *)
Definition search_start (s : SteeringStats) (current_port : Z) : Z :=
  if next_port s =? 0 then next_steering_port current_port else next_port s.

Lemma bind_next_ok os_bind next current :
  next = 0 \/ steering_port next ->
  match bind_next_steering_socket os_bind next current with
  | Ok (s, next') => sockets_ok s /\ steering_port next'
  | Err e => exists io, e = CoreIo io
  | Panic => False
  end.
Proof.
  intros Hn. unfold bind_next_steering_socket.
  set (start := if next =? 0 then next_steering_port current else next).
  assert (Hs : steering_port start).
  { subst start. destruct (Z.eqb_spec next 0); [apply next_steering_port_ok|]. by destruct Hn. }
  pose proof (steering_loop_spec os_bind start (Z.to_nat STEERING_PORT_COUNT) 0 None Hs) as H.
  cbv zeta in H. rewrite candidate_port_0 in H by done.
  destruct H as [(k & _ & _ & _ & [(s & _ & Hok & ->)|(e4 & e6 & _ & _ & _ & ->)])|[_ ->]]; [|by eexists..].
  split; [done | apply candidate_port_ok].
Qed.

Lemma rebind_ok os_bind s :
  state_ok s ->
  let '(r, s') := rebind os_bind s in
  state_ok s' /\
  feedback_zero_count (steering_stats s') = as_u64 (feedback_zero_count (steering_stats s) + 1) /\
  match r with
  | Ok _ => exists current new next actual,
      local_port (E:=CoreError) (socket s) = Ok current /\
      bind_next_steering_socket os_bind (next_port (steering_stats s)) current = Ok (new, next) /\
      local_port (E:=CoreError) new = Ok actual /\
      socket s' = new /\ socket_epoch s' = as_u64 (socket_epoch s + 1) /\
      next_port (steering_stats s') = next /\ last_port (steering_stats s') = Some actual /\
      port_changes (steering_stats s') =
        if bool_decide (last_port (steering_stats s) = Some actual) then port_changes (steering_stats s)
        else as_u64 (port_changes (steering_stats s) + 1)
  | Err e => (exists io, e = CoreIo io) /\ socket s' = socket s /\ socket_epoch s' = socket_epoch s /\
      next_port (steering_stats s') = next_port (steering_stats s)
  | Panic => False
  end.
Proof.
  intros [Hst Hso]. unfold rebind. destruct (@local_port_ok CoreError _ Hso) as [p Hp].
  cbn [socket]. rewrite Hp. cbn [next_port].
  pose proof (bind_next_ok os_bind (next_port (steering_stats s)) p Hst) as Hb.
  destruct (bind_next_steering_socket _ _ _) as [[new next]|e|] eqn:He; [| |done].
  - destruct Hb as [Hok Hn]. destruct (@local_port_ok CoreError _ Hok) as [a Ha].
    rewrite Ha. split; [split; [by right | done]|]. split; [done|].
    exists p, new, next, a. by split_and!.
  - by split_and!.
Qed.

(** A rebind that is dropped leaves a state like the others. *)
Lemma rebind_awaits_ok os_bind s s' : state_ok s -> s' ∈ rebind_awaits os_bind s -> state_ok s'.
Proof.
  intros [Hst Hso] Hin. pose proof (rebind_ok os_bind s (conj Hst Hso)) as Hr. unfold rebind_awaits in Hin.
  unfold rebind in Hr. cbn [socket next_port] in Hr.
  destruct (@local_port_ok CoreError _ Hso) as [p Hp]. rewrite Hp in Hin, Hr.
  pose proof (bind_next_ok os_bind (next_port (steering_stats s)) p Hst) as Hb.
  apply elem_of_app in Hin as [Hin|Hin].
  - apply elem_of_cons in Hin as [->|Hin]; [done|]. by apply list_elem_of_singleton in Hin as ->.
  - destruct (bind_next_steering_socket _ _ _) as [[new next]|e|]; [|by apply not_elem_of_nil in Hin..].
    destruct Hb as [Hok Hn]. apply elem_of_cons in Hin as [->|Hin]; [by split; [right|]|].
    apply list_elem_of_singleton in Hin as ->. by split; [right|].
Qed.

Lemma step_state_ok fair c c' : step fair c c' -> state_ok (shared c) -> state_ok (shared c').
Proof.
  intros Hs Hok. destruct Hs as [| | | | | | | | | |c i os_bind s' r Hi Hr| | | |c i os_bind s' Hi Hin];
    cbn [shared move unlock]; try done.
  - pose proof (rebind_ok os_bind (shared c) Hok) as H. rewrite Hr in H. apply H.
  - by apply (rebind_awaits_ok os_bind (shared c)).
Qed.

(** What the endings did to the shared state. *)
Lemma step_changes fair s c c' :
  step fair c c' ->
  changes_ok s (history c) /\ shared c = shared_after s (history c) ->
  changes_ok s (history c') /\ shared c' = shared_after s (history c').
Proof.
  intros Hs [Hc Hsh]. destruct Hs as [| | | | | | | | | |c i os_bind s' r Hi Hr| | | |c i os_bind s' Hi Hin];
    cbn [history shared move unlock changes_ok shared_after] in *; try done; rewrite <- Hsh.
  - split; [|done]. split; [|done]. exists os_bind.
    destruct r as [[]| |] eqn:E; cbn [is_ok]; [done | by eexists..].
  - split; [|done]. split; [by exists os_bind | done].
Qed.

(** ** Progress *)

Lemma work_insert ts i p p' :
  ts !! i = Some p -> (rank p' < rank p)%nat -> work (<[i:=p']> ts) < work ts.
Proof. intros Hi Hr. unfold work. rewrite (sum_insert_Z _ ts i p p' Hi). lia. Qed.

Lemma step_work fair c c' : step fair c c' -> work (tasks c') < work (tasks c).
Proof.
  destruct 1; cbn [tasks move unlock]; try destruct (is_ok r);
    (eapply work_insert; [eassumption | cbn; lia]).
Qed.

Lemma work_nonneg ts : 0 <= work ts.
Proof. induction ts as [|p ts IH]; unfold work in *; cbn [sum_list_with_Z]; lia. Qed.

Lemma nsteps_work fair n c c' : nsteps (step fair) n c c' -> Z.of_nat n + work (tasks c') <= work (tasks c).
Proof.
  induction 1 as [c|n c c1 c' Hs _ IH]; [lia|]. pose proof (step_work _ _ _ Hs). lia.
Qed.

Lemma work_initial n s : work (tasks (initial n s)) = 9 * Z.of_nat n.
Proof.
  cbn [tasks initial]. unfold work. induction n as [|n IH]; [done|]. cbn [replicate sum_list_with_Z].
  rewrite IH. cbn [rank]. lia.
Qed.

Lemma forallb_false_at {A} (f : A -> bool) l :
  forallb f l = false -> exists i x, l !! i = Some x /\ f x = false.
Proof.
  induction l as [|x l IH]; cbn; [done|]. destruct (f x) eqn:Hx; cbn.
  - intros (i & y & Hi & Hy)%IH. by exists (S i), y.
  - intros _. by exists 0%nat, x.
Qed.

(** A task with nothing left to do. *)
Definition over (p : pc) : bool := match p with Applied | Failed | Dropped => true | _ => false end.

(** A task that can move whatever the others do. *)
Lemma free_step fair c i p :
  tasks c !! i = Some p ->
  match p with InRequest | Advised | Locked | Writing | Rebinding => True | _ => False end ->
  exists c', step fair c c'.
Proof.
  intros Hi Hp. destruct p; try done.
  - eexists. by apply (request_ends fair c i).
  - eexists. by apply (store_pending fair c i).
  - destruct (steering_pending c) eqn:H; eexists; [by apply (check_pending fair c i) | by apply (check_clear fair c i)].
  - destruct (steering_pending c) eqn:H; eexists; [by apply (swap_pending fair c i) | by apply (swap_clear fair c i)].
  - destruct (rebind (fun _ _ _ => inl AddrInUse) (shared c)) as [r s'] eqn:Hr.
    eexists. by eapply (rebind_ends fair c i).
Qed.

Lemma some_step fair c i p :
  steering_inv c -> tasks c !! i = Some p -> over p = false -> exists c', step fair c c'.
Proof.
  intros Hinv Hi Ho.
  assert (Hw : forall j, tasks c !! j = Some WaitWrite -> exists c', step fair c c').
  { intros j Hj. destruct (forallb (fun p => negb (reading p) && negb (writing p)) (tasks c)) eqn:H.
    - eexists. by apply (take_write fair c j).
    - apply forallb_false_at in H as (k & q & Hk & Hq). destruct q; try done; by eapply free_step. }
  destruct p; try done; try (by eapply free_step).
  - destruct (forallb (fun p => negb (writing p) && negb (fair && bool_decide (p = WaitWrite))) (tasks c)) eqn:H.
    + eexists. by apply (request_starts fair c i).
    + apply forallb_false_at in H as (k & q & Hk & Hq).
      destruct q; try (by rewrite andb_false_r in Hq); (by eapply Hw) || (by eapply free_step).
  - destruct (apply_lock c) as [j|] eqn:H; [|eexists; by apply (take_lock fair c i)].
    destruct (inv_lock _ Hinv j H) as (q & Hq & Hl).
    destruct q; try done; (by eapply Hw) || (by eapply free_step).
  - by eapply Hw.
Qed.

(** Every task is over, no lock is held, and every advisory has been taken by a rebind
    that ended, but those whose task was dropped. *)
Definition all_settled (c : config) : Prop :=
  Forall (fun p => over p = true) (tasks c) /\ apply_lock c = None /\
  forall i, Stored i ∈ history c -> served i (history c) \/ tasks c !! i = Some Dropped.

Lemma stuck_settled fair c :
  steering_inv c -> (forall i, Stored i ∈ history c -> is_Some (tasks c !! i)) ->
  all_settled c \/ exists c', step fair c c'.
Proof.
  intros Hinv Hdom.
  destruct (forallb over (tasks c)) eqn:Hd.
  - left. assert (Hall : forall i p, tasks c !! i = Some p -> over p = true) by (intros i p; by apply forallb_at).
    split; [by apply Forall_lookup|]. split.
    + destruct (apply_lock c) as [i|] eqn:Hl; [|done].
      destruct (inv_lock _ Hinv i Hl) as (p & Hp & Hlp). specialize (Hall i p Hp). by destruct p.
    + intros i Hin. destruct (Hdom i Hin) as [p Hi]. destruct (inv_task _ Hinv i p Hi) as [Hh _].
      specialize (Hall i p Hi). destruct p; try done; [left; by apply Hh.. | by right].
  - right. apply forallb_false_at in Hd as (i & p & Hi & Hp). by eapply some_step.
Qed.

(** Only tasks of the run store. *)
Lemma step_stores fair c c' :
  step fair c c' -> (forall i, Stored i ∈ history c -> is_Some (tasks c !! i)) ->
  forall i, Stored i ∈ history c' -> is_Some (tasks c' !! i).
Proof.
  intros Hs Hdom i Hin. assert (Hkeep : forall j p, is_Some (tasks c !! i) -> is_Some (<[j:=p]> (tasks c) !! i)).
  { intros j p. by rewrite !lookup_lt_is_Some, length_insert. }
  destruct Hs as [c j Hj|c j Hj|c j Hj|c j Hj|c j Hj|c j Hj|c j Hj|c j Hj|c j Hj|c j Hj|c j os s' r Hj
    |c j Hj|c j Hj|c j Hj|c j os s' Hj];
    cbn [tasks history move unlock] in *; apply Hkeep; try (by apply Hdom).
  - apply elem_of_cons in Hin as [[= ->]|Hin]; [by eexists | by apply Hdom].
  - apply elem_of_cons in Hin as [?|Hin]; [done | by apply Hdom].
  - apply elem_of_cons in Hin as [?|Hin]; [done | by apply Hdom].
  - apply elem_of_cons in Hin as [?|Hin]; [done | by apply Hdom].
Qed.

Lemma eventually_settled fair c :
  steering_inv c -> (forall i, Stored i ∈ history c -> is_Some (tasks c !! i)) ->
  eventually (step fair) all_settled c.
Proof.
  intros Hinv Hdom.
  apply (eventually_measure (step fair)
    (fun c => steering_inv c /\ forall i, Stored i ∈ history c -> is_Some (tasks c !! i))
    all_settled (fun c => Z.to_nat (work (tasks c)))); [| |done].
  - intros a b Hs [Ha Hd]. split.
    + split; [by eapply steering_step_inv | by eapply step_stores].
    + pose proof (step_work _ _ _ Hs). pose proof (work_nonneg (tasks b)). lia.
  - intros a [Ha Hd]. by apply stuck_settled.
Qed.

(** ** Theorems *)

(** C18. Steering is exclusive and coalesces, even if any of the futures is dropped
    wherever it awaits.  In every reachable state:
    - while a task rebinds no request is running and no other task holds the write
      guard;
    - every advisory whose task is done was taken by a rebind, its own or another
      task's, that started after the advisory was stored and has ended, and if no
      rebind was refused or abandoned, that one succeeded;
    - an ending that succeeded is a complete [rebind] that returned [Ok] (so it
      replaced the sockets), one that was refused is one that returned an error, and
      an abandoned one stopped at an await, each from the state the previous ending
      left; the shared state is what the last ending left;
    - there are never more rebinds than advisories;
    - the second check of the pending flag, under the write guard, never finds it
      cleared; and the shared sockets and statistics stay well-formed. *)
Theorem steering_coalesces fair n s c (Hrun : rtc (step fair) (initial n s) c) :
  (forall i j p, tasks c !! i = Some Rebinding -> j <> i -> tasks c !! j = Some p ->
     reading p = false /\ writing p = false) /\
  (forall i p, tasks c !! i = Some p -> p = Applied \/ p = Failed -> Stored i ∈ history c ->
     exists j how after, closed i j how after (history c) /\
       ((forall k how after, Ended k how after ∈ history c -> how = Succeeded) -> how = Succeeded)) /\
  (changes_ok s (history c) /\ shared c = shared_after s (history c)) /\
  rebinds (history c) <= stores (history c) /\
  (forall i, tasks c !! i = Some Writing -> steering_pending c = true) /\
  (state_ok s -> state_ok (shared c)).
Proof.
  pose proof (reachable_inv fair n s c Hrun) as Hinv. destruct (Hinv) as [Ht Hl _ _ _ Hc]. split_and!.
  - intros i j p Hi Hne Hj. destruct (Ht i _ Hi) as [_ (Hlo & _ & Hw)]. split; [by eapply Hw|].
    destruct (writing p) eqn:Hp; [|done]. exfalso. apply Hne.
    assert (locking p = true) as Hlp by (by destruct p).
    destruct (Ht j p Hj) as [_ (Hlj & _)]. specialize (Hlo eq_refl). specialize (Hlj Hlp). congruence.
  - intros i p Hi Hp Hin. destruct (Ht i p Hi) as [Hh _].
    assert (served i (history c)) as (j & how & after & Hcl) by (destruct Hp as [-> | ->]; by apply Hh).
    exists j, how, after. split; [done|]. intros Hall. apply (Hall j how after).
    destruct Hcl as (l1 & l2 & -> & _ & He). apply elem_of_app. by left.
  - refine (proj1 (rtc_invariant (step fair) (fun c => changes_ok s (history c) /\ _) (initial n s) c _ Hrun _));
      [apply step_changes | done].
  - refine (proj2 (rtc_invariant (step fair) (fun c => changes_ok s (history c) /\
      shared c = shared_after s (history c)) (initial n s) c _ Hrun _)); [apply step_changes | done].
  - destruct (steering_pending c); lia.
  - intros i Hi. destruct (Ht i _ Hi) as [_ (_ & Hp & _)]. apply Hp. by right.
  - intros Hok. refine (rtc_invariant (step fair) (fun c => state_ok (shared c)) (initial n s) c _ Hrun Hok).
    apply step_state_ok.
Qed.

(** C19. The steering protocol is live, even if any of the futures is dropped wherever it
    awaits: whatever the schedule, [n] requests take at most [9 n] steps in all, and
    every execution from a reachable state comes to a state in which every request and
    every steering attempt is over, no lock is held, and every advisory has been taken
    by a rebind that started after it and ended, unless its own task was dropped. *)
Theorem steering_live fair n s c k (Hrun : nsteps (step fair) k (initial n s) c) :
  Z.of_nat k <= 9 * Z.of_nat n /\ eventually (step fair) all_settled c.
Proof.
  pose proof (nsteps_work _ _ _ _ Hrun) as Hw. rewrite work_initial in Hw.
  pose proof (work_nonneg (tasks c)). split; [lia|]. apply rtc_nsteps_2 in Hrun.
  apply eventually_settled; [by apply (reachable_inv fair n s)|].
  refine (rtc_invariant (step fair) (fun c => forall i, Stored i ∈ history c -> is_Some (tasks c !! i))
    (initial n s) c _ Hrun _); [apply step_stores|]. cbn. set_solver.
Qed.

(** What a rebind does: it never panics and counts the advisory; when it
    succeeds the new socket is the one the port search found, the epoch and the next
    port to try advance, and the change is counted exactly if the port differs
    from the one of the previous rebind; when it fails the socket, its epoch and
    the search position are untouched. *)
Theorem rebind_spec os_bind s (Hs : state_ok s) :
  let '(r, s') := rebind os_bind s in
  state_ok s' /\
  feedback_zero_count (steering_stats s') = as_u64 (feedback_zero_count (steering_stats s) + 1) /\
  match r with
  | Ok _ => exists current new next actual,
      local_port (E:=CoreError) (socket s) = Ok current /\
      bind_next_steering_socket os_bind (next_port (steering_stats s)) current = Ok (new, next) /\
      local_port (E:=CoreError) new = Ok actual /\
      socket s' = new /\ socket_epoch s' = as_u64 (socket_epoch s + 1) /\
      next_port (steering_stats s') = next /\ last_port (steering_stats s') = Some actual /\
      port_changes (steering_stats s') =
        if bool_decide (last_port (steering_stats s) = Some actual) then port_changes (steering_stats s)
        else as_u64 (port_changes (steering_stats s) + 1)
  | Err e => (exists io, e = CoreIo io) /\ socket s' = socket s /\ socket_epoch s' = socket_epoch s /\
      next_port (steering_stats s') = next_port (steering_stats s)
  | Panic => False
  end.
Proof. by apply rebind_ok. Qed.

(** Two requests, both advised; the first rebinds for both. *)
Definition demo_state : SocketState :=
  mkSocketState default_steering_stats (mkFamilySockets (Some 50000) None false) 0.

Definition demo_config : config :=
  mkConfig [Rebinding; WaitLock] false (Some 0%nat) demo_state [Started 0; Stored 1; Stored 0].

Lemma demo_steering_run : nsteps (step true) 10 (initial 2 demo_state) demo_config.
Proof.
  eapply nsteps_l; [by apply (request_starts true _ 0)|].
  eapply nsteps_l; [by apply (request_starts true _ 1)|].
  eapply nsteps_l; [by apply (request_advised true _ 0)|].
  eapply nsteps_l; [by apply (request_advised true _ 1)|].
  eapply nsteps_l; [by apply (store_pending true _ 0)|].
  eapply nsteps_l; [by apply (store_pending true _ 1)|].
  eapply nsteps_l; [by apply (take_lock true _ 0)|].
  eapply nsteps_l; [by apply (check_pending true _ 0)|].
  eapply nsteps_l; [by apply (take_write true _ 0)|].
  eapply nsteps_l; [by apply (swap_pending true _ 0)|]. exact (nsteps_O _ demo_config).
Qed.

(** The rebind succeeds, and the second task finds its advisory served. *)
Definition demo_rebound : SocketState := (rebind demo_os_bind demo_state).2.
Definition demo_settled : config :=
  mkConfig [Applied; Applied] false None demo_rebound
    [Ended 0 Succeeded demo_rebound; Started 0; Stored 1; Stored 0].

Lemma demo_settled_run : rtc (step true) (initial 2 demo_state) demo_settled.
Proof.
  etrans; [exact (rtc_nsteps_2 10 _ _ demo_steering_run)|].
  eapply rtc_l; [apply (rebind_ends true demo_config 0 demo_os_bind demo_rebound (Ok tt)); reflexivity|].
  eapply rtc_l; [by apply (take_lock true _ 1)|]. eapply rtc_l; [by apply (check_clear true _ 1)|].
  exact (rtc_refl _ demo_settled).
Qed.

Lemma steering_coalesces_witness :
  (reading WaitLock = false /\ writing WaitLock = false) /\
  exists j after, closed 1 j Succeeded after (history demo_settled).
Proof.
  split.
  - apply (proj1 (steering_coalesces true 2 demo_state demo_config (rtc_nsteps_2 10 _ _ demo_steering_run)) 0%nat 1%nat);
      [reflexivity | discriminate | reflexivity].
  - destruct (proj1 (proj2 (steering_coalesces true 2 demo_state demo_settled demo_settled_run)) 1%nat Applied)
      as (j & how & after & Hcl & Hall); [reflexivity | by left | cbn; set_solver |].
    rewrite Hall in Hcl; [by exists j, after|]. intros k how' after' Hin. cbn in Hin. set_solver.
Defined.

Lemma steering_live_witness : eventually (step true) all_settled demo_config.
Proof. exact (proj2 (steering_live true 2 demo_state demo_config 10 demo_steering_run)). Defined.

Lemma rebind_spec_witness :
  state_ok (rebind demo_os_bind demo_state).2 /\
  port_changes (steering_stats (rebind demo_os_bind demo_state).2) = 1.
Proof.
  assert (Hs : state_ok demo_state) by (split; [by left | by left]).
  pose proof (rebind_spec demo_os_bind demo_state Hs) as H.
  destruct (rebind demo_os_bind demo_state) as [r s'] eqn:Hr.
  split; [exact (proj1 H)|].
  assert (s' = (rebind demo_os_bind demo_state).2) as -> by (rewrite Hr; reflexivity).
  vm_compute. reflexivity.
Defined.

(** ** An advisory lost to a dropped future *)

(** Both requests are advised; the first takes the flag and is dropped before it has
    bound a socket; the second finds the flag cleared and returns, and the port has not
    changed. *)
Lemma dropped_rebind_loses_advisory :
  rtc (step true) (initial 2 demo_state)
    (mkConfig [Dropped; Applied] false None demo_state [Ended 0 Abandoned demo_state; Started 0; Stored 1; Stored 0]).
Proof.
  etrans; [exact (rtc_nsteps_2 10 _ _ demo_steering_run)|].
  eapply rtc_l; [apply (drop_rebinding true demo_config 0 demo_os_bind demo_state); [reflexivity | left]|].
  eapply rtc_l; [by apply (take_lock true _ 1)|]. eapply rtc_l; [by apply (check_clear true _ 1)|].
  exact (rtc_refl _ (mkConfig [Dropped; Applied] false None demo_state
    [Ended 0 Abandoned demo_state; Started 0; Stored 1; Stored 0])).
Qed.
