(* ===== verification/Client.v ===== *)
(** * The client's operations (src/src/client.rs)

    [check_rate_limit] and [report_latency] from validation to steering, over the
    whole state of a client: its discovery state, its steering state and the
    world of [World].  One task is followed, to its end; what other tasks do at the
    same time is in [Steering], [Router], [Traffic] and [Flight], and where a task may
    stop in [Dropped]. *)

From S2P Require Import Prelude Errors Codec ApiKey Policy Net Sockets Discovery Config Wire Auth.
From S2P Require Import Request Response Age World Selection Steering.

Record Client := mkClient {
  cl_discovery : DiscoveryState;
  cl_steering : SteeringStats;
  cl_socket_epoch : Z;
  cl_world : World;
}.

(** An operation of the client. *)
Definition cact (A : Type) : Type := Client -> outcome CoreError A * Client.

#[export] Instance cact_bind : MBind cact := fun A B f m c =>
  match m c with
  | (Ok a, c) => f a c
  | (Err e, c) => (Err e, c)
  | (Panic, c) => (Panic, c)
  end.

Definition cret {A} (a : A) : cact A := fun c => (Ok a, c).
Definition clift {A} (m : outcome CoreError A) : cact A := fun c => (m, c).
Definition in_world {A} (m : act A) : cact A := fun c =>
  let '(r, w) := m (cl_world c) in
  (r, mkClient (cl_discovery c) (cl_steering c) (cl_socket_epoch c) w).
Definition in_discovery {A} (m : DiscoveryState -> outcome CoreError A * DiscoveryState) : cact A := fun c =>
  let '(r, d) := m (cl_discovery c) in
  (r, mkClient d (cl_steering c) (cl_socket_epoch c) (cl_world c)).
Definition in_sockets {A} (m : SocketState -> outcome CoreError A * SocketState) : cact A := fun c =>
  let w := cl_world c in
  let '(r, s) := m (mkSocketState (cl_steering c) (sockets w) (cl_socket_epoch c)) in
  (r, mkClient (cl_discovery c) (steering_stats s) (socket_epoch s)
        (mkWorld (now w) (steps w) (inbox w) (socket s) (server_stats w) (sends w))).

Section Operations.
Context `{Primitives} `{IpText} (env : Env) (cfg : CoreConfig) (dns : Resolver)
  (os_bind : nat -> Z -> bool -> io_error + Z).

(** [maybe_periodic_dns_refresh]. *)
Definition maybe_refresh : cact unit :=
  t ← in_world (clock env);
  t' ← in_world (clock env);
  in_discovery (maybe_periodic_dns_refresh dns (service_domain (api_key cfg))
                  (dns_refresh_interval_s cfg) t t').

(** [apply_steering_feedback]. *)
Definition apply_steering_feedback (result : RateLimitResult) : cact unit :=
  if steering_advised (cfg_steering_feedback (api_key cfg)) (ignore_steering_feedback cfg)
       (steering_feedback result)
  then in_sockets (rebind os_bind)
  else cret tt.

(** The result of a request without resources and guards. *)
Definition local_grant : RateLimitResult :=
  {| success := true; guard_results := []; resource_results := []; server_id := 0;
     steering_feedback := false |}.

(** [_check_rate_limit_with_retries], and so [check_rate_limit]; the request
    identifier, the wall clock and the nonce are arguments. *)
Definition check_rate_limit (request_id : list Z) (now_millis : Z) (nonce : list Z)
    (resources : list ResourceRequest) (guards : list LatencyGuard) (metrics_label : option str)
  : cact RateLimitResult :=
  let limits := cfg_limits (api_key cfg) in
  _ ← clift (validate_rate_windows_against_quota resources (Some (rate_window_size_ms_max limits)));
  if bool_decide (resources = []) && bool_decide (guards = []) then cret local_grant
  else
    let policy := effective_request_policy cfg in
    dedup_ttl_ms ← clift (map_err config_error (horizon_ms policy (dedup_ttl_ms_max limits)));
    _ ← maybe_refresh;
    resolved ← (fun c => clift (current_targets dns (cl_discovery c)) c);
    _ ← clift (reject_if (bool_decide (targets resolved = [])) (CoreDns (lit "No servers available")));
    packet ← clift (rate_request_packet cfg request_id now_millis nonce dedup_ttl_ms resources guards
                     metrics_label);
    result ← in_world (deliver_and_select env cfg policy dedup_ttl_ms packet resolved);
    _ ← apply_steering_feedback result;
    cret result.

(** The send loop of [report_latency], which does not count attempts. *)
Fixpoint report_loop (packet : list Z) (resolved : ResolvedTargets) (ts : list SocketAddr) (t : Tally)
  : act Tally :=
  match ts with
  | [] => ret t
  | target :: ts =>
      r ← send_datagram env packet target;
      report_loop packet resolved ts
        match r with
        | inr _ => mkTally (attempted t) (delivered t + 1) (last_error t) (failed_server_ids t)
        | inl error =>
            mkTally (attempted t) (delivered t) (Some error)
              (match target_server_ids resolved !! target with
               | Some id => failed_server_ids t ++ [id]
               | None => failed_server_ids t
               end)
        end
  end.

Definition send_report (packet : list Z) (resolved : ResolvedTargets) : act unit :=
  t ← report_loop packet resolved (targets resolved) (mkTally 0 0 None []);
  if delivered t =? 0 then
    match last_error t with
    | Some error => lift (Err (CoreIo error))
    | None => ret tt
    end
  else if delivered t <? zlen (targets resolved) then record_send_failures env (failed_server_ids t)
  else ret tt.

Definition report_latency (request_id : list Z) (now_millis : Z) (nonce : list Z)
    (reports : list ServiceLatencyReport) : cact unit :=
  if bool_decide (reports = []) then cret tt
  else
    _ ← maybe_refresh;
    packet ← clift (latency_report_packet cfg request_id now_millis nonce reports);
    resolved ← (fun c => clift (current_targets dns (cl_discovery c)) c);
    in_world (send_report packet resolved).

End Operations.

(** ** Steps of an operation *)

Lemma cact_run {A B} (m : cact A) (f : A -> cact B) c a c1 :
  m c = (Ok a, c1) -> (m ≫= f) c = f a c1.
Proof. intros H. unfold mbind, cact_bind. by rewrite H. Qed.

Lemma cact_run_err {A B} (m : cact A) (f : A -> cact B) c e c1 :
  m c = (Err e, c1) -> (m ≫= f) c = (Err e, c1).
Proof. intros H. unfold mbind, cact_bind. by rewrite H. Qed.

(** What a client keeps between operations. *)
Definition sockets_of (c : Client) : SocketState :=
  mkSocketState (cl_steering c) (sockets (cl_world c)) (cl_socket_epoch c).

Section Operations_spec.
Context `{PrimitivesLaws} `{IpTextLaws} (env : Env) (Henv : env_ok env) (cfg : CoreConfig)
  (Hcfg : config_ok cfg) (dns : Resolver) (Hdns : resolver_ok dns)
  (os_bind : nat -> Z -> bool -> io_error + Z).

Definition client_ok (c : Client) : Prop :=
  discovery_ok (cl_discovery c) /\ state_ok (sockets_of c) /\ arrivals_ok (inbox (cl_world c)).

(** Only the clock and the discovery state moved. *)
Definition refreshed (c c' : Client) : Prop :=
  client_ok c' /\ calm env (cl_world c) (cl_world c') /\ sockets_of c' = sockets_of c.

Lemma maybe_refresh_spec c :
  client_ok c ->
  exists c', refreshed c c' /\
    (maybe_refresh env cfg dns c = (Ok tt, c') \/
     maybe_refresh env cfg dns c = (Err (CoreDns (lit "No SRV servers found")), c')).
Proof.
  intros (Hd & Hs & Ha). destruct c as [d st ep w]. unfold maybe_refresh, sockets_of in *.
  cbn [cl_discovery cl_steering cl_socket_epoch cl_world] in *.
  destruct (clock_calm env w) as (w1 & Hc1 & Hw1), (clock_calm env w1) as (w2 & Hc2 & Hw2).
  pose proof (calm_trans _ _ _ _ Hw1 Hw2) as Hcalm.
  set (m := maybe_periodic_dns_refresh dns (service_domain (api_key cfg)) (dns_refresh_interval_s cfg)
              (now w1) (now w2) d).
  exists (mkClient m.2 st ep w2). split.
  - split; [|split; [done|]].
    + split; [|split]; cbn [cl_discovery cl_world]; unfold sockets_of; cbn.
      * subst m. unfold maybe_periodic_dns_refresh. destruct (refresh_due _ _ _); [|done].
        by apply refresh_servers_ok.
      * by rewrite (calm_sockets _ _ _ Hcalm).
      * by rewrite (calm_inbox _ _ _ Hcalm).
    + unfold sockets_of. cbn. by rewrite (calm_sockets _ _ _ Hcalm).
  - unfold mbind, cact_bind, in_world, in_discovery.
    cbn [cl_discovery cl_steering cl_socket_epoch cl_world]. rewrite Hc1. cbn [cl_world]. rewrite Hc2.
    cbn [cl_discovery cl_steering cl_socket_epoch cl_world]. fold m.
    assert (Hm : m.1 = Ok tt \/ m.1 = Err (CoreDns (lit "No SRV servers found"))).
    { subst m. unfold maybe_periodic_dns_refresh, refresh_servers.
      destruct (refresh_due _ _ _); [|by left]. destruct (srv_lookup _ _); [|by right].
      destruct (resolve_answers _ _ _); [by right | by left]. }
    destruct m as [r d']. cbn [fst snd] in *. destruct Hm as [-> | ->]; [by left | by right].
Qed.

(** The snapshot names servers of the discovery state only. *)
Lemma targets_spec c :
  client_ok c ->
  exists resolved, current_targets dns (cl_discovery c) = Ok resolved /\ snapshot_ok resolved /\
    (targets resolved <> [] -> allowed_server_ids resolved <> ∅) /\
    forall id, id ∈ allowed_server_ids resolved -> Some id ∈ map se_server_id (servers (cl_discovery c)).
Proof.
  intros ((found & Hd & Hf) & _). destruct (current_targets_ok dns Hdns dns found _ Hf Hd) as (r & E & Hr).
  exists r. split; [done|]. split; [by eapply snapshot_of_ok|]. destruct Hr as (Ht & Ha & _ & _).
  rewrite Ht, Ha, Hd. split.
  - intros Hne. destruct found as [|s found]; [done|]. cbn. set_solver.
  - intros id. rewrite elem_of_list_to_set, map_map. cbn [se_server_id endpoint_of].
    intros Hin. apply list_elem_of_fmap in Hin as (s & -> & Hs).
    apply list_elem_of_fmap. by exists s.
Qed.

Lemma ha_selects_response policy allowed oldest k phases r :
  ha_selects cfg policy allowed oldest k phases (Some r) ->
  exists x, x ∈ taken phases /\ valid_response cfg allowed x.2 = Some r.
Proof.
  remember (Some r) as sel eqn:Hs. intros Hsel. revert Hs.
  induction Hsel as [cs x r' b e Hv|ph r' _ Hin|k cs x r' b e _ _ Hv|k ph phases sel _ _ _ IH|k]; intros Hs;
    try (injection Hs as ->); unfold taken in *; cbn [map concat arrivals] in *.
  - exists x. rewrite app_nil_r. split; [set_solver | done].
  - unfold responses in Hin. apply list_elem_of_omap in Hin as (x & Hx & Hv). exists x.
    by rewrite app_nil_r.
  - exists x. rewrite app_nil_r. split; [set_solver | done].
  - destruct (IH Hs) as (x & Hx & Hv). exists x. split; [set_solver | done].
  - done.
Qed.

(** Steering after a decision, as it leaves the client. *)
Lemma steering_spec r c :
  client_ok c ->
  exists c', client_ok c' /\ sends (cl_world c') = sends (cl_world c) /\
    cl_discovery c' = cl_discovery c /\
    (apply_steering_feedback cfg os_bind r c = (Ok tt, c') \/
     exists io, apply_steering_feedback cfg os_bind r c = (Err (CoreIo io), c')).
Proof.
  intros (Hd & Hs & Ha). unfold apply_steering_feedback. destruct (steering_advised _ _ _).
  2:{ exists c. split; [done|]. split_and!; try done. by left. }
  pose proof (rebind_ok os_bind (sockets_of c) Hs) as Hr. unfold in_sockets. fold (sockets_of c).
  destruct (rebind os_bind (sockets_of c)) as [res s'] eqn:He. destruct Hr as (Hs' & _ & Hr).
  eexists. split; [|split; [|split]]; [| | |destruct res as [[]|e|]; [by left | right | done]].
  - split; [done|]. split; [|done]. by destruct s'.
  - done.
  - done.
  - destruct Hr as [[io ->] _]. by exists io.
Qed.

(** What a delivery does to a client. *)
Lemma delivery_spec dedup packet resolved c :
  client_ok c -> snapshot_ok resolved -> targets resolved <> [] ->
  exists res c' new,
    in_world (deliver_and_select env cfg (request_policy cfg) dedup packet resolved) c = (res, c') /\
    client_ok c' /\ cl_discovery c' = cl_discovery c /\
    sends (cl_world c') = sends (cl_world c) ++ new /\ new <> [] /\
    Forall (fun s => send_packet s = packet) new /\
    match res with
    | Ok r => exists a p, (a, p) ∈ inbox (cl_world c) /\
        valid_response cfg (allowed_server_ids resolved) p = Some r
    | Err CoreTimeout | Err (CoreIo _) => True
    | _ => False
    end.
Proof.
  intros (Hd & Hs & Ha) Hsnap Hne. pose proof Hcfg as (_ & _ & _ & Hp).
  destruct (deliver_spec env Henv cfg Hcfg (request_policy cfg) dedup packet resolved (cl_world c) Hp Hsnap Ha)
    as (res & w' & oldest & phases & rounds & extra & E & _ & Hrounds & _ & Hran & [Hsel _] & _).
  destruct Hran as (Hi & (new & Hn & Ht) & Hk & _).
  exists res, (mkClient (cl_discovery c) (cl_steering c) (cl_socket_epoch c) w'), new.
  unfold in_world. rewrite E. cbn [cl_discovery cl_world]. split; [done|]. split.
  { split; [done|]. split.
    - unfold sockets_of in *. cbn [cl_steering cl_world cl_socket_epoch]. by rewrite Hk.
    - cbn [cl_world]. rewrite Hi in Ha. by apply arrivals_app in Ha as [_ Ha]. }
  split; [done|]. split; [done|]. split.
  { intros ->. destruct rounds as [|rounds]; [lia|]. cbn in Ht. by destruct (targets resolved). }
  split.
  { destruct (emits_deliver env cfg (request_policy cfg) dedup packet resolved (cl_world c)) as (new' & Hn' & Hp').
    rewrite E in Hn'. cbn [snd] in Hn'. rewrite Hn in Hn'. by apply app_inv_head in Hn' as ->. }
  destruct res as [r|[]|]; try done. destruct (ha_selects_response _ _ _ _ _ _ Hsel) as ([a p] & Hx & Hv).
  exists a, p. split; [|done]. rewrite Hi. set_solver.
Qed.

Context (request_id : list Z) (now_millis : Z) (nonce : list Z)
  (Hid : array_ok 16 request_id) (Hnow : in_u64 now_millis) (Hnonce : array_ok 12 nonce).

(** Why a request is refused before anything is sent. *)
Definition refusal (resources : list ResourceRequest) (guards : list LatencyGuard) (label : option str)
    (e : CoreError) : Prop :=
  match e with
  | Errors.CoreConfig _ =>
      exists ce, horizon_ms (request_policy cfg) (dedup_ttl_ms_max (cfg_limits (api_key cfg))) = Err ce
  | CoreDns _ => True
  | CoreProtocol _ =>
      Exists (fun r => rate_window_size_ms_max (cfg_limits (api_key cfg)) < rq_window_size_ms r) resources \/
      exists dedup, in_u32 dedup /\
        rate_request_packet cfg request_id now_millis nonce dedup resources guards label = Err e
  | _ => False
  end.

(** What a request may return and send, by its result. *)
Definition request_spec (resources : list ResourceRequest) (guards : list LatencyGuard)
    (label : option str) (c c' : Client) (new : list Send) (r : outcome CoreError RateLimitResult) : Prop :=
  match r with
  | Ok result =>
      (resources = [] /\ guards = [] /\ result = local_grant /\ c' = c) \/
      (exists a p, (a, p) ∈ inbox (cl_world c) /\ parse_rate_response cfg (packet_data p) = Ok result /\
         Some (server_id result) ∈ map se_server_id (servers (cl_discovery c')) /\ new <> [])
  | Err CoreTimeout | Err (CoreIo _) => new <> []
  | Err e => refusal resources guards label e /\ new = []
  | Panic => False
  end /\
  (new <> [] -> exists dedup packet,
     horizon_ms (request_policy cfg) (dedup_ttl_ms_max (cfg_limits (api_key cfg))) = Ok dedup /\
     rate_request_packet cfg request_id now_millis nonce dedup resources guards label = Ok packet /\
     Forall (fun s => send_packet s = packet) new).

Lemma refused_spec resources guards label c c' e :
  refusal resources guards label e -> request_spec resources guards label c c' [] (Err e).
Proof. intros He. split; [|done]. by destruct e. Qed.

(** Validation refuses a request with a protocol error or lets it pass. *)
Lemma validate_cases resources limit :
  (exists m, validate_rate_windows_against_quota resources (Some limit) = Err (CoreProtocol m) /\
     Exists (fun r => limit < rq_window_size_ms r) resources) \/
  (validate_rate_windows_against_quota resources (Some limit) = Ok tt /\
     Forall (fun r => rq_window_size_ms r <= limit) resources).
Proof.
  unfold validate_rate_windows_against_quota. destruct (List.find _ _) as [r|] eqn:Hf.
  - left. eexists. split; [done|]. apply List.find_some in Hf as [Hin Hr]. apply Exists_exists.
    exists r. split; [by apply list_elem_of_In|]. reflect_bools. lia.
  - right. split; [done|]. apply Forall_forall. intros r Hr.
    pose proof (List.find_none _ _ Hf r (proj1 (list_elem_of_In _ _) Hr)) as Hn. cbn in Hn.
    rewrite Z.gtb_ltb in Hn. by apply Z.ltb_ge.
Qed.

(** Packet construction succeeds or refuses. *)
Lemma packet_cases dedup resources guards label :
  in_u32 dedup -> Forall resource_request_ok resources -> Forall guard_request_ok guards -> label_ok label ->
  (exists packet, rate_request_packet cfg request_id now_millis nonce dedup resources guards label = Ok packet) \/
  (exists m, rate_request_packet cfg request_id now_millis nonce dedup resources guards label = Err (CoreProtocol m)).
Proof.
  intros Hd Hr Hg Hl. pose proof (rate_request_packet_built cfg request_id now_millis nonce dedup resources
    guards label Hcfg Hid Hnow Hnonce Hd Hr Hg Hl) as Hb. cbv zeta in Hb.
  destruct (_ && _); [left | by right]. destruct Hb as (body & -> & _). by eexists.
Qed.

Lemma policy_horizon_cases :
  (exists d, in_u32 d /\
     horizon_ms (request_policy cfg) (dedup_ttl_ms_max (cfg_limits (api_key cfg))) = Ok d) \/
  (exists e, horizon_ms (request_policy cfg) (dedup_ttl_ms_max (cfg_limits (api_key cfg))) = Err e).
Proof.
  pose proof Hcfg as (_ & _ & Hlim & (Ht & _ & _ & _ & Hh)).
  assert (Hl : in_u32 (dedup_ttl_ms_max (cfg_limits (api_key cfg)))).
  { destruct Hlim as (a & b & c & d & u & w & _ & _ & _ & _ & Hu & _ & ->). cbn. unfold in_u32, u32_max. lia. }
  rewrite horizon_ms_eq by done. destruct (_ && _); [|right; by eexists].
  destruct (_ <=? _); [left | right; by eexists]. eexists. split; [|done]. unfold in_u32. lia.
Qed.

(** From the packet on: delivery, then steering. *)
Lemma delivered_spec resources guards label dedup packet resolved c :
  client_ok c -> snapshot_ok resolved -> targets resolved <> [] ->
  allowed_server_ids resolved <> ∅ ->
  (forall id, id ∈ allowed_server_ids resolved -> Some id ∈ map se_server_id (servers (cl_discovery c))) ->
  horizon_ms (request_policy cfg) (dedup_ttl_ms_max (cfg_limits (api_key cfg))) = Ok dedup ->
  rate_request_packet cfg request_id now_millis nonce dedup resources guards label = Ok packet ->
  exists r c' new,
    (result ← in_world (deliver_and_select env cfg (request_policy cfg) dedup packet resolved);
     _ ← apply_steering_feedback cfg os_bind result;
     cret result) c = (r, c') /\
    client_ok c' /\ sends (cl_world c') = sends (cl_world c) ++ new /\
    request_spec resources guards label c c' new r.
Proof.
  intros Hc Hsnap Hne Hall Hids Hh Hpk.
  destruct (delivery_spec dedup packet resolved c Hc Hsnap Hne)
    as (res & c1 & new & E & Hc1 & Hd1 & Hs1 & Hnew & Hp & Hres).
  assert (Hsent : new <> [] -> exists dedup packet,
     horizon_ms (request_policy cfg) (dedup_ttl_ms_max (cfg_limits (api_key cfg))) = Ok dedup /\
     rate_request_packet cfg request_id now_millis nonce dedup resources guards label = Ok packet /\
     Forall (fun s => send_packet s = packet) new) by (intros _; by exists dedup, packet).
  destruct res as [r|e|]; [| |done].
  - rewrite (cact_run _ _ _ _ _ E). destruct (steering_spec r c1 Hc1) as (c2 & Hc2 & Hs2 & Hd2 & Hst).
    destruct Hres as (a & p & Hin & Hv). unfold valid_response in Hv.
    destruct (parse_rate_response cfg (packet_data p)) as [r'|e|] eqn:Hparse; [|done..].
    rewrite bool_decide_false in Hv by done. cbn [orb] in Hv.
    destruct (bool_decide (server_id r' ∈ _)) eqn:Hmem; [|done]. injection Hv as ->. reflect_bools.
    destruct Hst as [Hst|[io Hst]].
    + exists (Ok r), c2, new. split; [by rewrite (cact_run _ _ _ _ _ Hst)|].
      split; [done|]. split; [by rewrite Hs2|]. split; [|done]. right. exists a, p.
      split_and!; try done. rewrite Hd2, Hd1. by apply Hids.
    + exists (Err (CoreIo io)), c2, new. split; [by rewrite (cact_run_err _ _ _ _ _ Hst)|].
      split; [done|]. split; [by rewrite Hs2|]. by split.
  - exists (Err e), c1, new. split; [by rewrite (cact_run_err _ _ _ _ _ E)|].
    split; [done|]. split; [done|]. split; [by destruct e | done].
Qed.

Lemma check_rate_limit_stages resources guards label c :
  client_ok c -> Forall resource_request_ok resources -> Forall guard_request_ok guards -> label_ok label ->
  exists r c' new,
    check_rate_limit env cfg dns os_bind request_id now_millis nonce resources guards label c = (r, c') /\
    client_ok c' /\ sends (cl_world c') = sends (cl_world c) ++ new /\
    request_spec resources guards label c c' new r.
Proof.
  intros Hc Hres Hg Hl. unfold check_rate_limit, effective_request_policy.
  assert (Hstop : forall e c', refusal resources guards label e -> client_ok c' -> sends (cl_world c') = sends (cl_world c) ->
    exists r c'' new, (Err e : outcome CoreError RateLimitResult, c') = (r, c'') /\ client_ok c'' /\
    sends (cl_world c'') = sends (cl_world c) ++ new /\ request_spec resources guards label c c'' new r).
  { intros e c' He Hc' Hs. exists (Err e), c', []. rewrite app_nil_r. split_and!; try done.
    by apply refused_spec. }
  destruct (validate_cases resources (rate_window_size_ms_max (cfg_limits (api_key cfg)))) as [(m & Hv & Hex)|[Hv _]];
    [unfold mbind, cact_bind at 1, clift at 1; rewrite Hv; apply Hstop; [by left | done | done]|].
  rewrite (cact_run (clift _) _ c tt c) by (unfold clift; by rewrite Hv).
  destruct (bool_decide (resources = []) && bool_decide (guards = [])) eqn:Hempty.
  { reflect_bools. exists (Ok local_grant), c, []. rewrite app_nil_r. split_and!; try done.
    split; [by left | done]. }
  destruct policy_horizon_cases as [(dedup & Hdu & Hh)|[e Hh]];
    [|unfold mbind, cact_bind at 1, clift at 1; rewrite Hh; apply Hstop; [by exists e | done | done]].
  rewrite (cact_run (clift _) _ c dedup c) by (unfold clift; by rewrite Hh).
  destruct (maybe_refresh_spec c Hc) as (c1 & (Hc1 & Hcalm & Hso) & [Hm|Hm]);
    [|rewrite (cact_run_err _ _ _ _ _ Hm); apply Hstop; try done; by apply (calm_sends _ _ _ Hcalm)].
  rewrite (cact_run _ _ _ _ _ Hm).
  destruct (targets_spec c1 Hc1) as (resolved & Ht & Hsnap & Hne & Hids).
  rewrite (cact_run _ _ c1 resolved c1) by (unfold clift; by rewrite Ht).
  destruct (bool_decide (targets resolved = [])) eqn:Hempty_targets; cbn [reject_if].
  { apply Hstop; [done | done | by apply (calm_sends _ _ _ Hcalm)]. }
  reflect_bools. rewrite (cact_run (clift (Ok tt)) _ c1 tt c1) by done.
  destruct (packet_cases dedup resources guards label Hdu Hres Hg Hl) as [[packet Hpk]|[m Hpk]].
  2:{ unfold mbind, cact_bind at 1, clift at 1. rewrite Hpk.
      apply Hstop; [right; by exists dedup | done | by apply (calm_sends _ _ _ Hcalm)]. }
  rewrite (cact_run (clift _) _ c1 packet c1) by (unfold clift; by rewrite Hpk).
  destruct (delivered_spec resources guards label dedup packet resolved c1)
    as (r & c' & new & E & Hc' & Hs & Hspec); try done; [by apply Hne|].
  exists r, c', new. split; [exact E|]. split; [done|].
  split; [by rewrite Hs, (calm_sends _ _ _ Hcalm)|].
  destruct Hspec as [Hr Hpks]. split; [|done]. destruct r as [res|[]|]; try done.
  destruct Hr as [(-> & -> & _)|(a & p & Hin & Hrest)]; [done|]. right. exists a, p.
  by rewrite (calm_inbox _ _ _ Hcalm) in Hin.
Qed.

(** ** Latency reports *)

Lemma report_loop_spec packet resolved ts t w :
  exists t' w' new, report_loop env packet resolved ts t w = (Ok t', w') /\
    sent_to env ts w w' new /\
    delivered t' = delivered t + zlen (List.filter reached new) /\
    last_error t' = match last (omap failure new) with Some e => Some e | None => last_error t end.
Proof.
  revert t w. induction ts as [|target ts IH]; intros t w; cbn [report_loop].
  { exists t, w, []. split; [reflexivity|]. unfold sent_to. cbn [List.filter].
    rewrite app_nil_r, zlen_nil, Z.add_0_r. by split_and!. }
  destruct (send_datagram_spec env packet target w) as (r & w1 & Hs & s & Hsent & Hr).
  rewrite (act_run _ _ _ _ _ Hs).
  match goal with |- context [report_loop _ _ _ ts ?t' w1] => set (t1 := t') end.
  destruct (IH t1 w1) as (t' & w' & new & Hl & Hsent' & Hd & He).
  exists t', w', (s :: new). split; [done|]. split; [by apply (sent_to_trans env [target] _ _ w1 _ [s])|].
  cbn [List.filter omap list_omap].
  assert (reached s = match r with inl _ => false | inr _ => true end) as -> by (unfold reached; by rewrite Hr).
  assert (failure s = match r with inl e => Some e | inr _ => None end) as -> by (unfold failure; by rewrite Hr).
  subst t1. destruct r as [e|len]; cbn [delivered last_error] in *.
  - split; [done|]. rewrite He, last_cons. by destruct (last (omap failure new)).
  - rewrite zlen_cons. split; [lia | done].
Qed.

Lemma send_report_spec packet resolved w :
  exists w' new,
    send_report env packet resolved w
    = (match delivery_error new with Some e => Err (CoreIo e) | None => Ok tt end, w') /\
    sent_to env (targets resolved) w w' new.
Proof.
  unfold send_report.
  destruct (report_loop_spec packet resolved (targets resolved) (mkTally 0 0 None []) w)
    as (t & w1 & new & Hl & Hsent & Hd & He).
  rewrite (act_run _ _ _ _ _ Hl). cbn [delivered last_error] in *. rewrite Z.add_0_l in Hd.
  assert (Hall : (delivered t =? 0) = forallb (fun s => negb (reached s)) new)
    by (rewrite Hd; apply eq_true_iff_eq; rewrite Z.eqb_eq; apply filter_none_forallb).
  assert (Herr : delivery_error new = if delivered t =? 0 then last (omap failure new) else None)
    by (unfold delivery_error; by rewrite <- Hall).
  destruct (delivered t =? 0).
  - exists w1, new. split; [|done]. rewrite He, Herr. by destruct (last (omap failure new)).
  - destruct (delivered t <? zlen (targets resolved)).
    + destruct (record_send_failures_calm env (failed_server_ids t) w1) as (w2 & -> & Hw2).
      exists w2, new. rewrite Herr. split; [done | by eapply sent_to_calm].
    + exists w1, new. by rewrite Herr.
Qed.

Lemma emits_send_report packet resolved : emits packet (send_report env packet resolved).
Proof.
  assert (Hl : forall ts t, emits packet (report_loop env packet resolved ts t)).
  { induction ts as [|target ts IH]; intros t; cbn [report_loop]; emit_steps. }
  unfold send_report. apply emits_bind; [apply Hl|]. intros t. emit_steps. apply emits_record.
Qed.

(** Why a report is refused before anything is sent. *)
Definition report_refusal (reports : list ServiceLatencyReport) (c : Client) (e : CoreError) : Prop :=
  match e with
  | CoreDns _ => (maybe_refresh env cfg dns c).1 = Err e
  | CoreProtocol _ => latency_report_packet cfg request_id now_millis nonce reports = Err e
  | _ => False
  end.

(** What a report returns and sends. *)
Definition report_spec (reports : list ServiceLatencyReport) (c c' : Client) (new : list Send)
    (r : outcome CoreError unit) : Prop :=
  match r with
  | Ok _ | Err (CoreIo _) =>
      (reports = [] /\ c' = c /\ r = Ok tt /\ new = []) \/
      exists packet resolved,
        latency_report_packet cfg request_id now_millis nonce reports = Ok packet /\
        current_targets dns (cl_discovery c') = Ok resolved /\
        map send_target new = targets resolved /\ Forall (fun s => send_packet s = packet) new /\
        r = match delivery_error new with Some e => Err (CoreIo e) | None => Ok tt end
  | Err e => report_refusal reports c e /\ new = []
  | Panic => False
  end.

Lemma report_latency_stages reports c :
  client_ok c -> Forall report_ok reports ->
  exists r c' new,
    report_latency env cfg dns request_id now_millis nonce reports c = (r, c') /\
    client_ok c' /\ inbox (cl_world c') = inbox (cl_world c) /\
    sends (cl_world c') = sends (cl_world c) ++ new /\ report_spec reports c c' new r.
Proof.
  intros Hc Hr. unfold report_latency. destruct (bool_decide (reports = [])) eqn:Hempty; reflect_bools.
  { exists (Ok tt), c, []. rewrite app_nil_r. split_and!; try done. by left. }
  destruct (maybe_refresh_spec c Hc) as (c1 & (Hc1 & Hcalm & Hso) & Hm).
  assert (Hstop : forall e, report_refusal reports c e -> exists r c' new,
    (Err e : outcome CoreError unit, c1) = (r, c') /\ client_ok c' /\
    inbox (cl_world c') = inbox (cl_world c) /\
    sends (cl_world c') = sends (cl_world c) ++ new /\ report_spec reports c c' new r).
  { intros e He. exists (Err e), c1, []. rewrite app_nil_r.
    split_and!; try done; [by destruct Hcalm | by destruct Hcalm |]. by destruct e. }
  destruct Hm as [Hm|Hm]; [|rewrite (cact_run_err _ _ _ _ _ Hm); apply Hstop; cbn; by rewrite Hm].
  rewrite (cact_run _ _ _ _ _ Hm).
  pose proof (latency_report_packet_built cfg request_id now_millis nonce reports Hcfg Hid Hnow Hnonce Hr) as Hb.
  cbv zeta in Hb. destruct (latency_report_packet cfg request_id now_millis nonce reports) as [packet|e|] eqn:Hpk.
  3:{ destruct (_ <=? _) in Hb; [destruct Hb as (? & ? & _) | destruct Hb as (? & ?)]; discriminate. }
  2:{ unfold mbind, cact_bind at 1, clift at 1. apply Hstop.
      destruct (_ <=? _) in Hb; [destruct Hb as (? & ? & _); discriminate | by destruct Hb as (? & [= ->])]. }
  rewrite (cact_run (clift _) _ c1 packet c1) by done.
  destruct (targets_spec c1 Hc1) as (resolved & Ht & _).
  rewrite (cact_run _ _ c1 resolved c1) by (unfold clift; by rewrite Ht).
  destruct (send_report_spec packet resolved (cl_world c1)) as (w' & new & E & Hs & Htg & Hi & Hk & _).
  unfold in_world. rewrite E.
  eexists _, _, new. split; [reflexivity|]. destruct Hc1 as (Hd & Hst & Ha). unfold sockets_of in *.
  split.
  { split; [done|]. unfold sockets_of. cbn [cl_steering cl_world cl_socket_epoch]. rewrite Hk, Hi. done. }
  cbn [cl_world]. split; [by rewrite Hi, (calm_inbox _ _ _ Hcalm)|].
  split; [by rewrite Hs, (calm_sends _ _ _ Hcalm)|].
  destruct (emits_send_report packet resolved (cl_world c1)) as (new' & Hn' & Hp').
  rewrite E in Hn'. cbn [snd] in Hn'. rewrite Hs in Hn'. apply app_inv_head in Hn' as <-.
  unfold report_spec. destruct (delivery_error new) as [io|] eqn:He; right; exists packet, resolved;
    rewrite ?He; by split_and!.
Qed.

(** A report of a client that knows no server once the refresh, if any, is over. *)
Lemma report_unserved reports c c1 packet :
  client_ok c -> reports <> [] ->
  maybe_refresh env cfg dns c = (Ok tt, c1) -> servers (cl_discovery c1) = [] ->
  latency_report_packet cfg request_id now_millis nonce reports = Ok packet ->
  let run := report_latency env cfg dns request_id now_millis nonce reports c in
  run.1 = Ok tt /\ sends (cl_world run.2) = sends (cl_world c).
Proof.
  intros Hc Hne Hm Hnone Hpk. cbv zeta. unfold report_latency. rewrite bool_decide_false by done.
  rewrite (cact_run _ _ _ _ _ Hm), (cact_run _ _ c1 packet c1) by (unfold clift; by rewrite Hpk).
  rewrite (cact_run _ _ c1 (mkResolvedTargets [] ∅ ∅) c1) by (unfold clift, current_targets; by rewrite Hnone).
  destruct (maybe_refresh_spec c Hc) as (c2 & (_ & Hcalm & _) & [Hm'|Hm']); [|congruence].
  assert (c2 = c1) as -> by congruence. split; [done|]. exact (calm_sends _ _ _ Hcalm).
Qed.

End Operations_spec.

(** ** Theorems *)

(** C9. A request, from validation to steering, whatever the resolver, the network,
    the scheduler and the operating system do: it never panics and keeps the
    client's invariant; it returns either the local grant of an empty request,
    with nothing done at all, or the parse of an authentic packet that arrived
    for it and names a discovered server; it never returns an authentication
    error; what it refuses (configuration, discovery, encoding) it refuses
    before sending anything; and all it sends is its one packet. *)
Theorem check_rate_limit_sound `{PrimitivesLaws} `{IpTextLaws} env cfg dns os_bind
    request_id now_millis nonce resources guards label c
    (Henv : env_ok env) (Hcfg : config_ok cfg) (Hdns : resolver_ok dns)
    (Hid : array_ok 16 request_id) (Hnow : in_u64 now_millis) (Hnonce : array_ok 12 nonce)
    (Hres : Forall resource_request_ok resources) (Hg : Forall guard_request_ok guards)
    (Hl : label_ok label) (Hc : client_ok c) :
  let run := check_rate_limit env cfg dns os_bind request_id now_millis nonce resources guards label c in
  client_ok run.2 /\
  exists new, sends (cl_world run.2) = sends (cl_world c) ++ new /\
    request_spec cfg request_id now_millis nonce resources guards label c run.2 new run.1.
Proof.
  destruct (check_rate_limit_stages env Henv cfg Hcfg dns Hdns os_bind request_id now_millis nonce
    Hid Hnow Hnonce resources guards label c Hc Hres Hg Hl) as (r & c' & new & E & Hc' & Hs & Hspec).
  cbv zeta. rewrite E. split; [done|]. by exists new.
Qed.

(** C33. A latency report is sent once to every discovered server, in order, as one
    packet, without waiting for an answer; it fails exactly when sends were
    attempted and none succeeded, with the last error, or before sending anything,
    because the discovery that was due failed or the packet is too large; without
    samples nothing happens.  In particular a client that knows no server and has no
    refresh due reports success and sends nothing: unlike a request, a report is
    then not refused with a discovery error. *)
Theorem report_latency_spec `{PrimitivesLaws} `{IpTextLaws} env cfg dns request_id now_millis nonce reports c
    (Henv : env_ok env) (Hcfg : config_ok cfg) (Hdns : resolver_ok dns)
    (Hid : array_ok 16 request_id) (Hnow : in_u64 now_millis) (Hnonce : array_ok 12 nonce)
    (Hr : Forall report_ok reports) (Hc : client_ok c) :
  let run := report_latency env cfg dns request_id now_millis nonce reports c in
  client_ok run.2 /\ inbox (cl_world run.2) = inbox (cl_world c) /\
  (exists new, sends (cl_world run.2) = sends (cl_world c) ++ new /\
     report_spec env cfg dns request_id now_millis nonce reports c run.2 new run.1) /\
  (forall c1 packet, reports <> [] ->
     maybe_refresh env cfg dns c = (Ok tt, c1) -> servers (cl_discovery c1) = [] ->
     latency_report_packet cfg request_id now_millis nonce reports = Ok packet ->
     run.1 = Ok tt /\ sends (cl_world run.2) = sends (cl_world c)).
Proof.
  destruct (report_latency_stages env Henv cfg Hcfg dns Hdns request_id now_millis nonce
    Hid Hnow Hnonce reports c Hc Hr) as (r & c' & new & E & Hc' & Hi & Hs & Hspec).
  cbv zeta. split_and!; [by rewrite E | by rewrite E | exists new; by rewrite E |].
  intros c1 packet Hne Hm Hnone Hpk. by eapply report_unserved.
Qed.

(** A client whose first operation discovers server 77, which answers. *)
Definition demo_servers : Resolver :=
  mkResolver (fun _ => Some [SRV (lit "s-77.example.") 7000]) (fun _ _ => inr [V4 2130706433]).

Definition demo_client : Client :=
  mkClient (mkDiscoveryState [] (-100000000000)) default_steering_stats 0 demo_world.

Lemma demo_servers_ok : resolver_ok demo_servers.
Proof. intros n host ips [= <-]. forall_list. cbn. lia. Qed.

Lemma demo_client_ok : @client_ok toy_ip_text demo_client.
Proof.
  split; [exists []; by split|]. split; [|exact demo_inbox_ok].
  split; [by left | left; discriminate].
Qed.

Lemma check_rate_limit_sound_witness :
  let run := @check_rate_limit toy_primitives toy_ip_text demo_env demo_cookie_config demo_servers demo_os_bind
               demo_id 5 demo_nonce [demo_resource] [demo_guard] None demo_client in
  @client_ok toy_ip_text run.2 /\ run.1 = Ok demo_result.
Proof.
  pose proof (@check_rate_limit_sound toy_primitives toy_primitives_laws toy_ip_text toy_ip_laws demo_env
    demo_cookie_config demo_servers demo_os_bind demo_id 5 demo_nonce [demo_resource] [demo_guard] None
    demo_client demo_env_ok demo_cookie_ok demo_servers_ok) as Hsound.
  cbv zeta in Hsound |- *. split; [|vm_compute; reflexivity].
  apply Hsound; try exact demo_resource_ok; try exact demo_guard_ok; try exact demo_client_ok.
  - apply (replicate_array 16 3). unfold is_byte. lia.
  - unfold in_u64, u64_max. lia.
  - apply (replicate_array 12 9). unfold is_byte. lia.
  - exact I.
Defined.

Definition demo_report : ServiceLatencyReport := mkServiceLatencyReport (lit "db") 12 1000 10 1.

Lemma demo_report_ok : Forall report_ok [demo_report].
Proof.
  constructor; [|constructor]. split; [exact (proj1 (Forall_inv demo_guard_ok))|].
  repeat split; vm_compute; discriminate.
Qed.

(** The same client, had it been created without servers just before. *)
Definition demo_unserved_client : Client :=
  mkClient (mkDiscoveryState [] 0) default_steering_stats 0 demo_world.

Lemma demo_unserved_ok : @client_ok toy_ip_text demo_unserved_client.
Proof.
  split; [exists []; by split|]. split; [|exact demo_inbox_ok].
  split; [by left | left; discriminate].
Qed.

Lemma report_latency_spec_witness :
  let run c := @report_latency toy_primitives toy_ip_text demo_env demo_cookie_config demo_servers
               demo_id 5 demo_nonce [demo_report] c in
  (@client_ok toy_ip_text (run demo_client).2 /\ (run demo_client).1 = Ok tt /\
   map send_target (sends (cl_world (run demo_client).2)) = [demo_addr]) /\
  (run demo_unserved_client).1 = Ok tt /\ sends (cl_world (run demo_unserved_client).2) = [].
Proof.
  assert (array_ok 16 demo_id) as Hid by (apply (replicate_array 16 3); unfold is_byte; lia).
  assert (array_ok 12 demo_nonce) as Hnonce by (apply (replicate_array 12 9); unfold is_byte; lia).
  assert (in_u64 5) as Hnow by (unfold in_u64, u64_max; lia).
  pose proof (fun c => @report_latency_spec toy_primitives toy_primitives_laws toy_ip_text toy_ip_laws demo_env
    demo_cookie_config demo_servers demo_id 5 demo_nonce [demo_report]
    c demo_env_ok demo_cookie_ok demo_servers_ok Hid Hnow Hnonce demo_report_ok) as Hspec.
  cbv zeta. split.
  - split; [apply (Hspec _ demo_client_ok) | vm_compute; by split].
  - destruct (Hspec _ demo_unserved_ok) as (_ & _ & _ & Hnone). cbv zeta in Hnone.
    eapply Hnone; [done | vm_compute; reflexivity | reflexivity | vm_compute; reflexivity].
Defined.

(** ** A decision lost to steering *)

(** A response that asks for another source port. *)
Definition demo_steering_response : list Z :=
  encode (mkTenantHeader TLV_TENANT 40 77 demo_id 5 0 0 [0; 0]) ++ u16_le TLV_AUTH_COOKIE ++ u16_le 36 ++
  demo_key ++ u16_le PDU_RATE_RESPONSE ++ u16_le 48 ++ [0; 0; 0; 0] ++ u16_le 1 ++ u16_le 0 ++
  encode demo_guard_block.

Definition demo_steering_client : Client :=
  let w := demo_world in
  mkClient (mkDiscoveryState [] (-100000000000)) default_steering_stats 0
    (mkWorld (now w) (steps w) [(5000000, mkResponsePacket demo_steering_response demo_addr)] (sockets w)
       (server_stats w) (sends w)).

(** A valid decision was received, but the error of the rebind is returned. *)
Lemma steering_failure_discards_decision :
  (@check_rate_limit toy_primitives toy_ip_text demo_env demo_cookie_config demo_servers
     (fun _ _ _ => inl (OtherKind 1)) demo_id 5 demo_nonce [demo_resource] [demo_guard] None
     demo_steering_client).1 = Err (CoreIo (OtherKind 1)) /\
  exists r, (@check_rate_limit toy_primitives toy_ip_text demo_env demo_cookie_config demo_servers
     demo_os_bind demo_id 5 demo_nonce [demo_resource] [demo_guard] None demo_steering_client).1 = Ok r.
Proof. split; [by vm_compute | eexists; vm_compute; reflexivity]. Qed.
