(* ===== verification/Model.v ===== *)
(** * Resources, trackers and results (src/src/model.rs)

    The public definitions: rate counters and latency trackers with their
    content-derived identities, the checks on their parameters, and the decision a
    request returns. *)

From S2P Require Import Prelude Errors Durations Wire Request.

(** [write_hex], the text of both identifiers. *)
Definition write_hex (bytes : list Z) : str :=
  concat (map (fun b => [digit_char (b / 16); digit_char (b mod 16)]) bytes).

Definition duration_to_u32_ms (duration : Duration) (field : str) : outcome Error Z :=
  let millis := as_millis duration in
  if dur_is_zero duration || negb (subsec_nanos duration mod 1000000 =? 0) || (millis >? u32_max)
  then Err (error_from_configuration (InvalidDuration field))
  else Ok (as_u32 millis).

Record Resource := mkResource {
  res_name : str;
  res_window_ms : Z;
  res_rate_limit : Z;
  res_id : list Z;
}.

Record LatencyTracker := mkLatencyTracker {
  lt_name : str;
  lt_sample_ttl_ms : Z;
  lt_max_samples : Z;
  lt_min_samples : Z;
  lt_id : list Z;
}.

Record LatencyTrackerBuilder := mkLatencyTrackerBuilder {
  tb_name : str;
  tb_sample_ttl : option Duration;
  tb_max_samples : option Z;
  tb_min_samples : option Z;
}.

(** [LatencyTracker::builder] and the setters of the builder. *)
Definition tracker_builder (name : str) : LatencyTrackerBuilder :=
  mkLatencyTrackerBuilder name None None None.
Definition with_sample_ttl (d : Duration) (b : LatencyTrackerBuilder) : LatencyTrackerBuilder :=
  mkLatencyTrackerBuilder (tb_name b) (Some d) (tb_max_samples b) (tb_min_samples b).
Definition with_max_samples (n : Z) (b : LatencyTrackerBuilder) : LatencyTrackerBuilder :=
  mkLatencyTrackerBuilder (tb_name b) (tb_sample_ttl b) (Some n) (tb_min_samples b).
Definition with_min_samples (n : Z) (b : LatencyTrackerBuilder) : LatencyTrackerBuilder :=
  mkLatencyTrackerBuilder (tb_name b) (tb_sample_ttl b) (tb_max_samples b) (Some n).

(** [window()] and [sample_ttl()]. *)
Definition resource_window (r : Resource) : Duration := from_millis (res_window_ms r).
Definition tracker_sample_ttl (t : LatencyTracker) : Duration := from_millis (lt_sample_ttl_ms t).

Section Definitions.
Context `{Primitives}.

Definition bad_name (name : str) : bool := bool_decide (name = []) || (str_len name >? u32_max).

(** [Resource::new]. *)
Definition resource_new (name : str) (window : Duration) (rate_limit : Z) : outcome Error Resource :=
  if bad_name name then Err (error_from_configuration (InvalidName (lit "resource")))
  else
    window_ms ← duration_to_u32_ms window (lit "resource window");
    id ← derive_bucket_id name window_ms rate_limit;
    Ok (mkResource name window_ms rate_limit id).

(** The zero check of [build], over the fields in order. *)
Fixpoint check_positive (fields : list (str * Z)) : outcome Error unit :=
  match fields with
  | [] => Ok tt
  | (field, value) :: fields =>
      if value =? 0 then Err (error_from_configuration (InvalidTrackerValue field))
      else check_positive fields
  end.

(** [LatencyTrackerBuilder::build]. *)
Definition tracker_build (b : LatencyTrackerBuilder) : outcome Error LatencyTracker :=
  if bad_name (tb_name b) then Err (error_from_configuration (InvalidName (lit "latency tracker")))
  else
    sample_ttl ← ok_or (tb_sample_ttl b) (error_from_configuration (MissingTrackerField (lit "sample lifetime")));
    sample_ttl_ms ← duration_to_u32_ms sample_ttl (lit "sample lifetime");
    max_samples ← ok_or (tb_max_samples b) (error_from_configuration (MissingTrackerField (lit "maximum samples")));
    min_samples ← ok_or (tb_min_samples b) (error_from_configuration (MissingTrackerField (lit "minimum samples")));
    _ ← check_positive [(lit "maximum samples", max_samples); (lit "minimum samples", min_samples)];
    id ← derive_latency_tracker_id (tb_name b) sample_ttl_ms max_samples min_samples;
    Ok (mkLatencyTracker (tb_name b) sample_ttl_ms max_samples min_samples id).

End Definitions.

(** ** Results *)

Inductive Decision : Type := Granted | Rejected.

#[export] Instance Decision_eq_dec : EqDecision Decision.
Proof. solve_decision. Defined.

Record ResourceResult := mkResourceResult {
  mr_resource_id : list Z;
  mr_tokens_deficit : Z;
  mr_actual_rate : Z;
}.

Record GuardResult := mkGuardResult {
  mg_tracker_id : list Z;
  mg_threshold_ms : Z;
  mg_current_latency_ms : Z;
  mg_passed : bool;
}.

Record Response := mkResponse {
  decision : Decision;
  resource_results : list ResourceResult;
  guard_results : list GuardResult;
  selected_server_id : option Z;
}.

(** ** Checks *)

(** A positive whole number of milliseconds that fits the wire format. *)
Definition whole_u32 (d : Duration) : bool := whole_millis d && (as_millis d <=? u32_max).

Lemma duration_to_u32_ms_eq d field :
  duration_ok d ->
  duration_to_u32_ms d field =
    if whole_u32 d then Ok (as_millis d) else Err (InvalidConfiguration (InvalidDuration field)).
Proof.
  intros Hd. unfold duration_to_u32_ms, whole_u32, whole_millis. rewrite Z.gtb_ltb, Z.ltb_antisym.
  destruct (dur_is_zero d) eqn:Hz, (subsec_nanos d mod 1000000 =? 0) eqn:Hw, (as_millis d <=? u32_max) eqn:Hm;
    cbn [negb andb orb]; try done.
  rewrite as_u32_small; [done|]. reflect_bools. unfold u32_max in *.
  assert (0 < as_millis d) by (apply whole_millis_pos; [done|]; unfold whole_millis; rewrite Hz, Hw; done).
  lia.
Qed.

Lemma whole_u32_spec d :
  duration_ok d -> whole_u32 d = true ->
  in_u32 (as_millis d) /\ 0 < as_millis d /\ from_millis (as_millis d) = d.
Proof.
  unfold whole_u32. intros Hd H. reflect_bools. pose proof (whole_millis_pos d Hd ltac:(done)).
  split; [unfold in_u32; lia|]. split; [done | by apply from_millis_as_millis].
Qed.

Lemma bad_name_spec name : str_ok name -> bad_name name = false <-> name <> [] /\ name_ok name.
Proof.
  intros Hs. unfold bad_name, name_ok. rewrite orb_false_iff, bool_decide_eq_false, Z.gtb_ltb, Z.ltb_ge. tauto.
Qed.

Section Specs.
Context `{PrimitivesLaws}.

(** What the constructors establish. *)
Definition resource_ok (r : Resource) : Prop :=
  res_name r <> [] /\ name_ok (res_name r) /\ in_u32 (res_window_ms r) /\ 0 < res_window_ms r /\
  in_u32 (res_rate_limit r) /\ res_id r = bucket_id (res_name r) (res_window_ms r) (res_rate_limit r).

Definition tracker_ok (t : LatencyTracker) : Prop :=
  lt_name t <> [] /\ name_ok (lt_name t) /\ in_u32 (lt_sample_ttl_ms t) /\ 0 < lt_sample_ttl_ms t /\
  in_u32 (lt_max_samples t) /\ 0 < lt_max_samples t /\ in_u32 (lt_min_samples t) /\ 0 < lt_min_samples t /\
  lt_id t = tracker_id (lt_name t) (lt_sample_ttl_ms t) (lt_max_samples t) (lt_min_samples t).

Lemma resource_new_eq name window rate :
  str_ok name -> duration_ok window -> in_u32 rate ->
  resource_new name window rate =
    if bad_name name then Err (InvalidConfiguration (InvalidName (lit "resource")))
    else if whole_u32 window then
      Ok (mkResource name (as_millis window) rate (bucket_id name (as_millis window) rate))
    else Err (InvalidConfiguration (InvalidDuration (lit "resource window"))).
Proof.
  intros Hn Hd Hr. unfold resource_new. destruct (bad_name name) eqn:Hb; [done|].
  rewrite duration_to_u32_ms_eq by done. destruct (whole_u32 window) eqn:Hw; cbn [mbind outcome_bind]; [|done].
  apply bad_name_spec in Hb as [_ Hb]; [|done].
  destruct (whole_u32_spec window Hd Hw) as (Hu & _).
  by destruct (@bucket_id_ok _ _ Error name _ rate Hb Hu Hr) as [-> _].
Qed.

(** The conditions of a tracker, in the order they are checked. *)
Definition tracker_checks (b : LatencyTrackerBuilder) : list (bool * ConfigurationError) :=
  [(negb (bad_name (tb_name b)), InvalidName (lit "latency tracker"));
   (bool_decide (is_Some (tb_sample_ttl b)), MissingTrackerField (lit "sample lifetime"));
   (from_option whole_u32 false (tb_sample_ttl b), InvalidDuration (lit "sample lifetime"));
   (bool_decide (is_Some (tb_max_samples b)), MissingTrackerField (lit "maximum samples"));
   (bool_decide (is_Some (tb_min_samples b)), MissingTrackerField (lit "minimum samples"));
   (from_option (fun n => 0 <? n) false (tb_max_samples b), InvalidTrackerValue (lit "maximum samples"));
   (from_option (fun n => 0 <? n) false (tb_min_samples b), InvalidTrackerValue (lit "minimum samples"))].

Definition tracker_builder_typed (b : LatencyTrackerBuilder) : Prop :=
  str_ok (tb_name b) /\ (forall d, tb_sample_ttl b = Some d -> duration_ok d) /\
  (forall n, tb_max_samples b = Some n -> in_u32 n) /\ (forall n, tb_min_samples b = Some n -> in_u32 n).

(** The tracker a complete builder describes. *)
Definition builder_tracker (b : LatencyTrackerBuilder) : LatencyTracker :=
  let ttl := from_option as_millis 0 (tb_sample_ttl b) in
  let mx := default 0 (tb_max_samples b) in
  let mn := default 0 (tb_min_samples b) in
  mkLatencyTracker (tb_name b) ttl mx mn (tracker_id (tb_name b) ttl mx mn).

Lemma tracker_build_eq b :
  tracker_builder_typed b ->
  tracker_build b =
    match List.find (fun check => negb check.1) (tracker_checks b) with
    | Some (_, e) => Err (InvalidConfiguration e)
    | None => Ok (builder_tracker b)
    end.
Proof.
  destruct b as [name ttl mx mn]. intros (Hn & Ht & Hx & Hm). unfold tracker_build, builder_tracker.
  unfold tracker_checks. cbn [tb_name tb_sample_ttl tb_max_samples tb_min_samples] in *. cbn [List.find fst].
  rewrite negb_involutive. destruct (bad_name name) eqn:Hb; [done|].
  destruct ttl as [d|]; [|done]. specialize (Ht d eq_refl).
  rewrite (bool_decide_true (is_Some (Some d))) by done. cbn [negb ok_or mbind outcome_bind from_option].
  rewrite duration_to_u32_ms_eq by done. destruct (whole_u32 d) eqn:Hw; cbn [negb mbind outcome_bind]; [|done].
  destruct mx as [mx|]; [|done]. specialize (Hx mx eq_refl).
  rewrite (bool_decide_true (is_Some (Some mx))) by done. cbn [negb ok_or mbind outcome_bind from_option].
  destruct mn as [mn|]; [|done]. specialize (Hm mn eq_refl).
  rewrite (bool_decide_true (is_Some (Some mn))) by done. cbn [negb ok_or mbind outcome_bind from_option].
  cbn [check_positive]. unfold in_u32 in *.
  destruct (Z.eqb_spec mx 0), (Z.ltb_spec 0 mx); try lia; cbn [negb mbind outcome_bind]; [done|].
  destruct (Z.eqb_spec mn 0), (Z.ltb_spec 0 mn); try lia; cbn [negb mbind outcome_bind]; [done|].
  apply bad_name_spec in Hb as [_ Hb]; [|done]. destruct (whole_u32_spec d Ht Hw) as (Hu & _).
  by destruct (@tracker_id_ok _ _ Error name (as_millis d) mx mn Hb Hu Hx Hm) as [-> _].
Qed.

Lemma builder_tracker_ok b :
  tracker_builder_typed b -> List.find (fun check => negb check.1) (tracker_checks b) = None ->
  tracker_ok (builder_tracker b) /\ tb_sample_ttl b = Some (tracker_sample_ttl (builder_tracker b)).
Proof.
  destruct b as [name ttl mx mn]. intros (Hn & Ht & Hx & Hm) Hf.
  pose proof (List.find_none _ _ Hf) as Hall. unfold tracker_checks in Hall.
  cbn [tb_name tb_sample_ttl tb_max_samples tb_min_samples] in *.
  assert (Hc : forall k check, tracker_checks (mkLatencyTrackerBuilder name ttl mx mn) !! k = Some check ->
    check.1 = true).
  { intros k check Hk. apply negb_false_iff, Hall, list_elem_of_In. by eapply list_elem_of_lookup_2. }
  pose proof (Hc 0%nat _ eq_refl) as H0'. pose proof (Hc 2%nat _ eq_refl) as H2'.
  pose proof (Hc 5%nat _ eq_refl) as H5'. pose proof (Hc 6%nat _ eq_refl) as H6'.
  cbn [fst tb_name tb_sample_ttl tb_max_samples tb_min_samples] in *.
  destruct ttl as [d|]; [|done]. destruct mx as [mx|]; [|done]. destruct mn as [mn|]; [|done].
  cbn [from_option] in *. specialize (Ht d eq_refl). specialize (Hx mx eq_refl). specialize (Hm mn eq_refl).
  destruct (whole_u32_spec d Ht H2') as (Hu & Hp & Hd). apply negb_true_iff, bad_name_spec in H0' as [Hne Hok]; [|done].
  apply Z.ltb_lt in H5', H6'. split.
  - by repeat (split; [done|]).
  - unfold tracker_sample_ttl. cbn. by rewrite Hd.
Qed.

End Specs.

(** ** Theorems *)

(** A resource is created exactly for a nonempty name of at most [u32::MAX] bytes
    and a window that is a positive whole number of milliseconds within 32 bits,
    the name being checked first; it then keeps the definition unchanged, gives
    its window back exactly, and its identity is the content identifier of the
    definition. *)
Theorem resource_new_spec `{PrimitivesLaws} name window rate
    (Hn : str_ok name) (Hd : duration_ok window) (Hr : in_u32 rate) :
  resource_new name window rate =
    (if bad_name name then Err (InvalidConfiguration (InvalidName (lit "resource")))
     else if whole_u32 window then
       Ok (mkResource name (as_millis window) rate (bucket_id name (as_millis window) rate))
     else Err (InvalidConfiguration (InvalidDuration (lit "resource window")))) /\
  forall r, resource_new name window rate = Ok r -> resource_ok r /\ resource_window r = window.
Proof.
  pose proof (resource_new_eq name window rate Hn Hd Hr) as He. split; [done|]. intros r Hr'.
  rewrite He in Hr'. destruct (bad_name name) eqn:Hb; [done|]. destruct (whole_u32 window) eqn:Hw; [|done].
  injection Hr' as <-. apply bad_name_spec in Hb as [Hne Hok]; [|done].
  destruct (whole_u32_spec window Hd Hw) as (Hu & Hp & Hback). split; [by repeat (split; [done|]) | done].
Qed.

(** Building a latency tracker reports the first unmet condition, in the order
    name, lifetime given, lifetime valid, counts given, counts positive; when all
    are met the tracker has the given settings, gives its lifetime back exactly and
    has the content identifier of its definition. *)
Theorem tracker_build_spec `{PrimitivesLaws} b (Hb : tracker_builder_typed b) :
  tracker_build b =
    match List.find (fun check => negb check.1) (tracker_checks b) with
    | Some (_, e) => Err (InvalidConfiguration e)
    | None => Ok (builder_tracker b)
    end /\
  forall t, tracker_build b = Ok t -> tracker_ok t /\ tb_sample_ttl b = Some (tracker_sample_ttl t).
Proof.
  pose proof (tracker_build_eq b Hb) as He. split; [done|]. intros t Ht. rewrite He in Ht.
  destruct (List.find _ _) as [[]|] eqn:Hf; [done|]. injection Ht as <-. by apply builder_tracker_ok.
Qed.

Definition demo_name : str := lit "db".
Lemma demo_name_ok : name_ok demo_name /\ str_ok demo_name.
Proof. pose proof (proj1 (Forall_inv demo_guard_ok)) as H. split; [exact H | exact (proj1 H)]. Qed.

Lemma resource_new_spec_witness :
  @resource_new toy_primitives demo_name (mkDuration 1 0) 100 =
    Ok (mkResource demo_name 1000 100 (@bucket_id toy_primitives demo_name 1000 100)).
Proof.
  rewrite (proj1 (@resource_new_spec toy_primitives toy_primitives_laws demo_name (mkDuration 1 0) 100
    (proj2 demo_name_ok) ltac:(repeat split; vm_compute; discriminate) ltac:(split; vm_compute; discriminate))).
  reflexivity.
Defined.

Lemma tracker_build_spec_witness :
  @tracker_build toy_primitives (with_min_samples 0 (with_max_samples 5 (with_sample_ttl (mkDuration 1 0)
    (tracker_builder demo_name)))) =
    Err (InvalidConfiguration (InvalidTrackerValue (lit "minimum samples"))).
Proof.
  refine (eq_trans (proj1 (@tracker_build_spec toy_primitives toy_primitives_laws _ _)) _).
  - split; [exact (proj2 demo_name_ok)|].
    split; [intros d [= <-]; repeat split; vm_compute; discriminate|].
    split; intros n [= <-]; split; vm_compute; discriminate.
  - reflexivity.
Defined.
