(* ===== verification/PublicClient.v ===== *)
(** * The public interface (src/src/public_client.rs)

    Building a client from an API key, building one request, sending it and
    reporting latencies: what establishes the assumptions the other components
    make, and what their results become. *)

From S2P Require Import Prelude Errors Text Codec ApiKey Durations Policy Net Sockets Discovery Config.
From S2P Require Import Wire Auth Request Response World Selection Steering Client Model.

Definition MAX_METRICS_LABEL_LEN : Z := 65526.

Definition is_ascii_alphanumeric (b : Z) : bool :=
  is_ascii_lowercase b || is_ascii_uppercase b || is_ascii_digit b.

Definition starts_with (c : Z) (s : str) : bool := bool_decide (head s = Some c).
Definition ends_with (c : Z) (s : str) : bool := bool_decide (last s = Some c).

Definition valid_dns_name (domain : str) : bool :=
  if bool_decide (domain = []) || (str_len domain >? 253) || starts_with 46 domain || ends_with 46 domain
  then false
  else
    forallb (fun label =>
      negb (bool_decide (label = [])) && (str_len label <=? 63) && negb (starts_with 45 label) &&
      negb (ends_with 45 label) &&
      forallb (fun byte => is_ascii_alphanumeric byte || (byte =? 45)) (as_bytes label))
      (split_on 46 domain).

(** [ClientBuilder]. *)
Record ClientBuilder := mkClientBuilder {
  cb_api_key : ApiKey;
  cb_service_domain : str;
  cb_request_policy : RequestPolicy;
  cb_dns_server : option SocketAddr;
}.

(** [Client::builder] and the setters of the builder. *)
Definition client_builder (key : ApiKey) : ClientBuilder :=
  mkClientBuilder key (lit "c-" ++ fmt_dec (api_key_id key) ++ lit ".p0.ratelimitly.com") default_policy None.
Definition with_service_domain (domain : str) (b : ClientBuilder) : outcome Error ClientBuilder :=
  if negb (valid_dns_name domain) then Err (error_from_configuration InvalidServiceDomain)
  else Ok (mkClientBuilder (cb_api_key b) domain (cb_request_policy b) (cb_dns_server b)).
Definition with_request_policy (policy : RequestPolicy) (b : ClientBuilder) : ClientBuilder :=
  mkClientBuilder (cb_api_key b) (cb_service_domain b) policy (cb_dns_server b).
Definition with_dns_server (address : SocketAddr) (b : ClientBuilder) : ClientBuilder :=
  mkClientBuilder (cb_api_key b) (cb_service_domain b) (cb_request_policy b) (Some address).

(** What the platform answers while a client is created: the sockets, the
    resolver, and the clock (now, one step later, and [Instant::checked_sub]). *)
Record Platform := mkPlatform {
  pf_bind : nat -> Z -> bool -> io_error + Z;
  pf_resolver : option SocketAddr -> option str;   (** the error text, if any *)
  pf_now : Z;
  pf_now' : Z;
  pf_checked_sub : Z -> Z -> option Z;
}.

(** [CoreClient::new]. *)
Definition core_client_new (os : Platform) (config : CoreConfig) : outcome CoreError Client :=
  socket ← bind (pf_bind os) 0 0;
  _ ← match pf_resolver os (dns_server config) with
      | Some e => Err (CoreDns e)
      | None => Ok tt
      end;
  _ ← map_err config_error
        (horizon_ms (effective_request_policy config) (dedup_ttl_ms_max (cfg_limits (Config.api_key config))));
  let last := initial_last_dns_refresh (pf_checked_sub os) (dns_refresh_interval_s config)
                (pf_now os) (pf_now' os) in
  Ok (mkClient (mkDiscoveryState [] last) default_steering_stats 0
        (mkWorld (pf_now' os) 0 [] socket ∅ [])).

(** The public [Client]: its configuration and the core client's state. *)
Record PublicClient := mkPublicClient {
  pc_config : CoreConfig;
  pc_inner : Client;
  pc_service_domain : str;
  pc_limits : ApiKeyLimits;
}.

(** [ClientBuilder::build]. *)
Definition client_build (os : Platform) (b : ClientBuilder) : outcome Error PublicClient :=
  let limits := api_limits (cb_api_key b) in
  _ ← map_err error_from_configuration (horizon_ms (cb_request_policy b) (dedup_ttl_ms_max limits));
  let config :=
    {| Config.api_key :=
         {| service_domain := cb_service_domain b; cfg_key_id := api_key_id (cb_api_key b);
            cfg_auth_method := api_auth_method (cb_api_key b); cfg_limits := limits;
            cfg_steering_feedback := true |};
       dns_refresh_interval_s := 60; ignore_steering_feedback := false;
       request_policy := cb_request_policy b; dns_server := cb_dns_server b |} in
  inner ← map_err error_from_core (core_client_new os config);
  Ok (mkPublicClient config inner (cb_service_domain b) limits).

(** ** Requests *)

(** [RequestBuilder], of a client with the given limits. *)
Record RequestBuilder := mkRequestBuilder {
  rb_resources : list ResourceRequest;
  rb_guards : list LatencyGuard;
  rb_metrics_label : option str;
}.

(** [Client::request]. *)
Definition request : RequestBuilder := mkRequestBuilder [] [] None.

Definition metrics_label (label : str) (b : RequestBuilder) : outcome Error RequestBuilder :=
  if str_len label >? MAX_METRICS_LABEL_LEN then Err (error_from_configuration InvalidMetricsLabel)
  else Ok (mkRequestBuilder (rb_resources b) (rb_guards b)
             (if negb (bool_decide (label = [])) then Some label else None)).

(** [u16::try_from(tokens).ok().filter(|tokens| *tokens > 0)]. *)
Definition token_quantity (tokens : Z) : option Z :=
  if (tokens <=? u16_max) && (0 <? tokens) then Some tokens else None.

Definition consume (limits : ApiKeyLimits) (resource : Resource) (tokens : Z) (b : RequestBuilder)
  : outcome Error RequestBuilder :=
  tokens_requested ← ok_or (token_quantity tokens) (error_from_configuration InvalidTokenQuantity);
  if res_window_ms resource >? rate_window_size_ms_max limits
  then Err (error_from_configuration ResourceWindowExceedsApiKey)
  else if zlen (rb_resources b) =? u16_max
  then Err (error_from_configuration (TooManyRequestEntries (lit "resources")))
  else
    Ok (mkRequestBuilder
          (rb_resources b ++ [mkResourceRequest (res_name resource) (res_window_ms resource)
                                (res_rate_limit resource) tokens_requested])
          (rb_guards b) (rb_metrics_label b)).

Definition guard (tracker : LatencyTracker) (threshold : Duration) (b : RequestBuilder)
  : outcome Error RequestBuilder :=
  if zlen (rb_guards b) =? u16_max
  then Err (error_from_configuration (TooManyRequestEntries (lit "guards")))
  else
    threshold_ms ← duration_to_u32_ms threshold (lit "latency threshold");
    Ok (mkRequestBuilder (rb_resources b)
          (rb_guards b ++ [mkLatencyGuard (lt_name tracker) threshold_ms (lt_sample_ttl_ms tracker)
                             (lt_max_samples tracker) (lt_min_samples tracker)])
          (rb_metrics_label b)).

(** The [Response] of a result. *)
Definition response_of (result : RateLimitResult) : Response :=
  {| decision := if success result then Granted else Rejected;
     resource_results :=
       map (fun item => mkResourceResult (rr_bucket_id item) (rr_tokens_deficit item) (rr_actual_rate item))
         (Wire.resource_results result);
     guard_results :=
       map (fun item => mkGuardResult (gr_latency_tracker_id item) (gr_threshold_ms item)
                          (gr_current_latency_ms item) (gr_passed item))
         (Wire.guard_results result);
     selected_server_id := if negb (server_id result =? 0) then Some (server_id result) else None |}.

Section Sending.
Context `{Primitives} `{IpText} (env : Env) (dns : Resolver) (os_bind : nat -> Z -> bool -> io_error + Z)
  (request_id : list Z) (now_millis : Z) (nonce : list Z).

(** An operation of the inner client, with its errors converted. *)
Definition on_inner {A B} (m : CoreConfig -> cact A) (f : A -> B) (pc : PublicClient)
  : outcome Error B * PublicClient :=
  let '(r, inner) := m (pc_config pc) (pc_inner pc) in
  (f <$> map_err error_from_core r,
   mkPublicClient (pc_config pc) inner (pc_service_domain pc) (pc_limits pc)).

(** [RequestBuilder::send]. *)
Definition send (b : RequestBuilder) : PublicClient -> outcome Error Response * PublicClient :=
  on_inner (fun cfg => check_rate_limit env cfg dns os_bind request_id now_millis nonce
                         (rb_resources b) (rb_guards b) (rb_metrics_label b)) response_of.

(** [Client::report_latency]. *)
Definition public_report_latency (tracker : LatencyTracker) (observed : Duration) (pc : PublicClient)
  : outcome Error unit * PublicClient :=
  match duration_to_u32_ms observed (lit "observed latency") with
  | Ok observed_latency =>
      let report := mkServiceLatencyReport (lt_name tracker) observed_latency (lt_sample_ttl_ms tracker)
                      (lt_max_samples tracker) (lt_min_samples tracker) in
      on_inner (fun cfg => report_latency env cfg dns request_id now_millis nonce [report]) id pc
  | Err e => (Err e, pc)
  | Panic => (Panic, pc)
  end.

End Sending.

(** ** DNS names *)

(** A character of a DNS label. *)
Definition dns_char (c : Z) : bool := is_ascii_alphanumeric c || (c =? 45).

Record dns_label (l : str) : Prop := {
  label_length : 1 <= zlen l <= 63;
  label_chars : Forall (fun c => dns_char c = true) l;
  label_start : head l <> Some 45;
  label_end : last l <> Some 45;
}.

(** The grammar of service domains: labels separated by dots, 253 bytes in all. *)
Definition dns_name (d : str) : Prop :=
  exists labels, labels <> [] /\ d = join 46 labels /\ Forall dns_label labels /\ zlen d <= 253.

Lemma dns_char_range c : dns_char c = true -> 45 <= c < 128 /\ c <> 46.
Proof.
  unfold dns_char, is_ascii_alphanumeric, is_ascii_lowercase, is_ascii_uppercase, is_ascii_digit.
  rewrite !orb_true_iff, !andb_true_iff, !Z.leb_le, Z.eqb_eq. lia.
Qed.

Lemma utf8_char_dns c : is_char c -> forallb dns_char (utf8_char c) = dns_char c.
Proof.
  intros Hc. unfold utf8_char. destruct (Z.ltb_spec c 128); [cbn; by rewrite andb_true_r|].
  assert (dns_char c = false) as ->.
  { destruct (dns_char c) eqn:Hd; [|done]. apply dns_char_range in Hd. lia. }
  assert (Hbig : forall b l, 128 <= b -> forallb dns_char (b :: l) = false).
  { intros b l Hb. cbn. destruct (dns_char b) eqn:Hd; [|done]. apply dns_char_range in Hd. lia. }
  destruct (_ <? _); [apply Hbig; pose proof (Z.shiftr_nonneg c 6); lia|].
  destruct (_ <? _); apply Hbig; [pose proof (Z.shiftr_nonneg c 12) | pose proof (Z.shiftr_nonneg c 18)]; lia.
Qed.

Lemma forallb_app_bytes s : str_ok s -> forallb dns_char (as_bytes s) = forallb dns_char s.
Proof.
  induction 1 as [|c s Hc _ IH]; [done|]. unfold as_bytes in *. cbn [map concat forallb].
  by rewrite forallb_app, IH, utf8_char_dns.
Qed.

Lemma dns_ascii l : Forall (fun c => dns_char c = true) l -> is_ascii l.
Proof. intros H. eapply Forall_impl; [exact H|]. intros c Hc%dns_char_range. lia. Qed.

(** The test of one label. *)
Lemma label_test_spec label :
  str_ok label ->
  negb (bool_decide (label = [])) && (str_len label <=? 63) && negb (starts_with 45 label) &&
    negb (ends_with 45 label) && forallb dns_char (as_bytes label) = true <-> dns_label label.
Proof.
  intros Hs. rewrite forallb_app_bytes by done. unfold starts_with, ends_with.
  rewrite !andb_true_iff, !negb_true_iff, !bool_decide_eq_false, Z.leb_le, forallb_forall. split.
  - intros ((((Hne & Hl) & Hst) & He) & Hc).
    assert (Hc' : Forall (fun c => dns_char c = true) label).
    { apply Forall_forall. intros c Hin. by apply Hc, list_elem_of_In. }
    rewrite str_len_ascii in Hl by (by apply dns_ascii). split; try done.
    destruct label; [done|]. rewrite zlen_cons in *. pose proof (zlen_nonneg label). lia.
  - intros [Hl Hc Hst He]. rewrite str_len_ascii by (by apply dns_ascii). split_and!; try done; try lia.
    + intros ->. rewrite zlen_nil in Hl. lia.
    + intros c Hin. rewrite Forall_forall in Hc. by apply Hc, list_elem_of_In.
Qed.

Lemma join_ascii labels : Forall dns_label labels -> is_ascii (join 46 labels).
Proof.
  induction 1 as [|l ls [_ Hc _ _] _ IH]; [constructor|]. apply dns_ascii in Hc.
  destruct ls as [|k ls]; [done|]. rewrite join_cons by done. apply Forall_app. split; [done|].
  constructor; [lia | done].
Qed.

Lemma split_on_ok c s : str_ok s -> Forall str_ok (split_on c s).
Proof.
  induction 1 as [|x s Hx _ IH]; cbn [split_on]; [forall_list; constructor|].
  destruct (x =? c); [constructor; [constructor | done]|].
  destruct (split_on_cons c s) as (p & ps & Hp). rewrite Hp in *. inversion IH; subst.
  constructor; [by constructor | done].
Qed.

(** Names made of labels neither start nor end with a dot. *)
Lemma join_ends labels :
  labels <> [] -> Forall dns_label labels ->
  join 46 labels <> [] /\ head (join 46 labels) <> Some 46 /\ last (join 46 labels) <> Some 46.
Proof.
  intros Hne H. induction H as [|l ls [Hl Hc _ _] Hls IH]; [done|].
  assert (Hl46 : 46 ∉ l).
  { intros Hin. rewrite Forall_forall in Hc. by apply Hc, dns_char_range in Hin as [_ ?]. }
  assert (l <> []) as Hln by (intros ->; rewrite zlen_nil in Hl; lia).
  assert (Hhead : head l <> Some 46).
  { destruct l as [|c l]; [done|]. intros [= ->]. set_solver. }
  destruct ls as [|k ls].
  - cbn [join]. split_and!; try done. intros Hla. apply last_Some_elem_of in Hla. done.
  - rewrite join_cons by done. destruct IH as (IHn & _ & IHl); [done|]. split_and!.
    + by destruct l.
    + by destruct l.
    + rewrite last_app, last_cons. destruct (last (join 46 (k :: ls))) as [z|] eqn:Hz; [exact IHl|].
      by apply last_None in Hz.
Qed.

Lemma valid_dns_name_eq d : str_ok d -> valid_dns_name d = true <-> dns_name d.
Proof.
  intros Hd. unfold valid_dns_name, dns_name. fold dns_char.
  assert (Hlabels : forallb (fun label => negb (bool_decide (label = [])) && (str_len label <=? 63) &&
      negb (starts_with 45 label) && negb (ends_with 45 label) &&
      forallb (fun byte => is_ascii_alphanumeric byte || (byte =? 45)) (as_bytes label)) (split_on 46 d) = true
    <-> Forall dns_label (split_on 46 d)).
  { rewrite forallb_forall, Forall_forall. pose proof (split_on_ok 46 d Hd) as Hs. rewrite Forall_forall in Hs.
    split; intros H l Hin.
    - apply label_test_spec; [by apply Hs|]. by apply H, list_elem_of_In.
    - apply (label_test_spec l); [by apply Hs, list_elem_of_In | by apply H, list_elem_of_In]. }
  destruct (_ || _ || _ || _) eqn:Hg.
  - split; [done|]. intros (labels & Hne & -> & Hl & Hlen). exfalso.
    destruct (join_ends labels Hne Hl) as (H1 & H2 & H3).
    rewrite str_len_ascii in Hg by (by apply join_ascii). unfold starts_with, ends_with in Hg.
    rewrite !bool_decide_false in Hg by done. rewrite Z.gtb_ltb, (proj2 (Z.ltb_ge _ _)) in Hg by lia. done.
  - rewrite Hlabels. reflect_bools. split.
    + intros Hl. exists (split_on 46 d). pose proof (join_ascii _ Hl) as Ha. rewrite join_split in Ha |- *.
      split_and!; try done; [by destruct (split_on_cons 46 d) as (p & ps & ->)|].
      rewrite <- str_len_ascii by done. lia.
    + intros (labels & Hne & -> & Hl & _). rewrite split_join; [done | done |].
      eapply Forall_impl; [exact Hl|]. intros l [_ Hc _ _] Hin. rewrite Forall_forall in Hc.
      by apply Hc, dns_char_range in Hin as [_ ?].
Qed.

(** ** Building a client *)

Definition builder_ok (b : ClientBuilder) : Prop :=
  api_key_ok (cb_api_key b) /\ policy_ok (cb_request_policy b) /\ dns_name (cb_service_domain b).

Lemma default_domain_ok k :
  in_u64 k -> dns_name (lit "c-" ++ fmt_dec k ++ lit ".p0.ratelimitly.com").
Proof.
  intros Hk. assert (Hz : 0 <= k) by (unfold in_u64 in Hk; lia).
  destruct (fmt_dec_len k 20) as [Hl1 Hl2]; [unfold in_u64, u64_max in Hk; lia | lia |].
  destruct (fmt_dec_spec k Hz) as [[Hd _] _].
  assert (Hc : Forall (fun c => 48 <= c <= 57) (fmt_dec k)).
  { eapply Forall_impl; [exact Hd|]. intros c. by rewrite is_ascii_digit_spec. }
  exists [lit "c-" ++ fmt_dec k; lit "p0"; lit "ratelimitly"; lit "com"]. split; [done|].
  split; [by cbn; rewrite <- ?app_assoc|]. split.
  - repeat (apply Forall_cons_2 || apply Forall_nil_2);
      try (split; [vm_compute; split; discriminate | by forall_list | done..]).
    split.
    + rewrite zlen_app. change (zlen (lit "c-")) with 2. lia.
    + apply Forall_app. split; [by forall_list|]. eapply Forall_impl; [exact Hc|].
      intros c ?. unfold dns_char, is_ascii_alphanumeric. rewrite (proj2 (is_ascii_digit_spec c)) by done.
      by rewrite orb_true_r.
    + done.
    + rewrite last_app. destruct (last (fmt_dec k)) as [z|] eqn:Hz'.
      2:{ apply last_None in Hz'. by rewrite Hz' in Hl1. }
      intros [= ->].
      apply last_Some_elem_of in Hz'. rewrite Forall_forall in Hc. apply Hc in Hz'. lia.
  - rewrite !zlen_app. change (zlen (lit "c-")) with 2.
    change (zlen (lit ".p0.ratelimitly.com")) with 19. lia.
Qed.

Lemma client_builder_ok key :
  api_key_ok key -> builder_ok (client_builder key).
Proof.
  intros Hk. split; [done|]. split; [exact default_policy_ok|]. by apply default_domain_ok, Hk.
Qed.

Section Building.
Context `{IpText}.

(** What a built client keeps true between operations. *)
Definition client_ready (pc : PublicClient) : Prop :=
  config_ok (pc_config pc) /\ client_ok (pc_inner pc) /\ pc_limits pc = cfg_limits (Config.api_key (pc_config pc)) /\
  dns_name (pc_service_domain pc) /\ pc_service_domain pc = service_domain (Config.api_key (pc_config pc)) /\
  horizon_spec (request_policy (pc_config pc)) <= dedup_ttl_ms_max (pc_limits pc).

(** The client a builder describes, on the platform that created it. *)
Definition built_client (os : Platform) (b : ClientBuilder) (pc : PublicClient) : Prop :=
  pc_service_domain pc = cb_service_domain b /\ pc_limits pc = api_limits (cb_api_key b) /\
  request_policy (pc_config pc) = cb_request_policy b /\ dns_server (pc_config pc) = cb_dns_server b /\
  sends (cl_world (pc_inner pc)) = [] /\ servers (cl_discovery (pc_inner pc)) = [] /\
  bind (pf_bind os) 0 0 = Ok (sockets (cl_world (pc_inner pc))).

(** What building returns: each result with the condition it is returned under; the
    four conditions exclude one another, in the order in which they are tried. *)
Definition build_result (os : Platform) (b : ClientBuilder) (r : outcome Error PublicClient) : Prop :=
  let limit := dedup_ttl_ms_max (api_limits (cb_api_key b)) in
  match r with
  | Ok pc => client_ready pc /\ built_client os b pc /\
      horizon_spec (cb_request_policy b) <= limit /\ pf_resolver os (cb_dns_server b) = None
  | Err (InvalidConfiguration RequestPolicyExceedsApiKey) => limit < horizon_spec (cb_request_policy b)
  | Err (Communication e) =>
      horizon_spec (cb_request_policy b) <= limit /\ bind (pf_bind os) 0 0 = Err (CoreIo e)
  | Err Discovery =>
      horizon_spec (cb_request_policy b) <= limit /\ (exists s, bind (pf_bind os) 0 0 = Ok s) /\
      is_Some (pf_resolver os (cb_dns_server b))
  | _ => False
  end.

Lemma limits_dedup l : limits_ok l -> in_u32 (dedup_ttl_ms_max l) /\ dedup_ttl_ms_max l <> 0.
Proof.
  intros (a & b & c & d & u & w & _ & _ & _ & _ & Hu & _ & ->). cbn. unfold in_u32, u32_max. lia.
Qed.

Lemma policy_horizon_eq p limit :
  policy_ok p -> in_u32 limit -> limit <> 0 ->
  horizon_ms p limit = if horizon_spec p <=? limit then Ok (horizon_spec p) else Err RequestPolicyExceedsApiKey.
Proof.
  intros (Ht & Hu & Hn & Hv & Hh) Hl Hl0. rewrite horizon_ms_eq by done.
  replace (policy_valid p && negb (limit =? 0)) with true; [done|].
  rewrite (proj2 (Z.eqb_neq _ _) Hl0). unfold policy_valid. rewrite Hv.
  symmetry. rewrite !andb_true_iff, negb_true_iff, Z.eqb_neq, !Z.leb_le. lia.
Qed.

Lemma client_build_result os b :
  builder_ok b -> build_result os b (client_build os b).
Proof.
  intros ((Hid & Hauth & Hlim) & Hp & Hdom). unfold client_build, core_client_new, build_result.
  destruct (limits_dedup _ Hlim) as [Hl Hl0].
  unfold effective_request_policy. cbn [request_policy Config.api_key cfg_limits dns_server].
  rewrite (policy_horizon_eq _ _ Hp Hl Hl0). destruct (Z.leb_spec (horizon_spec (cb_request_policy b))
    (dedup_ttl_ms_max (api_limits (cb_api_key b)))) as [Hle|Hgt]; cbn [map_err mbind outcome_bind]; [|done].
  destruct (bind_outcome (pf_bind os) 0 0) as [(s & Hs & Hok)|[e He]]; [rewrite Hs | by rewrite He].
  cbn [mbind outcome_bind]. destruct (pf_resolver os (cb_dns_server b)) as [e|]; cbn [mbind outcome_bind map_err];
    [by split_and!; [done | by exists s | eexists]|].
  assert (Hc : config_ok (mkCoreConfig
    (mkApiKeyConfig (cb_service_domain b) (api_key_id (cb_api_key b)) (api_auth_method (cb_api_key b))
       (api_limits (cb_api_key b)) true) 60 false (cb_request_policy b) (cb_dns_server b))) by done.
  assert (Hi : client_ok (mkClient (mkDiscoveryState [] (initial_last_dns_refresh (pf_checked_sub os) 60
    (pf_now os) (pf_now' os))) default_steering_stats 0 (mkWorld (pf_now' os) 0 [] s ∅ []))).
  { split; [by exists []|]. split; [|constructor]. split; [by left | done]. }
  by repeat (split; [done|]).
Qed.

End Building.

(** ** Building a request *)

(** The calls on a request builder. *)
Inductive request_op : Type :=
| SetLabel (label : str)
| Consume (resource : Resource) (tokens : Z)
| Guard (tracker : LatencyTracker) (threshold : Duration).

Definition apply_op (limits : ApiKeyLimits) (op : request_op) (b : RequestBuilder) : outcome Error RequestBuilder :=
  match op with
  | SetLabel label => metrics_label label b
  | Consume resource tokens => consume limits resource tokens b
  | Guard tracker threshold => guard tracker threshold b
  end.

Fixpoint build_request (limits : ApiKeyLimits) (ops : list request_op) (b : RequestBuilder)
  : outcome Error RequestBuilder :=
  match ops with
  | [] => Ok b
  | op :: ops => b ← apply_op limits op b; build_request limits ops b
  end.

(** The conditions of a call, in the order they are checked. *)
Definition op_checks (limits : ApiKeyLimits) (op : request_op) (b : RequestBuilder)
  : list (bool * ConfigurationError) :=
  match op with
  | SetLabel label => [(str_len label <=? MAX_METRICS_LABEL_LEN, InvalidMetricsLabel)]
  | Consume resource tokens =>
      [((1 <=? tokens) && (tokens <=? 65535), InvalidTokenQuantity);
       (res_window_ms resource <=? rate_window_size_ms_max limits, ResourceWindowExceedsApiKey);
       (zlen (rb_resources b) <? 65535, TooManyRequestEntries (lit "resources"))]
  | Guard tracker threshold =>
      [(zlen (rb_guards b) <? 65535, TooManyRequestEntries (lit "guards"));
       (whole_u32 threshold, InvalidDuration (lit "latency threshold"))]
  end.

(** What each call asks of the server. *)
Definition op_resource (op : request_op) : option ResourceRequest :=
  match op with
  | Consume r tokens => Some (mkResourceRequest (res_name r) (res_window_ms r) (res_rate_limit r) tokens)
  | _ => None
  end.
Definition op_guard (op : request_op) : option LatencyGuard :=
  match op with
  | Guard t threshold => Some (mkLatencyGuard (lt_name t) (as_millis threshold) (lt_sample_ttl_ms t)
                                 (lt_max_samples t) (lt_min_samples t))
  | _ => None
  end.
Definition op_label (op : request_op) : option str :=
  match op with SetLabel label => Some label | _ => None end.

(** The label of the last [metrics_label], which an empty text removes. *)
Definition last_label (ops : list request_op) : option str :=
  match last (omap op_label ops) with
  | Some label => if bool_decide (label = []) then None else Some label
  | None => None
  end.

Section Requests.
Context `{Primitives} (limits : ApiKeyLimits).

(** What the calls keep true of a builder. *)
Record rb_ok (b : RequestBuilder) : Prop := {
  rb_resources_ok : Forall (fun r => resource_request_ok r /\ 1 <= rq_tokens_requested r /\
    rq_window_size_ms r <= rate_window_size_ms_max limits) (rb_resources b);
  rb_guards_ok : Forall (fun g => guard_request_ok g /\ 0 < lg_threshold_ms g) (rb_guards b);
  rb_resource_count : zlen (rb_resources b) <= 65535;
  rb_guard_count : zlen (rb_guards b) <= 65535;
  rb_label_ok : label_ok (rb_metrics_label b) /\ label_fits (rb_metrics_label b) = true /\
    rb_metrics_label b <> Some [];
}.

Definition op_ok (op : request_op) : Prop :=
  match op with
  | SetLabel label => str_ok label
  | Consume resource tokens => resource_ok resource /\ in_u32 tokens
  | Guard tracker threshold => tracker_ok tracker /\ duration_ok threshold
  end.

(** The builder after a call that is accepted. *)
Definition after_op (op : request_op) (b : RequestBuilder) : RequestBuilder :=
  mkRequestBuilder (rb_resources b ++ option_list (op_resource op)) (rb_guards b ++ option_list (op_guard op))
    (match op_label op with Some l => if bool_decide (l = []) then None else Some l | None => rb_metrics_label b end).

Lemma apply_op_eq op b :
  op_ok op -> rb_ok b ->
  apply_op limits op b =
    match List.find (fun check => negb check.1) (op_checks limits op b) with
    | Some (_, e) => Err (InvalidConfiguration e)
    | None => Ok (after_op op b)
    end.
Proof.
  intros Hop Hb. pose proof (rb_resource_count b Hb). pose proof (rb_guard_count b Hb).
  destruct op as [label|r tokens|t threshold]; cbn [apply_op op_checks List.find fst op_ok] in *.
  - unfold metrics_label, after_op. rewrite Z.gtb_ltb, Z.ltb_antisym.
    destruct (str_len label <=? _); cbn [negb op_resource op_guard op_label option_list]; [|done].
    rewrite !app_nil_r. by destruct (bool_decide (label = [])).
  - destruct Hop as [_ Ht]. unfold consume, token_quantity, after_op. unfold in_u32, u16_max in *.
    replace ((tokens <=? 65535) && (0 <? tokens)) with ((1 <=? tokens) && (tokens <=? 65535))
      by (apply eq_true_iff_eq; rewrite !andb_true_iff, !Z.leb_le, Z.ltb_lt; lia).
    destruct ((1 <=? tokens) && (tokens <=? 65535)); cbn [negb ok_or mbind outcome_bind]; [|done].
    rewrite Z.gtb_ltb, Z.ltb_antisym. destruct (res_window_ms r <=? _); cbn [negb]; [|done].
    replace (zlen (rb_resources b) =? 65535) with (negb (zlen (rb_resources b) <? 65535))
      by (apply eq_true_iff_eq; rewrite negb_true_iff, Z.ltb_ge, Z.eqb_eq; lia).
    destruct (zlen (rb_resources b) <? 65535); cbn [negb op_resource op_guard op_label option_list]; [|done].
    by rewrite app_nil_r.
  - destruct Hop as [_ Ht]. unfold guard, after_op. unfold u16_max in *.
    replace (zlen (rb_guards b) =? 65535) with (negb (zlen (rb_guards b) <? 65535))
      by (apply eq_true_iff_eq; rewrite negb_true_iff, Z.ltb_ge, Z.eqb_eq; lia).
    destruct (zlen (rb_guards b) <? 65535); cbn [negb]; [|done].
    rewrite duration_to_u32_ms_eq by done.
    destruct (whole_u32 threshold); cbn [negb mbind outcome_bind op_resource op_guard op_label option_list]; [|done].
    by rewrite app_nil_r.
Qed.

Lemma after_op_ok op b :
  op_ok op -> rb_ok b -> List.find (fun check => negb check.1) (op_checks limits op b) = None ->
  rb_ok (after_op op b).
Proof.
  intros Hop [Hr Hg Hrc Hgc Hl] Hf.
  assert (Hall : forall check, check ∈ op_checks limits op b -> check.1 = true).
  { intros check Hin. apply negb_false_iff, (List.find_none _ _ Hf), list_elem_of_In, Hin. }
  destruct op as [label|r tokens|t threshold]; cbn [op_checks op_ok] in *; unfold after_op;
    cbn [op_resource op_guard op_label option_list]; rewrite ?app_nil_r.
  - pose proof (Hall _ ltac:(left)) as H1. cbn [fst] in H1. constructor; try done; cbn [rb_metrics_label].
    destruct (bool_decide (label = [])) eqn:He; reflect_bools; [done|].
    split; [done|]. split; [by apply Z.leb_le | congruence].
  - pose proof (Hall _ ltac:(left)) as H1. pose proof (Hall _ ltac:(right; left)) as H2.
    pose proof (Hall _ ltac:(right; right; left)) as H3. cbn [fst] in *. reflect_bools.
    destruct Hop as [(Hn & Hno & Hw & Hwp & Hrl & _) Ht].
    constructor; cbn [rb_resources rb_guards rb_metrics_label]; try done.
    + apply Forall_app. split; [done|]. apply Forall_singleton. unfold resource_request_ok.
      cbn [bucket_name rq_window_size_ms rq_rate_limit rq_tokens_requested].
      unfold in_u16, u16_max. split_and!; try done; lia.
    + rewrite zlen_app. cbn [option_list option_rect]. rewrite zlen_cons, zlen_nil. lia.
  - pose proof (Hall _ ltac:(left)) as H1. pose proof (Hall _ ltac:(right; left)) as H2. cbn [fst] in *.
    reflect_bools. destruct Hop as [(Hn & Hno & Htt & Htp & Hx & Hxp & Hm & Hmp & _) Hd].
    destruct (whole_u32_spec threshold Hd H2) as (Hu & Hp & _).
    constructor; cbn [rb_resources rb_guards rb_metrics_label]; try done.
    + apply Forall_app. split; [done|]. apply Forall_singleton. split; [|done]. by split_and!.
    + rewrite zlen_app. cbn [option_list option_rect]. rewrite zlen_cons, zlen_nil. lia.
Qed.

(** The first call whose conditions fail, and the builder it was made on. *)
Definition fails_at (ops : list request_op) (e : ConfigurationError) : Prop :=
  exists before op after b,
    ops = before ++ op :: after /\ build_request limits before request = Ok b /\
    snd <$> List.find (fun check => negb check.1) (op_checks limits op b) = Some e.

Lemma build_request_app before after b :
  build_request limits (before ++ after) b = (b ← build_request limits before b; build_request limits after b).
Proof.
  revert b. induction before as [|op before IH]; intros b; [done|]. cbn [app build_request].
  destruct (apply_op limits op b); cbn [mbind outcome_bind]; [apply IH | done..].
Qed.

Lemma request_ok : rb_ok request.
Proof. by constructor; cbn. Qed.

(** The accepted calls, in order. *)
Definition asked (ops : list request_op) (b : RequestBuilder) : Prop :=
  rb_resources b = omap op_resource ops /\ rb_guards b = omap op_guard ops /\
  rb_metrics_label b = last_label ops.

Lemma asked_snoc ops op b : asked ops b -> asked (ops ++ [op]) (after_op op b).
Proof.
  intros (Hr & Hg & Hl). unfold asked, after_op, last_label. cbn [rb_resources rb_guards rb_metrics_label].
  rewrite !omap_app, Hr, Hg, last_app. cbn [omap list_omap].
  split; [by destruct (op_resource op)|]. split; [by destruct (op_guard op)|].
  destruct (op_label op); [done | exact Hl].
Qed.

Lemma build_request_spec ops :
  Forall op_ok ops ->
  match build_request limits ops request with
  | Ok b => rb_ok b /\ asked ops b
  | Err e => exists ce, e = InvalidConfiguration ce /\ fails_at ops ce
  | Panic => False
  end.
Proof.
  induction ops as [|op ops IH] using rev_ind; intros Hops; [split; [exact request_ok | done]|].
  apply Forall_app in Hops as [Hops Hop%Forall_inv]. specialize (IH Hops). rewrite build_request_app.
  destruct (build_request limits ops request) as [b|e|] eqn:E; cbn [mbind outcome_bind]; [| |done].
  - destruct IH as [Hb Ha]. cbn [build_request]. rewrite apply_op_eq by done.
    destruct (List.find _ _) as [[ok e]|] eqn:Hf; cbn [mbind outcome_bind].
    + exists e. split; [done|]. exists ops, op, [], b. by rewrite Hf.
    + split; [by apply after_op_ok | by apply asked_snoc].
  - destruct IH as (ce & He & before & op' & after & b & -> & Hrest). exists ce. split; [done|].
    exists before, op', (after ++ [op]), b. by rewrite <- app_assoc.
Qed.

End Requests.

(** ** Sending *)

Section Sending_spec.
Context `{PrimitivesLaws} `{IpTextLaws} (env : Env) (Henv : env_ok env) (dns : Resolver)
  (Hdns : resolver_ok dns) (os_bind : nat -> Z -> bool -> io_error + Z).
Context (request_id : list Z) (now_millis : Z) (nonce : list Z)
  (Hid : array_ok 16 request_id) (Hnow : in_u64 now_millis) (Hnonce : array_ok 12 nonce).

(** A grant, by the parts of the response. *)
Definition grant_iff (resp : Response) : Prop :=
  (decision resp = Granted <->
     Forall (fun g => mg_passed g = true) (guard_results resp) /\
     Forall (fun r => mr_tokens_deficit r = 0) (resource_results resp)) /\
  Forall (fun g => mg_passed g = (mg_current_latency_ms g <? mg_threshold_ms g)) (guard_results resp).

Lemma response_of_grant m r data : response_datagram m r data -> grant_iff (response_of r).
Proof.
  intros [h ext body pdu gs rs _ _ _ ->]. unfold grant_iff, response_of, response_result. cbn.
  rewrite !map_map. split.
  - rewrite !Forall_map. cbn. rewrite !Forall_forall. destruct (_ && _) eqn:E.
    + apply andb_true_iff in E as [Eg Er]. rewrite forallb_forall in Eg, Er. split; [|done]. intros _.
      split; intros x Hx%list_elem_of_In; [by apply Eg | by apply Z.eqb_eq, Er].
    + split; [done|]. intros [Hg Hr]. exfalso. apply andb_false_iff in E as [E|E].
      * apply not_true_iff_false in E. apply E, forallb_forall. intros x Hx%list_elem_of_In. by apply Hg.
      * apply not_true_iff_false in E. apply E, forallb_forall. intros x Hx%list_elem_of_In.
        by apply Z.eqb_eq, Hr.
  - apply Forall_map, Forall_forall. by cbn.
Qed.

(** The size of the packet of a request. *)
Definition request_size (pc : PublicClient) (b : RequestBuilder) : Z :=
  TENANT_TLV_LEN + auth_header_size (cfg_auth_method (Config.api_key (pc_config pc))) + PDU_HEADER_LEN +
  rate_body_len (rb_resources b) (rb_guards b) (rb_metrics_label b).

(** What a response is and where it comes from. *)
Definition answered (b : RequestBuilder) (pc pc' : PublicClient) (resp : Response) : Prop :=
  (rb_resources b = [] /\ rb_guards b = [] /\ resp = mkResponse Granted [] [] None /\
     pc_inner pc' = pc_inner pc) \/
  exists a p r,
    (a, p) ∈ inbox (cl_world (pc_inner pc)) /\
    response_datagram (cfg_auth_method (Config.api_key (pc_config pc))) r (packet_data p) /\
    resp = response_of r /\ grant_iff resp /\
    Some (server_id r) ∈ map se_server_id (servers (cl_discovery (pc_inner pc'))) /\
    sends (cl_world (pc_inner pc')) <> sends (cl_world (pc_inner pc)).

Definition send_result (b : RequestBuilder) (pc pc' : PublicClient) (r : outcome Error Response) : Prop :=
  match r with
  | Ok resp => answered b pc pc' resp
  | Err Timeout | Err (Communication _) =>
      sends (cl_world (pc_inner pc')) <> sends (cl_world (pc_inner pc)) /\ request_size pc b <= MAX_PACKET_SIZE
  | Err Discovery => sends (cl_world (pc_inner pc')) = sends (cl_world (pc_inner pc))
  | Err Protocol =>
      sends (cl_world (pc_inner pc')) = sends (cl_world (pc_inner pc)) /\ MAX_PACKET_SIZE < request_size pc b
  | _ => False
  end.

Lemma ready_horizon pc :
  client_ready pc ->
  horizon_ms (request_policy (pc_config pc)) (dedup_ttl_ms_max (cfg_limits (Config.api_key (pc_config pc))))
  = Ok (horizon_spec (request_policy (pc_config pc))).
Proof.
  intros ((_ & _ & Hlim & Hp) & _ & Hl & _ & _ & Hh). destruct (limits_dedup _ Hlim).
  rewrite policy_horizon_eq, <- Hl, (proj2 (Z.leb_le _ _)); done.
Qed.

Lemma ready_horizon_u32 pc : client_ready pc -> in_u32 (horizon_spec (request_policy (pc_config pc))).
Proof. intros ((_ & _ & _ & (_ & _ & _ & _ & Hh)) & _). unfold in_u32. lia. Qed.

(** Whether the packet of a request fits is known beforehand. *)
Lemma packet_fits pc b dedup :
  client_ready pc -> rb_ok (pc_limits pc) b -> in_u32 dedup ->
  let built := rate_request_packet (pc_config pc) request_id now_millis nonce dedup
                 (rb_resources b) (rb_guards b) (rb_metrics_label b) in
  if request_size pc b <=? MAX_PACKET_SIZE then exists packet, built = Ok packet
  else exists e, built = Err (CoreProtocol e).
Proof.
  intros Hpc [Hr Hg _ _ (Hl & Hfit & _)] Hd. cbv zeta. unfold request_size.
  assert (Hr' : Forall resource_request_ok (rb_resources b)) by (eapply Forall_impl; [exact Hr | naive_solver]).
  assert (Hg' : Forall guard_request_ok (rb_guards b)) by (eapply Forall_impl; [exact Hg | naive_solver]).
  pose proof (rate_request_packet_built (pc_config pc) request_id now_millis nonce dedup
    (rb_resources b) (rb_guards b) (rb_metrics_label b) (proj1 Hpc) Hid Hnow Hnonce Hd Hr' Hg' Hl) as Hb.
  cbv zeta in Hb. rewrite Hfit in Hb. cbn [andb] in Hb.
  destruct (_ <=? MAX_PACKET_SIZE); [destruct Hb as (body & -> & _); by eexists | done].
Qed.

(** A refusal of the core client, for a built client and a built request. *)
Lemma refusal_cases pc b e :
  client_ready pc -> rb_ok (pc_limits pc) b ->
  refusal (pc_config pc) request_id now_millis nonce (rb_resources b) (rb_guards b) (rb_metrics_label b) e ->
  match e with
  | CoreDns _ => True
  | CoreProtocol _ => MAX_PACKET_SIZE < request_size pc b
  | _ => False
  end.
Proof.
  intros Hpc Hb. destruct e; cbn [refusal]; try done.
  - intros [Hw|(dedup & Hd & He)].
    + exfalso. apply Exists_exists in Hw as (r & Hin & Hw). destruct Hb as [Hr _ _ _ _].
      rewrite Forall_forall in Hr. apply Hr in Hin as (_ & _ & Hle). destruct Hpc as (_ & _ & Hlim & _).
      rewrite Hlim in Hle. lia.
    + pose proof (packet_fits pc b dedup Hpc Hb Hd) as Hf. cbv zeta in Hf. rewrite He in Hf.
      destruct (Z.leb_spec (request_size pc b) MAX_PACKET_SIZE); [by destruct Hf | done].
  - intros [ce Hce]. by rewrite ready_horizon in Hce.
Qed.

(** A request that was sent fits. *)
Lemma sent_fits pc b packet :
  client_ready pc -> rb_ok (pc_limits pc) b ->
  rate_request_packet (pc_config pc) request_id now_millis nonce
    (horizon_spec (request_policy (pc_config pc))) (rb_resources b) (rb_guards b) (rb_metrics_label b) = Ok packet ->
  request_size pc b <= MAX_PACKET_SIZE.
Proof.
  intros Hpc Hb He. pose proof (packet_fits pc b _ Hpc Hb (ready_horizon_u32 pc Hpc)) as Hf. cbv zeta in Hf.
  rewrite He in Hf. destruct (Z.leb_spec (request_size pc b) MAX_PACKET_SIZE); [done | by destruct Hf].
Qed.

(** An operation of the inner client keeps the client ready. *)
Lemma on_inner_ready {A B} (m : CoreConfig -> cact A) (f : A -> B) pc r c' :
  client_ready pc -> m (pc_config pc) (pc_inner pc) = (r, c') -> client_ok c' ->
  on_inner m f pc = (f <$> map_err error_from_core r,
                     mkPublicClient (pc_config pc) c' (pc_service_domain pc) (pc_limits pc)) /\
  client_ready (mkPublicClient (pc_config pc) c' (pc_service_domain pc) (pc_limits pc)).
Proof.
  intros (Hc & _ & Hrest) E Hc'. unfold on_inner. rewrite E. split; [done|]. by split.
Qed.

Lemma send_stages pc b :
  client_ready pc -> rb_ok (pc_limits pc) b ->
  exists r pc', send env dns os_bind request_id now_millis nonce b pc = (r, pc') /\
    client_ready pc' /\ pc_config pc' = pc_config pc /\ pc_limits pc' = pc_limits pc /\
    send_result b pc pc' r.
Proof.
  intros Hpc Hb. pose proof Hb as [Hr Hg _ _ (Hl & _ & _)]. pose proof Hpc as (Hcfg & Hc & _).
  destruct (check_rate_limit_stages env Henv (pc_config pc) Hcfg dns Hdns os_bind request_id now_millis nonce
    Hid Hnow Hnonce (rb_resources b) (rb_guards b) (rb_metrics_label b) (pc_inner pc) Hc)
    as (r & c' & new & E & Hc' & Hs & Hspec & Hsent); try done.
  { eapply Forall_impl; [exact Hr | naive_solver]. }
  { eapply Forall_impl; [exact Hg | naive_solver]. }
  destruct (on_inner_ready (fun cfg => check_rate_limit env cfg dns os_bind request_id now_millis nonce
    (rb_resources b) (rb_guards b) (rb_metrics_label b)) response_of pc r c' Hpc E Hc') as [Ho Hpc'].
  eexists _, _. split; [exact Ho|]. split; [done|]. split; [done|]. split; [done|].
  assert (Hmore : new <> [] -> sends (cl_world c') <> sends (cl_world (pc_inner pc))).
  { intros Hnew Heq. rewrite Hs in Heq. apply Hnew. by apply (app_inv_head (sends (cl_world (pc_inner pc)))); rewrite app_nil_r. }
  assert (Hfits : new <> [] -> request_size pc b <= MAX_PACKET_SIZE).
  { intros Hnew. destruct (Hsent Hnew) as (dedup & packet & Hh & Hpk & _). rewrite ready_horizon in Hh by done.
    injection Hh as <-. by eapply sent_fits. }
  destruct r as [result|e|]; cbn [map_err]; [| |done].
  - destruct Hspec as [(Hre & Hge & -> & ->)|(a & p & Hin & Hp & Hsrv & Hnew)]; [by left|].
    right. exists a, p, result. destruct Hcfg as (_ & Hm & _).
    destruct Hc as (_ & _ & Ha). unfold arrivals_ok in Ha. rewrite Forall_forall in Ha.
    destruct (Ha _ Hin) as [Hby Hlen]. apply parse_datagram_iff in Hp; [|done..].
    split_and!; try done; [apply (response_of_grant _ _ _ Hp).. | by apply Hmore].
  - destruct e as [io| |m|m|m|m]; cbn [error_from_core send_result] in *;
      try (destruct Hspec as [Hspec ->]; rewrite app_nil_r in Hs; apply refusal_cases in Hspec; done).
    + by split; [apply Hmore | apply Hfits].
    + by split; [apply Hmore | apply Hfits].
Qed.

(** ** Reporting *)

(** What a report of the public client returns. *)
Definition public_report_result (observed : Duration) (pc pc' : PublicClient) (r : outcome Error unit) : Prop :=
  match r with
  | Ok _ => whole_u32 observed = true
  | Err (Communication _) => whole_u32 observed = true /\ sends (cl_world (pc_inner pc')) <> sends (cl_world (pc_inner pc))
  | Err Discovery => whole_u32 observed = true /\ sends (cl_world (pc_inner pc')) = sends (cl_world (pc_inner pc))
  | Err (InvalidConfiguration (InvalidDuration _)) => whole_u32 observed = false /\ pc' = pc
  | _ => False
  end.

Lemma public_report_stages pc tracker observed :
  client_ready pc -> tracker_ok tracker -> duration_ok observed ->
  exists r pc', public_report_latency env dns request_id now_millis nonce tracker observed pc = (r, pc') /\
    client_ready pc' /\ pc_config pc' = pc_config pc /\ pc_limits pc' = pc_limits pc /\
    public_report_result observed pc pc' r.
Proof.
  intros Hpc Ht Hd. unfold public_report_latency. rewrite duration_to_u32_ms_eq by done.
  destruct (whole_u32 observed) eqn:Hw.
  2:{ eexists _, pc. split; [reflexivity|]. by split_and!. }
  destruct (whole_u32_spec observed Hd Hw) as (Hu & _). pose proof Hpc as (Hcfg & Hc & _).
  set (reports := [_]).
  assert (Hok : Forall report_ok reports).
  { destruct Ht as (_ & Hn & Htt & _ & Hx & _ & Hm & _). apply Forall_singleton. by split_and!. }
  destruct (report_latency_stages env Henv (pc_config pc) Hcfg dns Hdns request_id now_millis nonce
    Hid Hnow Hnonce reports (pc_inner pc) Hc Hok) as (r & c' & new & E & Hc' & _ & Hs & Hspec).
  destruct (on_inner_ready (fun cfg => report_latency env cfg dns request_id now_millis nonce reports) id pc r c'
    Hpc E Hc') as [Ho Hpc'].
  eexists _, _. split; [exact Ho|]. split; [done|]. split; [done|]. split; [done|].
  pose proof (latency_report_packet_built (pc_config pc) request_id now_millis nonce reports Hcfg Hid Hnow Hnonce Hok)
    as Hb. cbv zeta in Hb.
  assert (Hpk : exists packet, latency_report_packet (pc_config pc) request_id now_millis nonce reports = Ok packet).
  { match type of Hb with (if ?c then _ else _) =>
      assert (c = true) as Hsmall by (by destruct (cfg_auth_method (Config.api_key (pc_config pc)))) end.
    rewrite Hsmall in Hb. destruct Hb as (body & Hb & _). by exists (encode (build_tenant_header
      (Config.api_key (pc_config pc)) request_id now_millis) ++ body). }
  destruct Hpk as [packet Hpk].
  destruct r as [[]|e|]; cbn [map_err]; [done | | done].
  destruct e as [io| |m|m|m|m]; cbn [error_from_core public_report_result report_spec report_refusal] in *;
    [|by destruct Hspec.. | destruct Hspec as [He _]; congruence | by destruct Hspec | | by destruct Hspec].
  - destruct Hspec as [(_ & _ & ? & _)|(pk & resolved & _ & _ & Ht' & _ & Hr)]; [done|]. split; [done|].
    cbn [pc_inner]. intros Heq. rewrite Hs in Heq. assert (new = []) as ->.
    { by apply (app_inv_head (sends (cl_world (pc_inner pc)))); rewrite app_nil_r. }
    done.
  - destruct Hspec as [_ ->]. by rewrite app_nil_r in Hs.
Qed.

End Sending_spec.

(** ** Theorems *)

(** C38. The domains a caller may configure are exactly those of the documented
    grammar - labels of 1 to 63 letters, digits and inner hyphens, joined by dots,
    253 bytes in all - and a refusal names the domain; the domain derived from an
    API key of any identifier is one of them, so it is never invalid. *)
Theorem service_domain_spec domain b key (Hd : str_ok domain) (Hk : in_u64 (api_key_id key)) :
  ((exists b', with_service_domain domain b = Ok b') <-> dns_name domain) /\
  (forall b', with_service_domain domain b = Ok b' -> cb_service_domain b' = domain /\
     cb_api_key b' = cb_api_key b /\ cb_request_policy b' = cb_request_policy b) /\
  (~ dns_name domain -> with_service_domain domain b = Err (InvalidConfiguration InvalidServiceDomain)) /\
  dns_name (cb_service_domain (client_builder key)).
Proof.
  rewrite <- valid_dns_name_eq by done. unfold with_service_domain.
  destruct (valid_dns_name domain); cbn [negb]; (split; [|split; [|split; [|by apply default_domain_ok]]]);
    try done; try naive_solver.
Qed.

(** C36. Building a client succeeds exactly when the policy's horizon fits the API key,
    a socket can be bound and the resolver for the configured DNS server can be built;
    otherwise it reports the first of the three that fails, in this order, and no
    other error.  A built client has the key's limits, the chosen domain, policy and
    DNS server, the sockets that were bound, and every invariant the operations rely
    on; it has discovered nothing and sent nothing. *)
Theorem client_build_spec `{IpText} os b (Hb : builder_ok b) :
  build_result os b (client_build os b) /\
  ((exists pc, client_build os b = Ok pc) <->
   horizon_spec (cb_request_policy b) <= dedup_ttl_ms_max (api_limits (cb_api_key b)) /\
   (exists s, bind (pf_bind os) 0 0 = Ok s) /\ pf_resolver os (cb_dns_server b) = None).
Proof.
  pose proof (client_build_result os b Hb) as Hr. split; [done|].
  split.
  - intros [pc E]. rewrite E in Hr. destruct Hr as (_ & Hbuilt & Hle & Hres).
    split; [done|]. split; [|done]. eexists. apply Hbuilt.
  - intros (Hle & [s Hs] & Hres). destruct (client_build os b) as [pc|e|]; [by exists pc | | done].
    exfalso. destruct e as [?|[]| |?| | |]; cbn [build_result] in Hr; try done; [lia | |].
    + destruct Hr as (_ & _ & [? ?]). congruence.
    + destruct Hr as (_ & ?). congruence.
Qed.

(** C35. Whatever calls build a request, the first whose condition fails gives its
    configuration error, and no other error arises; when all are accepted the
    request holds the consumptions and guards asked for, in order, with the last
    label, and satisfies everything packet construction assumes. *)
Theorem request_builder_spec `{Primitives} limits ops (Hops : Forall op_ok ops) :
  match build_request limits ops request with
  | Ok b => rb_ok limits b /\ asked ops b
  | Err e => exists ce, e = InvalidConfiguration ce /\ fails_at limits ops ce
  | Panic => False
  end.
Proof. by apply build_request_spec. Qed.

(** C15. Sending a built request on a built client returns a response or one of four
    errors, never a panic, a configuration or an authentication error.  A response
    is the local grant of an empty request or the reading of an authentic response
    datagram of a discovered server, and it is a grant exactly when every guard
    passed and no resource has a deficit.  The protocol error means that the packet
    exceeds 1200 bytes, and then nothing was sent. *)
Theorem send_spec `{PrimitivesLaws} `{IpTextLaws} env dns os_bind request_id now_millis nonce pc b
    (Henv : env_ok env) (Hdns : resolver_ok dns) (Hid : array_ok 16 request_id)
    (Hnow : in_u64 now_millis) (Hnonce : array_ok 12 nonce)
    (Hpc : client_ready pc) (Hb : rb_ok (pc_limits pc) b) :
  let run := send env dns os_bind request_id now_millis nonce b pc in
  client_ready run.2 /\ pc_config run.2 = pc_config pc /\ send_result b pc run.2 run.1.
Proof.
  destruct (send_stages env Henv dns Hdns os_bind request_id now_millis nonce Hid Hnow Hnonce pc b Hpc Hb)
    as (r & pc' & E & Hpc' & Hcfg & _ & Hr). cbv zeta. by rewrite E.
Qed.

(** Reporting a latency fails with a configuration error exactly when the
    observation is not a positive whole number of milliseconds that fits 32 bits,
    and otherwise only because discovery or every send failed: its packet always
    fits. *)
Theorem public_report_spec `{PrimitivesLaws} `{IpTextLaws} env dns request_id now_millis nonce pc tracker observed
    (Henv : env_ok env) (Hdns : resolver_ok dns) (Hid : array_ok 16 request_id)
    (Hnow : in_u64 now_millis) (Hnonce : array_ok 12 nonce)
    (Hpc : client_ready pc) (Ht : tracker_ok tracker) (Hd : duration_ok observed) :
  let run := public_report_latency env dns request_id now_millis nonce tracker observed pc in
  client_ready run.2 /\ pc_config run.2 = pc_config pc /\ public_report_result observed pc run.2 run.1.
Proof.
  destruct (public_report_stages env Henv dns Hdns request_id now_millis nonce Hid Hnow Hnonce pc tracker observed
    Hpc Ht Hd) as (r & pc' & E & Hpc' & Hcfg & _ & Hr). cbv zeta. by rewrite E.
Qed.

(** ** A concrete client *)

Definition demo_limits : ApiKeyLimits := mkLimits 1 1 1 1 60 1024.
Definition demo_api_key : ApiKey := mkApiKey 42 (AuthCookie demo_key) demo_limits.

Lemma demo_api_key_ok : api_key_ok demo_api_key.
Proof.
  split; [split; vm_compute; discriminate|]. split; [split; [apply demo_key_ok | reflexivity]|].
  exists 0, 0, 0, 0, 6, 10. split_and!; try done; lia.
Qed.

Definition demo_platform : Platform :=
  mkPlatform (fun _ port ipv6 => if ipv6 then inl AddrNotAvailable else inr (if port =? 0 then 50000 else port))
    (fun _ => None) 0 0 (fun t s => Some (t - s * 1000000000)).

Definition demo_ops : list request_op :=
  [SetLabel (lit "web"); Consume (mkResource (lit "db") 1000 100 (@bucket_id toy_primitives (lit "db") 1000 100)) 3;
   SetLabel []].

Lemma demo_ops_ok : Forall (@op_ok toy_primitives) demo_ops.
Proof.
  pose proof (proj2 demo_name_ok) as Hdb. constructor; [|constructor; [|constructor; [|constructor]]].
  - apply Forall_forall. intros x Hx. vm_compute in Hx. left.
    repeat (apply elem_of_cons in Hx as [->|Hx]; [lia|]). by apply elem_of_nil in Hx.
  - split; [|split; vm_compute; discriminate]. split; [done|]. split; [exact (proj1 demo_name_ok)|].
    repeat split; vm_compute; discriminate.
  - constructor.
Qed.

Lemma service_domain_spec_witness :
  dns_name (cb_service_domain (client_builder demo_api_key)) /\
  (exists b, with_service_domain (lit "db") (client_builder demo_api_key) = Ok b).
Proof.
  pose proof (service_domain_spec (lit "db") (client_builder demo_api_key) demo_api_key (proj2 demo_name_ok)
    (proj1 demo_api_key_ok)) as (_ & _ & _ & Hk).
  split; [exact Hk | eexists; vm_compute; reflexivity].
Defined.

Lemma client_build_spec_witness :
  exists pc, client_build demo_platform (client_builder demo_api_key) = Ok pc /\
    @client_ready toy_ip_text pc /\ pc_limits pc = demo_limits.
Proof.
  pose proof (@client_build_spec toy_ip_text demo_platform (client_builder demo_api_key)
    (client_builder_ok demo_api_key demo_api_key_ok)) as [(Hready & Hbuilt & _) _].
  eexists. split; [reflexivity|]. split; [exact Hready | exact (proj1 (proj2 Hbuilt))].
Defined.

Lemma request_builder_spec_witness :
  exists b, build_request demo_limits demo_ops request = Ok b /\ @rb_ok demo_limits b /\
    rb_metrics_label b = None /\ zlen (rb_resources b) = 1.
Proof.
  pose proof (@request_builder_spec toy_primitives demo_limits demo_ops demo_ops_ok) as [Hok Ha].
  eexists. split; [reflexivity|]. split; [exact Hok|]. by split.
Defined.

(** The demo client after a first, successful discovery. *)
Definition demo_ready_client : PublicClient :=
  mkPublicClient demo_cookie_config demo_client (lit "example") demo_limits.

Lemma demo_ready : @client_ready toy_ip_text demo_ready_client.
Proof.
  split; [exact demo_cookie_ok|]. split; [exact demo_client_ok|]. split; [reflexivity|].
  split; [|by split]. apply valid_dns_name_eq; [|by vm_compute].
  apply Forall_forall. intros x Hx. vm_compute in Hx. left.
  repeat (apply elem_of_cons in Hx as [->|Hx]; [lia|]). by apply elem_of_nil in Hx.
Qed.

Definition demo_request_builder : RequestBuilder := mkRequestBuilder [demo_resource] [demo_guard] None.

Lemma demo_request_builder_ok : rb_ok demo_limits demo_request_builder.
Proof.
  constructor; cbn; try done; try (constructor; [|constructor]).
  - split; [exact (Forall_inv demo_resource_ok) | by split].
  - split; [exact (Forall_inv demo_guard_ok) | done].
Qed.

Lemma send_spec_witness :
  let run := @send toy_primitives toy_ip_text demo_env demo_servers demo_os_bind demo_id 5 demo_nonce
               demo_request_builder demo_ready_client in
  @client_ready toy_ip_text run.2 /\ run.1 = Ok (response_of demo_result).
Proof.
  pose proof (@send_spec toy_primitives toy_primitives_laws toy_ip_text toy_ip_laws demo_env demo_servers
    demo_os_bind demo_id 5 demo_nonce demo_ready_client demo_request_builder demo_env_ok demo_servers_ok
    (replicate_array 16 3 ltac:(unfold is_byte; lia)) ltac:(vm_compute; split; discriminate)
    (replicate_array 12 9 ltac:(unfold is_byte; lia)) demo_ready demo_request_builder_ok) as Hs.
  cbv zeta in Hs |- *. split; [exact (proj1 Hs) | vm_compute; reflexivity].
Defined.

Definition demo_tracker : LatencyTracker :=
  mkLatencyTracker demo_name 1000 10 1 (@tracker_id toy_primitives demo_name 1000 10 1).

Lemma demo_tracker_ok : @tracker_ok toy_primitives demo_tracker.
Proof.
  split; [done|]. split; [exact (proj1 demo_name_ok)|]. repeat split; vm_compute; discriminate.
Qed.

Lemma public_report_spec_witness :
  let run := @public_report_latency toy_primitives toy_ip_text demo_env demo_servers demo_id 5 demo_nonce
               demo_tracker (mkDuration 0 12000000) demo_ready_client in
  @client_ready toy_ip_text run.2 /\ run.1 = Ok tt.
Proof.
  pose proof (@public_report_spec toy_primitives toy_primitives_laws toy_ip_text toy_ip_laws demo_env demo_servers
    demo_id 5 demo_nonce demo_ready_client demo_tracker (mkDuration 0 12000000) demo_env_ok demo_servers_ok
    (replicate_array 16 3 ltac:(unfold is_byte; lia)) ltac:(vm_compute; split; discriminate)
    (replicate_array 12 9 ltac:(unfold is_byte; lia)) demo_ready demo_tracker_ok
    ltac:(repeat split; vm_compute; discriminate)) as Hs.
  cbv zeta in Hs |- *. split; [exact (proj1 Hs) | vm_compute; reflexivity].
Defined.

(** ** An unnamed server *)

(** A server may have the identifier 0; a response it gives names no server, like the
    local grant of an empty request. *)
Lemma server_zero_unnamed :
  parse_server_id_from_target (lit "s-0.example.") = Some 0 /\
  forall r, server_id r = 0 -> selected_server_id (response_of r) = None.
Proof. split; [by vm_compute|]. intros r Hr. unfold response_of. cbn. by rewrite Hr. Qed.
