(* ===== verification/View.v ===== *)
(** * What a caller sees (src/src/model.rs, src/src/public_client.rs)

    The accessors of resources, trackers, results and clients that are more than a
    field: durations, and the text of the identifiers by which a caller matches the
    parts of a response to what it asked for. *)

From S2P Require Import Prelude Errors Durations Codec ApiKey Policy Config Wire Auth Request Response Model PublicClient.
From S2P Require Traffic.

(** ** Accessors *)

(** [GuardResult::threshold] and [GuardResult::current_latency]. *)
Definition threshold (g : Model.GuardResult) : Duration := from_millis (mg_threshold_ms g).
Definition current_latency (g : Model.GuardResult) : Duration := from_millis (mg_current_latency_ms g).

(** [Client::service_domain] and [Client::traffic_stats], whose counters each load reads
    as they are at that moment. *)
Definition client_service_domain (pc : PublicClient) : str := pc_service_domain pc.
Definition traffic_stats (reads : Traffic.counter -> Traffic.TrafficCounters) (flag : Traffic.TrafficCounters)
  : Traffic.TrafficStats := Traffic.snapshot reads flag.

(** [Display] of both identifiers, and their [Debug]: a tuple struct of that text, which
    has nothing to escape. *)
Definition display_id (id : list Z) : str := write_hex id.
Definition debug_tuple (name : string) (text : str) : str := lit name ++ lit "(" ++ [34] ++ text ++ [34] ++ lit ")".
Definition debug_resource_id (id : list Z) : str := debug_tuple "ResourceId" (display_id id).
Definition debug_tracker_id (id : list Z) : str := debug_tuple "LatencyTrackerId" (display_id id).

(** [Duration]'s order: by seconds, then by nanoseconds. *)
Definition dur_ltb (a b : Duration) : bool :=
  (dur_secs a <? dur_secs b) || ((dur_secs a =? dur_secs b) && (dur_nanos a <? dur_nanos b)).

(** ** Lemmas *)

Lemma dur_ltb_millis a b : dur_ltb (from_millis a) (from_millis b) = (a <? b).
Proof.
  unfold dur_ltb, from_millis. cbn [dur_secs dur_nanos]. apply eq_true_iff_eq.
  rewrite orb_true_iff, andb_true_iff, !Z.ltb_lt, Z.eqb_eq. Z.div_mod_to_equations. lia.
Qed.

(** A lowercase hexadecimal digit. *)
Definition hex_digit (c : Z) : Prop := 48 <= c <= 57 \/ 97 <= c <= 102.

Lemma digit_char_hex d : 0 <= d < 16 -> hex_digit (digit_char d).
Proof. intros H. unfold hex_digit, digit_char. destruct (Z.ltb_spec d 10); lia. Qed.

Lemma digit_char_inj d e : 0 <= d < 16 -> 0 <= e < 16 -> digit_char d = digit_char e -> d = e.
Proof. intros Hd He. unfold digit_char. destruct (Z.ltb_spec d 10), (Z.ltb_spec e 10); lia. Qed.

Lemma byte_digits b : is_byte b -> 0 <= b / 16 < 16 /\ 0 <= b mod 16 < 16.
Proof. unfold is_byte. intros H. Z.div_mod_to_equations. lia. Qed.

Lemma write_hex_digits bytes :
  bytes_ok bytes -> Forall hex_digit (write_hex bytes) /\ zlen (write_hex bytes) = 2 * zlen bytes.
Proof.
  unfold write_hex. induction 1 as [|b bytes Hb _ [IHh IHl]]; [by split|]. cbn [map concat app].
  destruct (byte_digits b Hb). rewrite !zlen_cons, IHl. split; [|lia].
  repeat (constructor; [by apply digit_char_hex|]). done.
Qed.

Lemma write_hex_inj bytes bytes' :
  bytes_ok bytes -> bytes_ok bytes' -> write_hex bytes = write_hex bytes' -> bytes = bytes'.
Proof.
  unfold write_hex. intros Hb. revert bytes'. induction Hb as [|b bytes Hb _ IH]; intros bytes' Hb' E;
    destruct Hb' as [|b' bytes' Hb' Hbs']; try done.
  cbn [map concat app] in E. injection E as E1 E2 E3. destruct (byte_digits b Hb), (byte_digits b' Hb').
  apply digit_char_inj in E1, E2; [|done..]. f_equal; [|by apply IH].
  rewrite (Z.div_mod b 16), (Z.div_mod b' 16), E1, E2 by lia. done.
Qed.

(** ** Theorems *)

(** Identifiers can be told apart by their text: an identifier is shown as 32
    lowercase hexadecimal digits, two are shown alike only if they are equal, and the
    debug text also tells a resource from a tracker. *)
Theorem id_text_spec id id' (Hid : array_ok 16 id) (Hid' : array_ok 16 id') :
  zlen (display_id id) = 32 /\ Forall hex_digit (display_id id) /\
  (display_id id = display_id id' <-> id = id') /\
  (debug_resource_id id = debug_resource_id id' <-> id = id') /\
  (debug_tracker_id id = debug_tracker_id id' <-> id = id') /\
  debug_resource_id id <> debug_tracker_id id'.
Proof.
  destruct Hid as [Hl Hb], Hid' as [Hl' Hb']. destruct (write_hex_digits id Hb) as [Hh Hlen].
  assert (Hinj : display_id id = display_id id' <-> id = id') by (split; [by apply write_hex_inj | by intros ->]).
  assert (Htuple : forall name, debug_tuple name (display_id id) = debug_tuple name (display_id id') <-> id = id').
  { intros name. rewrite <- Hinj. unfold debug_tuple. split; [|by intros ->]. intros E.
    do 3 apply app_inv_head in E. by apply app_inv_tail in E. }
  split_and!; try done; [unfold display_id; lia | apply Htuple | apply Htuple].
Qed.

(** What a response says of its guards is consistent in every form: in the reading of
    any response, a guard passed exactly when its latency is below its threshold as
    [Duration]s, both are whole milliseconds, and the response is a grant exactly when
    all guards passed and no resource lacks tokens. *)
Theorem guard_durations_spec `{PrimitivesLaws} m r data (Hd : response_datagram m r data) :
  let resp := response_of r in
  Forall (fun g => mg_passed g = dur_ltb (current_latency g) (threshold g) /\
                   as_millis (threshold g) = mg_threshold_ms g /\
                   as_millis (current_latency g) = mg_current_latency_ms g) (Model.guard_results resp) /\
  (decision resp = Granted <->
     Forall (fun g => dur_ltb (current_latency g) (threshold g) = true) (Model.guard_results resp) /\
     Forall (fun x => mr_tokens_deficit x = 0) (Model.resource_results resp)).
Proof.
  cbv zeta. destruct (response_of_grant m r data Hd) as [Hg Hp]. rewrite Forall_forall in Hp.
  assert (Hpass : forall g, g ∈ Model.guard_results (response_of r) ->
    mg_passed g = dur_ltb (current_latency g) (threshold g)).
  { intros g Hin. rewrite (Hp g Hin). unfold current_latency, threshold. by rewrite dur_ltb_millis. }
  split.
  - apply Forall_forall. intros g Hin. split; [by apply Hpass|]. split; apply as_millis_from_millis.
  - rewrite Hg, !Forall_forall. split; (intros [Hgs Hrs]; split; [|done]); intros g Hin;
      specialize (Hgs g Hin); specialize (Hpass g Hin); congruence.
Qed.

Lemma id_text_spec_witness :
  display_id (replicate 16 173) = concat (replicate 16 (lit "ad")) /\
  debug_resource_id (replicate 16 173) <> debug_tracker_id (replicate 16 173).
Proof.
  split; [reflexivity|].
  apply (id_text_spec (replicate 16 173) (replicate 16 173)); apply (replicate_array 16 173); unfold is_byte; lia.
Defined.

Lemma guard_durations_spec_witness :
  (decision (response_of demo_result) = Granted <->
     Forall (fun g => dur_ltb (current_latency g) (threshold g) = true)
       (Model.guard_results (response_of demo_result)) /\
     Forall (fun x => mr_tokens_deficit x = 0) (Model.resource_results (response_of demo_result))).
Proof.
  apply (@guard_durations_spec toy_primitives toy_primitives_laws (AuthCookie demo_key) demo_result demo_response).
  apply (@parse_datagram_iff toy_primitives toy_primitives_laws).
  - split; [apply demo_key_ok | reflexivity].
  - apply bytes_ok_bool. vm_compute. reflexivity.
  - vm_compute. discriminate.
  - vm_compute. reflexivity.
Defined.
