(* ===== verification/Session.v ===== *)
(** * A client over its lifetime

    The operations composed: a builder, a client, and any sequence of requests and
    latency reports made on it, each under a resolver, a network, a scheduler and
    an operating system of its own. *)

From S2P Require Import Prelude Errors Codec ApiKey Durations Policy Net Sockets Discovery Config Wire.
From S2P Require Import Auth Request Response World Selection Steering Client Model PublicClient.

(** What one operation meets: the environment, and the packets that the router
    delivers for it while it runs. *)
Record Conditions := mkConditions {
  cd_env : Env;
  cd_dns : Resolver;
  cd_bind : nat -> Z -> bool -> io_error + Z;
  cd_arrivals : list (Z * ResponsePacket);
  cd_request_id : list Z;
  cd_now_millis : Z;
  cd_nonce : list Z;
}.

Definition conditions_ok (cd : Conditions) : Prop :=
  env_ok (cd_env cd) /\ resolver_ok (cd_dns cd) /\ arrivals_ok (cd_arrivals cd) /\
  array_ok 16 (cd_request_id cd) /\ in_u64 (cd_now_millis cd) /\ array_ok 12 (cd_nonce cd).

Inductive operation : Type :=
| SendRequest (ops : list request_op)
| ReportLatency (tracker : LatencyTracker) (observed : Duration).

(** A registration has an empty queue of its own, which the arrivals fill. *)
Definition with_arrivals (arrivals : list (Z * ResponsePacket)) (pc : PublicClient) : PublicClient :=
  let c := pc_inner pc in
  let w := cl_world c in
  mkPublicClient (pc_config pc)
    (mkClient (cl_discovery c) (cl_steering c) (cl_socket_epoch c)
       (mkWorld (now w) (steps w) arrivals (sockets w) (server_stats w) (sends w)))
    (pc_service_domain pc) (pc_limits pc).

Section Sessions.
Context `{Primitives} `{IpText}.

(** One operation, as a caller of the library makes it. *)
Definition run_operation (cd : Conditions) (op : operation) (pc : PublicClient)
  : outcome Error (option Response) * PublicClient :=
  let pc := with_arrivals (cd_arrivals cd) pc in
  match op with
  | SendRequest ops =>
      match build_request (pc_limits pc) ops request with
      | Ok b =>
          let '(r, pc) := send (cd_env cd) (cd_dns cd) (cd_bind cd) (cd_request_id cd) (cd_now_millis cd)
                            (cd_nonce cd) b pc in
          (Some <$> r, pc)
      | Err e => (Err e, pc)
      | Panic => (Panic, pc)
      end
  | ReportLatency tracker observed =>
      let '(r, pc) := public_report_latency (cd_env cd) (cd_dns cd) (cd_request_id cd) (cd_now_millis cd)
                        (cd_nonce cd) tracker observed pc in
      ((fun _ => None) <$> r, pc)
  end.

Fixpoint session (steps : list (Conditions * operation)) (pc : PublicClient)
  : list (outcome Error (option Response)) * PublicClient :=
  match steps with
  | [] => ([], pc)
  | (cd, op) :: steps =>
      let '(r, pc) := run_operation cd op pc in
      let '(rs, pc) := session steps pc in
      (r :: rs, pc)
  end.

(** Arguments as the types of the library give them. *)
Definition operation_ok (op : operation) : Prop :=
  match op with
  | SendRequest ops => Forall op_ok ops
  | ReportLatency tracker observed => tracker_ok tracker /\ duration_ok observed
  end.

(** The results an operation may have. *)
Definition safe_result (r : outcome Error (option Response)) : Prop :=
  match r with
  | Ok (Some resp) => grant_iff resp
  | Ok None => True
  | Err (InvalidConfiguration ce) =>
      match ce with
      | InvalidMetricsLabel | InvalidTokenQuantity | ResourceWindowExceedsApiKey
      | TooManyRequestEntries _ | InvalidDuration _ => True
      | _ => False
      end
  | Err (InvalidApiKey _) | Err Authentication | Panic => False
  | Err _ => True
  end.

End Sessions.

Section Sessions_spec.
Context `{PrimitivesLaws} `{IpTextLaws}.

Lemma with_arrivals_ready arrivals pc :
  client_ready pc -> arrivals_ok arrivals -> client_ready (with_arrivals arrivals pc).
Proof. intros (Hc & (Hd & Hs & _) & Hrest) Ha. by split; [|split; [split|]]. Qed.

(** The conditions of a call name only the errors of building a request. *)
Lemma fails_at_errors limits ops ce :
  fails_at limits ops ce -> safe_result (Err (InvalidConfiguration ce)).
Proof.
  intros (before & op & after & b & _ & _ & Hf).
  destruct (List.find _ _) as [[ok e]|] eqn:Hfind; [|done]. injection Hf as ->.
  apply List.find_some in Hfind as [Hin _].
  destruct op; cbn in Hin; naive_solver.
Qed.

Lemma grant_iff_local : grant_iff (mkResponse Granted [] [] None).
Proof. by split; [split; [split|]|]. Qed.

Lemma run_operation_spec cd op pc :
  conditions_ok cd -> operation_ok op -> client_ready pc ->
  let run := run_operation cd op pc in
  client_ready run.2 /\ pc_config run.2 = pc_config pc /\ safe_result run.1.
Proof.
  intros (Henv & Hdns & Ha & Hid & Hnow & Hnonce) Hop Hpc. cbv zeta. unfold run_operation.
  pose proof (with_arrivals_ready _ pc Hpc Ha) as Hpc1.
  change (pc_config pc) with (pc_config (with_arrivals (cd_arrivals cd) pc)).
  set (pc1 := with_arrivals (cd_arrivals cd) pc) in *. clearbody pc1.
  destruct op as [ops|tracker observed].
  - pose proof (build_request_spec (pc_limits pc1) ops Hop) as Hb.
    destruct (build_request (pc_limits pc1) ops request) as [b|e|]; [| |done].
    + destruct Hb as [Hb _].
      destruct (send_stages (cd_env cd) Henv (cd_dns cd) Hdns (cd_bind cd) (cd_request_id cd) (cd_now_millis cd)
        (cd_nonce cd) Hid Hnow Hnonce pc1 b Hpc1 Hb) as (r & pc' & E & Hpc' & Hcfg & _ & Hr).
      rewrite E. split; [done|]. split; [done|]. destruct r as [resp|[]|]; try done.
      destruct Hr as [(_ & _ & -> & _)|(_ & _ & _ & _ & _ & _ & Hg & _)]; [exact grant_iff_local | done].
    + destruct Hb as (ce & -> & Hf). split; [done|]. split; [done|]. by eapply fails_at_errors.
  - destruct Hop as [Ht Hd].
    destruct (public_report_stages (cd_env cd) Henv (cd_dns cd) Hdns (cd_request_id cd) (cd_now_millis cd)
      (cd_nonce cd) Hid Hnow Hnonce pc1 tracker observed Hpc1 Ht Hd) as (r & pc' & E & Hpc' & Hcfg & _ & Hr).
    rewrite E. split; [done|]. split; [done|]. destruct r as [u|[e|[]| | | | |]|]; try done.
Qed.

Lemma session_spec steps pc :
  Forall (fun s => conditions_ok s.1 /\ operation_ok s.2) steps -> client_ready pc ->
  client_ready (session steps pc).2 /\ pc_config (session steps pc).2 = pc_config pc /\
  length (session steps pc).1 = length steps /\ Forall safe_result (session steps pc).1.
Proof.
  intros Hsteps. revert pc. induction Hsteps as [|[cd op] steps [Hcd Hop] _ IH]; intros pc Hpc; cbn [session].
  { by split_and!. }
  destruct (run_operation_spec cd op pc Hcd Hop Hpc) as (Hpc1 & Hcfg1 & Hr).
  destruct (run_operation cd op pc) as [r pc1]. destruct (IH pc1 Hpc1) as (Hpc2 & Hcfg2 & Hlen & Hrs).
  destruct (session steps pc1) as [rs pc2]. cbn [fst snd length] in *. split_and!; try done.
  - congruence.
  - by rewrite Hlen.
  - by constructor.
Qed.

End Sessions_spec.

(** ** Theorems *)

(** A client built from any API key, policy and domain that the library accepts
    serves any sequence of requests and reports, under any resolver answers, network,
    schedule, incoming datagrams and socket failures: every operation returns, none
    panics, an authentication failure or an inconsistent configuration is never
    reported, every response is a grant exactly when its parts say so, and the client
    stays usable with its configuration unchanged. *)
Theorem session_safe `{PrimitivesLaws} `{IpTextLaws} os b pc steps
    (Hb : builder_ok b) (Hbuild : client_build os b = Ok pc)
    (Hsteps : Forall (fun s => conditions_ok s.1 /\ operation_ok s.2) steps) :
  let run := session steps pc in
  client_ready run.2 /\ pc_config run.2 = pc_config pc /\
  length run.1 = length steps /\ Forall safe_result run.1.
Proof.
  pose proof (client_build_result os b Hb) as Hr. rewrite Hbuild in Hr. destruct Hr as [Hpc _].
  by apply session_spec.
Qed.

(** ** A session of the demo client *)

Definition demo_conditions : Conditions :=
  mkConditions demo_env demo_servers demo_os_bind
    [(5000000, mkResponsePacket demo_response demo_addr)] demo_id 5 demo_nonce.

Lemma demo_conditions_ok : conditions_ok demo_conditions.
Proof.
  split; [exact demo_env_ok|]. split; [exact demo_servers_ok|]. split; [exact demo_inbox_ok|].
  split; [apply (replicate_array 16 3); unfold is_byte; lia|].
  split; [split; vm_compute; discriminate|]. apply (replicate_array 12 9). unfold is_byte. lia.
Qed.

Definition demo_session : list (Conditions * operation) :=
  [(demo_conditions, SendRequest demo_ops);
   (demo_conditions, ReportLatency demo_tracker (mkDuration 0 12000000));
   (demo_conditions, SendRequest [Consume (mkResource demo_name 2000 1 []) 0]);
   (demo_conditions, SendRequest [])].

Lemma session_safe_witness :
  exists pc, client_build demo_platform (client_builder demo_api_key) = Ok pc /\
    Forall safe_result (@session toy_primitives toy_ip_text (take 2 demo_session) pc).1 /\
    (@session toy_primitives toy_ip_text demo_session pc).1 =
      [Ok (Some (response_of demo_result)); Ok None; Err (InvalidConfiguration InvalidTokenQuantity);
       Ok (Some (mkResponse Granted [] [] None))].
Proof.
  eexists. split; [reflexivity|]. split; [|vm_compute; reflexivity].
  refine (proj2 (proj2 (proj2 (@session_safe toy_primitives toy_primitives_laws toy_ip_text toy_ip_laws
    demo_platform (client_builder demo_api_key) _ (take 2 demo_session)
    (client_builder_ok demo_api_key demo_api_key_ok) eq_refl _)))).
  constructor; [split; [exact demo_conditions_ok | exact demo_ops_ok]|].
  constructor; [split; [exact demo_conditions_ok|]|constructor].
  split; [exact demo_tracker_ok | repeat split; vm_compute; discriminate].
Defined.
