(* ===== verification/Construction.v ===== *)
(** * Sockets and resolver of a new client (src/src/client.rs)

    What [CoreClient::new] and the port search ask of the operating system and of the
    DNS library: the calls that make one UDP socket, and the configuration a resolver
    is built from.  Both answer as they like; the answers of the system are an oracle
    over the calls made so far, the DNS library is the class [Hickory].  [platform]
    puts them under [PublicClient], whose clients are built on any [Platform]. *)

From S2P Require Import Prelude Errors Codec ApiKey Policy Net Sockets Discovery Config Wire Request.
From S2P Require Import World Steering Client PublicClient.

(** ** One socket *)

(** The calls on a socket under construction. *)
Inductive os_call : Type :=
| NewSocket (ipv6 : bool)          (** [Socket::new(domain, DGRAM, UDP)] *)
| SetExclusive                     (** [setsockopt(SO_EXCLUSIVEADDRUSE)], on Windows *)
| SetOnlyV6                        (** [set_only_v6(true)] *)
| BindTo (address : SocketAddr)    (** [bind] *)
| SetNonblocking                   (** [set_nonblocking(true)] *)
| FromStd.                         (** [UdpSocket::from_std] *)

#[export] Instance os_call_eq_dec : EqDecision os_call.
Proof. solve_decision. Defined.

(** A computation that calls the operating system and stops at the first error; the
    calls made are kept, in order. *)
Definition os (A : Type) : Type := list os_call -> (io_error + A) * list os_call.

#[export] Instance os_bind_instance : MBind os := fun A B f m log =>
  match m log with
  | (inr a, log) => f a log
  | (inl e, log) => (inl e, log)
  end.

Definition os_ret {A} (a : A) : os A := fun log => (inr a, log).

Section Socket.
(** [windows]: the target of the build; [refuses]: the error of a call after others. *)
Context (windows : bool) (refuses : list os_call -> os_call -> option io_error).

Definition perform (c : os_call) : os unit := fun log =>
  (match refuses log c with Some e => inl e | None => inr tt end, log ++ [c]).

(** The wildcard address of a family. *)
Definition unspecified (ipv6 : bool) (port : Z) : SocketAddr :=
  mkSocketAddr (if ipv6 then V6 0 else V4 0) port.

(** [bind_udp_socket_for_family]; the socket is what its calls made of it. *)
Definition bind_udp_socket_for_family (port : Z) (ipv6 : bool) : os unit :=
  let address := unspecified ipv6 port in
  _ ← perform (NewSocket ipv6);
  _ ← (if windows then perform SetExclusive else os_ret tt);
  _ ← (if ipv6 then perform SetOnlyV6 else os_ret tt);
  _ ← perform (BindTo address);
  _ ← perform SetNonblocking;
  perform FromStd.

(** The calls of a socket that is made. *)
Definition setup (port : Z) (ipv6 : bool) : list os_call :=
  [NewSocket ipv6] ++ (if windows then [SetExclusive] else []) ++ (if ipv6 then [SetOnlyV6] else []) ++
  [BindTo (unspecified ipv6 port); SetNonblocking; FromStd].

(** Calls one after the other, until one is refused. *)
Fixpoint perform_all (cs : list os_call) : os unit :=
  match cs with
  | [] => os_ret tt
  | c :: cs => _ ← perform c; perform_all cs
  end.

Lemma bind_udp_setup port ipv6 log :
  bind_udp_socket_for_family port ipv6 log = perform_all (setup port ipv6) log.
Proof.
  unfold bind_udp_socket_for_family, setup, mbind, os_bind_instance, perform, os_ret.
  destruct windows, ipv6; cbn [app perform_all]; unfold mbind, os_bind_instance, perform, os_ret;
    repeat (destruct (refuses _ _); [done|]); done.
Qed.

(** The calls [done] were allowed, in this order, after [log]. *)
Fixpoint allowed (log done : list os_call) : Prop :=
  match done with
  | [] => True
  | c :: done => refuses log c = None /\ allowed (log ++ [c]) done
  end.

Lemma perform_all_spec cs log :
  (perform_all cs log = (inr tt, log ++ cs) /\ allowed log cs) \/
  exists made c rest e, cs = made ++ c :: rest /\ allowed log made /\ refuses (log ++ made) c = Some e /\
    perform_all cs log = (inl e, log ++ made ++ [c]).
Proof.
  revert log. induction cs as [|c cs IH]; intros log; cbn [perform_all allowed].
  { left. by rewrite app_nil_r. }
  unfold mbind, os_bind_instance, perform. destruct (refuses log c) as [e|] eqn:Hc.
  - right. exists [], c, cs, e. by rewrite app_nil_r.
  - destruct (IH (log ++ [c])) as [[-> Ha]|(made & d & rest & e & -> & Ha & Hd & ->)].
    + left. by rewrite <- app_assoc.
    + right. exists (c :: made), d, rest, e. rewrite <- !app_assoc in *. by split_and!.
Qed.

End Socket.

(** ** The sockets of both families *)

(** The operating system under [FamilySockets::bind]: its refusals and the local port
    of a finished socket, for each attempt and family. *)
Record SocketApi := mkSocketApi {
  sa_windows : bool;
  sa_refuses : nat -> bool -> list os_call -> os_call -> option io_error;
  sa_local_port : nat -> bool -> list os_call -> Z;
}.

(** [os_bind] of [Sockets], made of these calls. *)
Definition socket_bind (api : SocketApi) (attempt : nat) (port : Z) (ipv6 : bool) : io_error + Z :=
  match bind_udp_socket_for_family (sa_windows api) (sa_refuses api attempt ipv6) port ipv6 [] with
  | (inr _, log) => inr (sa_local_port api attempt ipv6 log)
  | (inl e, _) => inl e
  end.

(** The socket of a family was made by its whole setup. *)
Definition made (api : SocketApi) (attempt : nat) (port : Z) (ipv6 : bool) (local : Z) : Prop :=
  let calls := setup (sa_windows api) port ipv6 in
  allowed (sa_refuses api attempt ipv6) [] calls /\ local = sa_local_port api attempt ipv6 calls.

(** The setup of a family was refused with [e]. *)
Definition refused (api : SocketApi) (attempt : nat) (port : Z) (ipv6 : bool) (e : io_error) : Prop :=
  exists done c rest, setup (sa_windows api) port ipv6 = done ++ c :: rest /\
    allowed (sa_refuses api attempt ipv6) [] done /\ sa_refuses api attempt ipv6 done c = Some e.

Lemma socket_bind_cases api attempt port ipv6 :
  (exists p, socket_bind api attempt port ipv6 = inr p /\ made api attempt port ipv6 p) \/
  (exists e, socket_bind api attempt port ipv6 = inl e /\ refused api attempt port ipv6 e).
Proof.
  unfold socket_bind. rewrite bind_udp_setup.
  destruct (perform_all_spec (sa_refuses api attempt ipv6) (setup (sa_windows api) port ipv6) [])
    as [[-> Ha]|(d & c & rest & e & Hs & Ha & Hc & ->)].
  - left. eexists. by split.
  - right. exists e. split; [done|]. by exists d, c, rest.
Qed.

(** An IPv6 socket is restricted to IPv6 before it is bound, and on Windows every
    socket is exclusive before it is bound. *)
Definition prepared (windows ipv6 : bool) (calls : list os_call) : Prop :=
  exists before address after, calls = before ++ BindTo address :: after /\
    is_ipv6 address = ipv6 /\ (ipv6 = true <-> SetOnlyV6 ∈ before) /\ (windows = true <-> SetExclusive ∈ before) /\
    SetNonblocking ∈ after.

Lemma setup_prepared windows port ipv6 : prepared windows ipv6 (setup windows port ipv6).
Proof.
  exists ([NewSocket ipv6] ++ (if windows then [SetExclusive] else []) ++ (if ipv6 then [SetOnlyV6] else [])),
    (unspecified ipv6 port), [SetNonblocking; FromStd].
  split; [by unfold setup; rewrite <- !app_assoc|].
  destruct windows, ipv6; cbn; split_and!; set_solver.
Qed.

(** What [FamilySockets::bind] returns, in terms of the calls. *)
Lemma family_bind_calls api attempt port :
  match bind (socket_bind api) attempt port with
  | Ok s => sockets_ok s /\
      (forall ipv6, match (if ipv6 : bool then fs_v6 s else fs_v4 s) with
                    | Some p => made api attempt port ipv6 p
                    | None => exists e, refused api attempt port ipv6 e /\ e <> AddrInUse
                    end)
  | Err e => exists io, e = CoreIo io /\
      ((io = AddrInUse /\ exists ipv6, refused api attempt port ipv6 AddrInUse) \/
       (io <> AddrInUse /\ refused api attempt port false io /\
        exists e6, refused api attempt port true e6 /\ e6 <> AddrInUse))
  | Panic => False
  end.
Proof.
  unfold bind.
  destruct (socket_bind_cases api attempt port false) as [(p4 & -> & H4)|(e4 & -> & H4)],
    (socket_bind_cases api attempt port true) as [(p6 & -> & H6)|(e6 & -> & H6)]; cbn [existsb].
  - rewrite !bool_decide_false by done. cbn. split; [by left|]. by intros [].
  - rewrite (bool_decide_false (inr p4 = _)) by done. destruct (decide (e6 = AddrInUse)) as [->|He6].
    + cbn. eexists. split; [done|]. left. by split; [|exists true].
    + rewrite bool_decide_false by congruence. cbn. split; [by left|]. intros []; [by exists e6 | done].
  - rewrite (bool_decide_false (inr p6 = _)) by done. destruct (decide (e4 = AddrInUse)) as [->|He4].
    + cbn. eexists. split; [done|]. left. by split; [|exists false].
    + rewrite bool_decide_false by congruence. cbn. split; [by right|]. intros []; [done | by exists e4].
  - destruct (decide (e4 = AddrInUse)) as [->|He4]; [|destruct (decide (e6 = AddrInUse)) as [->|He6]].
    + cbn. eexists. split; [done|]. left. by split; [|exists false].
    + rewrite (bool_decide_false (inl e4 = _)) by congruence. cbn. eexists. split; [done|]. left.
      by split; [|exists true].
    + rewrite !bool_decide_false by congruence. cbn. exists e4. split; [done|]. right. split_and!; try done.
      by exists e6.
Qed.

(** ** The resolver *)

(** The part of the DNS library that [build_resolver] uses. *)
Class Hickory := {
  ConnectionConfig : Type;
  NameServerConfig : Type;
  ResolverConfig : Type;
  ResolverBuilder : Type;
  TokioResolver : Type;
  NetError : Type;
  conn_set_port : Z -> ConnectionConfig -> ConnectionConfig;    (** [connection.port = port] *)
  conn_port : ConnectionConfig -> Z;
  udp_and_tcp : IpAddr -> NameServerConfig;
  ns_ip : NameServerConfig -> IpAddr;
  connections : NameServerConfig -> list ConnectionConfig;
  set_connections : list ConnectionConfig -> NameServerConfig -> NameServerConfig;
  from_parts : option str -> list str -> list NameServerConfig -> ResolverConfig;
  name_servers : ResolverConfig -> list NameServerConfig;
  builder_with_config : ResolverConfig -> ResolverBuilder;
  builder_tokio : NetError + ResolverBuilder;
  build : ResolverBuilder -> NetError + TokioResolver;
  error_to_string : NetError -> str;
}.

(** Its fields are fields, and its constructors keep what they are given. *)
Class HickoryLaws `{Hickory} := {
  port_set : forall p c, conn_port (conn_set_port p c) = p;
  connections_set : forall cs ns, connections (set_connections cs ns) = cs;
  ip_set : forall cs ns, ns_ip (set_connections cs ns) = ns_ip ns;
  ip_udp_and_tcp : forall ip, ns_ip (udp_and_tcp ip) = ip;
  name_servers_from_parts : forall d s ns, name_servers (from_parts d s ns) = ns;
}.

Section ResolverSetup.
Context `{Hickory}.

(** The name server of an explicit address. *)
Definition explicit_server (address : SocketAddr) : NameServerConfig :=
  let name_server := udp_and_tcp (addr_ip address) in
  set_connections (map (conn_set_port (addr_port address)) (connections name_server)) name_server.

Definition dns_result {A} (r : NetError + A) : outcome CoreError A :=
  match r with
  | inl error => Err (CoreDns (error_to_string error))
  | inr resolver => Ok resolver
  end.

(** [build_resolver]. *)
Definition build_resolver (dns_server : option SocketAddr) : outcome CoreError TokioResolver :=
  match dns_server with
  | Some address => dns_result (build (builder_with_config (from_parts None [] [explicit_server address])))
  | None =>
      dns_result (match builder_tokio with inl error => inl error | inr builder => build builder end)
  end.

(** The resolver that was asked for, in terms of what the library was given: with an
    explicit address, one name server, at that address, on every connection of the
    library's UDP and TCP server for it moved to that port; otherwise the system's
    configuration. *)
Definition asked_resolver (dns_server : option SocketAddr) (resolver : TokioResolver) : Prop :=
  match dns_server with
  | Some address =>
      exists config server,
        build (builder_with_config config) = inr resolver /\ name_servers config = [server] /\
        ns_ip server = addr_ip address /\
        connections server = map (conn_set_port (addr_port address)) (connections (udp_and_tcp (addr_ip address))) /\
        Forall (fun c => conn_port c = addr_port address) (connections server)
  | None => exists builder, builder_tokio = inr builder /\ build builder = inr resolver
  end.

Lemma build_resolver_asked `{!HickoryLaws} dns_server resolver :
  build_resolver dns_server = Ok resolver -> asked_resolver dns_server resolver.
Proof.
  unfold build_resolver, dns_result, asked_resolver. destruct dns_server as [address|].
  - destruct (build _) as [|r] eqn:Hb; [done|]. intros [= <-].
    exists (from_parts None [] [explicit_server address]), (explicit_server address).
    split; [done|]. split; [apply name_servers_from_parts|]. unfold explicit_server.
    rewrite ip_set, ip_udp_and_tcp, connections_set. split_and!; [done | done |].
    apply Forall_map, Forall_forall. intros c _. apply port_set.
  - destruct builder_tokio as [|builder]; [done|]. destruct (build builder) as [|r] eqn:Hb; [done|].
    intros [= <-]. by exists builder.
Qed.

(** The platform of a client on this system and library. *)
Definition platform (api : SocketApi) (now now' : Z) (checked_sub : Z -> Z -> option Z) : Platform :=
  mkPlatform (socket_bind api)
    (fun dns_server => match build_resolver dns_server with
                       | Err (CoreDns e) => Some e
                       | _ => None
                       end)
    now now' checked_sub.

Lemma build_resolver_errors dns_server :
  match build_resolver dns_server with
  | Err (CoreDns _) | Ok _ => True
  | _ => False
  end.
Proof.
  unfold build_resolver, dns_result. destruct dns_server as [a|]; [by destruct (build _)|].
  destruct builder_tokio; [done | by destruct (build _)].
Qed.

End ResolverSetup.

(** ** Theorems *)

(** C22. One socket of one family is made by a fixed sequence of system calls, stopped at the
    first that is refused: if the socket is made, all were allowed, in this order -
    so an IPv6 socket was restricted to IPv6, and on Windows a socket was made
    exclusive, before it was bound - and otherwise the error is that of the refused
    call, and no later call is made. *)
Theorem bind_udp_socket_for_family_spec windows refuses port ipv6 :
  let '(r, calls) := bind_udp_socket_for_family windows refuses port ipv6 [] in
  prepared windows ipv6 (setup windows port ipv6) /\
  match r with
  | inr _ => calls = setup windows port ipv6 /\ allowed refuses [] calls
  | inl e => exists before c rest, setup windows port ipv6 = before ++ c :: rest /\
      calls = before ++ [c] /\ allowed refuses [] before /\ refuses before c = Some e
  end.
Proof.
  rewrite bind_udp_setup.
  destruct (perform_all_spec refuses (setup windows port ipv6) []) as [[-> Ha]|(d & c & rest & e & Hs & Ha & Hc & ->)];
    (split; [apply setup_prepared|]); [done|]. exists d, c, rest. by split_and!.
Qed.

(** C23. A client built on this system and library has only sockets that were made by
    their whole setup, each on a port of the system's own choice, the same for both
    families only if the system chooses it twice; a family is missing only if its
    setup was refused for another reason than a port in use.  Its resolver is the one
    the configuration asks for: with an explicit DNS server the library built it from
    a configuration whose only name server is that address, with its port on every
    connection, and without one it built it from the system's configuration. *)
Theorem built_sockets_and_resolver `{HickoryLaws} api now now' checked_sub b pc
    (Hbuild : client_build (platform api now now' checked_sub) b = Ok pc) :
  let s := sockets (cl_world (pc_inner pc)) in
  sockets_ok s /\
  (forall ipv6, match (if ipv6 : bool then fs_v6 s else fs_v4 s) with
                | Some p => made api 0 0 ipv6 p
                | None => exists e, refused api 0 0 ipv6 e /\ e <> AddrInUse
                end) /\
  exists resolver, build_resolver (cb_dns_server b) = Ok resolver /\ asked_resolver (cb_dns_server b) resolver.
Proof.
  cbv zeta. pose proof (build_resolver_errors (cb_dns_server b)) as Hres.
  unfold client_build, core_client_new in Hbuild. cbn [dns_server platform pf_bind pf_resolver] in Hbuild.
  destruct (map_err error_from_configuration _) as [h|e|]; cbn [mbind outcome_bind] in Hbuild; [|done..].
  pose proof (family_bind_calls api 0 0) as Hb.
  destruct (bind (socket_bind api) 0 0) as [s|e|]; cbn [mbind outcome_bind] in Hbuild; [|done..].
  destruct (build_resolver (cb_dns_server b)) as [resolver|[]|] eqn:Hr; try done; cbn [mbind outcome_bind] in Hbuild.
  destruct (map_err config_error _) as [d|e|]; cbn [mbind outcome_bind map_err] in Hbuild; [|done..].
  injection Hbuild as <-. cbn [pc_inner cl_world sockets]. split; [apply Hb|]. split; [apply Hb|].
  exists resolver. split; [done|]. by apply build_resolver_asked.
Qed.

(** ** A concrete system and library *)

(** Every call is allowed, but the host has no IPv6. *)
Definition demo_socket_api : SocketApi :=
  mkSocketApi true (fun _ _ _ c => if decide (c = NewSocket true) then Some (OtherKind 97) else None)
    (fun _ _ _ => 50000).

(** A library whose values are their descriptions. *)
#[local] Instance toy_hickory : Hickory := {|
  ConnectionConfig := Z;
  NameServerConfig := (IpAddr * list Z)%type;
  ResolverConfig := list (IpAddr * list Z);
  ResolverBuilder := list (IpAddr * list Z);
  TokioResolver := list (IpAddr * list Z);
  NetError := unit;
  conn_set_port p _ := p;
  conn_port c := c;
  udp_and_tcp ip := (ip, [53; 53]);
  ns_ip ns := ns.1;
  connections ns := ns.2;
  set_connections cs ns := (ns.1, cs);
  from_parts _ _ ns := ns;
  name_servers c := c;
  builder_with_config c := c;
  builder_tokio := inr [];
  build b := inr b;
  error_to_string _ := [];
|}.

#[local] Instance toy_hickory_laws : HickoryLaws.
Proof. by split. Qed.

Definition demo_dns_address : SocketAddr := mkSocketAddr (V4 2130706433) 5353.
Definition demo_dns_builder : ClientBuilder := with_dns_server demo_dns_address (client_builder demo_api_key).

Lemma built_sockets_and_resolver_witness :
  exists pc, client_build (platform demo_socket_api 0 0 (fun t s => Some (t - s * 1000000000))) demo_dns_builder = Ok pc /\
    sockets_ok (sockets (cl_world (pc_inner pc))) /\
    asked_resolver (Some demo_dns_address) [(V4 2130706433, [5353; 5353])].
Proof.
  destruct (client_build (platform demo_socket_api 0 0 (fun t s => Some (t - s * 1000000000))) demo_dns_builder)
    as [pc|e|] eqn:E; [|vm_compute in E; discriminate..].
  exists pc. split; [reflexivity|].
  destruct (built_sockets_and_resolver demo_socket_api 0 0 (fun t s => Some (t - s * 1000000000))
    demo_dns_builder pc E) as (Hs & _ & resolver & Hr & Hasked).
  split; [exact Hs|]. injection Hr as <-. exact Hasked.
Defined.
