(* ===== verification/Exchange.v ===== *)
(** * Requests and the response router together (src/src/client.rs)

    [Client] follows one request through the packets of its channel; [Router] says
    what the channels hold.  Here both run over one history of the router: concurrent
    requests, each registered for a part of the history, take their answers from the
    datagrams that arrive meanwhile and name them. *)

From stdpp Require Import sorting.
From S2P Require Import Prelude Errors Codec ApiKey Policy Net Sockets Discovery Config Wire Auth Request Response.
From S2P Require Import Age World Selection Timely Router Steering Client Model PublicClient Session.

(** ** The history of the router *)

(** What happens to the [InflightMap], and when. *)
Definition trace : Type := list (Z * router_event).

(** What [recv_from] leaves of a datagram in the buffer of the router. *)
Definition cut (traffic_stats : bool) (payload : list Z) : list Z :=
  take (Z.to_nat (recv_buf traffic_stats)) payload.

(** The packet that an event sends into the channel of [request_id]. *)
Definition arrival_for (traffic_stats : bool) (request_id : list Z) (x : Z * router_event)
  : option (Z * ResponsePacket) :=
  match x.2 with
  | Datagram payload addr =>
      let data := cut traffic_stats payload in
      if names data request_id then Some (x.1, mkResponsePacket data addr) else None
  | _ => None
  end.

Definition inbox_of (traffic_stats : bool) (request_id : list Z) (tr : trace) : list (Z * ResponsePacket) :=
  omap (arrival_for traffic_stats request_id) tr.

Lemma inbox_of_packets ts rid tr : map snd (inbox_of ts rid tr) = packets_for ts rid (map snd tr).
Proof.
  induction tr as [|[t [id|id|payload addr|error]] tr IH]; cbn; try done.
  unfold arrival_for. cbn [fst snd]. fold (cut ts payload). destruct (names (cut ts payload) rid); cbn; [|done].
  f_equal. exact IH.
Qed.

(** Datagrams are bytes, of the size the model admits. *)
Definition event_ok (e : router_event) : Prop :=
  match e with
  | Datagram payload _ => bytes_ok payload /\ zlen payload <= datagram_max
  | _ => True
  end.
Definition trace_ok (tr : trace) : Prop :=
  Forall (fun x => event_ok x.2) tr /\ StronglySorted (fun x y => x.1 <= y.1) tr.

Lemma cut_ok ts payload :
  bytes_ok payload -> zlen payload <= datagram_max -> bytes_ok (cut ts payload) /\ zlen (cut ts payload) <= datagram_max.
Proof.
  intros Hb Hl. unfold cut. split; [by apply Forall_take|].
  unfold zlen in *. rewrite length_take. lia.
Qed.

Lemma inbox_of_elem ts rid tr a p :
  (a, p) ∈ inbox_of ts rid tr <->
  exists payload addr, (a, Datagram payload addr) ∈ tr /\ peek_request_id (cut ts payload) = Ok rid /\
    p = mkResponsePacket (cut ts payload) addr.
Proof.
  unfold inbox_of. rewrite list_elem_of_omap. unfold arrival_for, names. split.
  - intros ([t [id|id|payload addr|error]] & Hin & Hx); try done. cbn [fst snd] in Hx.
    destruct (bool_decide _) eqn:Hn; [|done]. reflect_bools. injection Hx as -> <-. by exists payload, addr.
  - intros (payload & addr & Hin & Hn & ->). eexists. split; [exact Hin|]. cbn [fst snd].
    by rewrite bool_decide_true.
Qed.

Lemma inbox_of_ok ts rid tr : Forall (fun x => event_ok x.2) tr -> arrivals_ok (inbox_of ts rid tr).
Proof.
  intros Htr. apply Forall_forall. intros [a p] Hin. apply inbox_of_elem in Hin as (payload & addr & Hin & _ & ->).
  rewrite Forall_forall in Htr. destruct (Htr _ Hin) as [Hb Hl]. by apply cut_ok.
Qed.

(** Packets are queued in the order of their arrival. *)
Lemma inbox_of_order ts rid tr :
  StronglySorted (fun x y => x.1 <= y.1) tr -> in_order (inbox_of ts rid tr).
Proof.
  induction 1 as [|x tr Hs IH Hall]; [constructor|]. unfold inbox_of. cbn [omap list_omap].
  assert (Htime : forall y, arrival_for ts rid x = Some y -> y.1 = x.1).
  { intros y. unfold arrival_for. destruct x as [t [id|id|payload addr|error]]; cbn; try done.
    destruct (names _ _); [|done]. by intros [= <-]. }
  destruct (arrival_for ts rid x) as [y|]; [|exact IH]. constructor; [exact IH|].
  apply Forall_forall. intros [a p] Hin. apply inbox_of_elem in Hin as (payload & addr & Hin & _).
  rewrite Forall_forall in Hall. rewrite (Htime y eq_refl). by apply (Hall _ Hin).
Qed.

(** ** Exchanges *)

(** A request in the history: what it is called with, and where its registration and
    its end are ([length] of the history while it is still registered). *)
Record Exchange := mkExchange {
  ex_env : Env;
  ex_dns : Resolver;
  ex_bind : nat -> Z -> bool -> io_error + Z;
  ex_request_id : list Z;
  ex_now_millis : Z;
  ex_nonce : list Z;
  ex_builder : RequestBuilder;
  ex_client : PublicClient;
  ex_start : nat;
  ex_end : nat;
}.

(** The events between registration and end. *)
Definition window (tr : trace) (x : Exchange) : trace :=
  take (ex_end x - S (ex_start x)) (drop (S (ex_start x)) tr).

(** The registration is in the history, the identifier is in use once, and what the
    caller passes has the types of the library. *)
Record exchange_ok `{IpTextLaws} (tr : trace) (x : Exchange) : Prop := {
  ex_registered : snd <$> tr !! ex_start x = Some (Register (ex_request_id x));
  ex_undisturbed : undisturbed (ex_request_id x) (map snd (window tr x));
  ex_ends : (ex_start x < ex_end x <= length tr)%nat;
  ex_env_ok : env_ok (ex_env x);
  ex_dns_ok : resolver_ok (ex_dns x);
  ex_id_ok : array_ok 16 (ex_request_id x);
  ex_now_ok : in_u64 (ex_now_millis x);
  ex_nonce_ok : array_ok 12 (ex_nonce x);
  ex_client_ok : client_ready (ex_client x);
  ex_builder_ok : rb_ok (pc_limits (ex_client x)) (ex_builder x);
}.

(** The request, reading the channel of its registration. *)
Definition exchange `{Primitives} `{IpText} (ts : bool) (tr : trace) (x : Exchange)
  : outcome Error Response * PublicClient :=
  send (ex_env x) (ex_dns x) (ex_bind x) (ex_request_id x) (ex_now_millis x) (ex_nonce x) (ex_builder x)
    (with_arrivals (inbox_of ts (ex_request_id x) (window tr x)) (ex_client x)).

Definition ex_auth (x : Exchange) : AuthMethod := cfg_auth_method (Config.api_key (pc_config (ex_client x))).

(** Event [k] of the history is a datagram that reaches the request and carries [r]. *)
Definition carries `{Primitives} (ts : bool) (tr : trace) (x : Exchange) (k : nat) (t : Z) (r : RateLimitResult)
  : Prop :=
  (ex_start x < k < ex_end x)%nat /\
  exists payload addr, tr !! k = Some (t, Datagram payload addr) /\
    peek_request_id (cut ts payload) = Ok (ex_request_id x) /\
    response_datagram (ex_auth x) r (cut ts payload).

Lemma window_lookup tr x k e :
  (k < ex_end x)%nat -> (ex_start x < k)%nat -> tr !! k = Some e -> e ∈ window tr x.
Proof.
  intros Hk Hs He. apply list_elem_of_lookup. exists (k - S (ex_start x))%nat. unfold window.
  rewrite lookup_take_lt by lia. rewrite lookup_drop. rewrite <- He. f_equal. lia.
Qed.

Lemma window_elem tr x e :
  e ∈ window tr x -> exists k, (ex_start x < k < ex_end x)%nat /\ tr !! k = Some e.
Proof.
  intros [i Hi]%list_elem_of_lookup. unfold window in Hi. apply lookup_take_Some in Hi as [Hi Hlt].
  rewrite lookup_drop in Hi. exists (S (ex_start x) + i)%nat. split; [lia | done].
Qed.

Lemma window_sub tr x : window tr x `sublist_of` tr.
Proof.
  unfold window. etrans; [apply sublist_take | apply sublist_drop].
Qed.

Lemma window_trace_ok tr x : trace_ok tr -> trace_ok (window tr x).
Proof.
  intros [He Hs]. split.
  - apply Forall_forall. intros e [k [_ Hk]]%window_elem. rewrite Forall_forall in He.
    by apply He, (list_elem_of_lookup_2 _ k).
  - unfold window. set (n := S (ex_start x)). rewrite <- (take_drop n tr) in Hs.
    apply StronglySorted_app_1_r in Hs.
    rewrite <- (take_drop (ex_end x - n) (drop n tr)) in Hs. by apply StronglySorted_app_1_l in Hs.
Qed.

(** The history up to the end of a request, from its registration. *)
Lemma window_split tr x :
  snd <$> tr !! ex_start x = Some (Register (ex_request_id x)) -> (ex_start x < ex_end x)%nat ->
  map snd (take (ex_end x) tr)
  = map snd (take (ex_start x) tr) ++ Register (ex_request_id x) :: map snd (window tr x).
Proof.
  intros Hr Hlt. destruct (tr !! ex_start x) as [[t e]|] eqn:He; [|done]. cbn in Hr. injection Hr as ->.
  unfold window. replace (ex_end x) with (ex_start x + S (ex_end x - S (ex_start x)))%nat at 1 by lia.
  rewrite <- take_take_drop, map_app. f_equal. rewrite (drop_S _ _ _ He). cbn [take map snd]. done.
Qed.

(** ** The request reads the channel the router fills *)

Section Exchanges.
Context `{PrimitivesLaws} `{IpTextLaws} (ts : bool).

Lemma channel_read tr x inflight :
  exchange_ok tr x ->
  exists m, router_run ts (map snd (take (ex_end x) tr)) inflight = Ok m /\
    m !! ex_request_id x = Some (map snd (inbox_of ts (ex_request_id x) (window tr x))).
Proof.
  intros [Hr Hu [Hlt _] _ _ _ _ _ _ _]. rewrite (window_split _ _ Hr Hlt), inbox_of_packets, router_run_app.
  destruct (router_run_total ts (map snd (take (ex_start x) tr)) inflight) as [m0 ->].
  cbn [mbind outcome_bind router_run router_step].
  destruct (router_run_undisturbed ts (ex_request_id x) _ (<[ex_request_id x := []]> m0) Hu) as (m & E & Hm).
  exists m. split; [done|]. by rewrite Hm, lookup_insert_eq.
Qed.

(** What the answer of an exchange is: the local grant, or the reading of a datagram. *)
Definition exchange_answer (tr : trace) (x : Exchange) (after : PublicClient) (resp : Response) : Prop :=
  (rb_resources (ex_builder x) = [] /\ rb_guards (ex_builder x) = [] /\ resp = mkResponse Granted [] [] None) \/
  exists k t r, carries ts tr x k t r /\ resp = response_of r /\
    Some (server_id r) ∈ map se_server_id (servers (cl_discovery (pc_inner after))).

Lemma exchange_ready tr x :
  trace_ok tr -> exchange_ok tr x ->
  client_ready (with_arrivals (inbox_of ts (ex_request_id x) (window tr x)) (ex_client x)).
Proof.
  intros Htr Hx. apply with_arrivals_ready; [apply Hx|]. by apply inbox_of_ok, window_trace_ok.
Qed.

Lemma exchange_answered tr x :
  trace_ok tr -> exchange_ok tr x ->
  let run := exchange ts tr x in
  client_ready run.2 /\
  match run.1 with
  | Ok resp => exchange_answer tr x run.2 resp
  | Err (InvalidApiKey _) | Err (InvalidConfiguration _) | Err Authentication | Panic => False
  | Err _ => True
  end.
Proof.
  intros Htr Hx. pose proof Hx as [_ _ _ Henv Hdns Hid Hnow Hnonce _ Hb]. cbv zeta. unfold exchange.
  destruct (send_stages (ex_env x) Henv (ex_dns x) Hdns (ex_bind x) (ex_request_id x) (ex_now_millis x)
    (ex_nonce x) Hid Hnow Hnonce _ (ex_builder x) (exchange_ready tr x Htr Hx) Hb)
    as (r & pc' & -> & Hpc' & _ & _ & Hr). cbn [fst snd]. split; [done|].
  destruct r as [resp|[]|]; try done.
  destruct Hr as [(Hre & Hge & -> & _)|(a & p & r & Hin & Hd & -> & _ & Hs & _)]; [by left | right].
  apply inbox_of_elem in Hin as (payload & addr & [k [Hk He]]%window_elem & Hn & ->).
  exists k, a, r. split; [|done]. split; [done|]. by exists payload, addr.
Qed.

End Exchanges.

(** ** The delivery inside a request *)

Section Deliveries.
Context `{PrimitivesLaws} `{IpTextLaws} (env : Env) (Henv : env_ok env) (cfg : CoreConfig)
  (Hcfg : config_ok cfg) (dns : Resolver) (Hdns : resolver_ok dns)
  (os_bind : nat -> Z -> bool -> io_error + Z) (request_id : list Z) (now_millis : Z) (nonce : list Z)
  (Hid : array_ok 16 request_id) (Hnow : in_u64 now_millis) (Hnonce : array_ok 12 nonce).

(** How the result of a delivery becomes that of the request. *)
Definition steered (res r : outcome CoreError RateLimitResult) : Prop :=
  r = res \/ (is_ok res = true /\ exists io, r = Err (CoreIo io)).

(** The result of a request that got as far as its delivery. *)
Definition was_delivered (r : outcome CoreError RateLimitResult) : Prop :=
  match r with Ok _ | Err CoreTimeout | Err (CoreIo _) => True | _ => False end.

Lemma steering_keeps_time result c :
  client_ok c ->
  exists r c', apply_steering_feedback cfg os_bind result c = (r, c') /\ r <> Panic /\
    (forall e, r = Err e -> exists io, e = CoreIo io) /\ cl_discovery c' = cl_discovery c /\
    sends (cl_world c') = sends (cl_world c) /\
    now (cl_world c') = now (cl_world c) /\ steps (cl_world c') = steps (cl_world c).
Proof.
  intros Hc. destruct (steering_spec cfg os_bind result c Hc) as (c' & _ & Hs & Hd & Hr).
  assert (Ht : now (cl_world (apply_steering_feedback cfg os_bind result c).2) = now (cl_world c) /\
               steps (cl_world (apply_steering_feedback cfg os_bind result c).2) = steps (cl_world c)).
  { unfold apply_steering_feedback. destruct (steering_advised _ _ _); [|done].
    unfold in_sockets. by destruct (rebind _ _). }
  destruct Hr as [Hr|[io Hr]]; rewrite Hr in Ht; eexists _, c'; (split; [exact Hr|]); split_and!;
    try done; try apply Ht. intros e [= <-]. by exists io.
Qed.

Lemma delivery_steered dedup packet resolved c r c' :
  client_ok c -> snapshot_ok resolved -> targets resolved <> [] ->
  (result ← in_world (deliver_and_select env cfg (request_policy cfg) dedup packet resolved);
   _ ← apply_steering_feedback cfg os_bind result;
   cret result) c = (r, c') ->
  exists res w, deliver_and_select env cfg (request_policy cfg) dedup packet resolved (cl_world c) = (res, w) /\
    cl_discovery c' = cl_discovery c /\ sends (cl_world c') = sends w /\
    now (cl_world c') = now w /\ steps (cl_world c') = steps w /\ steered res r.
Proof.
  intros Hc Hs Hne E.
  destruct (delivery_spec env Henv cfg Hcfg dns Hdns os_bind dedup packet resolved c Hc Hs Hne) as (res & c1 & _ & E1 & Hc1 & Hd1 & _ & _ & _ & Hres).
  assert (Hw : deliver_and_select env cfg (request_policy cfg) dedup packet resolved (cl_world c) = (res, cl_world c1)).
  { unfold in_world in E1. destruct (deliver_and_select _ _ _ _ _ _ _) as [res' w']. by injection E1 as <- <-. }
  exists res, (cl_world c1). split; [done|]. destruct res as [result|e|]; [| |done].
  - rewrite (cact_run _ _ _ _ _ E1) in E.
    destruct (steering_keeps_time result c1 Hc1) as (rs & c2 & Es & Hp & Hio & Hd2 & Hs2 & Hn2 & Hst2).
    rewrite Hd1 in Hd2. unfold mbind, cact_bind, cret in E. rewrite Es in E.
    destruct rs as [[]|e|]; [| |done]; injection E as <- <-; split_and!; try done; [by left | right].
    destruct (Hio e eq_refl) as [io ->]. split; [done | by exists io].
  - rewrite (cact_run_err _ _ _ _ _ E1) in E. injection E as <- <-. split_and!; try done. by left.
Qed.

(** A request that got as far as its delivery ran it on the servers known after the
    refresh it began with. *)
Lemma request_delivery resources guards label c r c' :
  client_ok c -> Forall resource_request_ok resources -> Forall guard_request_ok guards -> label_ok label ->
  resources <> [] \/ guards <> [] -> was_delivered r ->
  check_rate_limit env cfg dns os_bind request_id now_millis nonce resources guards label c = (r, c') ->
  exists c1 resolved dedup packet res w,
    refreshed env c c1 /\ current_targets dns (cl_discovery c1) = Ok resolved /\
    deliver_and_select env cfg (request_policy cfg) dedup packet resolved (cl_world c1) = (res, w) /\
    cl_discovery c' = cl_discovery c1 /\ sends (cl_world c') = sends w /\
    now (cl_world c') = now w /\ steps (cl_world c') = steps w /\ steered res r.
Proof.
  intros Hc Hrs Hgs Hl Hne Hr E. unfold check_rate_limit, effective_request_policy in E.
  assert (Hskip : forall {A} (m : outcome CoreError A) (f : A -> cact RateLimitResult) k,
    (clift m ≫= f) k = (r, c') -> (forall e, m = Err e -> ~ was_delivered (Err e)) ->
    exists a, m = Ok a /\ f a k = (r, c')).
  { intros A m f k Hm He. unfold mbind, cact_bind, clift in Hm. destruct m as [a|e|]; [by exists a | |].
    - injection Hm as <- _. by destruct (He e eq_refl).
    - by injection Hm as <- _. }
  apply Hskip in E as (_ & _ & E).
  2:{ unfold validate_rate_windows_against_quota. intros e. destruct (List.find _ _); [|done]. by intros [= <-] []. }
  destruct (bool_decide (resources = []) && bool_decide (guards = [])) eqn:Hempty; [exfalso; reflect_bools; destruct Hne; by subst|].
  apply Hskip in E as (dedup & Hh & E).
  2:{ intros e. destruct (horizon_ms _ _); try done. by intros [= <-] []. }
  destruct (maybe_refresh_spec env cfg dns Hdns c Hc) as (c1 & Href & [Hm|Hm]);
    [rewrite (cact_run _ _ _ _ _ Hm) in E | rewrite (cact_run_err _ _ _ _ _ Hm) in E; by injection E as <- _].
  pose proof Href as (Hc1 & _).
  destruct (targets_spec env Henv cfg Hcfg dns Hdns c1 Hc1) as (resolved & Ht & Hsnap & _ & _).
  rewrite (cact_run _ _ c1 resolved c1) in E by (unfold clift; by rewrite Ht).
  apply Hskip in E as ([] & Hrej & E).
  2:{ unfold reject_if. intros e. destruct (bool_decide (targets resolved = [])); [by intros [= <-] [] | done]. }
  destruct (bool_decide (targets resolved = [])) eqn:Hempty_targets; [discriminate Hrej|]. reflect_bools.
  apply Hskip in E as (packet & _ & E).
  2:{ assert (Hdu : in_u32 dedup).
      { destruct (policy_horizon_cases cfg Hcfg) as [(d & Hd & Hh')|[e Hh']]; rewrite Hh' in Hh; [|done].
        by injection Hh as <-. }
      intros e He. destruct (packet_cases cfg Hcfg request_id now_millis nonce Hid Hnow Hnonce dedup resources guards
        label Hdu Hrs Hgs Hl) as [[? Hpk]|[m Hpk]]; rewrite Hpk in He; [done|]. injection He as <-. by intros []. }
  destruct (delivery_steered dedup packet resolved c1 r c' Hc1 Hsnap Hempty_targets E) as (res & w & Hd & Hrest).
  exists c1, resolved, dedup, packet, res, w. split; [exact Href|]. split; [exact Ht|]. by split.
Qed.

End Deliveries.

(** ** Datagrams that arrive in time *)

Section Timeliness.
Context `{PrimitivesLaws} `{IpTextLaws}.

Lemma lag_from env w w1 w' : env_ok env -> (steps w <= steps w1)%nat -> lag env w1 w' <= lag env w w'.
Proof. intros He Hs. unfold lag. pose proof (delays_mono env _ _ He Hs). lia. Qed.

Lemma in_time_from env w w1 w' a len :
  env_ok env -> calm env w w1 -> in_time env w w' a len -> in_time env w1 w' a len.
Proof.
  intros He Hc. unfold in_time. pose proof (lag_from env w w1 w' He (calm_steps _ _ _ Hc)).
  pose proof (calm_now env _ _ He Hc). lia.
Qed.

(** The snapshot names exactly the servers of the discovery state. *)
Lemma snapshot_allowed dns c resolved id :
  resolver_ok dns -> client_ok c -> current_targets dns (cl_discovery c) = Ok resolved ->
  id ∈ allowed_server_ids resolved <-> Some id ∈ map se_server_id (servers (cl_discovery c)).
Proof.
  intros Hdns ((found & Hd & Hf) & _) Ht.
  destruct (current_targets_ok dns Hdns dns found _ Hf Hd) as (r & E & (_ & Ha & _)).
  rewrite Ht in E. injection E as ->. rewrite Ha, Hd, elem_of_list_to_set, map_map. cbn [se_server_id endpoint_of].
  rewrite !list_elem_of_fmap. split; intros ([i a] & Heq & Hin); exists (i, a); cbn in *; by simplify_eq.
Qed.

(** An authentic datagram of a discovered server is a valid response. *)
Lemma carries_valid ts tr x k t r allowed :
  trace_ok tr -> exchange_ok tr x -> carries ts tr x k t r -> server_id r ∈ allowed ->
  exists p, (t, p) ∈ inbox_of ts (ex_request_id x) (window tr x) /\
    valid_response (pc_config (ex_client x)) allowed p = Some r.
Proof.
  intros [Hev _] Hx [Hk (payload & addr & He & Hn & Hd)] Ha.
  exists (mkResponsePacket (cut ts payload) addr). split.
  - apply inbox_of_elem. exists payload, addr. split; [|done]. apply (window_lookup tr x k); [lia | lia | exact He].
  - pose proof (ex_client_ok _ _ Hx) as ((_ & Hm & _) & _). rewrite Forall_forall in Hev.
    destruct (Hev _ (list_elem_of_lookup_2 _ _ _ He)) as [Hb Hl]. destruct (cut_ok ts _ Hb Hl) as [Hcb Hcl].
    unfold valid_response. cbn [packet_data]. apply parse_datagram_iff in Hd; [|done..].
    unfold parse_rate_response, ex_auth in *. rewrite Hd. by rewrite (bool_decide_true (server_id r ∈ allowed)), orb_true_r.
Qed.

(** The inner client of an exchange, when it starts. *)
Definition connected (ts : bool) (tr : trace) (x : Exchange) : Client :=
  pc_inner (with_arrivals (inbox_of ts (ex_request_id x) (window tr x)) (ex_client x)).

(** Whether a result comes from a delivery. *)
Definition sent_result (r : outcome Error Response) : Prop :=
  match r with Ok _ | Err Timeout | Err (Communication _) => True | _ => False end.

Lemma exchange_delivery ts tr x :
  trace_ok tr -> exchange_ok tr x -> rb_resources (ex_builder x) <> [] \/ rb_guards (ex_builder x) <> [] ->
  let run := exchange ts tr x in
  let cfg := pc_config (ex_client x) in
  sent_result run.1 ->
  exists c1 resolved dedup packet res w r,
    refreshed (ex_env x) (connected ts tr x) c1 /\ current_targets (ex_dns x) (cl_discovery c1) = Ok resolved /\
    deliver_and_select (ex_env x) cfg (request_policy cfg) dedup packet resolved (cl_world c1) = (res, w) /\
    cl_discovery (pc_inner run.2) = cl_discovery c1 /\ now (cl_world (pc_inner run.2)) = now w /\
    steps (cl_world (pc_inner run.2)) = steps w /\ steered res r /\
    run.1 = response_of <$> map_err error_from_core r.
Proof.
  intros Htr Hx Hne. pose proof Hx as [_ _ _ Henv Hdns Hid Hnow Hnonce _ Hb].
  pose proof (exchange_ready ts tr x Htr Hx) as Hready. destruct Hb as [Hr Hg _ _ (Hl & _ & _)].
  cbv zeta. unfold exchange, send, on_inner. fold (connected ts tr x).
  change (pc_config (with_arrivals _ (ex_client x))) with (pc_config (ex_client x)).
  destruct (check_rate_limit _ _ _ _ _ _ _ _ _ _ (connected ts tr x)) as [r c'] eqn:E. cbn [fst snd pc_inner].
  intros Hsent. destruct Hready as (Hcfg & Hc & _).
  assert (Hd : was_delivered r) by (destruct r as [|[]|]; done).
  destruct (request_delivery (ex_env x) Henv _ Hcfg (ex_dns x) Hdns (ex_bind x) (ex_request_id x) (ex_now_millis x)
    (ex_nonce x) Hid Hnow Hnonce (rb_resources (ex_builder x)) (rb_guards (ex_builder x))
    (rb_metrics_label (ex_builder x)) (connected ts tr x) r c')
    as (c1 & resolved & dedup & packet & res & w & Href & Ht & Hdel & Hdisc & _ & Hn & Hst & Hres); try done.
  { eapply Forall_impl; [exact Hr | naive_solver]. }
  { eapply Forall_impl; [exact Hg | naive_solver]. }
  exists c1, resolved, dedup, packet, res, w, r. by split_and!.
Qed.

(** The worlds of a caller around an exchange. *)
Definition world_before (x : Exchange) : World := cl_world (pc_inner (ex_client x)).
Definition world_after (run : outcome Error Response * PublicClient) : World := cl_world (pc_inner run.2).

(** What a datagram in time does: [Timely], through the router. *)
Lemma exchange_timely ts tr x k t r :
  trace_ok tr -> exchange_ok tr x -> rb_resources (ex_builder x) <> [] \/ rb_guards (ex_builder x) <> [] ->
  carries ts tr x k t r ->
  let run := exchange ts tr x in
  let policy := request_policy (pc_config (ex_client x)) in
  let known := map se_server_id (servers (cl_discovery (pc_inner run.2))) in
  Some (server_id r) ∈ known -> sent_result run.1 ->
  lag (ex_env x) (world_before x) (world_after run) < millis (unit_ms policy) ->
  (in_time (ex_env x) (world_before x) (world_after run) t (horizon_spec policy) -> run.1 <> Err Timeout) /\
  ((forall id, Some id ∈ known -> server_id r <= id) ->
   in_time (ex_env x) (world_before x) (world_after run) t (unit_ms policy * round_units (replay_gap policy) 0) ->
   (exists r', run.1 = Ok (response_of r') /\ server_id r' = server_id r) \/
   exists io, run.1 = Err (Communication io)).
Proof.
  intros Htr Hx Hne Hk. cbv zeta. intros Hknown Hsent Hlag. unfold world_before, world_after in *.
  destruct (exchange_delivery ts tr x Htr Hx Hne Hsent)
    as (c1 & resolved & dedup & packet & res & w & r0 & (Hc1 & Hcalm & _) & Ht & Hdel & Hdisc & Hnow & Hst & Hres & Hrun).
  pose proof Hx as [_ _ _ Henv Hdns _ _ _ (Hcfg & _) _]. rewrite Hdisc in Hknown |- *. rewrite Hrun.
  assert (Hlag1 : lag (ex_env x) (cl_world c1) w < millis (unit_ms (request_policy (pc_config (ex_client x))))).
  { pose proof (lag_from (ex_env x) _ _ w Henv (calm_steps _ _ _ Hcalm)) as Hl. unfold lag in *.
    cbn [connected with_arrivals pc_inner cl_world steps] in Hl. rewrite Hst in Hlag. lia. }
  assert (Hin_time : forall len, in_time (ex_env x) (cl_world (pc_inner (ex_client x)))
      (cl_world (pc_inner (exchange ts tr x).2)) t len -> in_time (ex_env x) (cl_world c1) w t len).
  { intros len Hin. apply (in_time_from (ex_env x) _ _ w t len Henv Hcalm). unfold in_time, lag in *.
    cbn [connected with_arrivals pc_inner cl_world steps now]. rewrite <- Hst. exact Hin. }
  destruct (carries_valid ts tr x k t r (allowed_server_ids resolved) Htr Hx Hk) as (p & Hp & Hv).
  { by apply (snapshot_allowed (ex_dns x) c1). }
  destruct (timely_answers (ex_env x) Henv _ Hcfg (request_policy (pc_config (ex_client x))) dedup packet resolved
    (cl_world c1)) as [_ Htimely].
  { apply Hcfg. }
  { destruct (targets_spec (ex_env x) Henv _ Hcfg (ex_dns x) Hdns c1 Hc1) as (rs & Ht' & Hs & _). by replace resolved with rs by congruence. }
  { apply Hc1. }
  { rewrite (calm_inbox _ _ _ Hcalm). apply inbox_of_order. by apply window_trace_ok. }
  rewrite Hdel in Htimely. cbn [fst snd] in Htimely.
  destruct (Htimely t p r) as [Hno Hyes]; [|done..|].
  { by rewrite (calm_inbox _ _ _ Hcalm). }
  split.
  - intros Hin. specialize (Hno (Hin_time _ Hin)). destruct Hres as [-> | [_ [io ->]]]; [|done].
    by destruct res as [|[]|].
  - intros Hpref Hin. destruct Hres as [-> | [_ [io ->]]]; [|right; by exists io].
    destruct Hyes as [(r' & -> & Hid)|[io ->]]; [| |left; by exists r' | right; by exists io].
    + split; [by apply (snapshot_allowed (ex_dns x) c1)|]. intros id Hid. apply Hpref.
      by apply (snapshot_allowed (ex_dns x) c1 resolved).
    + by apply Hin_time.
Qed.

End Timeliness.

(** ** Answers that fit the buffer of the router *)



Section Fits.
Context `{PrimitivesLaws}.




End Fits.

(** ** Theorems *)

(** C3. Concurrent requests share one router and never each other's answers.  In any
    history of the router, from the registration of a request to its end the request
    reads exactly what the router puts in its channel; its result is the local grant
    of an empty request, or the reading of one datagram of the history, that arrived
    between registration and end, names the request's own identifier, is authentic
    under its key and comes from a discovered server; and no datagram is ever an
    answer to two requests with different identifiers. *)
Theorem exchanges_isolated `{PrimitivesLaws} `{IpTextLaws} ts tr x inflight
    (Htr : trace_ok tr) (Hx : exchange_ok tr x) :
  let run := exchange ts tr x in
  (exists m, router_run ts (map snd (take (ex_end x) tr)) inflight = Ok m /\
     m !! ex_request_id x = Some (map snd (inbox (cl_world (connected ts tr x))))) /\
  client_ready run.2 /\
  match run.1 with
  | Ok resp => exchange_answer ts tr x run.2 resp
  | Err (InvalidApiKey _) | Err (InvalidConfiguration _) | Err Authentication | Panic => False
  | Err _ => True
  end /\
  forall y k t t' r r', carries ts tr x k t r -> carries ts tr y k t' r' -> ex_request_id x = ex_request_id y.
Proof.
  cbv zeta. split; [by apply channel_read|].
  destruct (exchange_answered ts tr x Htr Hx) as [Hc Hr]. split; [done|]. split; [done|].
  intros y k t t' r r' [_ (p & a & E & Hn & _)] [_ (p' & a' & E' & Hn' & _)]. congruence.
Qed.

(** C4. An authentic datagram that reaches the socket in time is not lost on the way.
    If, in a history of the router, a datagram names a registered request, is
    authentic under its key and comes from a server the request knows, and the
    scheduler adds less than one time unit, then: if it arrives before the end of the
    horizon, less what the scheduler added, the request does not time out; and if it
    is the preferred server's and so arrives within the initial round, a request that
    returns a response returns one of that server. *)
Theorem timely_datagram_answers `{PrimitivesLaws} `{IpTextLaws} ts tr x k t r
    (Htr : trace_ok tr) (Hx : exchange_ok tr x)
    (Hask : rb_resources (ex_builder x) <> [] \/ rb_guards (ex_builder x) <> [])
    (Hk : carries ts tr x k t r) :
  let run := exchange ts tr x in
  let policy := request_policy (pc_config (ex_client x)) in
  let known := map se_server_id (servers (cl_discovery (pc_inner run.2))) in
  let arrives_within := in_time (ex_env x) (world_before x) (world_after run) t in
  Some (server_id r) ∈ known ->
  lag (ex_env x) (world_before x) (world_after run) < millis (unit_ms policy) ->
  (arrives_within (horizon_spec policy) -> run.1 <> Err Timeout) /\
  ((forall id, Some id ∈ known -> server_id r <= id) ->
   arrives_within (unit_ms policy * round_units (replay_gap policy) 0) ->
   forall resp, run.1 = Ok resp -> exists r', resp = response_of r' /\ server_id r' = server_id r).
Proof.
  cbv zeta. intros Hknown Hlag. split.
  - intros Hin Hto. destruct (exchange_timely ts tr x k t r Htr Hx Hask Hk Hknown) as [Hno _];
      [by rewrite Hto | done | by apply Hno].
  - intros Hpref Hin resp Hok.
    destruct (exchange_timely ts tr x k t r Htr Hx Hask Hk Hknown) as [_ Hyes]; [by rewrite Hok | done |].
    destruct (Hyes Hpref Hin) as [(r' & Hr & Hid)|[io Hr]]; rewrite Hok in Hr; [|done].
    injection Hr as ->. by exists r'.
Qed.


(** ** Two concurrent requests *)

Definition other_id : list Z := replicate 16 4.

Definition demo_trace : trace :=
  [(0, Datagram [1; 2; 3] demo_addr); (0, Register demo_id); (1, Register other_id);
   (5000000, Datagram demo_response demo_addr); (6000000, Unregister other_id)].

Definition demo_exchange : Exchange :=
  mkExchange demo_env demo_servers demo_os_bind demo_id 5 demo_nonce demo_request_builder demo_ready_client 1 5.

Lemma demo_trace_ok : trace_ok demo_trace.
Proof.
  split.
  - assert (bytes_ok demo_response) by (apply bytes_ok_bool; vm_compute; reflexivity).
    unfold demo_trace. forall_list; cbn; try done; split; try done.
    apply bytes_ok_bool; vm_compute; reflexivity.
  - repeat constructor; cbn; lia.
Qed.

Lemma demo_exchange_ok : @exchange_ok toy_ip_text toy_ip_laws demo_trace demo_exchange.
Proof.
  split; try reflexivity; try exact demo_env_ok; try exact demo_servers_ok; try exact demo_ready;
    try exact demo_request_builder_ok; cbn.
  - forall_list; split; discriminate.
  - lia.
  - apply (replicate_array 16 3). unfold is_byte. lia.
  - vm_compute. split; discriminate.
  - apply (replicate_array 12 9). unfold is_byte. lia.
Qed.

Lemma demo_carries : @carries toy_primitives false demo_trace demo_exchange 3 5000000 demo_result.
Proof.
  split; [cbn; lia|]. exists demo_response, demo_addr. split; [reflexivity|]. split; [vm_compute; reflexivity|].
  apply (@parse_datagram_iff toy_primitives toy_primitives_laws).
  - apply demo_cookie_ok.
  - apply bytes_ok_bool. vm_compute. reflexivity.
  - vm_compute. discriminate.
  - vm_compute. reflexivity.
Qed.

Lemma exchanges_isolated_witness :
  (@exchange toy_primitives toy_ip_text false demo_trace demo_exchange).1 = Ok (response_of demo_result) /\
  @client_ready toy_ip_text (@exchange toy_primitives toy_ip_text false demo_trace demo_exchange).2.
Proof.
  pose proof (@exchanges_isolated toy_primitives toy_primitives_laws toy_ip_text toy_ip_laws false demo_trace
    demo_exchange ∅ demo_trace_ok demo_exchange_ok) as Hex.
  cbv zeta in Hex. split; [vm_compute; reflexivity | exact (proj1 (proj2 Hex))].
Defined.

Lemma timely_datagram_answers_witness :
  (@exchange toy_primitives toy_ip_text false demo_trace demo_exchange).1 <> Err Timeout.
Proof.
  apply (@timely_datagram_answers toy_primitives toy_primitives_laws toy_ip_text toy_ip_laws false demo_trace
    demo_exchange 3 5000000 demo_result demo_trace_ok demo_exchange_ok).
  - left. discriminate.
  - exact demo_carries.
  - vm_compute. left.
  - vm_compute. reflexivity.
  - vm_compute. reflexivity.
Defined.

