(* ===== verification/Metering.v ===== *)
(** * The traffic of requests (src/src/client.rs, src/src/traffic.rs)

    With the [traffic-stats] feature every send of a client and every datagram its
    router receives is recorded in the counters of [Traffic].  Here: which calls a
    request and a history of the router make, and so what the counters say about
    them and how much one request can send. *)

From S2P Require Import Prelude Errors Codec ApiKey Policy Net Sockets Discovery Config Wire Auth Request Response.
From S2P Require Import Model PublicClient Session Exchange Age World Selection Router Steering Client Unambiguous.
From S2P Require Import Traffic.

(** The record that [send_datagram] makes of its send. *)
Definition send_op (s : Send) : traffic_op :=
  Sent (zlen (send_packet s)) (send_target s) (send_result s).

(** The record that [response_router] makes of what [recv_from] returned: the length in
    the buffer of a build that counts. *)
Definition receive_op (e : router_event) : option traffic_op :=
  match e with
  | Datagram payload addr => Some (Received (zlen (cut true payload)) addr)
  | _ => None
  end.

(** The socket took the whole datagram. *)
Definition whole (s : Send) : bool :=
  match send_result s with inr n => n =? zlen (send_packet s) | inl _ => false end.

(** The payloads of a history. *)
Definition payloads (es : list router_event) : list (list Z) :=
  omap (fun e => match e with Datagram payload _ => Some payload | _ => None end) es.

(** ** Amounts *)

Lemma send_op_amount c s :
  op_amount c (send_op s) =
    match c with
    | SentCounter f => if whole s then datagram_amount f (zlen (send_packet s)) (send_target s) else 0
    | SendFailures => if whole s then 0 else 1
    | ReceivedCounter _ => 0
    end.
Proof.
  unfold send_op, whole. destruct c as [f|f|]; cbn [op_amount]; [|done|];
    (destruct (send_result s) as [e|n]; [by rewrite decide_False|];
     destruct (Z.eqb_spec n (zlen (send_packet s))); [subst; by rewrite decide_True | rewrite decide_False by congruence; done]).
Qed.

Lemma ops_amount_cons c op ops : ops_amount c (op :: ops) = op_amount c op + ops_amount c ops.
Proof. done. Qed.

Definition sends_amount (c : counter) (new : list Send) : Z := ops_amount c (map send_op new).

(** Sends by the counters: the whole ones and the others. *)
Lemma sends_sums new :
  sends_amount (SentCounter Datagrams) new = zlen (List.filter whole new) /\
  sends_amount (SentCounter PayloadBytes) new
    = sum_list_with_Z (fun s => zlen (send_packet s)) (List.filter whole new) /\
  sends_amount SendFailures new = zlen new - zlen (List.filter whole new) /\
  forall f, sends_amount (ReceivedCounter f) new = 0.
Proof.
  unfold sends_amount. induction new as [|s new (IHd & IHp & IHf & IHr)]; [by split_and!|].
  cbn [map List.filter]. rewrite !ops_amount_cons, !send_op_amount, zlen_cons.
  destruct (whole s); rewrite ?zlen_cons; cbn [datagram_amount sum_list_with_Z]; split_and!; try lia;
    intros f; rewrite ops_amount_cons, send_op_amount, IHr; done.
Qed.

(** Sends of one packet. *)
Lemma sends_amounts packet new :
  Forall (fun s => send_packet s = packet) new ->
  let n := zlen (List.filter whole new) in
  sends_amount (SentCounter Datagrams) new = n /\
  sends_amount (SentCounter PayloadBytes) new = n * zlen packet /\
  n * (zlen packet + 28) <= sends_amount (SentCounter IpBytes) new <= n * (zlen packet + 48) /\
  sends_amount SendFailures new = zlen new - n /\
  forall f, sends_amount (ReceivedCounter f) new = 0.
Proof.
  intros Hall. destruct (sends_sums new) as (Hd & Hp & Hf & Hr). cbv zeta. rewrite Hd, Hp, Hf.
  split; [done|]. split; [|split; [|by split]]; clear - Hall; unfold sends_amount;
    (induction Hall as [|s new Hs _ IH]; [done || (cbn; lia)|]); cbn [map List.filter];
    rewrite ?ops_amount_cons, ?send_op_amount; destruct (whole s); rewrite ?zlen_cons; cbn [sum_list_with_Z];
    rewrite ?Hs; try (destruct (ip_headers_cases (send_target s)) as [Hh|Hh]; cbn [datagram_amount]; rewrite Hh); lia.
Qed.

Lemma sends_ops_ok packet new :
  Forall (fun s => send_packet s = packet) new -> zlen packet <= MAX_PACKET_SIZE -> Forall op_ok (map send_op new).
Proof.
  intros Hp Hl. apply Forall_map. eapply Forall_impl; [exact Hp|]. intros s Hs.
  unfold op_ok, send_op, MAX_PACKET_SIZE in *. cbn [op_len]. rewrite Hs. pose proof (zlen_nonneg packet). lia.
Qed.

(** A datagram of UDP fits the buffer of a build that counts. *)
Lemma cut_counting payload : zlen payload <= u16_max -> cut true payload = payload.
Proof. intros H. unfold cut, recv_buf. apply take_ge. unfold zlen, u16_max in H. lia. Qed.

Lemma receives_amounts es :
  Forall (fun p => zlen p <= u16_max) (payloads es) ->
  let ops := omap receive_op es in
  Forall op_ok ops /\
  ops_amount (ReceivedCounter Datagrams) ops = zlen (payloads es) /\
  ops_amount (ReceivedCounter PayloadBytes) ops = sum_list_with_Z zlen (payloads es) /\
  ops_amount SendFailures ops = 0 /\ forall f, ops_amount (SentCounter f) ops = 0.
Proof.
  cbv zeta. unfold payloads. induction es as [|e es IH]; intros Hes; [cbn; by split_and!|].
  destruct e as [id|id|payload addr|error]; cbn [omap list_omap receive_op] in *; [by apply IH..| |by apply IH].
  inversion_clear Hes as [|? ? Hp Hps]. destruct (IH Hps) as (Hok & Hd & Hb & Hf & Hs).
  rewrite cut_counting by done. pose proof (zlen_nonneg payload). unfold u16_max in *.
  split; [constructor; [unfold op_ok; cbn [op_len]; lia | done]|].
  rewrite !ops_amount_cons, Hd, Hb, Hf, zlen_cons. cbn [op_amount datagram_amount sum_list_with_Z].
  split_and!; try lia. intros f. rewrite ops_amount_cons, Hs. done.
Qed.

(** ** What one request sends *)

Section Requests.
Context `{PrimitivesLaws} `{IpTextLaws}.

Lemma filter_len {A} (f : A -> bool) l : zlen (List.filter f l) <= zlen l.
Proof. induction l as [|x l IH]; [done|]. cbn. destruct (f x); rewrite !zlen_cons; lia. Qed.

Lemma concat_replicate_len {A} n (l : list A) : zlen (concat (replicate n l)) = Z.of_nat n * zlen l.
Proof. induction n as [|n IH]; cbn [replicate concat]; [done|]. rewrite zlen_app, IH. lia. Qed.

(** Every server, once a round, and once more after a decision. *)
Lemma delivery_count env cfg policy dedup packet resolved w :
  env_ok env -> config_ok cfg -> policy_ok policy -> snapshot_ok resolved -> arrivals_ok (inbox w) ->
  exists new, sends (deliver_and_select env cfg policy dedup packet resolved w).2 = sends w ++ new /\
    zlen new <= (replay_count policy + 2) * zlen (targets resolved).
Proof.
  intros Henv Hcfg Hp Hs Hin.
  destruct (deliver_spec env Henv cfg Hcfg policy dedup packet resolved w Hp Hs Hin)
    as (res & w' & oldest & phases & rounds & extra & -> & _ & Hr & _ & (_ & (new & Hn & Ht) & _) & _ & Hc & _).
  exists new. split; [done|]. apply (f_equal zlen) in Ht.
  rewrite zlen_map, zlen_app, concat_replicate_len in Ht. pose proof (zlen_nonneg (targets resolved)).
  assert (zlen extra <= zlen (targets resolved)).
  { destruct (is_ok res); [|subst extra; rewrite zlen_nil; lia].
    destruct Hc as (_ & _ & ->). destruct (_ && _); [apply filter_len | rewrite zlen_nil; lia]. }
  nia.
Qed.

Lemma targets_count dns c resolved :
  resolver_ok dns -> client_ok c -> current_targets dns (cl_discovery c) = Ok resolved ->
  zlen (targets resolved) = zlen (servers (cl_discovery c)).
Proof.
  intros Hdns ((found & Hd & Hf) & _) Ht.
  destruct (current_targets_ok dns Hdns dns found _ Hf Hd) as (r & E & (Htg & _)).
  rewrite Ht in E. injection E as ->. by rewrite Htg, Hd, !zlen_map.
Qed.

Context (env : Env) (Henv : env_ok env) (cfg : CoreConfig) (Hcfg : config_ok cfg) (dns : Resolver)
  (Hdns : resolver_ok dns) (os_bind : nat -> Z -> bool -> io_error + Z)
  (request_id : list Z) (now_millis : Z) (nonce : list Z)
  (Hid : array_ok 16 request_id) (Hnow : in_u64 now_millis) (Hnonce : array_ok 12 nonce).

Lemma request_sends resources guards label c r c' :
  client_ok c -> Forall resource_request_ok resources -> Forall guard_request_ok guards -> label_ok label ->
  check_rate_limit env cfg dns os_bind request_id now_millis nonce resources guards label c = (r, c') ->
  exists new packet, sends (cl_world c') = sends (cl_world c) ++ new /\
    Forall (fun s => send_packet s = packet) new /\ zlen packet <= MAX_PACKET_SIZE /\
    zlen new <= (replay_count (request_policy cfg) + 2) * zlen (servers (cl_discovery c')).
Proof.
  intros Hc Hr Hg Hl E.
  destruct (check_rate_limit_stages env Henv cfg Hcfg dns Hdns os_bind request_id now_millis nonce
    Hid Hnow Hnonce resources guards label c Hc Hr Hg Hl) as (r' & c1 & new & E' & _ & Hs & Hspec & Hsent).
  rewrite E in E'. injection E' as <- <-. exists new.
  pose proof Hcfg as (_ & _ & _ & Hp). pose proof Hp as ((_ & [Hrc _] & _) & _).
  destruct (decide (new = [])) as [->|Hnew].
  { exists []. pose proof (zlen_nonneg (servers (cl_discovery c'))).
    split_and!; [done | constructor | done | rewrite zlen_nil; nia]. }
  destruct (Hsent Hnew) as (dedup & packet & Hh & Hpk & Hall). exists packet.
  split; [done|]. split; [done|].
  destruct (policy_horizon_cases cfg Hcfg) as [(d & Hd & Hh')|[e Hh']]; [|congruence].
  assert (d = dedup) as -> by congruence.
  destruct (packet_parts cfg request_id now_millis nonce dedup resources guards label packet) as (_ & _ & Hlen & _);
    try done. split; [done|].
  assert (Hdel : was_delivered r) by (destruct r as [|[]|]; cbn in *; tauto).
  assert (Hne : resources <> [] \/ guards <> []).
  { destruct resources; [|by left]. destruct guards; [|by right]. exfalso.
    unfold check_rate_limit in E. cbn in E. unfold mbind, cact_bind, clift, cret in E. cbn in E.
    injection E as _ <-. apply Hnew. apply (app_inv_head (sends (cl_world c))). by rewrite app_nil_r. }
  destruct (request_delivery env Henv cfg Hcfg dns Hdns os_bind request_id now_millis nonce Hid Hnow Hnonce
    resources guards label c r c' Hc Hr Hg Hl Hne Hdel E)
    as (c1 & resolved & dd & pk & res & w & (Hc1 & Hcalm & _) & Ht & Hrun & Hdisc & Hsw & _).
  destruct (targets_spec env Henv cfg Hcfg dns Hdns c1 Hc1) as (rs & Ht' & Hsnap & _).
  assert (rs = resolved) as -> by congruence.
  destruct (delivery_count env cfg (request_policy cfg) dd pk resolved (cl_world c1)) as (new' & Hn' & Hlen');
    try done; [apply Hc1|].
  rewrite Hrun in Hn'. cbn [snd] in Hn'. rewrite <- Hsw, Hs, (calm_sends _ _ _ Hcalm) in Hn'.
  apply app_inv_head in Hn' as <-. by rewrite Hdisc, <- (targets_count dns c1 resolved Hdns Hc1 Ht).
Qed.

End Requests.

(** ** Theorems *)

(** C14. One request cannot flood the servers, and its traffic is accounted for exactly.
    Whatever its result, a request over [n] discovered servers with [N] replays sends
    at most [(N + 2) n] datagrams, each the same packet of at most 1200 bytes; from any
    state of the counters its records never panic, and add, up to saturation, one
    datagram, the packet's length and the length with 28 or 48 header bytes for every
    send that the socket took whole, a failure for every other send, and nothing to
    what was received. *)
Theorem request_metered `{PrimitivesLaws} `{IpTextLaws} env cfg dns os_bind
    request_id now_millis nonce resources guards label c t0
    (Henv : env_ok env) (Hcfg : config_ok cfg) (Hdns : resolver_ok dns)
    (Hid : array_ok 16 request_id) (Hnow : in_u64 now_millis) (Hnonce : array_ok 12 nonce)
    (Hres : Forall resource_request_ok resources) (Hg : Forall guard_request_ok guards)
    (Hl : label_ok label) (Hc : client_ok c) (Ht0 : counters_ok t0) :
  let run := check_rate_limit env cfg dns os_bind request_id now_millis nonce resources guards label c in
  exists new packet t,
    sends (cl_world run.2) = sends (cl_world c) ++ new /\
    Forall (fun s => send_packet s = packet) new /\ zlen packet <= MAX_PACKET_SIZE /\
    zlen new <= (replay_count (request_policy cfg) + 2) * zlen (servers (cl_discovery run.2)) /\
    run_ops t0 (map send_op new) = Ok t /\
    (forall k, get k t = Z.min (get k t0 + sends_amount k new) u64_max) /\
    (let n := zlen (List.filter whole new) in
     sends_amount (SentCounter Datagrams) new = n /\
     sends_amount (SentCounter PayloadBytes) new = n * zlen packet /\
     n * (zlen packet + 28) <= sends_amount (SentCounter IpBytes) new <= n * (zlen packet + 48) /\
     sends_amount SendFailures new = zlen new - n /\
     forall f, sends_amount (ReceivedCounter f) new = 0).
Proof.
  cbv zeta. destruct (check_rate_limit _ _ _ _ _ _ _ _ _ _ c) as [r c'] eqn:E. cbn [snd].
  destruct (request_sends env Henv cfg Hcfg dns Hdns os_bind request_id now_millis nonce Hid Hnow Hnonce
    resources guards label c r c' Hc Hres Hg Hl E) as (new & packet & Hs & Hp & Hlen & Hn).
  destruct (run_ops_settled t0 (map send_op new) Ht0 (sends_ops_ok packet new Hp Hlen)) as (t & Hrun & Hset & _).
  exists new, packet, t. split_and!; try done; by apply (sends_amounts packet).
Qed.

(** The counters account for a whole history, in whatever order its records were
    made: all sends of its requests, concurrent or not, and all datagrams its router
    received, whether they answered a request or not.  Every datagram of UDP counts
    with its full payload, and the totals are saturated sums. *)
Theorem history_metered t0 new es ops t
    (Ht0 : counters_ok t0) (Hnew : Forall (fun s => zlen (send_packet s) <= MAX_PACKET_SIZE) new)
    (Hes : Forall (fun p => zlen p <= u16_max) (payloads es))
    (Hops : ops ≡ₚ map send_op new ++ omap receive_op es) (Hrun : run_ops t0 ops = Ok t) :
  get (ReceivedCounter Datagrams) t = Z.min (get (ReceivedCounter Datagrams) t0 + zlen (payloads es)) u64_max /\
  get (ReceivedCounter PayloadBytes) t
    = Z.min (get (ReceivedCounter PayloadBytes) t0 + sum_list_with_Z zlen (payloads es)) u64_max /\
  get (SentCounter Datagrams) t = Z.min (get (SentCounter Datagrams) t0 + zlen (List.filter whole new)) u64_max /\
  get (SentCounter PayloadBytes) t
    = Z.min (get (SentCounter PayloadBytes) t0 +
             sum_list_with_Z (fun s => zlen (send_packet s)) (List.filter whole new)) u64_max /\
  get SendFailures t
    = Z.min (get SendFailures t0 + (zlen new - zlen (List.filter whole new))) u64_max.
Proof.
  destruct (receives_amounts es Hes) as (Hrok & Hrd & Hrp & Hrf & Hrs).
  assert (Hsok : Forall op_ok (map send_op new)).
  { apply Forall_map. eapply Forall_impl; [exact Hnew|]. intros s Hs.
    unfold op_ok, send_op, MAX_PACKET_SIZE in *. cbn [op_len]. pose proof (zlen_nonneg (send_packet s)). lia. }
  assert (Hok : Forall op_ok ops) by (rewrite Hops; by apply Forall_app).
  destruct (run_ops_settled t0 ops Ht0 Hok) as (t' & Hrun' & Hset & _).
  assert (t' = t) as -> by congruence.
  assert (Hall : forall k, get k t = Z.min (get k t0 + (ops_amount k (map send_op new) + ops_amount k (omap receive_op es))) u64_max).
  { intros k. rewrite Hset. unfold ops_amount. by rewrite (sum_perm_Z _ _ _ Hops), sum_app_Z. }
  destruct (sends_sums new) as (Hd & Hp & Hf & Hr). unfold sends_amount in *.
  rewrite !Hall, Hrd, Hrp, Hrf, !Hrs, Hd, Hp, Hf, !Hr, !Z.add_0_r, !Z.add_0_l. by split_and!.
Qed.

(** A history of two datagrams, of which one answers. *)
Definition demo_history : list router_event :=
  [Register demo_id; Datagram demo_response demo_addr; Datagram [1; 2; 3] demo_addr].

Lemma demo_counters_ok : counters_ok default_counters.
Proof. intros [[]|[]|]; split; vm_compute; discriminate. Qed.

Lemma request_metered_witness :
  exists (new : list Send) (packet : list Z) t,
    sends (cl_world (@check_rate_limit toy_primitives toy_ip_text demo_env demo_cookie_config demo_servers
      demo_os_bind demo_id 5 demo_nonce [demo_resource] [demo_guard] None demo_client).2) = [] ++ new /\
    run_ops default_counters (map send_op new) = Ok t /\ zlen packet <= MAX_PACKET_SIZE /\ zlen new <= 3.
Proof.
  destruct (@request_metered toy_primitives toy_primitives_laws toy_ip_text toy_ip_laws demo_env
    demo_cookie_config demo_servers demo_os_bind demo_id 5 demo_nonce [demo_resource] [demo_guard] None
    demo_client default_counters demo_env_ok demo_cookie_ok demo_servers_ok)
    as (new & packet & t & Hs & _ & Hp & Hn & Hr & _);
    try exact demo_resource_ok; try exact demo_guard_ok; try exact demo_client_ok; try exact demo_counters_ok.
  - apply (replicate_array 16 3). unfold is_byte. lia.
  - unfold in_u64, u64_max. lia.
  - apply (replicate_array 12 9). unfold is_byte. lia.
  - exact I.
  - exists new, packet, t. split; [exact Hs|]. split; [exact Hr|]. split; [exact Hp|].
    etrans; [exact Hn|]. vm_compute. discriminate.
Defined.

Lemma history_metered_witness :
  exists t, run_ops default_counters (omap receive_op demo_history) = Ok t /\
    get (ReceivedCounter Datagrams) t = 2 /\ get SendFailures t = 0.
Proof.
  eexists. split; [vm_compute; reflexivity|].
  destruct (history_metered default_counters [] demo_history (omap receive_op demo_history)
    (mkTrafficStats (mkTrafficDirection 0 0 0) (mkTrafficDirection 2 127 183) 0 false))
    as (Hd & _ & _ & _ & Hf).
  - exact demo_counters_ok.
  - constructor.
  - unfold demo_history, payloads. cbn. forall_list; vm_compute; discriminate.
  - reflexivity.
  - vm_compute. reflexivity.
  - split; [exact Hd | exact Hf].
Defined.
