(* ===== verification/Flight.v ===== *)
(** * A request in flight (src/src/client.rs)

    [Selection] and [Client] run a delivery as one function.  In the program it is a
    future: it stops at every await, where other tasks run and where it may be dropped,
    and it shares the server statistics with all requests of its client.  Here a
    delivery is a sequence of atomic steps ([flight_step]), one per clock reading,
    receive, send and update of the statistics; the functions of [Selection] and
    [Client] take exactly such steps, and what the steps keep true holds wherever a
    request is stopped and however requests interleave ([fleet_step]). *)

From S2P Require Import Prelude Transitions Errors Codec ApiKey Policy Net Sockets Config Wire Auth.
From S2P Require Import Request Response Age Discovery World Selection Steering Client.

(** ** The statistics *)

Definition set_stats (s : gmap Z ServerStats) (w : World) : World :=
  mkWorld (now w) (steps w) (inbox w) (sockets w) s (sends w).

(** The entry of a server, counted once more: the update of [accept_policy_response]. *)
Definition count_response (t id : Z) : gmap Z ServerStats -> gmap Z ServerStats :=
  upsert_stats t id (fun s => mkServerStats t (bump (valid_responses s)) (send_failures s)).

(** The loop of [record_send_failures]. *)
Definition count_failures (t : Z) (ids : list Z) (stats : gmap Z ServerStats) : gmap Z ServerStats :=
  fold_left (fun stats id =>
    upsert_stats t id (fun s => mkServerStats (last_seen s) (valid_responses s) (bump (send_failures s))) stats)
    ids stats.

(** ** Atomic steps *)

(** What a request still has to account for: a valid response that it took, and the
    datagrams of a delivery that is under way. *)
Record control := mkControl { pending : option Z; batch : list Send }.
Definition idle : control := mkControl None [].

Definition flight : Type := World * control.

Inductive action : Type :=
| Tick
| Elapse
| Take (x : Z * ResponsePacket)
| Count (t id : Z)
| Deliver (s : Send)
| Settle (t : Z) (sent : list Send).

Section Flights.
Context `{Primitives} (env : Env) (cfg : CoreConfig) (packet : list Z) (resolved : ResolvedTargets).

(** The servers that a delivery did not reach, and those it counts: it counts none if
    it reached nobody. *)
Definition unreached (sent : list Send) : list Z :=
  omap (fun s => match send_result s with
                 | inl _ => target_server_ids resolved !! send_target s
                 | inr _ => None
                 end) sent.
Definition blamed (sent : list Send) : list Z := if existsb reached sent then unreached sent else [].

(** What an action does to the statistics. *)
Definition effect (a : action) (stats : gmap Z ServerStats) : gmap Z ServerStats :=
  match a with
  | Count t id => count_response t id stats
  | Settle t sent => count_failures t (blamed sent) stats
  | _ => stats
  end.
Definition effects (h : list action) (stats : gmap Z ServerStats) : gmap Z ServerStats :=
  fold_left (fun stats a => effect a stats) h stats.

Definition response_id (p : ResponsePacket) : option Z :=
  server_id <$> valid_response cfg (allowed_server_ids resolved) p.

Inductive flight_step : flight -> action -> flight -> Prop :=
| step_tick w c :
    flight_step (w, c) Tick ((clock env w).2, c)
| step_elapse w remaining w' :
    recv_timeout env remaining w = (Ok None, w') ->
    flight_step (w, idle) Elapse (w', idle)
| step_take w remaining w' a p :
    recv_timeout env remaining w = (Ok (Some p), w') -> inbox w = (a, p) :: inbox w' ->
    flight_step (w, idle) (Take (a, p)) (w', mkControl (response_id p) [])
| step_count w id :
    flight_step (w, mkControl (Some id) []) (Count (now w) id)
      (set_stats (count_response (now w) id (server_stats w)) w, idle)
| step_deliver w sent target s :
    target ∈ targets resolved ->
    s = mkSend (now w + env_delay env (steps w)) packet target (send_to env target w) ->
    flight_step (w, mkControl None sent) (Deliver s)
      ((send_datagram env packet target w).2, mkControl None (sent ++ [s]))
| step_settle w sent :
    flight_step (w, mkControl None sent) (Settle (now w) sent)
      (set_stats (count_failures (now w) (blamed sent) (server_stats w)) w, idle).

Definition flown : flight -> list action -> flight -> Prop := trace flight_step.

Lemma effects_app h h' s : effects (h ++ h') s = effects h' (effects h s).
Proof. apply fold_left_app. Qed.

(** ** The statistics are written, never read *)

Lemma set_set s s' w : set_stats s (set_stats s' w) = set_stats s w.
Proof. done. Qed.
Lemma set_same w : set_stats (server_stats w) w = w.
Proof. by destruct w. Qed.

Definition with_stats (s : gmap Z ServerStats) (f : flight) : flight := (set_stats s f.1, f.2).

Lemma recv_blind remaining s w :
  recv_timeout env remaining (set_stats s w)
  = ((recv_timeout env remaining w).1, set_stats s (recv_timeout env remaining w).2).
Proof.
  unfold recv_timeout. cbn [set_stats inbox now steps]. destruct (inbox w) as [|[a p] rest]; [done|].
  by destruct (a <=? _).
Qed.

Lemma recv_stats remaining w : server_stats (recv_timeout env remaining w).2 = server_stats w.
Proof. unfold recv_timeout. destruct (inbox w) as [|[a p] rest]; [done|]. by destruct (a <=? _). Qed.

Lemma recv_frame remaining w r w' :
  recv_timeout env remaining w = (Ok r, w') ->
  sends w' = sends w /\ sockets w' = sockets w /\ (r = None -> inbox w' = inbox w).
Proof.
  unfold recv_timeout. destruct (inbox w) as [|[a p] rest] eqn:Hi; [|destruct (a <=? _)];
    intros [= <- <-]; by rewrite ?Hi.
Qed.

(** The step that a request takes does not depend on the statistics, and changes them
    by its effect. *)
Lemma step_blind f a f' s :
  flight_step f a f' ->
  flight_step (with_stats s f) a (with_stats (effect a s) f') /\
  server_stats f'.1 = effect a (server_stats f.1).
Proof.
  destruct 1 as [w c|w remaining w' E|w remaining w' x p E Hi|w id|w sent target sd Ht ->|w sent];
    unfold with_stats; cbn [fst snd effect].
  - split; [apply (step_tick (set_stats s w)) | done].
  - split.
    + apply (step_elapse (set_stats s w) remaining). by rewrite recv_blind, E.
    + by rewrite <- (recv_stats remaining w), E.
  - split.
    + apply (step_take (set_stats s w) remaining (set_stats s w')); [by rewrite recv_blind, E | done].
    + by rewrite <- (recv_stats remaining w), E.
  - split; [apply (step_count (set_stats s w)) | done].
  - split; [by apply (step_deliver (set_stats s w) sent target) | done].
  - split; [apply (step_settle (set_stats s w)) | done].
Qed.

(** ** Actions as flights *)

(** Run from [c], [m] is a flight, whatever the statistics are, which it changes by the
    effects of its actions; [Q] says where a result leaves the request, which is idle
    after an error. *)
Definition flies {A} (c : control) (m : act A) (Q : A -> control -> Prop) : Prop :=
  forall w, arrivals_ok (inbox w) -> exists h c',
    flown (w, c) h ((m w).2, c') /\
    (forall s, m (set_stats s w) = ((m w).1, set_stats (effects h s) (m w).2)) /\
    match (m w).1 with Ok a => Q a c' | _ => c' = idle end.

Lemma recv_inbox remaining w : exists taken, inbox w = taken ++ inbox (recv_timeout env remaining w).2.
Proof.
  unfold recv_timeout. destruct (inbox w) as [|[a p] rest] eqn:Hi; [by exists []|].
  destruct (a <=? _); [by exists [(a, p)] | by exists []].
Qed.

Lemma step_arrivals f a f' : flight_step f a f' -> arrivals_ok (inbox f.1) -> arrivals_ok (inbox f'.1).
Proof.
  destruct 1 as [w c|w remaining w' E|w remaining w' x p E Hi|w id|w sent target sd Ht ->|w sent]; cbn [fst];
    try done; intros Ha.
  - destruct (recv_inbox remaining w) as [taken Hi]. rewrite Hi, E in Ha. by apply arrivals_app in Ha as [_ Ha].
  - rewrite Hi in Ha. by inversion Ha.
Qed.

Lemma flown_arrivals f h f' : flown f h f' -> arrivals_ok (inbox f.1) -> arrivals_ok (inbox f'.1).
Proof. apply (trace_inv _ (fun f => arrivals_ok (inbox f.1))). intros a l b Ha Hs. by eapply step_arrivals. Qed.

Lemma flies_bind {A B} c (m : act A) (f : A -> act B) (Q : A -> control -> Prop) (R : B -> control -> Prop) :
  flies c m Q -> (forall a c', Q a c' -> flies c' (f a) R) -> flies c (m ≫= f) R.
Proof.
  intros Hm Hf w Ha. destruct (Hm w Ha) as (h & c1 & Hrun & Hs & Hq). unfold mbind, act_bind.
  destruct (m w) as [[a|e|] w1] eqn:E; cbn [fst snd] in *.
  - destruct (Hf a c1 Hq w1 (flown_arrivals _ _ _ Hrun Ha)) as (h' & c2 & Hrun' & Hs' & Hr).
    exists (h ++ h'), c2. split; [by eapply trace_app|]. split; [|done].
    intros s. by rewrite Hs, Hs', effects_app.
  - exists h, c1. split; [done|]. split; [|done]. intros s. by rewrite Hs.
  - exists h, c1. split; [done|]. split; [|done]. intros s. by rewrite Hs.
Qed.

Lemma flies_weaken {A} c (m : act A) (Q R : A -> control -> Prop) :
  flies c m Q -> (forall a c', Q a c' -> R a c') -> flies c m R.
Proof.
  intros Hm Hqr w Ha. destruct (Hm w Ha) as (h & c' & Hrun & Hs & Hq). exists h, c'. split; [done|]. split; [done|].
  destruct (m w).1; auto.
Qed.

Lemma flies_ret {A} c (a : A) (Q : A -> control -> Prop) : Q a c -> flies c (ret a) Q.
Proof. intros Hq w _. exists [], c. split; [constructor|]. by split. Qed.

Lemma flies_lift {A} (m : outcome CoreError A) : flies idle (lift m) (fun _ c => c = idle).
Proof. intros w _. exists [], idle. split; [constructor|]. split; [done|]. by destruct m. Qed.

Lemma flies_with_world {A} c (f : World -> act A) (Q : A -> control -> Prop) :
  (forall w s, f (set_stats s w) = f w) -> (forall w, flies c (f w) Q) -> flies c (with_world f) Q.
Proof.
  intros Hb Hf w Ha. destruct (Hf w w Ha) as (h & c' & Hrun & Hs & Hq). exists h, c'. split; [done|].
  split; [|done]. intros s. unfold with_world. by rewrite Hb, Hs.
Qed.

Lemma flies_try {A} c (m : act A) :
  flies c m (fun _ c' => c' = idle) -> flies c (try_act m) (fun _ c' => c' = idle).
Proof.
  intros Hm w Ha. destruct (Hm w Ha) as (h & c' & Hrun & Hs & Hq). exists h, c'. unfold try_act.
  split; [by destruct (m w) as [[]]|]. split; [|by destruct (m w) as [[]]].
  intros s. rewrite Hs. by destruct (m w) as [[]].
Qed.

Lemma flies_clock c : flies c (clock env) (fun _ c' => c' = c).
Proof. intros w _. exists [Tick], c. split; [apply trace_one, step_tick|]. by split. Qed.

Lemma flies_recv remaining :
  flies idle (recv_timeout env remaining)
    (fun r c' => c' = match r with Some p => mkControl (response_id p) [] | None => idle end /\
                 forall p, r = Some p -> packet_ok p).
Proof.
  intros w Ha. pose proof (recv_blind remaining) as Hb. pose proof (recv_inbox remaining w) as [taken Hi].
  destruct (recv_timeout env remaining w) as [r w'] eqn:E. cbn [fst snd] in *.
  assert (Hr : r = Ok None \/ exists a p, r = Ok (Some p) /\ inbox w = (a, p) :: inbox w').
  { unfold recv_timeout in E. destruct (inbox w) as [|[a p] rest]; [left; congruence|].
    destruct (a <=? _); [right; exists a, p | left]; by simplify_eq/=. }
  destruct Hr as [->|(a & p & -> & Hw)].
  - exists [Elapse], idle. split; [by apply trace_one, (step_elapse _ remaining)|]. split; [|done].
    intros s. by rewrite Hb, E.
  - exists [Take (a, p)], (mkControl (response_id p) []). split; [by apply trace_one, (step_take _ remaining)|].
    split; [intros s; by rewrite Hb, E|]. split; [done|]. intros ? [= <-]. rewrite Hw in Ha. by inversion Ha.
Qed.

End Flights.

(** ** Deliveries and reports are flights *)

Section Simulation.
Context `{PrimitivesLaws} (env : Env) (cfg : CoreConfig) (Hcfg : config_ok cfg) (packet : list Z)
  (resolved : ResolvedTargets).
Abbreviation flies := (flies env cfg packet resolved).

Lemma accept_eq p allowed seen :
  packet_ok p ->
  accept_policy_response env cfg p allowed seen =
    match valid_response cfg allowed p with
    | Some r => t ← clock env; _ ← modify_stats (count_response t (server_id r)); ret (Some r, see seen p r)
    | None => ret (None, seen)
    end.
Proof.
  intros [Hb Hl]. unfold accept_policy_response, valid_response.
  pose proof (no_panic_parse_rate_response cfg Hcfg _ Hb Hl) as Hnp.
  destruct (no_panic_peeks (packet_data p)) as [Hpk _].
  destruct (parse_rate_response cfg (packet_data p)) as [r|e|] eqn:Hr; [| |done].
  - destruct (parse_rate_response_id cfg Hcfg _ _ Hb Hl Hr) as [-> _].
    by destruct (bool_decide (allowed = ∅)), (bool_decide (server_id r ∈ allowed)).
  - destruct (peek_server_id (packet_data p)) as [id|[]|]; [by destruct (negb _ && negb _) | done | done].
Qed.

Lemma flies_accept p seen :
  packet_ok p ->
  flies (mkControl (response_id cfg resolved p) [])
    (accept_policy_response env cfg p (allowed_server_ids resolved) seen) (fun _ c => c = idle).
Proof.
  intros Hp. rewrite accept_eq by done. unfold response_id.
  destruct (valid_response cfg _ p) as [r|]; [|by apply flies_ret]. intros w _.
  exists [Tick; Count (now (clock env w).2) (server_id r)], idle. split; [|by split].
  eapply trace_cons; [apply step_tick|]. apply trace_one, step_count.
Qed.

(** The counters of a send loop count its datagrams. *)
Definition counts (sent : list Send) (t : Tally) : Prop :=
  delivered t = zlen (List.filter reached sent) /\ failed_server_ids t = unreached resolved sent.

Lemma counts_snoc sent t s :
  counts sent t ->
  counts (sent ++ [s])
    match send_result s with
    | inr _ => mkTally (attempted t) (delivered t + 1) (last_error t) (failed_server_ids t)
    | inl error =>
        mkTally (attempted t) (delivered t) (Some error)
          (match target_server_ids resolved !! send_target s with
           | Some id => failed_server_ids t ++ [id]
           | None => failed_server_ids t
           end)
    end.
Proof.
  intros [Hd Hf]. unfold counts, unreached. rewrite List.filter_app, zlen_app, omap_app. cbn [List.filter omap list_omap].
  assert (reached s = match send_result s with inl _ => false | inr _ => true end) as -> by done.
  destruct (send_result s) as [e|n]; cbn [delivered failed_server_ids]; rewrite Hd, Hf.
  - split; [rewrite zlen_nil; lia|]. by destruct (target_server_ids resolved !! send_target s); rewrite ?app_nil_r.
  - split; [done | by rewrite app_nil_r].
Qed.

(** One send of a loop. *)
Lemma flies_send sent target :
  target ∈ targets resolved ->
  flies (mkControl None sent) (send_datagram env packet target)
    (fun r c => exists s, c = mkControl None (sent ++ [s]) /\ send_result s = r /\ send_target s = target).
Proof.
  intros Ht w _. eexists [Deliver _], _. split; [by apply trace_one, step_deliver|]. split; [done|]. by eexists.
Qed.

Lemma delivered_none sent : (zlen (List.filter reached sent) =? 0) = negb (existsb reached sent).
Proof.
  apply eq_true_iff_eq. rewrite Z.eqb_eq, filter_none_forallb.
  induction sent as [|s sent IH]; [done|]. cbn. by destruct (reached s).
Qed.

Lemma delivered_all sent : zlen sent <= zlen (List.filter reached sent) -> unreached resolved sent = [].
Proof.
  unfold unreached. induction sent as [|s sent IH]; intros Hle; [done|]. cbn [List.filter omap list_omap] in *.
  pose proof (List.filter_length_le reached sent). unfold reached at 1 in Hle. unfold zlen in *.
  destruct (send_result s); cbn [length] in *; [lia|]. apply IH. lia.
Qed.

(** A delivery ends without a record when it has nothing to count. *)
Lemma flies_quiet sent (m : outcome CoreError unit) :
  blamed resolved sent = [] -> flies (mkControl None sent) (lift m) (fun _ c => c = idle).
Proof.
  intros Hb w _. exists [Settle (now w) sent], idle. split; [|split; [|by destruct m]].
  - apply trace_one. pose proof (step_settle env cfg packet resolved w sent) as Hst.
    rewrite Hb in Hst. cbn [count_failures fold_left] in Hst. by rewrite set_same in Hst.
  - intros s. unfold effects. cbn [fold_left effect]. by rewrite Hb.
Qed.

Lemma flies_record sent :
  existsb reached sent = true ->
  flies (mkControl None sent) (record_send_failures env (unreached resolved sent)) (fun _ c => c = idle).
Proof.
  intros Hr. assert (Hb : blamed resolved sent = unreached resolved sent) by (unfold blamed; by rewrite Hr).
  unfold record_send_failures. destruct (unreached resolved sent) as [|id ids] eqn:Hu; [by apply (flies_quiet sent (Ok tt))|].
  rewrite <- Hu in *. intros w _. exists [Tick; Settle (now (clock env w).2) sent], idle.
  split; [|split; [|done]].
  - eapply trace_cons; [apply step_tick|]. apply trace_one. rewrite <- Hb. apply step_settle.
  - intros s. unfold effects. cbn [fold_left effect]. by rewrite Hb.
Qed.

(** The end of a delivery: its failures are counted, or there is nothing to count. *)
Lemma flies_settle sent t n :
  counts sent t -> n = zlen sent ->
  flies (mkControl None sent)
    (if delivered t =? 0 then
       match last_error t with
       | Some error => lift (Err (CoreIo error))
       | None => ret tt
       end
     else if delivered t <? n then record_send_failures env (failed_server_ids t)
     else ret tt)
    (fun _ c => c = idle).
Proof.
  intros [Hd Hf] ->. rewrite Hd, Hf, delivered_none. change (@ret unit tt) with (@lift unit (Ok tt)).
  destruct (existsb reached sent) eqn:Hr; cbn [negb].
  - destruct (Z.ltb_spec (zlen (List.filter reached sent)) (zlen sent)) as [Hlt|Hge]; [by apply flies_record|].
    apply flies_quiet. unfold blamed. rewrite Hr. by apply delivered_all.
  - assert (blamed resolved sent = []) by (unfold blamed; by rewrite Hr).
    destruct (last_error t); by apply flies_quiet.
Qed.

Lemma flies_send_loop seen ts sent t :
  (forall target, target ∈ ts -> target ∈ targets resolved) -> counts sent t -> attempted t = zlen sent ->
  flies (mkControl None sent) (send_loop env packet resolved seen ts t)
    (fun t' c => exists sent', c = mkControl None sent' /\ counts sent' t' /\ attempted t' = zlen sent').
Proof.
  revert sent t. induction ts as [|target ts IH]; intros sent t Hts Hc Ha; cbn [send_loop].
  { apply flies_ret. by exists sent. }
  assert (Hts' : forall x, x ∈ ts -> x ∈ targets resolved) by (intros x Hx; apply Hts; set_solver).
  destruct (responded resolved seen target); [by apply IH|].
  eapply flies_bind; [apply flies_send, Hts; set_solver|]. intros r c (s & -> & <- & <-).
  pose proof (counts_snoc sent t s Hc) as [Hc1 Hc2].
  apply IH; [done | |]; unfold counts in *; rewrite ?zlen_app, ?zlen_cons, ?zlen_nil;
    destruct (send_result s); cbn [attempted delivered failed_server_ids] in *; (split; done) || lia.
Qed.

Lemma flies_send_to_missing seen :
  flies idle (send_to_missing env packet resolved seen) (fun _ c => c = idle).
Proof.
  eapply flies_bind; [by apply flies_send_loop|]. intros t c (sent & -> & Hc & Ha). by apply flies_settle.
Qed.

Lemma flies_report_loop ts sent t :
  (forall target, target ∈ ts -> target ∈ targets resolved) -> counts sent t ->
  flies (mkControl None sent) (report_loop env packet resolved ts t)
    (fun t' c => exists sent', c = mkControl None sent' /\ counts sent' t' /\ zlen sent' = zlen sent + zlen ts).
Proof.
  revert sent t. induction ts as [|target ts IH]; intros sent t Hts Hc; cbn [report_loop].
  { apply flies_ret. exists sent. rewrite zlen_nil. split_and!; [done | done | lia]. }
  eapply flies_bind; [apply flies_send, Hts; set_solver|]. intros r c (s & -> & <- & <-).
  eapply flies_weaken; [apply IH; [intros x Hx; apply Hts; set_solver | by apply counts_snoc]|].
  intros t' c (sent' & -> & Hc' & Hl). exists sent'. rewrite zlen_app, !zlen_cons, zlen_nil in *. split_and!; [done | done | lia].
Qed.

Lemma flies_send_report : flies idle (send_report env packet resolved) (fun _ c => c = idle).
Proof.
  eapply flies_bind; [by apply flies_report_loop|]. intros t c (sent & -> & Hc & Hl). apply flies_settle; [done|].
  rewrite zlen_nil in Hl. lia.
Qed.

(** One packet taken from the channel and looked at. *)
Lemma flies_received {B} remaining seen (f : option (option RateLimitResult * Seen) -> act B) :
  (forall x, flies idle (f x) (fun _ c => c = idle)) ->
  flies idle
    (received ← recv_timeout env remaining;
     match received with
     | None => f None
     | Some p => x ← accept_policy_response env cfg p (allowed_server_ids resolved) seen; f (Some x)
     end) (fun _ c => c = idle).
Proof.
  intros Hf. eapply flies_bind; [apply flies_recv|]. intros [p|] c [-> Hp]; [|apply Hf].
  eapply flies_bind; [apply flies_accept; by apply Hp|]. intros x c ->. apply Hf.
Qed.

Lemma flies_round_loop fuel oldest round deadline best seen :
  flies idle (round_loop env cfg fuel (allowed_server_ids resolved) oldest round deadline best seen)
    (fun _ c => c = idle).
Proof.
  revert best seen. induction fuel as [|fuel IH]; intros best seen; cbn [round_loop]; [by apply flies_ret|].
  eapply flies_bind; [apply flies_clock|]. intros t c ->. destruct (t <? deadline); [|by apply flies_ret].
  eapply flies_bind; [apply flies_clock|]. intros t' c ->.
  apply (flies_received _ seen (fun x => match x with
    | None => ret (Expired best seen)
    | Some (accepted, seen) => _
    end)). intros [[[r|] seen']|]; [|apply IH | by apply flies_ret].
  eapply flies_bind; [apply flies_lift|]. intros better c ->.
  destruct (bool_decide _ || _); [by apply flies_ret | apply IH].
Qed.

Lemma flies_final_loop fuel deadline seen :
  flies idle (final_loop env cfg fuel (allowed_server_ids resolved) deadline seen) (fun _ c => c = idle).
Proof.
  revert seen. induction fuel as [|fuel IH]; intros seen; cbn [final_loop]; [by apply flies_ret|].
  eapply flies_bind; [apply flies_clock|]. intros t c ->. destruct (t <? deadline); [|by apply flies_ret].
  eapply flies_bind; [apply flies_clock|]. intros t' c ->.
  apply (flies_received _ seen (fun x => match x with
    | None => ret (Expired None seen)
    | Some (accepted, seen) => _
    end)). intros [[[r|] seen']|]; [by apply flies_ret | apply IH | by apply flies_ret].
Qed.

Lemma flies_select_rounds n policy oldest round seen :
  flies idle (select_rounds env cfg n policy packet resolved oldest round seen) (fun _ c => c = idle).
Proof.
  revert round seen. induction n as [|n IH]; intros round seen; cbn [select_rounds].
  - destruct (_ >? _); [|by apply flies_ret]. eapply flies_bind; [apply flies_clock|]. intros t c ->.
    eapply flies_bind; [by apply flies_with_world; [|intros w; apply flies_final_loop]|].
    intros [] c ->; [by apply flies_ret.. | apply flies_lift].
  - eapply flies_bind; [apply flies_send_to_missing|]. intros _ c ->.
    eapply flies_bind; [apply flies_lift|]. intros u c ->.
    eapply flies_bind; [apply flies_clock|]. intros t c ->.
    eapply flies_bind; [by apply flies_with_world; [|intros w; apply flies_round_loop]|].
    intros [[best|]| |] c ->; [by apply flies_ret | apply IH | by apply flies_ret | apply flies_lift].
Qed.

Lemma flies_deliver policy dedup :
  flies idle (deliver_and_select env cfg policy dedup packet resolved) (fun _ c => c = idle).
Proof.
  unfold deliver_and_select. eapply flies_bind; [apply flies_lift|]. intros oldest c ->.
  eapply flies_bind; [apply flies_clock|]. intros started c ->.
  eapply flies_bind; [apply flies_select_rounds|]. intros [[r|] seen] c ->; [|apply flies_lift].
  eapply flies_bind with (Q := fun _ c => c = idle); [destruct (completion_delivery policy); [apply flies_clock | by apply flies_ret]|].
  intros t c ->. eapply flies_bind with (Q := fun _ c => c = idle); [|intros _ c ->; by apply flies_ret].
  destruct (_ && _); [|by apply flies_ret].
  eapply flies_bind; [apply flies_try, flies_send_to_missing|]. intros _ c ->. by apply flies_ret.
Qed.

End Simulation.

(** ** What steps keep *)

Definition taken_of (h : list action) : list (Z * ResponsePacket) :=
  omap (fun a => match a with Take x => Some x | _ => None end) h.
Definition sent_of (h : list action) : list Send :=
  omap (fun a => match a with Deliver s => Some s | _ => None end) h.
Definition counted_of (h : list action) : list Z :=
  omap (fun a => match a with Count _ id => Some id | _ => None end) h.
Definition settled_of (h : list action) : list (list Send) :=
  omap (fun a => match a with Settle _ sent => Some sent | _ => None end) h.

Ltac of_app := unfold taken_of, sent_of, counted_of, settled_of in *; rewrite ?omap_app; cbn [omap list_omap].

Section Accounting.
Context `{Primitives} (env : Env) (cfg : CoreConfig) (packet : list Z) (resolved : ResolvedTargets).

Definition blamed_of (h : list action) : list Z := concat (map (blamed resolved) (settled_of h)).

(** Wherever a request has come to: it took its packets in the order of the channel and
    counted every valid one, except perhaps the last; it sent nothing but its packet,
    to the targets of its snapshot, in deliveries of which all but the current one are
    settled; it replaced no socket. *)
Record accounted (w0 : World) (h : list action) (f : flight) : Prop := {
  acc_taken : inbox w0 = taken_of h ++ inbox f.1;
  acc_counted : omap (fun x => response_id cfg resolved x.2) (taken_of h) = counted_of h ++ option_list (pending f.2);
  acc_sends : sends f.1 = sends w0 ++ sent_of h;
  acc_packet : Forall (fun s => send_packet s = packet /\ send_target s ∈ targets resolved) (sent_of h);
  acc_settled : sent_of h = concat (settled_of h) ++ batch f.2;
  acc_sockets : sockets f.1 = sockets w0;
}.

Lemma step_accounted w0 h f a f' :
  accounted w0 h f -> flight_step env cfg packet resolved f a f' -> accounted w0 (h ++ [a]) f'.
Proof.
  intros [Ht Hc Hs Hp Hb Hk].
  destruct 1 as [w c|w remaining w' E|w remaining w' x p E Hi|w id|w sent target sd Htg ->|w sent];
    cbn [fst snd pending batch idle option_list] in *;
    try (destruct (recv_frame env _ _ _ _ E) as (Hf1 & Hf2 & Hf3));
    split; of_app; cbn [fst snd pending batch idle option_list sends set_stats sockets inbox]; rewrite ?app_nil_r in *;
    try done; try congruence.
  - by rewrite Ht, Hf3.
  - by rewrite <- app_assoc, Ht, Hi.
  - rewrite Hc. by destruct (response_id _ _ p).
  - cbn [send_datagram snd sends]. by rewrite Hs, app_assoc.
  - apply Forall_app. split; [done|]. by apply Forall_singleton.
  - by rewrite Hb, app_assoc.
  - rewrite concat_app. cbn [concat]. by rewrite app_nil_r.
Qed.

Lemma flown_accounted w h f : flown env cfg packet resolved (w, idle) h f -> accounted w h f.
Proof.
  intros Hrun. apply (trace_ghost (flight_step env cfg packet resolved) (accounted w) (w, idle) h f); [|done|].
  - intros h0 a l b. apply step_accounted.
  - by split; cbn; rewrite ?app_nil_r.
Qed.

(** The statistics have had the effects of the actions. *)
Lemma flown_effects f h f' :
  flown env cfg packet resolved f h f' -> server_stats f'.1 = effects resolved h (server_stats f.1).
Proof.
  induction 1 as [|f a f1 h f' Hs _ IH]; [done|]. rewrite IH. unfold effects. cbn [fold_left]. f_equal.
  by apply (step_blind env cfg packet resolved f a f1 ∅ Hs).
Qed.

End Accounting.

(** ** Counting *)

(** The counters of a server; a server without an entry has counted nothing. *)
Definition valid_count (stats : gmap Z ServerStats) (id : Z) : Z :=
  match stats !! id with Some s => valid_responses s | None => 0 end.
Definition failure_count (stats : gmap Z ServerStats) (id : Z) : Z :=
  match stats !! id with Some s => send_failures s | None => 0 end.
Definition stats_ok (stats : gmap Z ServerStats) : Prop :=
  forall id, in_u64 (valid_count stats id) /\ in_u64 (failure_count stats id).

(** How often a server occurs. *)
Definition times (id : Z) (ids : list Z) : Z := zlen (List.filter (Z.eqb id) ids).

Lemma times_app id a b : times id (a ++ b) = times id a + times id b.
Proof. unfold times. by rewrite List.filter_app, zlen_app. Qed.
Lemma times_cons id x ids : times id (x :: ids) = (if id =? x then 1 else 0) + times id ids.
Proof. unfold times. cbn [List.filter]. destruct (id =? x); rewrite ?zlen_cons; lia. Qed.

Lemma times_one id x : times id [x] = if id =? x then 1 else 0.
Proof. rewrite times_cons. change (times id []) with 0. lia. Qed.

Lemma as_u64_add a b : as_u64 (as_u64 a + b) = as_u64 (a + b).
Proof. unfold as_u64. by rewrite Z.add_mod_idemp_l. Qed.

Lemma upsert_counts t id f stats id' :
  let old := default (new_server_stats t) (stats !! id) in
  valid_count (upsert_stats t id f stats) id' = (if id' =? id then valid_responses (f old) else valid_count stats id') /\
  failure_count (upsert_stats t id f stats) id' = (if id' =? id then send_failures (f old) else failure_count stats id').
Proof.
  cbv zeta. unfold valid_count, failure_count, upsert_stats. destruct (Z.eqb_spec id' id) as [->|Hne].
  - by rewrite lookup_insert_eq.
  - by rewrite lookup_insert_ne by done.
Qed.

Lemma old_counts t id stats :
  let old := default (new_server_stats t) (stats !! id) in
  valid_responses old = valid_count stats id /\ send_failures old = failure_count stats id.
Proof. unfold valid_count, failure_count. cbv zeta. by destruct (stats !! id). Qed.

Lemma count_response_counts t id stats id' :
  stats_ok stats ->
  valid_count (count_response t id stats) id' = as_u64 (valid_count stats id' + times id' [id]) /\
  failure_count (count_response t id stats) id' = failure_count stats id'.
Proof.
  intros Hs. destruct (old_counts t id stats) as [Hv Hf]. unfold count_response.
  destruct (upsert_counts t id (fun s => mkServerStats t (bump (valid_responses s)) (send_failures s)) stats id')
    as [-> ->]. cbn [valid_responses send_failures]. rewrite Hv, Hf, times_one.
  destruct (Hs id') as [[H0 H1] _]. unfold u64_max in *. destruct (Z.eqb_spec id' id) as [->|Hne]; [by split|].
  split; [|done]. rewrite as_u64_small; lia.
Qed.

Lemma count_failures_counts t ids stats id' :
  stats_ok stats ->
  valid_count (count_failures t ids stats) id' = valid_count stats id' /\
  failure_count (count_failures t ids stats) id' = as_u64 (failure_count stats id' + times id' ids).
Proof.
  revert stats. induction ids as [|id ids IH]; intros stats Hs; unfold count_failures in *; cbn [fold_left].
  { destruct (Hs id') as [_ [H0 H1]]. unfold u64_max in *. change (times id' []) with 0.
    rewrite as_u64_small by lia. split; [done | lia]. }
  destruct (old_counts t id stats) as [Hv Hf].
  set (s1 := upsert_stats _ _ _ stats).
  assert (Hs1 : forall i, valid_count s1 i = valid_count stats i /\
    failure_count s1 i = as_u64 (failure_count stats i + times i [id])).
  { intros i. subst s1. destruct (upsert_counts t id
      (fun s => mkServerStats (last_seen s) (valid_responses s) (bump (send_failures s))) stats i) as [-> ->].
    cbn [valid_responses send_failures]. rewrite Hv, Hf, times_one.
    destruct (Hs i) as [_ [H0 H1]]. unfold u64_max in *. destruct (Z.eqb_spec i id) as [->|Hne]; [by split|].
    split; [done|]. rewrite as_u64_small; lia. }
  destruct (IH s1) as [-> ->].
  { intros i. destruct (Hs1 i) as [-> ->]. split; [apply Hs|]. unfold in_u64, u64_max, as_u64.
    pose proof (Z.mod_pos_bound (failure_count stats i + times i [id]) (2 ^ 64)). lia. }
  destruct (Hs1 id') as [-> ->]. split; [done|]. rewrite as_u64_add, times_one, times_cons. f_equal. lia.
Qed.

(** An action counts what it says. *)
Lemma effect_counts `{Primitives} resolved a stats id :
  stats_ok stats ->
  valid_count (effect resolved a stats) id = as_u64 (valid_count stats id + times id (counted_of [a])) /\
  failure_count (effect resolved a stats) id = as_u64 (failure_count stats id + times id (blamed_of resolved [a])).
Proof.
  intros Hs. destruct (Hs id) as [[Hv0 Hv1] [Hf0 Hf1]]. unfold u64_max in *.
  assert (Hsame : valid_count stats id = as_u64 (valid_count stats id + times id []) /\
                  failure_count stats id = as_u64 (failure_count stats id + times id [])).
  { change (times id []) with 0. rewrite !as_u64_small by lia. lia. }
  destruct Hsame as [Hv Hf]. unfold blamed_of. destruct a as [| |x|t i|s|t sent]; cbn [effect]; try done.
  - by destruct (count_response_counts t i stats id Hs) as [-> ->].
  - cbn [counted_of settled_of omap list_omap map concat]. rewrite app_nil_r.
    by destruct (count_failures_counts t (blamed resolved sent) stats id Hs) as [-> ->].
Qed.

Lemma as_u64_range z : in_u64 (as_u64 z).
Proof. unfold in_u64, u64_max, as_u64. pose proof (Z.mod_pos_bound z (2 ^ 64)). lia. Qed.

Lemma effect_ok `{Primitives} resolved a stats : stats_ok stats -> stats_ok (effect resolved a stats).
Proof. intros Hs id. destruct (effect_counts resolved a stats id Hs) as [-> ->]. split; apply as_u64_range. Qed.

(** ** Concurrent requests *)

(** What a request of a client runs with; the configuration is the client's. *)
Record plan := mkPlan { pl_env : Env; pl_packet : list Z; pl_resolved : ResolvedTargets }.

(** Requests share the statistics; what a flight has for them is ignored. *)
Record fleet := mkFleet { fleet_stats : gmap Z ServerStats; fleet_flights : list flight }.

Section Fleet.
Context `{Primitives} (cfg : CoreConfig) (plans : list plan).

(** Any request that can takes its next step; a dropped one takes no more. *)
Inductive fleet_step : fleet -> nat * action -> fleet -> Prop :=
| fleet_move stats flights i p f a f' :
    plans !! i = Some p -> flights !! i = Some f ->
    flight_step (pl_env p) cfg (pl_packet p) (pl_resolved p) (with_stats stats f) a f' ->
    fleet_step (mkFleet stats flights) (i, a) (mkFleet (server_stats f'.1) (<[i:=f']> flights)).

(** What request [i] did. *)
Definition own (i : nat) (h : list (nat * action)) : list action :=
  omap (fun x => if bool_decide (x.1 = i) then Some x.2 else None) h.

Lemma own_snoc i h j a : own i (h ++ [(j, a)]) = if bool_decide (j = i) then own i h ++ [a] else own i h.
Proof. unfold own. rewrite omap_app. cbn. case_bool_decide; [done | by rewrite app_nil_r]. Qed.

Definition blamed_by (i : nat) (h : list (nat * action)) : list Z :=
  match plans !! i with Some p => blamed_of (pl_resolved p) (own i h) | None => [] end.

Definition start (stats : gmap Z ServerStats) (ws : list World) : fleet :=
  mkFleet stats (map (fun w => (w, idle)) ws).

(** Each request does what it could do alone. *)
Lemma fleet_alone stats ws h F i p w :
  trace fleet_step (start stats ws) h F -> plans !! i = Some p -> ws !! i = Some w ->
  exists f, fleet_flights F !! i = Some f /\
    flown (pl_env p) cfg (pl_packet p) (pl_resolved p) (w, idle) (own i h)
      (with_stats (effects (pl_resolved p) (own i h) (server_stats w)) f).
Proof.
  intros Hrun Hp Hw.
  apply (trace_ghost fleet_step (fun h F => exists f, fleet_flights F !! i = Some f /\
    flown (pl_env p) cfg (pl_packet p) (pl_resolved p) (w, idle) (own i h)
      (with_stats (effects (pl_resolved p) (own i h) (server_stats w)) f)) (start stats ws)); [|done|].
  - intros h0 F0 [j a] F1 (f & Hf & Hfl) Hstep. inversion Hstep as [st fs j' q g a' g' Hq Hg Hs]; subst. cbn in *.
    rewrite own_snoc. case_bool_decide as Hj; [subst j|].
    + exists g'. split; [apply list_lookup_insert_eq; by eapply lookup_lt_Some|]. simplify_eq.
      destruct (step_blind _ _ _ _ _ _ _ (effects (pl_resolved p) (own i h0) (server_stats w)) Hs) as [Hb _].
      eapply trace_app; [exact Hfl|]. rewrite effects_app. by apply trace_one.
    + exists f. split; [by rewrite list_lookup_insert_ne | done].
  - exists (w, idle). split; [unfold start; cbn; by rewrite list_lookup_fmap, Hw|].
    unfold with_stats. cbn [effects fold_left fst snd own omap list_omap]. rewrite set_same. constructor.
Qed.

Lemma sum_at n i (f g : nat -> Z) d :
  (i < n)%nat -> (forall j, j <> i -> g j = f j) -> g i = f i + d ->
  sum_list_with_Z g (seq 0 n) = sum_list_with_Z f (seq 0 n) + d.
Proof.
  intros Hi Hne Heq. induction n as [|n IH]; [lia|]. rewrite seq_S, !sum_app_Z. cbn [Nat.add sum_list_with_Z].
  destruct (decide (i = n)) as [->|Hin].
  - rewrite Heq. enough (sum_list_with_Z g (seq 0 n) = sum_list_with_Z f (seq 0 n)) by lia.
    clear -Hne. assert (Hlt : forall j, j ∈ seq 0 n -> j <> n) by (intros j Hj%elem_of_seq; lia).
    induction (seq 0 n) as [|j l IHl]; [done|]. cbn [sum_list_with_Z].
    rewrite Hne, IHl; [done | set_solver | apply Hlt; set_solver].
  - rewrite IH, Hne by lia. lia.
Qed.

Definition total (n : nat) (f : nat -> list Z) (id : Z) : Z := sum_list_with_Z (fun i => times id (f i)) (seq 0 n).

(** The statistics are the sums of what the requests counted. *)
Lemma fleet_counts stats ws h F :
  stats_ok stats -> trace fleet_step (start stats ws) h F ->
  let n := length plans in
  stats_ok (fleet_stats F) /\
  forall id,
    valid_count (fleet_stats F) id = as_u64 (valid_count stats id + total n (fun i => counted_of (own i h)) id) /\
    failure_count (fleet_stats F) id = as_u64 (failure_count stats id + total n (fun i => blamed_by i h) id).
Proof.
  intros Hs Hrun. cbv zeta.
  apply (trace_ghost fleet_step (fun h F => stats_ok (fleet_stats F) /\ forall id,
    valid_count (fleet_stats F) id
      = as_u64 (valid_count stats id + total (length plans) (fun i => counted_of (own i h)) id) /\
    failure_count (fleet_stats F) id
      = as_u64 (failure_count stats id + total (length plans) (fun i => blamed_by i h) id)) (start stats ws)); [|done|].
  - intros h0 F0 [j a] F1 [Hok Hc] Hstep. inversion Hstep as [st fs j' q g a' g' Hq Hg Hst]; subst. cbn in *.
    destruct (step_blind _ _ _ _ _ _ _ ∅ Hst) as [_ He]. cbn in He. rewrite He. split; [by apply effect_ok|].
    intros id. destruct (effect_counts (pl_resolved q) a st id Hok) as [-> ->]. destruct (Hc id) as [-> ->].
    rewrite !as_u64_add. assert (Hj : (j < length plans)%nat) by (by eapply lookup_lt_Some).
    unfold total. split; f_equal; rewrite <- Z.add_assoc; f_equal; symmetry; apply (sum_at _ j); try done;
      try (intros i Hi; unfold blamed_by; rewrite own_snoc, bool_decide_false by done; done);
      unfold blamed_by, blamed_of; rewrite ?Hq, own_snoc, bool_decide_true by done; of_app.
    + by rewrite times_app.
    + by rewrite map_app, concat_app, times_app.
  - split; [done|]. intros id. destruct (Hs id) as [[? ?] [? ?]]. unfold u64_max in *.
    assert (Hz : forall f, (forall i, f i = []) -> total (length plans) f id = 0).
    { intros f Hf. unfold total. induction (seq 0 (length plans)) as [|i l IH]; [done|].
      cbn [sum_list_with_Z]. rewrite Hf. change (times id []) with 0. lia. }
    rewrite !Hz, !Z.add_0_r, !as_u64_small; [done | lia.. | |]; intros i; [|done].
    unfold blamed_by. by destruct (plans !! i).
Qed.

End Fleet.

(** ** Theorems *)

(** An operation of one request that is made of atomic steps: they lead from idle to
    idle, whatever the statistics are, and wherever among them the request is stopped,
    all that it did is accounted for. *)
Definition in_flight `{Primitives} {A} env cfg packet resolved (m : act A) (w : World) : Prop :=
  exists h,
    flown env cfg packet resolved (w, idle) h ((m w).2, idle) /\
    (forall stats, m (set_stats stats w) = ((m w).1, set_stats (effects resolved h stats) (m w).2)) /\
    forall h1 h2, h = h1 ++ h2 -> exists f,
      flown env cfg packet resolved (w, idle) h1 f /\
      flown env cfg packet resolved f h2 ((m w).2, idle) /\ accounted cfg packet resolved w h1 f.

Lemma flies_in_flight `{Primitives} {A} env cfg packet resolved (m : act A) w :
  flies env cfg packet resolved idle m (fun _ c => c = idle) -> arrivals_ok (inbox w) ->
  in_flight env cfg packet resolved m w.
Proof.
  intros Hm Ha. destruct (Hm w Ha) as (h & c & Hrun & Hs & Hq).
  assert (c = idle) as -> by (by destruct (m w).1). exists h. split; [done|]. split; [done|].
  intros h1 h2 ->. apply trace_app_inv in Hrun as (f & H1 & H2). exists f. split; [done|]. split; [done|].
  by eapply flown_accounted.
Qed.

(** C11. What [Selection] and [Client] run as one function is a sequence of atomic steps
    of a future: the delivery of a request, and that of a report, take only steps of
    [flight_step], whatever the server statistics are, which they change but never read;
    and at whatever step they are stopped, packets were taken in channel order, every
    valid response was counted except perhaps one just taken, nothing was sent but the
    packet, to servers of the snapshot, and the failures of all finished deliveries
    were counted. *)
Theorem delivery_in_flight `{PrimitivesLaws} env cfg policy dedup packet resolved w
    (Hcfg : config_ok cfg) (Ha : arrivals_ok (inbox w)) :
  in_flight env cfg packet resolved (deliver_and_select env cfg policy dedup packet resolved) w /\
  in_flight env cfg packet resolved (send_report env packet resolved) w.
Proof. split; apply flies_in_flight; [by apply flies_deliver | done | by apply flies_send_report | done]. Qed.

(** C12. The server statistics are exact under concurrency: however the steps of any
    number of requests of a client interleave, and wherever some of them are dropped,
    each request does what it could do alone, and the counters of every server are,
    modulo [2^64], the initial ones plus what the requests counted - for each request
    the valid responses it took, except perhaps the last, and the unreached servers of
    its finished deliveries - so they do not depend on the interleaving. *)
Theorem statistics_exact `{Primitives} cfg plans stats ws h F
    (Hs : stats_ok stats) (Hrun : trace (fleet_step cfg plans) (start stats ws) h F) :
  (forall i p w, plans !! i = Some p -> ws !! i = Some w -> exists f,
     fleet_flights F !! i = Some f /\ accounted cfg (pl_packet p) (pl_resolved p) w (own i h) f) /\
  forall id,
    valid_count (fleet_stats F) id
      = as_u64 (valid_count stats id + total (length plans) (fun i => counted_of (own i h)) id) /\
    failure_count (fleet_stats F) id
      = as_u64 (failure_count stats id + total (length plans) (fun i => blamed_by plans i h) id).
Proof.
  split; [|by apply (fleet_counts cfg plans stats ws h F Hs Hrun)].
  intros i p w Hp Hw. destruct (fleet_alone cfg plans stats ws h F i p w Hrun Hp Hw) as (f & Hf & Hfl).
  exists f. split; [done|]. apply flown_accounted in Hfl as []. by split.
Qed.

(** ** Two requests of the demo client *)

Definition demo_plan : plan := mkPlan demo_env [1] demo_targets.

(** Both take a response of the same server, and the second counts it first. *)
Definition demo_history : list (nat * action) :=
  [(0%nat, Take (5000000, mkResponsePacket demo_response demo_addr));
   (1%nat, Take (5000000, mkResponsePacket demo_response demo_addr));
   (1%nat, Count 5000000 77); (0%nat, Count 5000000 77)].

Lemma demo_take stats :
  flight_step (H:=toy_primitives) demo_env demo_cookie_config [1] demo_targets
    (with_stats stats (demo_world, idle)) (Take (5000000, mkResponsePacket demo_response demo_addr))
    (set_stats stats (recv_timeout demo_env 6000000 demo_world).2, mkControl (Some 77) []).
Proof.
  assert (@response_id toy_primitives demo_cookie_config demo_targets (mkResponsePacket demo_response demo_addr) = Some 77)
    as <- by (vm_compute; reflexivity).
  by apply (step_take _ _ _ _ _ 6000000).
Qed.

Lemma demo_count stats stats' :
  flight_step (H:=toy_primitives) demo_env demo_cookie_config [1] demo_targets
    (with_stats stats (set_stats stats' (recv_timeout demo_env 6000000 demo_world).2, mkControl (Some 77) []))
    (Count 5000000 77)
    (set_stats (count_response 5000000 77 stats) (recv_timeout demo_env 6000000 demo_world).2, idle).
Proof. exact (step_count _ _ _ _ (set_stats stats (recv_timeout demo_env 6000000 demo_world).2) 77). Qed.

Lemma demo_fleet_run :
  exists F, trace (@fleet_step toy_primitives demo_cookie_config [demo_plan; demo_plan])
    (start ∅ [demo_world; demo_world]) demo_history F.
Proof.
  eexists. eapply trace_cons; [eapply (fleet_move _ _ _ _ 0 demo_plan (demo_world, idle)); [done | done | apply demo_take]|].
  eapply trace_cons; [eapply (fleet_move _ _ _ _ 1 demo_plan (demo_world, idle)); [done | done | apply demo_take]|].
  eapply trace_cons; [eapply (fleet_move _ _ _ _ 1 demo_plan); [done | done | apply demo_count]|].
  eapply trace_one. eapply (fleet_move _ _ _ _ 0 demo_plan); [done | done | apply demo_count].
Qed.

Lemma delivery_in_flight_witness :
  @in_flight toy_primitives RateLimitResult demo_env demo_cookie_config [1] demo_targets
    (@deliver_and_select toy_primitives demo_env demo_cookie_config default_policy 60 [1] demo_targets) demo_world.
Proof.
  apply (@delivery_in_flight toy_primitives toy_primitives_laws).
  - exact demo_cookie_ok.
  - exact demo_inbox_ok.
Defined.

Lemma statistics_exact_witness :
  exists F, trace (@fleet_step toy_primitives demo_cookie_config [demo_plan; demo_plan])
    (start ∅ [demo_world; demo_world]) demo_history F /\ valid_count (fleet_stats F) 77 = 2 /\
    failure_count (fleet_stats F) 77 = 0.
Proof.
  destruct demo_fleet_run as [F Hrun]. exists F. split; [exact Hrun|].
  destruct (@statistics_exact toy_primitives demo_cookie_config [demo_plan; demo_plan] ∅ [demo_world; demo_world] demo_history F)
    as [_ Hc]; [intros id; split; split; vm_compute; discriminate | exact Hrun |].
  destruct (Hc 77) as [-> ->]. split; vm_compute; reflexivity.
Defined.
