(* ===== verification/Dropped.v ===== *)
(** * Dropped operations (src/src/client.rs, src/src/public_client.rs)

    The future of a request or report may be dropped wherever it awaits; its
    registration with the router goes with it, what it changed stays.  Here: every
    client that a dropped operation leaves behind, and the lifetime of a client whose
    operations complete or are dropped in any order. *)

From S2P Require Import Prelude Transitions Errors Codec ApiKey Durations Policy Net Sockets Discovery Config Wire.
From S2P Require Import Auth Request Response World Selection Steering Client Model PublicClient Session Flight.

(** ** Where an operation stops *)

Definition put_world (c : Client) (w : World) : Client :=
  mkClient (cl_discovery c) (cl_steering c) (cl_socket_epoch c) w.

Definition put_sockets (c : Client) (s : SocketState) : Client :=
  let w := cl_world c in
  mkClient (cl_discovery c) (steering_stats s) (socket_epoch s)
    (mkWorld (now w) (steps w) (inbox w) (socket s) (server_stats w) (sends w)).

Section Stops.
Context `{Primitives} `{IpText} (env : Env) (cfg : CoreConfig) (dns : Resolver)
  (os_bind : nat -> Z -> bool -> io_error + Z) (request_id : list Z) (now_millis : Z) (nonce : list Z).

(** Before its delivery: nothing but the clock was read until a refresh is complete,
    which replaces the list and the time of the refresh at once. *)
Inductive stopped_early (c : Client) : Client -> Prop :=
| stop_refreshing n :
    stopped_early c (put_world c (Nat.iter n (fun w => (clock env w).2) (cl_world c)))
| stop_refreshed c1 :
    maybe_refresh env cfg dns c = (Ok tt, c1) -> stopped_early c c1.

(** Within the delivery [m]: between two of its steps. *)
Inductive stopped_within {A} packet resolved (m : act A) (c : Client) : Client -> Prop :=
| stop_between h1 h2 w ctl :
    flown env cfg packet resolved (cl_world c, idle) h1 (w, ctl) ->
    flown env cfg packet resolved (w, ctl) h2 ((m (cl_world c)).2, idle) ->
    stopped_within packet resolved m c (put_world c w).

(** A request that got as far as its delivery. *)
Record launched (resources : list ResourceRequest) (guards : list LatencyGuard) (label : option str)
    (c c1 : Client) (dedup : Z) (packet : list Z) (resolved : ResolvedTargets) : Prop := {
  ln_limits : validate_rate_windows_against_quota resources
                (Some (rate_window_size_ms_max (cfg_limits (api_key cfg)))) = Ok tt;
  ln_asks : bool_decide (resources = []) && bool_decide (guards = []) = false;
  ln_horizon : horizon_ms (request_policy cfg) (dedup_ttl_ms_max (cfg_limits (api_key cfg))) = Ok dedup;
  ln_refreshed : maybe_refresh env cfg dns c = (Ok tt, c1);
  ln_resolved : current_targets dns (cl_discovery c1) = Ok resolved;
  ln_targets : targets resolved <> [];
  ln_packet : rate_request_packet cfg request_id now_millis nonce dedup resources guards label = Ok packet;
}.

(** [check_rate_limit], dropped. *)
Inductive stopped_request resources guards label (c : Client) : Client -> Prop :=
| stop_early c' :
    bool_decide (resources = []) && bool_decide (guards = []) = false ->
    stopped_early c c' -> stopped_request resources guards label c c'
| stop_delivering c1 dedup packet resolved c' :
    launched resources guards label c c1 dedup packet resolved ->
    stopped_within packet resolved (deliver_and_select env cfg (request_policy cfg) dedup packet resolved) c1 c' ->
    stopped_request resources guards label c c'
| stop_steering c1 dedup packet resolved result c2 s :
    launched resources guards label c c1 dedup packet resolved ->
    in_world (deliver_and_select env cfg (request_policy cfg) dedup packet resolved) c1 = (Ok result, c2) ->
    steering_advised (cfg_steering_feedback (api_key cfg)) (ignore_steering_feedback cfg)
      (steering_feedback result) = true ->
    s ∈ rebind_awaits os_bind (sockets_of c2) ->
    stopped_request resources guards label c (put_sockets c2 s).

(** [report_latency], dropped. *)
Inductive stopped_report (reports : list ServiceLatencyReport) (c : Client) : Client -> Prop :=
| stop_report_early c' :
    reports <> [] -> stopped_early c c' -> stopped_report reports c c'
| stop_reporting c1 packet resolved c' :
    reports <> [] -> maybe_refresh env cfg dns c = (Ok tt, c1) ->
    latency_report_packet cfg request_id now_millis nonce reports = Ok packet ->
    current_targets dns (cl_discovery c1) = Ok resolved ->
    stopped_within packet resolved (send_report env packet resolved) c1 c' ->
    stopped_report reports c c'.

End Stops.

(** ** What a stop leaves behind *)

Section Stops_spec.
Context `{PrimitivesLaws} `{IpTextLaws} (env : Env) (Henv : env_ok env) (cfg : CoreConfig)
  (Hcfg : config_ok cfg) (dns : Resolver) (Hdns : resolver_ok dns)
  (os_bind : nat -> Z -> bool -> io_error + Z) (request_id : list Z) (now_millis : Z) (nonce : list Z)
  (Hid : array_ok 16 request_id) (Hnow : in_u64 now_millis) (Hnonce : array_ok 12 nonce).

Lemma flown_sends packet resolved f h f' :
  flown env cfg packet resolved f h f' -> sends f.1 `prefix_of` sends f'.1.
Proof.
  induction 1 as [|f a f1 h f' Hs _ IH]; [done|]. etrans; [|exact IH].
  destruct Hs as [w c|w remaining w' E|w remaining w' x p E Hi|w id|w sent target sd Ht ->|w sent]; cbn [fst]; try done.
  - by destruct (recv_frame env _ _ _ _ E) as (-> & _).
  - by destruct (recv_frame env _ _ _ _ E) as (-> & _).
  - by eexists.
Qed.

Lemma ticks_calm n w : calm env w (Nat.iter n (fun w => (clock env w).2) w).
Proof.
  induction n as [|n IH]; [apply calm_refl|]. rewrite Nat.iter_succ. eapply calm_trans; [exact IH|].
  destruct (clock_calm env (Nat.iter n (fun w => (clock env w).2) w)) as (w' & -> & Hw). exact Hw.
Qed.

Lemma stopped_early_ok c c' :
  client_ok c -> stopped_early env cfg dns c c' -> client_ok c' /\ sends (cl_world c') = sends (cl_world c).
Proof.
  intros Hc [n|c1 Hm].
  - destruct Hc as (Hd & Hs & Ha). pose proof (ticks_calm n (cl_world c)) as [Hi Hse Hso _ _].
    split; [|done]. split; [done|]. unfold sockets_of in *. cbn [put_world cl_world cl_steering cl_socket_epoch].
    by rewrite Hso, Hi.
  - destruct (maybe_refresh_spec env cfg dns Hdns c Hc) as (c2 & (Hc2 & Hcalm & _) & [E|E]); [|congruence].
    assert (c2 = c1) as <- by congruence. split; [done|]. by apply (calm_sends _ _ _ Hcalm).
Qed.

Lemma stopped_within_ok {A} packet resolved (m : act A) c c' :
  client_ok c -> stopped_within env cfg packet resolved m c c' ->
  client_ok c' /\ sends (cl_world c) `prefix_of` sends (cl_world c') /\
  sends (cl_world c') `prefix_of` sends (m (cl_world c)).2.
Proof.
  intros (Hd & Hs & Ha) [h1 h2 w ctl Hf1 Hf2]. split; [|split].
  - split; [done|]. pose proof (flown_accounted _ _ _ _ _ _ _ Hf1) as [_ _ _ _ _ Hso].
    unfold sockets_of in *. cbn [put_world cl_world cl_steering cl_socket_epoch fst] in *. rewrite Hso.
    split; [done|]. exact (flown_arrivals _ _ _ _ _ _ _ Hf1 Ha).
  - exact (flown_sends _ _ _ _ _ Hf1).
  - exact (flown_sends _ _ _ _ _ Hf2).
Qed.

Lemma delivery_prefix dedup packet resolved c result c2 :
  in_world (deliver_and_select env cfg (request_policy cfg) dedup packet resolved) c = (Ok result, c2) ->
  sends (cl_world c) `prefix_of` sends (cl_world c2).
Proof.
  intros E. destruct (emits_deliver env cfg (request_policy cfg) dedup packet resolved (cl_world c)) as (new & Hs & _).
  unfold in_world in E. destruct (deliver_and_select _ _ _ _ _ _ _) as [res w]. injection E as _ <-.
  cbn in *. rewrite Hs. by eexists.
Qed.

Lemma launched_run resources guards label c c1 dedup packet resolved :
  launched env cfg dns request_id now_millis nonce resources guards label c c1 dedup packet resolved ->
  check_rate_limit env cfg dns os_bind request_id now_millis nonce resources guards label c
  = (result ← in_world (deliver_and_select env cfg (request_policy cfg) dedup packet resolved);
     _ ← apply_steering_feedback cfg os_bind result;
     cret result) c1.
Proof.
  intros [Hv Ha Hh Hm Ht Hne Hp]. unfold check_rate_limit, effective_request_policy.
  rewrite (cact_run (clift _) _ c tt c) by (unfold clift; by rewrite Hv). rewrite Ha.
  rewrite (cact_run (clift _) _ c dedup c) by (unfold clift; by rewrite Hh).
  rewrite (cact_run _ _ _ _ _ Hm), (cact_run _ _ c1 resolved c1) by (unfold clift; by rewrite Ht).
  rewrite (cact_run (clift _) _ c1 tt c1) by (unfold clift; by rewrite bool_decide_false).
  by rewrite (cact_run (clift _) _ c1 packet c1) by (unfold clift; by rewrite Hp).
Qed.

(** Once delivered, a request sends no more. *)
Lemma launched_sends resources guards label c c1 dedup packet resolved :
  client_ok c ->
  launched env cfg dns request_id now_millis nonce resources guards label c c1 dedup packet resolved ->
  let c2 := (in_world (deliver_and_select env cfg (request_policy cfg) dedup packet resolved) c1).2 in
  client_ok c1 /\ client_ok c2 /\ sends (cl_world c1) = sends (cl_world c) /\
  sends (cl_world (check_rate_limit env cfg dns os_bind request_id now_millis nonce resources guards label c).2)
  = sends (cl_world c2).
Proof.
  intros Hc Hl. rewrite (launched_run _ _ _ _ _ _ _ _ Hl). destruct Hl as [_ _ _ Hm Ht Hne _].
  destruct (maybe_refresh_spec env cfg dns Hdns c Hc) as (c1' & (Hc1 & Hcalm & _) & [E|E]); [|congruence].
  assert (c1' = c1) as -> by congruence.
  destruct (targets_spec env Henv cfg Hcfg dns Hdns c1 Hc1) as (resolved' & Ht' & Hsnap & _).
  assert (resolved' = resolved) as -> by congruence.
  destruct (delivery_spec env Henv cfg Hcfg dns Hdns os_bind dedup packet resolved c1 Hc1 Hsnap Hne)
    as (res & c2 & new & E2 & Hc2 & _). rewrite E2. cbn [snd].
  split; [done|]. split; [done|]. split; [by apply (calm_sends _ _ _ Hcalm)|].
  destruct res as [result|e|];
    [|unfold mbind, cact_bind; by rewrite E2..].
  rewrite (cact_run _ _ _ _ _ E2).
  destruct (steering_spec cfg os_bind result c2 Hc2) as (c3 & _ & Hs3 & _ & [Es|[io Es]]);
    unfold mbind, cact_bind; rewrite Es; cbn; by rewrite Hs3.
Qed.

Lemma stopped_request_ok resources guards label c c' :
  client_ok c -> Forall resource_request_ok resources -> Forall guard_request_ok guards -> label_ok label ->
  stopped_request env cfg dns os_bind request_id now_millis nonce resources guards label c c' ->
  client_ok c' /\ sends (cl_world c) `prefix_of` sends (cl_world c') /\
  sends (cl_world c') `prefix_of`
    sends (cl_world (check_rate_limit env cfg dns os_bind request_id now_millis nonce resources guards label c).2).
Proof.
  intros Hc Hr Hg Hl [c'' _ Hs|c1 dedup packet resolved c'' Hln Hs|c1 dedup packet resolved result c2 s Hln E Hadv Hin].
  - destruct (stopped_early_ok c c'' Hc Hs) as [Hc'' Hse]. split; [done|]. rewrite Hse. split; [done|].
    destruct (check_rate_limit_stages env Henv cfg Hcfg dns Hdns os_bind request_id now_millis nonce Hid Hnow Hnonce
      resources guards label c Hc Hr Hg Hl) as (r & c3 & new & -> & _ & Hs3 & _). cbn [snd]. rewrite Hs3. by eexists.
  - destruct (launched_sends _ _ _ _ _ _ _ _ Hc Hln) as (Hc1 & _ & Hs1 & ->).
    destruct (stopped_within_ok _ _ _ _ _ Hc1 Hs) as (Hc'' & Hp1 & Hp2). rewrite Hs1 in Hp1.
    split; [done|]. split; [done|]. unfold in_world. by destruct (deliver_and_select _ _ _ _ _ _ _).
  - destruct (launched_sends _ _ _ _ _ _ _ _ Hc Hln) as (Hc1 & Hc2 & Hs1 & ->). rewrite E in *. cbn [snd] in *.
    pose proof (delivery_prefix _ _ _ _ _ _ E) as Hp. rewrite Hs1 in Hp.
    destruct Hc2 as (Hd & Hs & Ha). split; [|by split]. split; [done|]. split; [|done].
    pose proof (rebind_awaits_ok os_bind _ _ Hs Hin) as Hok. by destruct s.
Qed.

Lemma stopped_report_ok reports c c' :
  client_ok c -> stopped_report env cfg dns request_id now_millis nonce reports c c' -> client_ok c'.
Proof.
  intros Hc [c'' _ Hs|c1 packet resolved c'' _ Hm _ _ Hs]; [by eapply stopped_early_ok|].
  eapply stopped_within_ok; [|exact Hs].
  destruct (maybe_refresh_spec env cfg dns Hdns c Hc) as (c1' & (Hc1 & _) & [E|E]); [|congruence].
  by replace c1 with c1' by congruence.
Qed.

End Stops_spec.

(** ** Lifetimes *)

Definition put_inner (pc : PublicClient) (c : Client) : PublicClient :=
  mkPublicClient (pc_config pc) c (pc_service_domain pc) (pc_limits pc).

Section Lifetimes.
Context `{Primitives} `{IpText}.

(** An operation completes with its result, or is dropped. *)
Inductive happens (cd : Conditions) (pc : PublicClient)
  : operation -> option (outcome Error (option Response)) -> PublicClient -> Prop :=
| completes op r pc' :
    run_operation cd op pc = (r, pc') -> happens cd pc op (Some r) pc'
| request_dropped ops b c' :
    let pc1 := with_arrivals (cd_arrivals cd) pc in
    build_request (pc_limits pc1) ops request = Ok b ->
    stopped_request (cd_env cd) (pc_config pc1) (cd_dns cd) (cd_bind cd) (cd_request_id cd) (cd_now_millis cd)
      (cd_nonce cd) (rb_resources b) (rb_guards b) (rb_metrics_label b) (pc_inner pc1) c' ->
    happens cd pc (SendRequest ops) None (put_inner pc1 c')
| report_dropped tracker observed ms c' :
    let pc1 := with_arrivals (cd_arrivals cd) pc in
    duration_to_u32_ms observed (lit "observed latency") = Ok ms ->
    stopped_report (cd_env cd) (pc_config pc1) (cd_dns cd) (cd_request_id cd) (cd_now_millis cd) (cd_nonce cd)
      [mkServiceLatencyReport (lt_name tracker) ms (lt_sample_ttl_ms tracker) (lt_max_samples tracker)
         (lt_min_samples tracker)] (pc_inner pc1) c' ->
    happens cd pc (ReportLatency tracker observed) None (put_inner pc1 c').

Inductive lifetime : PublicClient -> list (Conditions * operation) ->
    list (option (outcome Error (option Response))) -> PublicClient -> Prop :=
| lifetime_new pc : lifetime pc [] [] pc
| lifetime_next pc cd op r pc1 steps rs pc2 :
    happens cd pc op r pc1 -> lifetime pc1 steps rs pc2 -> lifetime pc ((cd, op) :: steps) (r :: rs) pc2.

Definition result_ok (r : option (outcome Error (option Response))) : Prop :=
  match r with Some r => safe_result r | None => True end.

End Lifetimes.

Section Lifetimes_spec.
Context `{PrimitivesLaws} `{IpTextLaws}.

Lemma put_inner_ready pc c : client_ready pc -> client_ok c -> client_ready (put_inner pc c).
Proof. intros (Hc & _ & Hrest) Hok. by split. Qed.

Lemma happens_ok cd op pc r pc' :
  conditions_ok cd -> operation_ok op -> client_ready pc -> happens cd pc op r pc' ->
  client_ready pc' /\ pc_config pc' = pc_config pc /\ result_ok r.
Proof.
  intros Hcd Hop Hpc Hh. pose proof Hcd as (Henv & Hdns & Ha & Hid & Hnow & Hnonce).
  pose proof (with_arrivals_ready _ pc Hpc Ha) as Hpc1. pose proof Hpc1 as (Hcfg & Hc1 & _).
  destruct Hh as [op r pc' E|ops b c' pc1 Hb Hs|tracker observed ms c' pc1 _ Hs].
  - pose proof (run_operation_spec cd op pc Hcd Hop Hpc) as Hr. cbv zeta in Hr. by rewrite E in Hr.
  - split; [|done]. apply put_inner_ready; [done|].
    pose proof (build_request_spec (pc_limits pc1) ops Hop) as Hspec. rewrite Hb in Hspec.
    destruct Hspec as [[Hr Hg _ _ (Hl & _)] _].
    refine (proj1 (stopped_request_ok _ Henv _ Hcfg _ Hdns _ _ _ _ Hid Hnow Hnonce _ _ _ _ _ Hc1 _ _ Hl Hs)).
    + eapply Forall_impl; [exact Hr | naive_solver].
    + eapply Forall_impl; [exact Hg | naive_solver].
  - split; [|done]. apply put_inner_ready; [done|]. by eapply stopped_report_ok.
Qed.

Lemma lifetime_ok pc steps rs pc' :
  lifetime pc steps rs pc' -> Forall (fun s => conditions_ok s.1 /\ operation_ok s.2) steps -> client_ready pc ->
  client_ready pc' /\ pc_config pc' = pc_config pc /\ length rs = length steps /\ Forall result_ok rs.
Proof.
  induction 1 as [pc|pc cd op r pc1 steps rs pc2 Hh _ IH]; intros Hsteps Hpc; [by split_and!|].
  inversion_clear Hsteps as [|? ? [Hcd Hop] Hrest]. destruct (happens_ok cd op pc r pc1 Hcd Hop Hpc Hh) as (Hpc1 & Hcfg & Hr).
  destruct (IH Hrest Hpc1) as (Hpc2 & Hcfg2 & Hlen & Hrs). split_and!; [done | congruence | cbn; congruence | by constructor].
Qed.

End Lifetimes_spec.

(** ** Theorems *)

(** C13. Dropping a request is safe.  Wherever its future is dropped - before or after the
    refresh, between any two steps of its delivery, or at any await of a rebind - the
    client satisfies its invariant, and what was sent is what the completed request
    would have sent, up to a point. *)
Theorem stopped_request_spec `{PrimitivesLaws} `{IpTextLaws} env cfg dns os_bind request_id now_millis nonce
    resources guards label c c'
    (Henv : env_ok env) (Hcfg : config_ok cfg) (Hdns : resolver_ok dns)
    (Hid : array_ok 16 request_id) (Hnow : in_u64 now_millis) (Hnonce : array_ok 12 nonce)
    (Hres : Forall resource_request_ok resources) (Hg : Forall guard_request_ok guards) (Hl : label_ok label)
    (Hc : client_ok c)
    (Hstop : stopped_request env cfg dns os_bind request_id now_millis nonce resources guards label c c') :
  client_ok c' /\ sends (cl_world c) `prefix_of` sends (cl_world c') /\
  sends (cl_world c') `prefix_of`
    sends (cl_world (check_rate_limit env cfg dns os_bind request_id now_millis nonce resources guards label c).2).
Proof. by apply stopped_request_ok. Qed.

(** C10. A client built from any API key, policy and domain that the library accepts
    survives any lifetime: operations under any resolver answers, network, schedule,
    incoming datagrams and socket failures, each completed or dropped wherever it
    awaits, leave it usable with its configuration unchanged; and no completed one
    panics or reports an authentication failure or an inconsistent configuration, and
    every response is a grant exactly when its parts say so. *)
Theorem lifetime_safe `{PrimitivesLaws} `{IpTextLaws} os b pc steps rs pc'
    (Hb : builder_ok b) (Hbuild : client_build os b = Ok pc)
    (Hsteps : Forall (fun s => conditions_ok s.1 /\ operation_ok s.2) steps)
    (Hlife : lifetime pc steps rs pc') :
  client_ready pc' /\ pc_config pc' = pc_config pc /\ length rs = length steps /\ Forall result_ok rs.
Proof.
  pose proof (client_build_result os b Hb) as Hr. rewrite Hbuild in Hr. destruct Hr as [Hpc _].
  by eapply lifetime_ok.
Qed.

(** ** The demo client *)

(** A request dropped after the first three steps of its delivery. *)
Lemma stopped_request_spec_witness :
  exists c',
    @stopped_request toy_primitives toy_ip_text demo_env demo_cookie_config demo_servers demo_os_bind demo_id 5
      demo_nonce [demo_resource] [demo_guard] None demo_client c' /\ @client_ok toy_ip_text c'.
Proof.
  set (c1 := (@maybe_refresh toy_ip_text demo_env demo_cookie_config demo_servers demo_client).2).
  assert (Hm : @maybe_refresh toy_ip_text demo_env demo_cookie_config demo_servers demo_client = (Ok tt, c1))
    by (vm_compute; reflexivity).
  destruct (@current_targets toy_ip_text demo_servers (cl_discovery c1)) as [resolved|e|] eqn:Ht;
    [|vm_compute in Ht; discriminate Ht..].
  destruct (@rate_request_packet toy_primitives demo_cookie_config demo_id 5 demo_nonce 60 [demo_resource] [demo_guard] None)
    as [packet|e|] eqn:Hp; [|vm_compute in Hp; discriminate Hp..].
  pose proof (proj1 (@stopped_early_ok toy_ip_text demo_env demo_cookie_config demo_servers demo_servers_ok
    demo_client c1 demo_client_ok (stop_refreshed _ _ _ _ c1 Hm))) as Hc1.
  destruct (flies_in_flight _ _ packet resolved _ _ (@flies_deliver toy_primitives toy_primitives_laws demo_env
    demo_cookie_config demo_cookie_ok packet resolved (request_policy demo_cookie_config) 60)
    (proj2 (proj2 Hc1))) as (h & _ & _ & Hstop).
  destruct (Hstop (take 3 h) (drop 3 h) (eq_sym (take_drop 3 h))) as ([w ctl] & Hf1 & Hf2 & _).
  assert (Hs : @stopped_request toy_primitives toy_ip_text demo_env demo_cookie_config demo_servers demo_os_bind demo_id 5
    demo_nonce [demo_resource] [demo_guard] None demo_client (put_world c1 w)).
  { apply (stop_delivering _ _ _ _ _ _ _ _ _ _ _ c1 60 packet resolved); [|by eapply stop_between].
    split; try exact Hm; try exact Ht; try exact Hp; try (vm_compute; reflexivity).
    intros E. vm_compute in Ht. injection Ht as <-. discriminate E. }
  exists (put_world c1 w). split; [exact Hs|].
  refine (proj1 (@stopped_request_spec toy_primitives toy_primitives_laws toy_ip_text toy_ip_laws demo_env
    demo_cookie_config demo_servers demo_os_bind demo_id 5 demo_nonce [demo_resource] [demo_guard] None demo_client _
    demo_env_ok demo_cookie_ok demo_servers_ok _ _ _ demo_resource_ok demo_guard_ok I demo_client_ok Hs)).
  - apply (replicate_array 16 3). unfold is_byte. lia.
  - unfold in_u64, u64_max. lia.
  - apply (replicate_array 12 9). unfold is_byte. lia.
Defined.

(** A request dropped while servers are discovered, and then one that is answered. *)
Lemma lifetime_safe_witness :
  exists pc pc', client_build demo_platform (client_builder demo_api_key) = Ok pc /\
    @lifetime toy_primitives toy_ip_text pc
      [(demo_conditions, SendRequest demo_ops); (demo_conditions, SendRequest demo_ops)]
      [None; Some (Ok (Some (response_of demo_result)))] pc' /\ @client_ready toy_ip_text pc'.
Proof.
  eexists _, _. split; [reflexivity|].
  match goal with |- @lifetime _ _ ?pc ?steps ?rs ?pc' /\ _ => assert (Hl : @lifetime toy_primitives toy_ip_text pc steps rs pc') end.
  { eapply lifetime_next; [|eapply lifetime_next; [|apply lifetime_new]].
    - eapply request_dropped; [reflexivity|]. apply stop_early; [reflexivity|]. apply (stop_refreshing _ _ _ _ 1).
    - apply completes. vm_compute. reflexivity. }
  split; [exact Hl|].
  refine (proj1 (@lifetime_safe toy_primitives toy_primitives_laws toy_ip_text toy_ip_laws
    demo_platform (client_builder demo_api_key) _ _ _ _ (client_builder_ok demo_api_key demo_api_key_ok) eq_refl _ Hl)).
  constructor; [split; [exact demo_conditions_ok | exact demo_ops_ok]|].
  constructor; [split; [exact demo_conditions_ok | exact demo_ops_ok]|constructor].
Defined.
